(** * PPPoE link layer of mpd-ng ([src/pppoe.c]): a shallow embedding

    The development follows the layout of [pppoe.c]:

    - [Libc]      the C library routines the file relies on (string
                  comparison, [strtol], [atoi], [snprintf] of integers);
    - [TagCodec]  [get_tag], [get_vs_tag], [print_tags] and the BBF
                  sub-TLV scan of [PppoeListenEvent], over a byte memory
                  whose loads are recorded;
    - [Pppoe]     the per-link state, the parent-interface table
                  [PppoeIfs] and the functions of the physical type
                  ([PppoeOpen], [PppoeClose], [PppoeCtrlReadEvent], ...),
                  as state-passing functions over a [World].

    Integers of the C program are [Z]; where the program relies on a
    fixed width (size_t arithmetic, the cast of a long to an int, the
    16-bit max-payload field) the wrap-around is written out. *)

From Stdlib Require Import ZArith List Lia Bool String Ascii.
From Equations Require Import Equations.
From stdpp Require Import base list.
Import ListNotations.
Open Scope string_scope.
Open Scope list_scope.
Open Scope Z_scope.

(* ===================================================================== *)
(** * C library                                                           *)
(* ===================================================================== *)

Module Libc.

Definition char_code (c : ascii) : Z := Z.of_N (N_of_ascii c).

Definition isdigit (c : ascii) : bool :=
  (48 <=? char_code c) && (char_code c <=? 57).

(** [isspace] in the C locale: space and the controls 9..13. *)
Definition isspace (c : ascii) : bool :=
  (char_code c =? 32) || ((9 <=? char_code c) && (char_code c <=? 13)).

Definition strlen (s : string) : nat := String.length s.

(** [strcmp(a, b) == 0]. *)
Definition streq (a b : string) : bool := String.eqb a b.

(** [strncmp(a, b, n) == 0]: the first [n] characters agree, the
    comparison ending early at a common terminator. *)
Fixpoint strncmp_eq (a b : string) (n : nat) {struct n} : bool :=
  match n with
  | O => true
  | S n' =>
      match a, b with
      | EmptyString, EmptyString => true
      | String x a', String y b' =>
          if Ascii.eqb x y then strncmp_eq a' b' n' else false
      | _, _ => false
      end
  end.

(** [s + n] for a pointer into a string of at least [n] characters. *)
Fixpoint advance (n : nat) (s : string) : string :=
  match n, s with
  | O, _ => s
  | S n', String _ s' => advance n' s'
  | S _, EmptyString => EmptyString
  end.

(** What a destination buffer of [size] bytes holds after [strlcpy] or
    [snprintf] of [s]: at most [size - 1] characters. *)
Fixpoint truncate (n : nat) (s : string) : string :=
  match n, s with
  | S n', String c s' => String c (truncate n' s')
  | _, _ => EmptyString
  end.

Definition strlcpy (src : string) (size : nat) : string :=
  truncate (size - 1) src.

(** ** Integer widths *)

Definition INT_MIN : Z := - 2 ^ 31.
Definition INT_MAX : Z := 2 ^ 31 - 1.
Definition LONG_MIN : Z := - 2 ^ 63.
Definition LONG_MAX : Z := 2 ^ 63 - 1.
Definition SIZE_MOD : Z := 2 ^ 64.

(** Conversion of a long to an int (two's complement wrap). *)
Definition int_of_long (z : Z) : Z := (z + 2 ^ 31) mod 2 ^ 32 - 2 ^ 31.

Definition uint16_of_int (z : Z) : Z := z mod 2 ^ 16.

Definition size_t_of (z : Z) : Z := z mod SIZE_MOD.

(** ** [strtol(s, &rest, 10)] *)

Fixpoint skip_space (s : string) : string :=
  match s with
  | String c s' => if isspace c then skip_space s' else s
  | EmptyString => s
  end.

Fixpoint strtol_digits (acc : Z) (s : string) : Z * string :=
  match s with
  | String c s' =>
      if isdigit c then strtol_digits (acc * 10 + (char_code c - 48)) s'
      else (acc, s)
  | EmptyString => (acc, s)
  end.

Definition starts_with_digit (s : string) : bool :=
  match s with
  | String c _ => isdigit c
  | EmptyString => false
  end.

Definition clamp_long (z : Z) : Z :=
  if z <? LONG_MIN then LONG_MIN
  else if LONG_MAX <? z then LONG_MAX else z.

(** The value and the unparsed rest; with no digit at all the value is 0
    and the rest is the whole input. *)
Definition strtol (s : string) : Z * string :=
  let s1 := skip_space s in
  let '(neg, s2) :=
    match s1 with
    | String "-" t => (true, t)
    | String "+" t => (false, t)
    | _ => (false, s1)
    end in
  if starts_with_digit s2 then
    let '(v, rest) := strtol_digits 0 s2 in
    (clamp_long (if neg then - v else v), rest)
  else (0, s).

Definition atoi (s : string) : Z := int_of_long (fst (strtol s)).

(** ** [%d] of [snprintf] *)

Definition digit_char (d : Z) : ascii := ascii_of_N (Z.to_N (48 + d)).

(** Ten digits are enough for any int. *)
Fixpoint utoa_fuel (fuel : nat) (n : Z) (acc : string) : string :=
  match fuel with
  | O => acc
  | S f =>
      if n <? 10 then String (digit_char n) acc
      else utoa_fuel f (n / 10) (String (digit_char (n mod 10)) acc)
  end.

Definition utoa (n : Z) (acc : string) : string := utoa_fuel 10 n acc.

Definition itoa (z : Z) (acc : string) : string :=
  if z <? 0 then String "-" (utoa (- z) acc) else utoa z acc.

End Libc.

(* ===================================================================== *)
(** * Discovery tags                                                      *)
(* ===================================================================== *)

Module TagCodec.
Import Libc.

(** Memory as the parser sees it: a byte at every address.  The frame
    received into [response] occupies the first [sz] bytes; whatever
    lies behind is still memory, and a load from there is a load. *)
Definition mem := Z -> Z.

Definition mem_of_bytes (l : list Z) : mem :=
  fun a => if a <? 0 then 0 else nth (Z.to_nat a) l 0.

(** A load returns the value and the addresses it touched. *)
Definition load8 (m : mem) (a : Z) : Z * list Z := (m a mod 256, [a]).

(** A 16-bit field read through [ntohs]. *)
Definition load16 (m : mem) (a : Z) : Z * list Z :=
  (fst (load8 m a) * 256 + fst (load8 m (a + 1)),
   snd (load8 m a) ++ snd (load8 m (a + 1))).

(** A 32-bit field in network byte order. *)
Definition load32 (m : mem) (a : Z) : Z * list Z :=
  (fst (load16 m a) * 65536 + fst (load16 m (a + 2)),
   snd (load16 m a) ++ snd (load16 m (a + 2))).

#[global] Arguments load8 : simpl never.
#[global] Arguments load16 : simpl never.
#[global] Arguments load32 : simpl never.

(** [struct pppoe_hdr]: ver/type, code, sid, length. *)
Definition sizeof_pppoe_hdr : Z := 6.
(** [struct pppoe_tag]: tag_type, tag_len, then the value. *)
Definition sizeof_pppoe_tag : Z := 4.
Definition sizeof_ether_header : Z := 14.
Definition sizeof_pppoe_full_hdr : Z := sizeof_ether_header + sizeof_pppoe_hdr.

Definition hdr_length (m : mem) (ph : Z) : Z * list Z := load16 m (ph + 4).
Definition tag_type (m : mem) (pt : Z) : Z * list Z := load16 m pt.
Definition tag_len (m : mem) (pt : Z) : Z * list Z := load16 m (pt + 2).

(** Tag types, by their value on the wire.  The program compares the raw
    16-bit field to a constant written in host byte order, which is the
    comparison of the two wire values. *)
Definition PTT_EOL : Z := 0x0000.
Definition PTT_SRV_NAME : Z := 0x0101.
Definition PTT_AC_NAME : Z := 0x0102.
Definition PTT_HOST_UNIQ : Z := 0x0103.
Definition PTT_AC_COOKIE : Z := 0x0104.
Definition PTT_VENDOR : Z := 0x0105.
Definition PTT_RELAY_SID : Z := 0x0110.
Definition PTT_MAX_PAYL : Z := 0x0120.

(** The BBF (TR-101) vendor id. *)
Definition BBF_VENDOR : Z := 0x00000DE9.

Lemma load16_nonneg (m : mem) (a : Z) : 0 <= fst (load16 m a).
Proof.
  unfold load16, load8; simpl.
  pose proof (Z.mod_pos_bound (m a) 256).
  pose proof (Z.mod_pos_bound (m (a + 1)) 256). lia.
Qed.

(** ** [get_tag] *)

(** The loop of [get_tag], [pt] running from the first tag to [endp].
    The result is the tag found (its address) or NULL, with the loads
    made on the way. *)
Equations? get_tag_loop (m : mem) (endp idx pt : Z) : option Z * list Z
  by wf (Z.to_nat (endp - pt)) lt :=
  get_tag_loop m endp idx pt with Z_le_dec (pt + sizeof_pppoe_tag) endp => {
    | right _ := (None, []);
    | left _ with Z_gt_dec (pt + sizeof_pppoe_tag + fst (tag_len m pt)) endp => {
        | left _ := (None, snd (tag_len m pt));
        | right _ with Z.eq_dec (fst (tag_type m pt)) idx => {
            | left _ := (Some pt, snd (tag_len m pt) ++ snd (tag_type m pt));
            | right _ :=
                let r := get_tag_loop m endp idx
                           (pt + sizeof_pppoe_tag + fst (tag_len m pt)) in
                (fst r, snd (tag_len m pt) ++ snd (tag_type m pt) ++ snd r) } } }.
Proof.
  pose proof (load16_nonneg m (pt + 2)).
  unfold tag_len, sizeof_pppoe_tag in *. lia.
Qed.

Definition get_tag (m : mem) (ph : Z) (idx : Z) : option Z * list Z :=
  let len := hdr_length m ph in
  let endp := ph + sizeof_pppoe_hdr + fst len in
  let r := get_tag_loop m endp idx (ph + sizeof_pppoe_hdr) in
  (fst r, snd len ++ snd r).

(** ** [get_vs_tag] *)

(** The test of [get_vs_tag] on one tag, evaluated left to right. *)
Definition vs_match (m : mem) (idx pt : Z) : bool * list Z :=
  if fst (tag_type m pt) =? PTT_VENDOR then
    if 4 <=? fst (tag_len m pt) then
      (fst (load32 m (pt + sizeof_pppoe_tag)) =? idx,
       snd (tag_type m pt) ++ snd (tag_len m pt)
         ++ snd (load32 m (pt + sizeof_pppoe_tag)))
    else (false, snd (tag_type m pt) ++ snd (tag_len m pt))
  else (false, snd (tag_type m pt)).

Equations? get_vs_tag_loop (m : mem) (endp idx pt : Z) : option Z * list Z
  by wf (Z.to_nat (endp - pt)) lt :=
  get_vs_tag_loop m endp idx pt with Z_le_dec (pt + sizeof_pppoe_tag) endp => {
    | right _ := (None, []);
    | left _ with Z_gt_dec (pt + sizeof_pppoe_tag + fst (tag_len m pt)) endp => {
        | left _ := (None, snd (tag_len m pt));
        | right _ with fst (vs_match m idx pt) => {
            | true := (Some pt, snd (tag_len m pt) ++ snd (vs_match m idx pt));
            | false :=
                let r := get_vs_tag_loop m endp idx
                           (pt + sizeof_pppoe_tag + fst (tag_len m pt)) in
                (fst r, snd (tag_len m pt) ++ snd (vs_match m idx pt) ++ snd r) } } }.
Proof.
  pose proof (load16_nonneg m (pt + 2)).
  unfold tag_len, sizeof_pppoe_tag in *. lia.
Qed.

Definition get_vs_tag (m : mem) (ph : Z) (idx : Z) : option Z * list Z :=
  let len := hdr_length m ph in
  let endp := ph + sizeof_pppoe_hdr + fst len in
  let r := get_vs_tag_loop m endp idx (ph + sizeof_pppoe_hdr) in
  (fst r, snd len ++ snd r).

(** ** [print_tags] *)

(** One logged tag: its type, the address of its value and the length
    of the value.  The rendering of the value as text is left out. *)
Record tag_view := { tv_type : Z; tv_value : Z; tv_len : Z }.

Equations? print_tags_loop (m : mem) (endp pt : Z) : list tag_view
  by wf (Z.to_nat (endp - pt)) lt :=
  print_tags_loop m endp pt with Z_le_dec (pt + sizeof_pppoe_tag) endp => {
    | right _ := [];
    | left _ with Z_gt_dec (pt + sizeof_pppoe_tag + fst (tag_len m pt)) endp => {
        | left _ := [];
        | right _ :=
            {| tv_type := fst (tag_type m pt);
               tv_value := pt + sizeof_pppoe_tag;
               tv_len := fst (tag_len m pt) |}
            :: print_tags_loop m endp
                 (pt + sizeof_pppoe_tag + fst (tag_len m pt)) } }.
Proof.
  pose proof (load16_nonneg m (pt + 2)).
  unfold tag_len, sizeof_pppoe_tag in *. lia.
Qed.

Definition print_tags (m : mem) (ph : Z) : list tag_view :=
  print_tags_loop m (ph + sizeof_pppoe_hdr + fst (hdr_length m ph))
    (ph + sizeof_pppoe_hdr).

(** ** Tag extraction in [PppoeListenEvent] *)

(** A [char] read as an integer; whether plain [char] is signed depends
    on the platform and is a parameter. *)
Definition load_char (char_signed : bool) (m : mem) (a : Z) : Z * list Z :=
  let b := fst (load8 m a) in
  (if char_signed && (128 <=? b) then b - 256 else b, [a]).

(** [memcpy] out of the packet: [n] bytes from [a]. *)
Definition load_bytes (m : mem) (a : Z) (n : nat) : list Z * list Z :=
  (map (fun i => m (a + Z.of_nat i) mod 256) (seq 0 n),
   map (fun i => a + Z.of_nat i) (seq 0 n)).

(** The C string held by a byte buffer. *)
Fixpoint cstring (bs : list Z) : string :=
  match bs with
  | [] => EmptyString
  | b :: r =>
      if b =? 0 then EmptyString
      else String (ascii_of_N (Z.to_N b)) (cstring r)
  end.

(** [strncpy(dst, src, n)] with [src] in the packet: the [n] bytes
    stored (the source up to its terminator, then zeros) and the loads. *)
Fixpoint strncpy_bytes (m : mem) (src : Z) (n : nat) : list Z * list Z :=
  match n with
  | O => ([], [])
  | S n' =>
      let c := fst (load8 m src) in
      if c =? 0 then (repeat 0 (S n'), [src])
      else
        let r := strncpy_bytes m (src + 1) n' in
        (c :: fst r, src :: snd r)
  end.

Definition strncpy (dst : list Z) (m : mem) (src : Z) (n : nat)
  : list Z * list Z :=
  let r := strncpy_bytes m src n in
  (fst r ++ skipn n dst, snd r).

(** The locals [agent_cid] and [agent_rid] (64 bytes each) and the loads
    made so far. *)
Record agent_ids := {
  agent_cid_buf : list Z;
  agent_rid_buf : list Z;
  bbf_loads : list Z
}.

Definition sizeof_agent_id : Z := 64.

(** The [while (pos + 1 <= len)] loop over the BBF sub-TLVs; [b] is the
    address behind the vendor id, [len] and [pos] are size_t. *)
Fixpoint bbf_loop (fuel : nat) (char_signed : bool) (m : mem)
    (b len pos : Z) (st : agent_ids) : option agent_ids :=
  match fuel with
  | O => None
  | S fuel' =>
      if size_t_of (pos + 1) <=? len then
        let c1 := load_char char_signed m (b + pos + 1) in
        let len1 := size_t_of (fst c1) in
        if len1 >? size_t_of (len - pos - 2) then
          Some {| agent_cid_buf := agent_cid_buf st;
                  agent_rid_buf := agent_rid_buf st;
                  bbf_loads := bbf_loads st ++ snd c1 |}
        else
          let len1 := if len1 >=? sizeof_agent_id
                      then sizeof_agent_id - 1 else len1 in
          let c0 := load_char char_signed m (b + pos) in
          let st' :=
            if fst c0 =? 1 then
              let r := strncpy (agent_cid_buf st) m (b + pos + 2)
                         (Z.to_nat len1) in
              {| agent_cid_buf := fst r;
                 agent_rid_buf := agent_rid_buf st;
                 bbf_loads := bbf_loads st ++ snd c1 ++ snd c0 ++ snd r |}
            else if fst c0 =? 2 then
              let r := strncpy (agent_rid_buf st) m (b + pos + 2)
                         (Z.to_nat len1) in
              {| agent_cid_buf := agent_cid_buf st;
                 agent_rid_buf := fst r;
                 bbf_loads := bbf_loads st ++ snd c1 ++ snd c0 ++ snd r |}
            else
              {| agent_cid_buf := agent_cid_buf st;
                 agent_rid_buf := agent_rid_buf st;
                 bbf_loads := bbf_loads st ++ snd c1 ++ snd c0 |} in
          bbf_loop fuel' char_signed m b len (size_t_of (pos + 2 + len1)) st'
      else Some st
  end.

(** [bzero] of both buffers, then the scan of the BBF vendor tag when
    [get_vs_tag] finds one.  The loop advances by at least two bytes a
    round, so [len + 1] rounds are enough. *)
Definition bbf_scan (char_signed : bool) (m : mem) (ph : Z)
  : option agent_ids :=
  let zero := repeat 0 (Z.to_nat sizeof_agent_id) in
  let vs := get_vs_tag m ph BBF_VENDOR in
  match fst vs with
  | Some tag =>
      let tl := tag_len m tag in
      let len := size_t_of (fst tl - 4) in
      bbf_loop (S (Z.to_nat len)) char_signed m
        (tag + sizeof_pppoe_tag + 4) len 0
        {| agent_cid_buf := zero; agent_rid_buf := zero;
           bbf_loads := snd vs ++ snd tl |}
  | None =>
      Some {| agent_cid_buf := zero; agent_rid_buf := zero;
              bbf_loads := snd vs |}
  end.

Definition MAX_SESSION : Z := 64.

(** The local [real_session]: the Service-Name value cut to 63 bytes,
    or the name of the listening hook. *)
Definition real_session_of (m : mem) (ph : Z) (session : string)
  : string * list Z :=
  let t := get_tag m ph PTT_SRV_NAME in
  match fst t with
  | Some tag =>
      let tl := tag_len m tag in
      let len := if fst tl >=? MAX_SESSION then MAX_SESSION - 1 else fst tl in
      let v := load_bytes m (tag + sizeof_pppoe_tag) (Z.to_nat len) in
      (cstring (fst v), snd t ++ snd tl ++ snd v)
  | None => (strlcpy session (Z.to_nat MAX_SESSION), snd t)
  end.

End TagCodec.

(* ===================================================================== *)
(** * The PPPoE physical layer                                            *)
(* ===================================================================== *)

Module Pppoe.
Import Libc TagCodec.

(** ** Constants *)

Definition PPPOE_MTU : Z := 1492.
Definition PPPOE_MRU : Z := 1492.
Definition PPPOE_CONNECT_TIMEOUT : Z := 9.
Definition PPPOE_MAXPARENTIFS : nat := 4096.
Definition MAX_PATH : nat := 64.

(** From the system headers ([net/if.h], [net/ethernet.h],
    [netgraph/ng_message.h], [netgraph/ng_pppoe.h], ...). *)
Definition IFNAMSIZ : nat := 16.
Definition NG_HOOKSIZ : nat := 32.
Definition NG_PATHSIZ : nat := 512.
Definition PPPOE_SERVICE_NAME_SIZE : nat := 64.
Definition ETHER_ADDR_LEN : nat := 6.
Definition ETHER_MAX_LEN : Z := 1518.
Definition NG_ETHER_HOOK_ORPHAN : string := "orphans".
Definition NG_ETHER_HOOK_DIVERT : string := "divert".
Definition NG_ETHER_NODE_TYPE : string := "ether".
Definition NG_PPPOE_NODE_TYPE : string := "pppoe".
Definition NG_PPPOE_HOOK_ETHERNET : string := "ethernet".
Definition NG_TEE_NODE_TYPE : string := "tee".
Definition ETHER_DEFAULT_HOOK : string := NG_ETHER_HOOK_ORPHAN.

Inductive cookie := NGM_GENERIC_COOKIE | NGM_PPPOE_COOKIE | other_cookie (c : Z).

(** Commands of the messages that are sent or received. *)
Inductive ng_cmd :=
| NGM_CONNECT | NGM_MKPEER | NGM_LISTTYPES | NGM_LISTHOOKS
| NGM_PPPOE_CONNECT | NGM_PPPOE_LISTEN | NGM_PPPOE_OFFER
| NGM_PPPOE_SERVICE | NGM_PPPOE_SUCCESS | NGM_PPPOE_FAIL
| NGM_PPPOE_CLOSE | NGM_PPPOE_ACNAME | NGM_PPPOE_SESSIONID
| NGM_PPPOE_SETMAXP | NGM_PPPOE_HURL | NGM_PPPOE_MOTM
| NGM_other (c : Z).

(** Set menu options. *)
Inductive set_option :=
| SET_IFACE | SET_SESSION | SET_ACNAME | SET_MAX_PAYLOAD | SET_MAC_FORMAT.

(** MAC format options. *)
Definition MAC_UNFORMATTED : Z := 0.
Definition MAC_UNIX_LIKE : Z := 1.
Definition MAC_CISCO_LIKE : Z := 2.
Definition MAC_IETF : Z := 3.

Definition CMD_ERR_USAGE : Z := -1.

(** ** Data *)

Inductive phys_state :=
| PHYS_STATE_DOWN | PHYS_STATE_CONNECTING | PHYS_STATE_READY | PHYS_STATE_UP.

Definition phys_state_eqb (a b : phys_state) : bool :=
  match a, b with
  | PHYS_STATE_DOWN, PHYS_STATE_DOWN
  | PHYS_STATE_CONNECTING, PHYS_STATE_CONNECTING
  | PHYS_STATE_READY, PHYS_STATE_READY
  | PHYS_STATE_UP, PHYS_STATE_UP => true
  | _, _ => false
  end.

Inductive phystype := gPppoePhysType | other_phystype.

(** Per link private info, [struct pppoeinfo].  [PIf] points into the
    table [PppoeIfs] and is an index of it; [plist] (the field [list]) points to a listener
    record on the heap; the timer is reduced to whether it runs. *)
Record pppoeinfo := {
  iface : string;
  path : string;
  hook : string;
  session : string;
  acname : string;
  max_payload : Z;
  mac_format : Z;
  peeraddr : list Z;
  real_session : string;
  agent_cid : string;
  agent_rid : string;
  incoming : bool;
  opened : bool;
  mp_reply : bool;
  PIf : option nat;
  plist : option nat;
  connectTimer : bool
}.

Definition set_iface v (pe : pppoeinfo) :=
  {| iface := v; path := path pe; hook := hook pe; session := session pe;
     acname := acname pe; max_payload := max_payload pe;
     mac_format := mac_format pe; peeraddr := peeraddr pe;
     real_session := real_session pe; agent_cid := agent_cid pe;
     agent_rid := agent_rid pe; incoming := incoming pe;
     opened := opened pe; mp_reply := mp_reply pe; PIf := PIf pe;
     plist := plist pe; connectTimer := connectTimer pe |}.
Definition set_path v (pe : pppoeinfo) :=
  {| iface := iface pe; path := v; hook := hook pe; session := session pe;
     acname := acname pe; max_payload := max_payload pe;
     mac_format := mac_format pe; peeraddr := peeraddr pe;
     real_session := real_session pe; agent_cid := agent_cid pe;
     agent_rid := agent_rid pe; incoming := incoming pe;
     opened := opened pe; mp_reply := mp_reply pe; PIf := PIf pe;
     plist := plist pe; connectTimer := connectTimer pe |}.
Definition set_hook v (pe : pppoeinfo) :=
  {| iface := iface pe; path := path pe; hook := v; session := session pe;
     acname := acname pe; max_payload := max_payload pe;
     mac_format := mac_format pe; peeraddr := peeraddr pe;
     real_session := real_session pe; agent_cid := agent_cid pe;
     agent_rid := agent_rid pe; incoming := incoming pe;
     opened := opened pe; mp_reply := mp_reply pe; PIf := PIf pe;
     plist := plist pe; connectTimer := connectTimer pe |}.
Definition set_session v (pe : pppoeinfo) :=
  {| iface := iface pe; path := path pe; hook := hook pe; session := v;
     acname := acname pe; max_payload := max_payload pe;
     mac_format := mac_format pe; peeraddr := peeraddr pe;
     real_session := real_session pe; agent_cid := agent_cid pe;
     agent_rid := agent_rid pe; incoming := incoming pe;
     opened := opened pe; mp_reply := mp_reply pe; PIf := PIf pe;
     plist := plist pe; connectTimer := connectTimer pe |}.
Definition set_acname v (pe : pppoeinfo) :=
  {| iface := iface pe; path := path pe; hook := hook pe;
     session := session pe; acname := v; max_payload := max_payload pe;
     mac_format := mac_format pe; peeraddr := peeraddr pe;
     real_session := real_session pe; agent_cid := agent_cid pe;
     agent_rid := agent_rid pe; incoming := incoming pe;
     opened := opened pe; mp_reply := mp_reply pe; PIf := PIf pe;
     plist := plist pe; connectTimer := connectTimer pe |}.
Definition set_max_payload v (pe : pppoeinfo) :=
  {| iface := iface pe; path := path pe; hook := hook pe;
     session := session pe; acname := acname pe; max_payload := v;
     mac_format := mac_format pe; peeraddr := peeraddr pe;
     real_session := real_session pe; agent_cid := agent_cid pe;
     agent_rid := agent_rid pe; incoming := incoming pe;
     opened := opened pe; mp_reply := mp_reply pe; PIf := PIf pe;
     plist := plist pe; connectTimer := connectTimer pe |}.
Definition set_mac_format v (pe : pppoeinfo) :=
  {| iface := iface pe; path := path pe; hook := hook pe;
     session := session pe; acname := acname pe;
     max_payload := max_payload pe; mac_format := v;
     peeraddr := peeraddr pe; real_session := real_session pe;
     agent_cid := agent_cid pe; agent_rid := agent_rid pe;
     incoming := incoming pe; opened := opened pe;
     mp_reply := mp_reply pe; PIf := PIf pe; plist := plist pe;
     connectTimer := connectTimer pe |}.
Definition set_peeraddr v (pe : pppoeinfo) :=
  {| iface := iface pe; path := path pe; hook := hook pe;
     session := session pe; acname := acname pe;
     max_payload := max_payload pe; mac_format := mac_format pe;
     peeraddr := v; real_session := real_session pe;
     agent_cid := agent_cid pe; agent_rid := agent_rid pe;
     incoming := incoming pe; opened := opened pe;
     mp_reply := mp_reply pe; PIf := PIf pe; plist := plist pe;
     connectTimer := connectTimer pe |}.
Definition set_real_session v (pe : pppoeinfo) :=
  {| iface := iface pe; path := path pe; hook := hook pe;
     session := session pe; acname := acname pe;
     max_payload := max_payload pe; mac_format := mac_format pe;
     peeraddr := peeraddr pe; real_session := v;
     agent_cid := agent_cid pe; agent_rid := agent_rid pe;
     incoming := incoming pe; opened := opened pe;
     mp_reply := mp_reply pe; PIf := PIf pe; plist := plist pe;
     connectTimer := connectTimer pe |}.
Definition set_agent_cid v (pe : pppoeinfo) :=
  {| iface := iface pe; path := path pe; hook := hook pe;
     session := session pe; acname := acname pe;
     max_payload := max_payload pe; mac_format := mac_format pe;
     peeraddr := peeraddr pe; real_session := real_session pe;
     agent_cid := v; agent_rid := agent_rid pe;
     incoming := incoming pe; opened := opened pe;
     mp_reply := mp_reply pe; PIf := PIf pe; plist := plist pe;
     connectTimer := connectTimer pe |}.
Definition set_agent_rid v (pe : pppoeinfo) :=
  {| iface := iface pe; path := path pe; hook := hook pe;
     session := session pe; acname := acname pe;
     max_payload := max_payload pe; mac_format := mac_format pe;
     peeraddr := peeraddr pe; real_session := real_session pe;
     agent_cid := agent_cid pe; agent_rid := v;
     incoming := incoming pe; opened := opened pe;
     mp_reply := mp_reply pe; PIf := PIf pe; plist := plist pe;
     connectTimer := connectTimer pe |}.
Definition set_incoming v (pe : pppoeinfo) :=
  {| iface := iface pe; path := path pe; hook := hook pe;
     session := session pe; acname := acname pe;
     max_payload := max_payload pe; mac_format := mac_format pe;
     peeraddr := peeraddr pe; real_session := real_session pe;
     agent_cid := agent_cid pe; agent_rid := agent_rid pe;
     incoming := v; opened := opened pe;
     mp_reply := mp_reply pe; PIf := PIf pe; plist := plist pe;
     connectTimer := connectTimer pe |}.
Definition set_opened v (pe : pppoeinfo) :=
  {| iface := iface pe; path := path pe; hook := hook pe;
     session := session pe; acname := acname pe;
     max_payload := max_payload pe; mac_format := mac_format pe;
     peeraddr := peeraddr pe; real_session := real_session pe;
     agent_cid := agent_cid pe; agent_rid := agent_rid pe;
     incoming := incoming pe; opened := v;
     mp_reply := mp_reply pe; PIf := PIf pe; plist := plist pe;
     connectTimer := connectTimer pe |}.
Definition set_mp_reply v (pe : pppoeinfo) :=
  {| iface := iface pe; path := path pe; hook := hook pe;
     session := session pe; acname := acname pe;
     max_payload := max_payload pe; mac_format := mac_format pe;
     peeraddr := peeraddr pe; real_session := real_session pe;
     agent_cid := agent_cid pe; agent_rid := agent_rid pe;
     incoming := incoming pe; opened := opened pe;
     mp_reply := v; PIf := PIf pe; plist := plist pe;
     connectTimer := connectTimer pe |}.
Definition set_PIf v (pe : pppoeinfo) :=
  {| iface := iface pe; path := path pe; hook := hook pe;
     session := session pe; acname := acname pe;
     max_payload := max_payload pe; mac_format := mac_format pe;
     peeraddr := peeraddr pe; real_session := real_session pe;
     agent_cid := agent_cid pe; agent_rid := agent_rid pe;
     incoming := incoming pe; opened := opened pe;
     mp_reply := mp_reply pe; PIf := v; plist := plist pe;
     connectTimer := connectTimer pe |}.
Definition set_plist v (pe : pppoeinfo) :=
  {| iface := iface pe; path := path pe; hook := hook pe;
     session := session pe; acname := acname pe;
     max_payload := max_payload pe; mac_format := mac_format pe;
     peeraddr := peeraddr pe; real_session := real_session pe;
     agent_cid := agent_cid pe; agent_rid := agent_rid pe;
     incoming := incoming pe; opened := opened pe;
     mp_reply := mp_reply pe; PIf := PIf pe; plist := v;
     connectTimer := connectTimer pe |}.
Definition set_connectTimer v (pe : pppoeinfo) :=
  {| iface := iface pe; path := path pe; hook := hook pe;
     session := session pe; acname := acname pe;
     max_payload := max_payload pe; mac_format := mac_format pe;
     peeraddr := peeraddr pe; real_session := real_session pe;
     agent_cid := agent_cid pe; agent_rid := agent_rid pe;
     incoming := incoming pe; opened := opened pe;
     mp_reply := mp_reply pe; PIf := PIf pe; plist := plist pe;
     connectTimer := v |}.

(** The part of the host's [struct linkst] that this file touches:
    identity, state, physical type, the ACFCOMP and INCOMING options of
    [conf.options], and the private info. *)
Record Link := {
  lnk_id : Z;
  lnk_name : string;
  lnk_tmpl : bool;
  lnk_stay : bool;
  lnk_state : phys_state;
  lnk_type : phystype;
  acfcomp_enable : bool;
  acfcomp_accept : bool;
  incoming_enable : bool;
  lnk_info : pppoeinfo
}.

Definition set_state v (l : Link) :=
  {| lnk_id := lnk_id l; lnk_name := lnk_name l; lnk_tmpl := lnk_tmpl l; lnk_stay := lnk_stay l;
     lnk_state := v; lnk_type := lnk_type l; acfcomp_enable := acfcomp_enable l;
     acfcomp_accept := acfcomp_accept l;
     incoming_enable := incoming_enable l; lnk_info := lnk_info l |}.
Definition set_info v (l : Link) :=
  {| lnk_id := lnk_id l; lnk_name := lnk_name l; lnk_tmpl := lnk_tmpl l; lnk_stay := lnk_stay l;
     lnk_state := lnk_state l; lnk_type := lnk_type l; acfcomp_enable := acfcomp_enable l;
     acfcomp_accept := acfcomp_accept l;
     incoming_enable := incoming_enable l; lnk_info := v |}.
Definition set_acfcomp (en ac : bool) (l : Link) :=
  {| lnk_id := lnk_id l; lnk_name := lnk_name l; lnk_tmpl := lnk_tmpl l; lnk_stay := lnk_stay l;
     lnk_state := lnk_state l; lnk_type := lnk_type l; acfcomp_enable := en;
     acfcomp_accept := ac;
     incoming_enable := incoming_enable l; lnk_info := lnk_info l |}.
Definition set_incoming_enable (v : bool) (l : Link) :=
  {| lnk_id := lnk_id l; lnk_name := lnk_name l; lnk_tmpl := lnk_tmpl l; lnk_stay := lnk_stay l;
     lnk_state := lnk_state l; lnk_type := lnk_type l; acfcomp_enable := acfcomp_enable l;
     acfcomp_accept := acfcomp_accept l;
     incoming_enable := v; lnk_info := lnk_info l |}.

(** [struct PppoeList]. *)
Record PppoeList := { pl_session : string; pl_refs : Z }.

(** [struct PppoeIf]; the two event references are reduced to whether
    they are registered, the SLIST to the list of its records. *)
Record PppoeIf := {
  ifnodepath : string;
  node_id : Z;
  refs : Z;
  csock : Z;
  dsock : Z;
  ctrlEvent : bool;
  dataEvent : bool;
  listeners : list nat
}.

(** A static array starts out as zeros. *)
Definition PppoeIf_zero : PppoeIf :=
  {| ifnodepath := EmptyString; node_id := 0; refs := 0; csock := 0;
     dsock := 0; ctrlEvent := false; dataEvent := false; listeners := [] |}.

(** ** What the program does to the outside *)

(** A node address as the program prints it: ["[%x]:"], ["[%x]:%s"],
    [".:"], a textual path such as the parent's, or a path followed by a
    hook. *)
Inductive ng_addr :=
| addr_node (node : Z)
| addr_node_hook (node : Z) (hook : string)
| addr_self
| addr_path (p : string)
| addr_path_hook (p : string) (hook : string)
| addr_none.

Inductive msg_arg :=
| arg_none
| arg_connect (peer : ng_addr) (ourhook peerhook : string)
| arg_mkpeer (ty ourhook peerhook : string)
| arg_init_data (hook data : string)
| arg_maxp (v : Z).

Inductive log_level := LG_ERR | LG_PHYS | LG_PHYS2 | LG_PHYS3.

Inductive down_reason :=
| STR_ERROR | STR_CON_FAILED0 | STR_MANUALLY | STR_DROPPED.

(** Calls that leave this file, in the order they are made.  Links are
    named by their slot in [gLinks]. *)
Inductive event :=
| EvLog (lvl : log_level) (text : string)
| EvPerror (text : string)
| EvError (text : string)
| EvTimerInit (l : nat)
| EvTimerStart (l : nat)
| EvTimerStop (l : nat)
| EvPhysUp (l : nat)
| EvPhysDown (l : nat) (reason : down_reason)
| EvPhysIncoming (l : nat)
| EvPhysGetUpperHook (l : nat)
| EvNgSendMsg (cs : Z) (to : ng_addr) (ck : cookie) (cmd : ng_cmd)
    (arg : msg_arg)
| EvNgRecvMsg (cs : Z)
| EvNgSendData (ds : Z) (hook : string) (sz : Z)
| EvNgFuncDisconnect (cs : Z) (at_node : ng_addr) (hook : string)
| EvNgFuncShutdownNode (cs : Z) (at_node : ng_addr)
| EvNgGetNodeID (cs : Z) (at_node : ng_addr)
| EvNgMkSockNode
| EvIfaceSetFlag (ifname : string)
| EvFcntl (fd : Z)
| EvKldload (module : string)
| EvClose (fd : Z)
| EvEventRegister (fd : Z)
| EvEventUnRegister (fd : Z)
| EvGethostname
| EvLinkInst (l : nat)
| EvLinkShutdown (l : nat)
| EvFreee.

(** The reply to NGM_LISTHOOKS: the node's type and, for every hook,
    its name with the type and id of the node behind it. *)
Record linkinfo := { ourhook : string; peer_type : string; peer_id : Z }.
Record hooklist := { ninfo_type : string; links : list linkinfo }.

(** ** State *)

Record World := {
  gLinks : list (option Link);
  PppoeIfs : list PppoeIf;
  heap : list (option PppoeList);
  gNgEtherLoaded : bool;
  trace : list event
}.

Definition set_gLinks v (w : World) :=
  {| gLinks := v; PppoeIfs := PppoeIfs w; heap := heap w;
     gNgEtherLoaded := gNgEtherLoaded w; trace := trace w |}.
Definition set_PppoeIfs v (w : World) :=
  {| gLinks := gLinks w; PppoeIfs := v; heap := heap w;
     gNgEtherLoaded := gNgEtherLoaded w; trace := trace w |}.
Definition set_heap v (w : World) :=
  {| gLinks := gLinks w; PppoeIfs := PppoeIfs w; heap := v;
     gNgEtherLoaded := gNgEtherLoaded w; trace := trace w |}.
Definition set_gNgEtherLoaded v (w : World) :=
  {| gLinks := gLinks w; PppoeIfs := PppoeIfs w; heap := heap w;
     gNgEtherLoaded := v; trace := trace w |}.
Definition set_trace v (w : World) :=
  {| gLinks := gLinks w; PppoeIfs := PppoeIfs w; heap := heap w;
     gNgEtherLoaded := gNgEtherLoaded w; trace := v |}.

(** How a run can end badly: a load through a null or dangling pointer,
    an array element outside the array, a failed [assert]. *)
Inductive fault := null_deref | out_of_bounds | assertion.

Inductive outcome (A : Type) :=
| Ok (a : A) (w : World)
| Fault (f : fault).
Arguments Ok {A} a w.
Arguments Fault {A} f.

Definition M (A : Type) : Type := World -> outcome A.

Definition ret {A} (a : A) : M A := fun w => Ok a w.
Definition bind {A B} (c : M A) (k : A -> M B) : M B :=
  fun w => match c w with
           | Ok a w' => k a w'
           | Fault f => Fault f
           end.
Definition crash {A} (f : fault) : M A := fun _ => Fault f.

Notation "x <- c1 ;; c2" := (bind c1 (fun x => c2))
  (at level 100, c1 at next level, right associativity).
Notation "c1 ;; c2" := (bind c1 (fun _ => c2))
  (at level 100, right associativity).

Definition get : M World := fun w => Ok w w.
Definition modify (f : World -> World) : M unit := fun w => Ok tt (f w).
Definition emit (e : event) : M unit :=
  modify (fun w => set_trace (trace w ++ [e]) w).
(** The number of calls made so far. *)
Definition now : M nat := fun w => Ok (length (trace w)) w.

(** [*l] for a link pointer. *)
Definition getLink (k : nat) : M Link :=
  fun w => match gLinks w !! k with
           | Some (Some l) => Ok l w
           | _ => Fault null_deref
           end.
Definition setLink (k : nat) (l : Link) : M unit :=
  modify (fun w => set_gLinks (<[k := Some l]> (gLinks w)) w).
Definition getInfo (k : nat) : M pppoeinfo :=
  l <- getLink k ;; ret (lnk_info l).
Definition modInfo (k : nat) (f : pppoeinfo -> pppoeinfo) : M unit :=
  l <- getLink k ;; setLink k (set_info (f (lnk_info l)) l).
Definition modLink (k : nat) (f : Link -> Link) : M unit :=
  l <- getLink k ;; setLink k (f l).

(** [*PIf] for a pointer into [PppoeIfs]. *)
Definition getIf (p : nat) : M PppoeIf :=
  fun w => match PppoeIfs w !! p with
           | Some e => Ok e w
           | None => Fault out_of_bounds
           end.
Definition setIf (p : nat) (e : PppoeIf) : M unit :=
  modify (fun w => set_PppoeIfs (<[p := e]> (PppoeIfs w)) w).
Definition modIf (p : nat) (f : PppoeIf -> PppoeIf) : M unit :=
  e <- getIf p ;; setIf p (f e).

(** [pi->PIf->...]: the parent of a link, which must not be NULL. *)
Definition parentOf (k : nat) : M (nat * PppoeIf) :=
  pi <- getInfo k ;;
  match PIf pi with
  | Some p => e <- getIf p ;; ret (p, e)
  | None => crash null_deref
  end.

(** Listener records on the heap. *)
Definition getList (a : nat) : M PppoeList :=
  fun w => match heap w !! a with
           | Some (Some pl) => Ok pl w
           | _ => Fault null_deref
           end.
Definition setList (a : nat) (pl : option PppoeList) : M unit :=
  modify (fun w => set_heap (<[a := pl]> (heap w)) w).
Definition Malloc_list (pl : PppoeList) : M nat :=
  fun w => Ok (length (heap w)) (set_heap (heap w ++ [Some pl]) w).

Definition set_ifnodepath v (e : PppoeIf) :=
  {| ifnodepath := v; node_id := node_id e; refs := refs e;
     csock := csock e; dsock := dsock e; ctrlEvent := ctrlEvent e;
     dataEvent := dataEvent e; listeners := listeners e |}.
Definition set_node_id v (e : PppoeIf) :=
  {| ifnodepath := ifnodepath e; node_id := v; refs := refs e;
     csock := csock e; dsock := dsock e; ctrlEvent := ctrlEvent e;
     dataEvent := dataEvent e; listeners := listeners e |}.
Definition set_refs v (e : PppoeIf) :=
  {| ifnodepath := ifnodepath e; node_id := node_id e; refs := v;
     csock := csock e; dsock := dsock e; ctrlEvent := ctrlEvent e;
     dataEvent := dataEvent e; listeners := listeners e |}.
Definition set_socks (cs ds : Z) (e : PppoeIf) :=
  {| ifnodepath := ifnodepath e; node_id := node_id e; refs := refs e;
     csock := cs; dsock := ds; ctrlEvent := ctrlEvent e;
     dataEvent := dataEvent e; listeners := listeners e |}.
Definition set_events (c d : bool) (e : PppoeIf) :=
  {| ifnodepath := ifnodepath e; node_id := node_id e; refs := refs e;
     csock := csock e; dsock := dsock e; ctrlEvent := c;
     dataEvent := d; listeners := listeners e |}.
Definition set_listeners v (e : PppoeIf) :=
  {| ifnodepath := ifnodepath e; node_id := node_id e; refs := refs e;
     csock := csock e; dsock := dsock e; ctrlEvent := ctrlEvent e;
     dataEvent := dataEvent e; listeners := v |}.

(** ** The host and the graph library *)

(** What the callees outside this file answer.  An answer may depend on
    when the call is made: the argument [nat] is the number of calls
    made before it.  [NgMkSockNode] hands out two descriptors when it
    succeeds; a descriptor is a natural number.  [char_signed] says
    whether the platform's plain [char] is signed. *)
Record Host := {
  gPid : Z;
  char_signed : bool;
  gLogOptions_PHYS3 : bool;
  host_PhysGetUpperHook : nat -> option (ng_addr * string);
  host_PhysIsBusy : Link -> bool;
  host_LinkInst : nat -> option string;
  host_gShutdownInProgress : nat -> bool;
  host_OVERLOAD : nat -> bool;
  host_gethostname : nat -> option string;
  ng_SendMsg : nat -> Z;
  ng_SendData : nat -> Z;
  ng_FuncDisconnect : nat -> Z;
  ng_FuncShutdownNode : nat -> Z;
  ng_MkSockNode : nat -> option (nat * nat);
  ng_RecvMsg_types : nat -> option (list string);
  ng_RecvMsg_hooks : nat -> option hooklist;
  ng_GetNodeID : nat -> Z;
  sys_IfaceSetFlag : nat -> Z;
  sys_kldload : nat -> Z
}.

Section Functions.
Variable host : Host.

(** *** Calls out of the file *)

Definition Log (lvl : log_level) (text : string) : M unit :=
  emit (EvLog lvl text).
Definition Perror (text : string) : M unit := emit (EvPerror text).

Definition TimerStop (k : nat) : M unit :=
  emit (EvTimerStop k) ;; modInfo k (set_connectTimer false).
Definition TimerInit (k : nat) : M unit :=
  emit (EvTimerInit k) ;; modInfo k (set_connectTimer false).
Definition TimerStart (k : nat) : M unit :=
  emit (EvTimerStart k) ;; modInfo k (set_connectTimer true).

Definition PhysUp (k : nat) : M unit := emit (EvPhysUp k).
Definition PhysDown (k : nat) (r : down_reason) : M unit :=
  emit (EvPhysDown k r).
Definition PhysIncoming (k : nat) : M unit := emit (EvPhysIncoming k).
Definition PhysGetUpperHook (k : nat) : M (option (ng_addr * string)) :=
  t <- now ;; emit (EvPhysGetUpperHook k) ;;
  ret (host_PhysGetUpperHook host t).

Definition NgSendMsg (cs : Z) (to : ng_addr) (ck : cookie) (cmd : ng_cmd)
    (arg : msg_arg) : M Z :=
  t <- now ;; emit (EvNgSendMsg cs to ck cmd arg) ;; ret (ng_SendMsg host t).
Definition NgSendData (ds : Z) (hk : string) (sz : Z) : M Z :=
  t <- now ;; emit (EvNgSendData ds hk sz) ;; ret (ng_SendData host t).
Definition NgFuncDisconnect (cs : Z) (a : ng_addr) (hk : string) : M Z :=
  t <- now ;; emit (EvNgFuncDisconnect cs a hk) ;;
  ret (ng_FuncDisconnect host t).
Definition NgFuncShutdownNode (cs : Z) (a : ng_addr) : M Z :=
  t <- now ;; emit (EvNgFuncShutdownNode cs a) ;;
  ret (ng_FuncShutdownNode host t).
Definition NgGetNodeID (cs : Z) (a : ng_addr) : M Z :=
  t <- now ;; emit (EvNgGetNodeID cs a) ;; ret (ng_GetNodeID host t).

(** ["mpd%d-"] and ["mpd%d-%d"] printed into a hook-sized buffer. *)
Definition hook_prefix : string :=
  truncate (NG_HOOKSIZ - 1)
    (String "m" (String "p" (String "d"
       (itoa (gPid host) (String "-" EmptyString))))).
Definition session_hook_of (l : Link) : string :=
  truncate (NG_HOOKSIZ - 1)
    (String "m" (String "p" (String "d"
       (itoa (gPid host) (String "-" (itoa (lnk_id l) EmptyString)))))).

(** *** PppoeInit *)

(** The struct as [Malloc] returns it: zeroed. *)
Definition pppoeinfo_zero : pppoeinfo :=
  {| iface := EmptyString; path := EmptyString; hook := EmptyString;
     session := EmptyString; acname := EmptyString; max_payload := 0;
     mac_format := 0; peeraddr := repeat 0 ETHER_ADDR_LEN;
     real_session := EmptyString; agent_cid := EmptyString;
     agent_rid := EmptyString; incoming := false; opened := false;
     mp_reply := false; PIf := None; plist := None;
     connectTimer := false |}.

Definition PppoeInit (k : nat) : M Z :=
  let pe := pppoeinfo_zero in
  let pe := set_incoming false pe in
  let pe := set_opened false pe in
  let pe := set_iface (truncate (IFNAMSIZ - 1) "undefined") pe in
  let pe := set_path (truncate (MAX_PATH - 1) "undefined:") pe in
  let pe := set_hook (truncate (NG_HOOKSIZ - 1) "undefined") pe in
  let pe := set_session (truncate (Z.to_nat MAX_SESSION - 1) "*") pe in
  let pe := set_peeraddr (repeat 0 ETHER_ADDR_LEN) pe in
  let pe := set_real_session
              (strlcpy (session pe) (Z.to_nat MAX_SESSION)) pe in
  let pe := set_agent_cid EmptyString pe in
  let pe := set_agent_rid EmptyString pe in
  let pe := set_PIf None pe in
  let pe := set_max_payload 0 pe in
  let pe := set_mac_format MAC_UNFORMATTED pe in
  let pe := set_mp_reply false pe in
  modLink k (set_info pe) ;;
  ret 0.

(** *** PppoeInst *)

Definition PppoeInst (k kt : nat) : M Z :=
  lt <- getLink kt ;;
  modLink k (set_info (lnk_info lt)) ;;
  pi <- getInfo k ;;
  match PIf pi with
  | Some p => modIf p (fun e => set_refs (refs e + 1) e)
  | None => ret tt
  end ;;
  match plist pi with
  | Some a =>
      pl <- getList a ;;
      setList a (Some {| pl_session := pl_session pl;
                         pl_refs := pl_refs pl + 1 |})
  | None => ret tt
  end ;;
  ret 0.

(** *** PppoeDoClose, PppoeClose, PppoeConnectTimeout *)

Definition PppoeDoClose (k : nat) : M unit :=
  l <- getLink k ;;
  if phys_state_eqb (lnk_state l) PHYS_STATE_DOWN then ret tt
  else
    pp <- parentOf k ;;
    NgFuncDisconnect (csock (snd pp)) (addr_node (node_id (snd pp)))
      (session_hook_of l) ;;
    TimerStop k ;;
    modLink k (set_state PHYS_STATE_DOWN) ;;
    modInfo k (set_incoming false) ;;
    modInfo k (set_peeraddr (repeat 0 ETHER_ADDR_LEN)) ;;
    modInfo k (set_real_session EmptyString) ;;
    modInfo k (set_agent_cid EmptyString) ;;
    modInfo k (set_agent_rid EmptyString) ;;
    modInfo k (set_mp_reply false).

Definition PppoeConnectTimeout (k : nat) : M unit :=
  Log LG_PHYS "PPPoE connection timeout" ;;
  PppoeDoClose k ;;
  PhysDown k STR_CON_FAILED0.

Definition PppoeClose (k : nat) : M unit :=
  modInfo k (set_opened false) ;;
  l <- getLink k ;;
  if phys_state_eqb (lnk_state l) PHYS_STATE_DOWN then ret tt
  else
    PppoeDoClose k ;;
    PhysDown k STR_MANUALLY.

(** *** CreatePppoeNode *)

Definition close_socks (p : nat) : M unit :=
  e <- getIf p ;;
  emit (EvClose (csock e)) ;; emit (EvClose (dsock e)).

(** The check for the ether node type; [true] when the caller goes on,
    [false] when it returns 0. *)
Definition probe_ether (p : nat) (ifname : string) : M bool :=
  w <- get ;;
  if gNgEtherLoaded w then ret true
  else
    e <- getIf p ;;
    r <- NgSendMsg (csock e) (addr_path EmptyString) NGM_GENERIC_COOKIE
           NGM_LISTTYPES arg_none ;;
    if r <? 0 then
      Perror "PPPoE: Cannot send a netgraph message" ;;
      close_socks p ;; ret false
    else
      t <- now ;; emit (EvNgRecvMsg (csock e)) ;;
      match ng_RecvMsg_types host t with
      | None =>
          Perror "PPPoE: Cannot get netgraph response" ;;
          close_socks p ;; ret false
      | Some tlist =>
          (if existsb (fun ty => strncmp_eq ty NG_ETHER_NODE_TYPE
                                   (strlen NG_ETHER_NODE_TYPE)) tlist
           then modify (set_gNgEtherLoaded true) else ret tt) ;;
          w' <- get ;;
          (if gNgEtherLoaded w' then ret true
           else
             t <- now ;; emit (EvKldload "ng_ether") ;;
             if sys_kldload host t <? 0 then
               Perror "PPPoE: Cannot load ng_ether" ;;
               close_socks p ;; crash assertion
             else ret true) ;;
          modify (set_gNgEtherLoaded true) ;;
          ret true
      end.

(** The search for a hook already attached to orphans or divert. *)
Inductive hook_scan := hook_adopt (node : Z) | hook_foreign (ty : string)
                     | hook_absent.

Fixpoint scan_hooks (ls : list linkinfo) : hook_scan :=
  match ls with
  | [] => hook_absent
  | nlink :: rest =>
      if negb (streq (ourhook nlink) NG_ETHER_HOOK_ORPHAN)
         && negb (streq (ourhook nlink) NG_ETHER_HOOK_DIVERT)
      then scan_hooks rest
      else if negb (streq (peer_type nlink) NG_PPPOE_NODE_TYPE)
      then hook_foreign (peer_type nlink)
      else hook_adopt (peer_id nlink)
  end.

Definition CreatePppoeNode (p : nat) (ifname pth hk : string) : M Z :=
  t <- now ;; emit (EvIfaceSetFlag ifname) ;;
  if negb (sys_IfaceSetFlag host t =? 0) then
    Perror "PPPoE: can't bring up interface" ;; ret 0
  else
    t <- now ;; emit EvNgMkSockNode ;;
    match ng_MkSockNode host t with
    | None => Perror "PPPoE: can't create ctrl socket" ;; ret 0
    | Some (cs, ds) =>
        modIf p (set_socks (Z.of_nat cs) (Z.of_nat ds)) ;;
        emit (EvFcntl (Z.of_nat cs)) ;; emit (EvFcntl (Z.of_nat ds)) ;;
        go <- probe_ether p ifname ;;
        if negb go then ret 0
        else
          e <- getIf p ;;
          r <- NgSendMsg (csock e) (addr_path pth) NGM_GENERIC_COOKIE
                 NGM_LISTHOOKS arg_none ;;
          if r <? 0 then
            Perror "Cannot send a netgraph message" ;;
            close_socks p ;; ret 0
          else
            t <- now ;; emit (EvNgRecvMsg (csock e)) ;;
            match ng_RecvMsg_hooks host t with
            | None =>
                Perror "Cannot get netgraph response" ;;
                close_socks p ;; ret 0
            | Some hlist =>
                if negb (strncmp_eq (ninfo_type hlist) NG_ETHER_NODE_TYPE
                           (strlen NG_ETHER_NODE_TYPE)) then
                  Log LG_ERR "Unexpected node type" ;;
                  close_socks p ;; ret 0
                else
                  match scan_hooks (links hlist) with
                  | hook_foreign _ =>
                      Log LG_ERR "Node type is currently using orphan hook" ;;
                      close_socks p ;; ret 0
                  | hook_adopt nid =>
                      modIf p (set_node_id nid) ;;
                      emit (EvEventRegister (csock e)) ;;
                      emit (EvEventRegister (dsock e)) ;;
                      modIf p (set_events true true) ;;
                      ret 1
                  | hook_absent =>
                      r <- NgSendMsg (csock e) (addr_path pth)
                             NGM_GENERIC_COOKIE NGM_MKPEER
                             (arg_mkpeer NG_PPPOE_NODE_TYPE
                                (strlcpy hk NG_HOOKSIZ)
                                NG_PPPOE_HOOK_ETHERNET) ;;
                      if r <? 0 then
                        Perror "can't create pppoe peer" ;;
                        close_socks p ;; ret 0
                      else
                        nid <- NgGetNodeID (csock e)
                                 (addr_path_hook pth hk) ;;
                        modIf p (set_node_id nid) ;;
                        if nid =? 0 then
                          Perror "Cannot get pppoe node id" ;;
                          close_socks p ;; ret 0
                        else
                          emit (EvEventRegister (csock e)) ;;
                          emit (EvEventRegister (dsock e)) ;;
                          modIf p (set_events true true) ;;
                          ret 1
                  end
            end
    end.

(** *** PppoeGetNode, PppoeReleaseNode *)

(** The loop over [PppoeIfs]: [j] is the first entry with the wanted
    path, [free] the last free entry seen before it. *)
Fixpoint find_parent (ifs : list PppoeIf) (pth : string) (i : nat)
    (free : option nat) : option nat * option nat :=
  match ifs with
  | [] => (None, free)
  | e :: rest =>
      if streq (ifnodepath e) EmptyString
      then find_parent rest pth (S i) (Some i)
      else if streq (ifnodepath e) pth then (Some i, free)
      else find_parent rest pth (S i) free
  end.

Definition PppoeGetNode (k : nat) : M unit :=
  pi <- getInfo k ;;
  match PIf pi with
  | Some _ => ret tt
  | None =>
      if streq (path pi) "undefined:" then
        Log LG_ERR "PPPoE: Skipping link with undefined interface"
      else
        w <- get ;;
        match find_parent (firstn PPPOE_MAXPARENTIFS (PppoeIfs w))
                (path pi) 0 None with
        | (None, None) =>
            Log LG_ERR "PPPoE: Too many different parent interfaces!"
        | (None, Some free) =>
            r <- CreatePppoeNode free (iface pi) (path pi) (hook pi) ;;
            if negb (r =? 0) then
              modIf free (set_ifnodepath (strlcpy (path pi) MAX_PATH)) ;;
              modIf free (set_refs 1) ;;
              modInfo k (set_PIf (Some free))
            else
              Log LG_ERR "PPPoE: Error creating ng_pppoe node"
        | (Some j, _) =>
            modIf j (fun e => set_refs (refs e + 1) e) ;;
            modInfo k (set_PIf (Some j))
        end
  end.

Definition PppoeReleaseNode (k : nat) : M unit :=
  pi <- getInfo k ;;
  match PIf pi with
  | None => ret tt
  | Some p =>
      modIf p (fun e => set_refs (refs e - 1) e) ;;
      e <- getIf p ;;
      (if refs e =? 0 then
         modIf p (set_ifnodepath EmptyString) ;;
         modIf p (set_node_id 0) ;;
         emit (EvEventUnRegister (csock e)) ;;
         emit (EvEventUnRegister (dsock e)) ;;
         modIf p (set_events false false) ;;
         emit (EvClose (csock e)) ;;
         modIf p (fun e => set_socks (-1) (dsock e) e) ;;
         emit (EvClose (dsock e)) ;;
         modIf p (fun e => set_socks (csock e) (-1) e)
       else ret tt) ;;
      modInfo k (set_PIf None)
  end.

(** *** PppoeOpen *)

Definition open_fail (k : nat) : M unit := PhysDown k STR_ERROR.

Definition open_fail2 (k : nat) (pth : ng_addr) (sh : string) : M unit :=
  pp <- parentOf k ;;
  NgFuncDisconnect (csock (snd pp)) pth sh ;;
  open_fail k.

Definition open_fail3 (k : nat) (sh : string) : M unit :=
  pp <- parentOf k ;;
  open_fail2 k (addr_node (node_id (snd pp))) sh.

Definition PppoeOpen (k : nat) : M unit :=
  modInfo k (set_opened true) ;;
  (* Disable and Deny of LINK_CONF_ACFCOMP *)
  modLink k (set_acfcomp false false) ;;
  l <- getLink k ;;
  let session_hook := session_hook_of l in
  let pe := lnk_info l in
  if incoming pe then
    Log LG_PHYS2 "PppoeOpen() on incoming call" ;;
    pp <- parentOf k ;;
    let pth := addr_node_hook (node_id (snd pp)) session_hook in
    up <- PhysGetUpperHook k ;;
    match up with
    | None =>
        Log LG_PHYS "PPPoE: can't get upper hook" ;;
        open_fail3 k session_hook
    | Some (cnpath, peerhook) =>
        r <- NgSendMsg (csock (snd pp)) pth NGM_GENERIC_COOKIE NGM_CONNECT
               (arg_connect cnpath "right" peerhook) ;;
        if r <? 0 then
          Perror "PPPoE: can't connect" ;;
          open_fail3 k session_hook
        else
          r <- NgFuncShutdownNode (csock (snd pp)) pth ;;
          (if r <? 0 then Perror "PPPoE: Shutdown ng_tee node error"
           else ret tt) ;;
          if phys_state_eqb (lnk_state l) PHYS_STATE_READY then
            TimerStop k ;;
            modLink k (set_state PHYS_STATE_UP) ;;
            PhysUp k
          else ret tt
    end
  else if negb (phys_state_eqb (lnk_state l) PHYS_STATE_DOWN) then
    Log LG_PHYS "PPPoE allready active"
  else
    PppoeGetNode k ;;
    pe <- getInfo k ;;
    match PIf pe with
    | None =>
        Log LG_ERR "PPPoE node for link is not initialized" ;;
        open_fail k
    | Some p =>
        e <- getIf p ;;
        let pth := addr_node (node_id e) in
        up <- PhysGetUpperHook k ;;
        match up with
        | None =>
            Log LG_PHYS "PPPoE: can't get upper hook" ;;
            open_fail2 k pth session_hook
        | Some (cnpath, peerhook) =>
            r <- NgSendMsg (csock e) pth NGM_GENERIC_COOKIE NGM_CONNECT
                   (arg_connect cnpath session_hook peerhook) ;;
            if r <? 0 then
              Perror "PPPoE: can't connect" ;;
              open_fail2 k pth session_hook
            else
              (if 0 <? max_payload pe
               then Log LG_PHYS "PPPoE: Set PPP-Max-Payload"
               else ret tt) ;;
              r <- NgSendMsg (csock e) pth NGM_PPPOE_COOKIE
                     NGM_PPPOE_SETMAXP (arg_maxp (max_payload pe)) ;;
              if r <? 0 then
                Perror "PPPoE can't set PPP-Max-Payload value" ;;
                open_fail2 k pth session_hook
              else
                Log LG_PHYS "PPPoE: Connecting" ;;
                r <- NgSendMsg (csock e) pth NGM_PPPOE_COOKIE
                       NGM_PPPOE_CONNECT
                       (arg_init_data (strlcpy session_hook NG_HOOKSIZ)
                          (session pe)) ;;
                if r <? 0 then
                  Perror "PPPoE can't request connection to server" ;;
                  open_fail2 k pth session_hook
                else
                  TimerInit k ;;
                  TimerStart k ;;
                  modLink k (set_state PHYS_STATE_CONNECTING) ;;
                  modInfo k (fun pe =>
                    set_real_session
                      (strlcpy (session pe) (Z.to_nat MAX_SESSION)) pe) ;;
                  modInfo k (set_agent_cid EmptyString) ;;
                  modInfo k (set_agent_rid EmptyString) ;;
                  modInfo k (set_mp_reply false)
        end
    end.

(** *** PppoeListen, PppoeUnListen *)

Fixpoint slist_find (ls : list nat) (s : string) : M (option nat) :=
  match ls with
  | [] => ret None
  | a :: rest =>
      pl <- getList a ;;
      if streq (pl_session pl) s then ret (Some a) else slist_find rest s
  end.

Definition listen_hook (s : string) : string :=
  truncate (NG_HOOKSIZ - 1) (String.append "listen-" s).

Definition PppoeListen (k : nat) : M Z :=
  pi <- getInfo k ;;
  match plist pi, PIf pi with
  | Some _, _ => ret 1
  | None, None => ret 1
  | None, Some p =>
      e <- getIf p ;;
      found <- slist_find (listeners e) (session pi) ;;
      match found with
      | Some a =>
          pl <- getList a ;;
          setList a (Some {| pl_session := pl_session pl;
                             pl_refs := pl_refs pl + 1 |}) ;;
          modInfo k (set_plist (Some a)) ;;
          ret 1
      | None =>
          a <- Malloc_list
                 {| pl_session := strlcpy (session pi) (Z.to_nat MAX_SESSION);
                    pl_refs := 1 |} ;;
          modInfo k (set_plist (Some a)) ;;
          modIf p (fun e => set_listeners (a :: listeners e) e) ;;
          let pth := addr_node (node_id e) in
          r <- NgSendMsg (csock e) addr_self NGM_GENERIC_COOKIE NGM_CONNECT
                 (arg_connect pth (listen_hook (session pi))
                    (listen_hook (session pi))) ;;
          if r <? 0 then Perror "PPPoE: Can't connect" ;; ret 0
          else
            r <- NgSendMsg (csock e) pth NGM_PPPOE_COOKIE NGM_PPPOE_LISTEN
                   (arg_init_data (listen_hook (session pi)) (session pi)) ;;
            if r <? 0 then
              Perror "PPPoE: Can't send NGM_PPPOE_LISTEN" ;; ret 0
            else
              Log LG_PHYS "PPPoE: waiting for connection" ;; ret 1
      end
  end.

Fixpoint slist_remove (a : nat) (ls : list nat) : list nat :=
  match ls with
  | [] => []
  | b :: rest => if Nat.eqb a b then rest else b :: slist_remove a rest
  end.

Definition PppoeUnListen (k : nat) : M Z :=
  pi <- getInfo k ;;
  match plist pi with
  | None => ret 1
  | Some a =>
      pl <- getList a ;;
      setList a (Some {| pl_session := pl_session pl;
                         pl_refs := pl_refs pl - 1 |}) ;;
      (if pl_refs pl - 1 =? 0 then
         pp <- parentOf k ;;
         l <- getLink k ;;
         NgFuncDisconnect (csock (snd pp)) (addr_node (node_id (snd pp)))
           (listen_hook (pl_session pl)) ;;
         Log LG_PHYS "PPPoE: stop waiting for connection" ;;
         modIf (fst pp)
           (fun e => set_listeners (slist_remove a (listeners e)) e) ;;
         setList a None
       else ret tt) ;;
      modInfo k (set_plist None) ;;
      ret 1
  end.

(** *** PppoeShutdown, PppoeNodeUpdate *)

Definition PppoeShutdown (k : nat) : M unit :=
  PppoeDoClose k ;;
  PppoeUnListen k ;;
  PppoeReleaseNode k ;;
  emit EvFreee.

Definition PppoeNodeUpdate (k : nat) : M unit :=
  l <- getLink k ;;
  match plist (lnk_info l) with
  | None =>
      if incoming_enable l then
        PppoeGetNode k ;; PppoeListen k ;; ret tt
      else ret tt
  | Some _ =>
      if negb (incoming_enable l) then
        PppoeUnListen k ;;
        if phys_state_eqb (lnk_state l) PHYS_STATE_DOWN
        then PppoeReleaseNode k else ret tt
      else ret tt
  end.

(** *** PppoeSetCommand *)

(** The loop that turns the interface name into a node path. *)
Fixpoint iface_path (n : nat) (s : string) : string :=
  match n with
  | O => s
  | S n' =>
      match s with
      | EmptyString => String ":" EmptyString
      | String c rest =>
          String (if Ascii.eqb c "." || Ascii.eqb c ":" then "_"%char else c)
                 (iface_path n' rest)
      end
  end.

(** Modelled from the spec: the macro [Error] of the host's command
    layer is not part of this file.  It reports the message to the
    CLI and leaves the command with a non-zero code. *)
Definition CMD_ERR_OTHER : Z := -7.
Definition Error (text : string) : M Z :=
  emit (EvError text) ;; ret CMD_ERR_OTHER.

Definition relisten (k : nat) (with_node : bool) : M unit :=
  pi <- getInfo k ;;
  match plist pi with
  | Some _ =>
      PppoeUnListen k ;;
      (if with_node then PppoeReleaseNode k ;; PppoeGetNode k else ret tt) ;;
      PppoeListen k ;; ret tt
  | None => ret tt
  end.

Definition PppoeSetCommand (k : nat) (av : list string) (arg : set_option)
  : M Z :=
  match arg with
  | SET_IFACE =>
      let hookname :=
        match av with [_; h] => Some h | [_] => Some ETHER_DEFAULT_HOOK
                    | _ => None end in
      match av, hookname with
      | a0 :: _, Some hookname =>
          modInfo k (set_iface (strlcpy a0 IFNAMSIZ)) ;;
          modInfo k (fun pi =>
            set_path (iface_path (MAX_PATH - 1)
                        (strlcpy (iface pi) (MAX_PATH - 1))) pi) ;;
          modInfo k (set_hook (strlcpy hookname NG_HOOKSIZ)) ;;
          relisten k true ;;
          ret 0
      | _, _ => ret CMD_ERR_USAGE
      end
  | SET_SESSION =>
      match av with
      | [a0] =>
          modInfo k (set_session (strlcpy a0 (Z.to_nat MAX_SESSION))) ;;
          relisten k false ;;
          ret 0
      | _ => ret CMD_ERR_USAGE
      end
  | SET_ACNAME =>
      match av with
      | [a0] =>
          modInfo k (set_acname (strlcpy a0 PPPOE_SERVICE_NAME_SIZE)) ;;
          ret 0
      | _ => ret CMD_ERR_USAGE
      end
  | SET_MAX_PAYLOAD =>
      match av with
      | [a0] =>
          let ap := atoi a0 in
          if (ap <? PPPOE_MRU) || (ETHER_MAX_LEN - 8 <? ap) then
            Error "PPP-Max-Payload value"
          else
            modInfo k (set_max_payload (uint16_of_int ap)) ;;
            ret 0
      | _ => ret CMD_ERR_USAGE
      end
  | SET_MAC_FORMAT =>
      match av with
      | [a0] =>
          if streq a0 "unformatted" then
            modInfo k (set_mac_format MAC_UNFORMATTED) ;; ret 0
          else if streq a0 "unix-like" then
            modInfo k (set_mac_format MAC_UNIX_LIKE) ;; ret 0
          else if streq a0 "cisco-like" then
            modInfo k (set_mac_format MAC_CISCO_LIKE) ;; ret 0
          else if streq a0 "ietf" then
            modInfo k (set_mac_format MAC_IETF) ;; ret 0
          else Error "Incorrect PPPoE mac-format"
      | _ => ret CMD_ERR_USAGE
      end
  end.

(** *** PppoeCtrlReadEvent *)

(** What [NgRecvMsg] delivered: the header's cookie and command, the
    hook name at the start of the data ([struct ngpppoe_sts]), and
    the 16-bit value of a [struct ngpppoe_maxp]. *)
Record ctrl_msg := {
  typecookie : cookie;
  cmd : ng_cmd;
  sts_hook : string;
  maxp_data : Z
}.

Definition is_link_cmd (c : ng_cmd) : bool :=
  match c with
  | NGM_PPPOE_SUCCESS | NGM_PPPOE_FAIL | NGM_PPPOE_CLOSE
  | NGM_PPPOE_SETMAXP => true
  | _ => false
  end.

Definition is_cmd_success (c : ng_cmd) : bool :=
  match c with NGM_PPPOE_SUCCESS => true | _ => false end.
Definition is_cmd_close (c : ng_cmd) : bool :=
  match c with NGM_PPPOE_CLOSE => true | _ => false end.

Definition option_nat_eqb (a b : option nat) : bool :=
  match a, b with
  | Some x, Some y => Nat.eqb x y
  | None, None => true
  | _, _ => false
  end.

(** [gLinks[id]] for an int [id]: the array has [gNumLinks] elements
    and the index is not checked against it. *)
Definition gLinks_at (id : Z) : M (option Link) :=
  fun w =>
    if (id <? 0) || (Z.of_nat (length (gLinks w)) <=? id)
    then Fault out_of_bounds
    else match gLinks w !! Z.to_nat id with
         | Some ol => Ok ol w
         | None => Fault out_of_bounds
         end.

(** The first switch: for the four per-link commands, find the link
    named by the hook.  [None] is the function returning. *)
Definition ctrl_find_link (p : nat) (msg : ctrl_msg) : M (option nat) :=
  let linkname := sts_hook msg in
  if strncmp_eq linkname "listen-" 7 then ret None
  else
    let ppphook := hook_prefix in
    if negb (strncmp_eq linkname ppphook (strlen ppphook)) then
      Log LG_ERR "PPPoE: message from unknown hook" ;; ret None
    else
      let linkname := advance (strlen ppphook) linkname in
      let id := int_of_long (fst (strtol linkname)) in
      let rest := snd (strtol linkname) in
      let unexisting :=
        Log (if is_cmd_success (cmd msg) then LG_ERR else LG_PHYS)
          "PPPoE: message from unexisting link" ;; ret None in
      if negb (streq rest EmptyString) then unexisting
      else
        ol <- gLinks_at id ;;
        match ol with
        | None => unexisting
        | Some l =>
            match lnk_type l with
            | other_phystype => unexisting
            | gPppoePhysType =>
                if negb (option_nat_eqb (Some p) (PIf (lnk_info l)))
                then unexisting
                else if phys_state_eqb (lnk_state l) PHYS_STATE_DOWN then
                  (if negb (is_cmd_close (cmd msg))
                   then Log LG_PHYS "PPPoE: message in DOWN state"
                   else ret tt) ;;
                  ret None
                else ret (Some (Z.to_nat id))
            end
        end.

(** The second switch, for a per-link command and its link. *)
Definition ctrl_link_cmd (k : nat) (msg : ctrl_msg) : M unit :=
  match cmd msg with
  | NGM_PPPOE_SUCCESS =>
      Log LG_PHYS "PPPoE: connection successful" ;;
      pi <- getInfo k ;;
      if opened pi then
        TimerStop k ;;
        modLink k (set_state PHYS_STATE_UP) ;;
        PhysUp k
      else modLink k (set_state PHYS_STATE_READY)
  | NGM_PPPOE_FAIL =>
      Log LG_PHYS "PPPoE: connection failed" ;;
      PppoeDoClose k ;;
      PhysDown k STR_CON_FAILED0
  | NGM_PPPOE_CLOSE =>
      Log LG_PHYS "PPPoE: connection closed" ;;
      PppoeDoClose k ;;
      PhysDown k STR_DROPPED
  | NGM_PPPOE_SETMAXP =>
      Log LG_PHYS "PPPoE: rec'd PPP-Max-Payload" ;;
      pi <- getInfo k ;;
      if 0 <? max_payload pi then
        if max_payload pi =? maxp_data msg
        then modInfo k (set_mp_reply true)
        else Log LG_PHYS "PPPoE: sent and returned values are not equal"
      else Log LG_PHYS "PPPoE: server sent tag PPP-Max-Payload without request from the client"
  | _ => ret tt
  end.

(** The second switch, for the other commands. *)
Definition ctrl_other_cmd (msg : ctrl_msg) : M unit :=
  match cmd msg with
  | NGM_PPPOE_SESSIONID => Log LG_PHYS3 "PPPoE: rec'd SESSIONID"
  | NGM_PPPOE_ACNAME => Log LG_PHYS "PPPoE: rec'd ACNAME"
  | NGM_PPPOE_HURL => Log LG_PHYS "PPPoE: rec'd HURL"
  | NGM_PPPOE_MOTM => Log LG_PHYS "PPPoE: rec'd MOTM"
  | _ => Log LG_PHYS "PPPoE: rec'd command"
  end.

(** [recv] is what [NgRecvMsg] returns on the parent's control
    socket: a message, or [None] for an error. *)
Definition PppoeCtrlReadEvent (p : nat) (recv : option ctrl_msg) : M unit :=
  e <- getIf p ;;
  emit (EvNgRecvMsg (csock e)) ;;
  match recv with
  | None => Perror "PPPoE: error reading message"
  | Some msg =>
      match typecookie msg with
      | NGM_PPPOE_COOKIE =>
          if is_link_cmd (cmd msg) then
            found <- ctrl_find_link p msg ;;
            match found with
            | None => ret tt
            | Some k => ctrl_link_cmd k msg
            end
          else ctrl_other_cmd msg
      | _ => Log LG_ERR "PPPoE: rec'd cookie"
      end
  end.

(** *** The host's LinkInst and LinkShutdown *)

Fixpoint first_free (ls : list (option Link)) (i : nat) : nat :=
  match ls with
  | [] => i
  | None :: _ => i
  | Some _ :: rest => first_free rest (S i)
  end.

Definition place_link (k : nat) (l : Link) (ls : list (option Link))
  : list (option Link) :=
  if Nat.ltb k (length ls) then <[k := Some l]> ls else ls ++ [Some l].

(** Modelled from the spec: [LinkInst] belongs to the host's link
    layer, which is not part of this file.  It materializes an
    instance from a template: a copy of the template in the first
    free slot of [gLinks], no longer a template, given to the
    physical type's [inst] method; it may also fail and return NULL. *)
Definition LinkInst (kt : nat) : M (option nat) :=
  t <- now ;; emit (EvLinkInst kt) ;;
  match host_LinkInst host t with
  | None => ret None
  | Some nm =>
      lt <- getLink kt ;;
      w <- get ;;
      let k := first_free (gLinks w) 0 in
      let l := {| lnk_id := Z.of_nat k; lnk_name := nm; lnk_tmpl := false;
                  lnk_stay := false; lnk_state := lnk_state lt;
                  lnk_type := lnk_type lt;
                  acfcomp_enable := acfcomp_enable lt;
                  acfcomp_accept := acfcomp_accept lt;
                  incoming_enable := incoming_enable lt;
                  lnk_info := lnk_info lt |} in
      modify (fun w => set_gLinks (place_link k l (gLinks w)) w) ;;
      PppoeInst k kt ;;
      ret (Some k)
  end.

(** Modelled from the spec: [LinkShutdown] belongs to the host as
    well.  It runs the physical type's [shutdown] method and gives
    the slot of the link back. *)
Definition LinkShutdown (k : nat) : M unit :=
  emit (EvLinkShutdown k) ;;
  PppoeShutdown k ;;
  modify (fun w => set_gLinks (<[k := None]> (gLinks w)) w).

(** *** PppoeListenEvent *)

Fixpoint scan_links (ls : list (option Link)) (k : nat) (p : nat)
    (sess : string) : option nat :=
  match ls with
  | [] => None
  | ol :: rest =>
      match ol with
      | Some l2 =>
          match lnk_type l2 with
          | gPppoePhysType =>
              if negb (host_PhysIsBusy host l2)
                 && option_nat_eqb (PIf (lnk_info l2)) (Some p)
                 && streq (session (lnk_info l2)) sess
                 && incoming_enable l2
              then Some k
              else scan_links rest (S k) p sess
          | other_phystype => scan_links rest (S k) p sess
          end
      | None => scan_links rest (S k) p sess
      end
  end.

Definition agent_ids_zero : agent_ids :=
  {| agent_cid_buf := repeat 0 (Z.to_nat sizeof_agent_id);
     agent_rid_buf := repeat 0 (Z.to_nat sizeof_agent_id);
     bbf_loads := [] |}.

Fixpoint log_tags (tags : list tag_view) : M unit :=
  match tags with
  | [] => ret tt
  | _ :: rest => Log LG_PHYS3 "TAG" ;; log_tags rest
  end.

Definition listen_close_socket (k : nat) : M unit :=
  Log LG_PHYS "PPPoE connection not accepted due to error" ;;
  l <- getLink k ;;
  if negb (lnk_stay l) then LinkShutdown k else ret tt.

Definition listen_shutdown_tee (k : nat) (path1 : ng_addr) : M unit :=
  pp <- parentOf k ;;
  r <- NgFuncShutdownNode (csock (snd pp)) path1 ;;
  (if r <? 0 then Perror "Shutdown ng_tee node error" else ret tt) ;;
  listen_close_socket k.

(** The wiring of an accepted request, from the creation of the tee
    node to [PhysIncoming]. *)
Definition listen_accept (p k : nat) (sz : Z) (response : mem)
    (real_sess cid rid : string) : M unit :=
  l <- getLink k ;;
  let pi := lnk_info l in
  Log LG_PHYS "Accepting PPPoE connection" ;;
  e <- getIf p ;;
  let pth := addr_node (node_id e) in
  let session_hook := session_hook_of l in
  pp <- parentOf k ;;
  r <- NgSendMsg (csock (snd pp)) pth NGM_GENERIC_COOKIE NGM_MKPEER
         (arg_mkpeer NG_TEE_NODE_TYPE session_hook "left") ;;
  if r <? 0 then
    Perror "PPPoE: can't create tee peer" ;;
    listen_close_socket k
  else
    let path1 := addr_node_hook (node_id e) session_hook in
    r <- NgSendMsg (csock (snd pp)) addr_self NGM_GENERIC_COOKIE
           NGM_CONNECT
           (arg_connect path1 (strlcpy (lnk_name l) NG_HOOKSIZ)
              "left2right") ;;
    if r <? 0 then
      Perror "PPPoE: can't connect" ;;
      listen_shutdown_tee k path1
    else
      data <-
        (if negb (streq (acname pi) EmptyString)
         then ret (strlcpy (acname pi) (Z.to_nat MAX_SESSION))
         else
           t <- now ;; emit EvGethostname ;;
           h <- match host_gethostname host t with
                | None =>
                    Log LG_ERR "PPPoE: gethostname() failed" ;;
                    ret EmptyString
                | Some h => ret (truncate (Z.to_nat MAX_SESSION - 1) h)
                end ;;
           ret (if streq h EmptyString then "NONAME" else h)) ;;
      r <- NgSendMsg (csock (snd pp)) pth NGM_PPPOE_COOKIE NGM_PPPOE_OFFER
             (arg_init_data session_hook data) ;;
      if r <? 0 then
        Perror "PPPoE: can't send NGM_PPPOE_OFFER" ;;
        listen_shutdown_tee k path1
      else
        r <- NgSendMsg (csock (snd pp)) pth NGM_PPPOE_COOKIE
               NGM_PPPOE_SERVICE
               (arg_init_data session_hook (session pi)) ;;
        if r <? 0 then
          Perror "PPPoE: can't send NGM_PPPOE_SERVICE" ;;
          listen_shutdown_tee k path1
        else
          r <- NgSendData (dsock (snd pp)) (lnk_name l) sz ;;
          if r =? -1 then
            Perror "PPPoE: Cannot send original request" ;;
            listen_shutdown_tee k path1
          else
            r <- NgFuncDisconnect (csock (snd pp)) addr_self (lnk_name l) ;;
            if r <? 0 then
              Perror "PPPoE: can't remove hook" ;;
              listen_shutdown_tee k path1
            else
              modLink k (set_state PHYS_STATE_CONNECTING) ;;
              modInfo k (set_incoming true) ;;
              modInfo k (set_peeraddr
                (fst (load_bytes response (Z.of_nat ETHER_ADDR_LEN)
                        ETHER_ADDR_LEN))) ;;
              modInfo k (set_real_session
                (strlcpy real_sess (Z.to_nat MAX_SESSION))) ;;
              modInfo k (set_agent_cid
                (strlcpy cid (Z.to_nat sizeof_agent_id))) ;;
              modInfo k (set_agent_rid
                (strlcpy rid (Z.to_nat sizeof_agent_id))) ;;
              Log LG_PHYS2 "PPPoE response sent" ;;
              TimerInit k ;;
              TimerStart k ;;
              PhysIncoming k.

(** [sz], [response] and [rhook] are what [NgRecvData] delivered on
    the parent's data socket; the frame starts at address 0 of
    [response]. *)
Definition PppoeListenEvent (p : nat) (sz : Z) (response : mem)
    (rhook : string) : M unit :=
  if sz =? -1 then Log LG_ERR "NgRecvData"
  else if sz =? 0 then Log LG_ERR "NgRecvData: socket closed"
  else if negb (strncmp_eq rhook "listen-" 7) then
    Log LG_ERR "PPPoE: data from unknown hook"
  else
    let sess := advance 7 rhook in
    if size_t_of sz <? sizeof_pppoe_full_hdr then
      Log LG_PHYS "Incoming truncated PPPoE connection request"
    else
      let ph := sizeof_ether_header in
      let real_sess := fst (real_session_of response ph sess) in
      let ids := match bbf_scan (char_signed host) response ph with
                 | Some ids => ids
                 | None => agent_ids_zero
                 end in
      Log LG_PHYS "Incoming PPPoE connection request" ;;
      (if gLogOptions_PHYS3 host then log_tags (print_tags response ph)
       else ret tt) ;;
      t <- now ;;
      if host_gShutdownInProgress host t then
        Log LG_PHYS "Shutdown sequence in progress, ignoring request."
      else if host_OVERLOAD host t then
        Log LG_PHYS "Daemon overloaded, ignoring request."
      else
        w <- get ;;
        chosen <-
          match scan_links (gLinks w) 0 p sess with
          | Some k =>
              l <- getLink k ;;
              if lnk_tmpl l then LinkInst k else ret (Some k)
          | None => ret None
          end ;;
        match chosen with
        | None =>
            Log LG_PHYS "No free PPPoE link with requested parameters was found"
        | Some k =>
            listen_accept p k sz response real_sess
              (cstring (agent_cid_buf ids)) (cstring (agent_rid_buf ids))
        end.

(** *** The event loop *)

(** Modelled from the spec: the creation of a link belongs to the
    host.  The host puts the new link, in state DOWN, into the first
    free slot of [gLinks] and calls the physical type's [init]
    method; [l0] carries what the host chooses (name, template and
    static flags, physical type, options). *)
Definition LinkCreate (l0 : Link) : M nat :=
  w <- get ;;
  let k := first_free (gLinks w) 0 in
  let l := {| lnk_id := Z.of_nat k; lnk_name := lnk_name l0;
              lnk_tmpl := lnk_tmpl l0; lnk_stay := lnk_stay l0;
              lnk_state := PHYS_STATE_DOWN; lnk_type := lnk_type l0;
              acfcomp_enable := acfcomp_enable l0;
              acfcomp_accept := acfcomp_accept l0;
              incoming_enable := incoming_enable l0;
              lnk_info := pppoeinfo_zero |} in
  modify (fun w => set_gLinks (place_link k l (gLinks w)) w) ;;
  match lnk_type l0 with
  | gPppoePhysType => PppoeInit k
  | other_phystype => ret 0
  end ;;
  ret k.

(** The firing of the one-shot connect timer. *)
Definition timer_fire (k : nat) : M unit :=
  modInfo k (set_connectTimer false) ;;
  PppoeConnectTimeout k.

Definition is_pppoe (w : World) (k : nat) : Prop :=
  exists l, gLinks w !! k = Some (Some l) /\ lnk_type l = gPppoePhysType.

(** One turn of the single-threaded event loop: an entry point of
    this file is called on a PPPoE link (or on a parent whose event
    is registered) and runs to its end. *)
Inductive step : World -> World -> Prop :=
| step_create l0 w k w' :
    LinkCreate l0 w = Ok k w' -> step w w'
| step_inst kt w r w' :
    is_pppoe w kt -> LinkInst kt w = Ok r w' -> step w w'
| step_open k w w' :
    is_pppoe w k -> PppoeOpen k w = Ok tt w' -> step w w'
| step_close k w w' :
    is_pppoe w k -> PppoeClose k w = Ok tt w' -> step w w'
| step_shutdown k w w' :
    is_pppoe w k -> LinkShutdown k w = Ok tt w' -> step w w'
| step_update k w w' :
    is_pppoe w k -> PppoeNodeUpdate k w = Ok tt w' -> step w w'
| step_set k av arg w r w' :
    is_pppoe w k -> PppoeSetCommand k av arg w = Ok r w' -> step w w'
| step_options k en ac inc w w' :
    is_pppoe w k ->
    modLink k (fun l => set_incoming_enable inc (set_acfcomp en ac l)) w
      = Ok tt w' ->
    step w w'
| step_ctrl p e recv w w' :
    PppoeIfs w !! p = Some e -> ctrlEvent e = true ->
    PppoeCtrlReadEvent p recv w = Ok tt w' -> step w w'
| step_listen p e sz response rhook w w' :
    PppoeIfs w !! p = Some e -> dataEvent e = true ->
    PppoeListenEvent p sz response rhook w = Ok tt w' -> step w w'
| step_timeout k l w w' :
    gLinks w !! k = Some (Some l) -> lnk_type l = gPppoePhysType ->
    connectTimer (lnk_info l) = true ->
    timer_fire k w = Ok tt w' -> step w w'.

(** The state at program start: no link, the static table
    [PppoeIfs] zeroed. *)
Definition World_init : World :=
  {| gLinks := []; PppoeIfs := repeat PppoeIf_zero PPPOE_MAXPARENTIFS;
     heap := []; gNgEtherLoaded := false; trace := [] |}.

Inductive reachable : World -> Prop :=
| reach_init : reachable World_init
| reach_step w w' : reachable w -> step w w' -> reachable w'.

End Functions.

End Pppoe.

(* ===================================================================== *)
(** * A small installation                                                *)
(* ===================================================================== *)

(** One host whose calls all succeed, and a few states of its links:
    the inputs on which the results below are run. *)
Module Demo.
Import Libc TagCodec Pppoe.

Definition host_ok : Host :=
  {| gPid := 4242; char_signed := true; gLogOptions_PHYS3 := false;
     host_PhysGetUpperHook := fun _ => Some (addr_path "ppp:", "link0");
     host_PhysIsBusy :=
       fun l => negb (phys_state_eqb (lnk_state l) PHYS_STATE_DOWN);
     host_LinkInst := fun _ => Some "L-1";
     host_gShutdownInProgress := fun _ => false;
     host_OVERLOAD := fun _ => false;
     host_gethostname := fun _ => Some "ac1";
     ng_SendMsg := fun _ => 0; ng_SendData := fun _ => 0;
     ng_FuncDisconnect := fun _ => 0; ng_FuncShutdownNode := fun _ => 0;
     ng_MkSockNode := fun _ => Some (5, 6)%nat;
     ng_RecvMsg_types := fun _ => Some ["socket"; "ether"];
     ng_RecvMsg_hooks :=
       fun _ => Some {| ninfo_type := "ether"; links := [] |};
     ng_GetNodeID := fun _ => 17;
     sys_IfaceSetFlag := fun _ => 0; sys_kldload := fun _ => 0 |}.

(** The state a run ends in ([w] itself when the run faults). *)
Definition world_after {A : Type} (c : M A) (w : World) : World :=
  match c w with
  | Ok _ w' => w'
  | Fault _ => w
  end.

(** What the host asks [LinkCreate] for: a static PPPoE link. *)
Definition link_request : Link :=
  {| lnk_id := 0; lnk_name := "L"; lnk_tmpl := false; lnk_stay := true;
     lnk_state := PHYS_STATE_DOWN; lnk_type := gPppoePhysType;
     acfcomp_enable := true; acfcomp_accept := true;
     incoming_enable := false; lnk_info := pppoeinfo_zero |}.

(** Program start, then the creation of link 0. *)
Definition w_created : World :=
  world_after (LinkCreate link_request) World_init.

(** Link 0 configured ([set pppoe iface em0], [set pppoe service isp]). *)
Definition w_iface : World :=
  world_after (PppoeSetCommand host_ok 0 ["em0"] SET_IFACE) w_created.
Definition w_configured : World :=
  world_after (PppoeSetCommand host_ok 0 ["isp"] SET_SESSION) w_iface.

(** ... and opened: the link is CONNECTING on the parent in the last
    slot of the table. *)
Definition w_connecting : World :=
  world_after (PppoeOpen host_ok 0) w_configured.

Definition success_msg (hk : string) : ctrl_msg :=
  {| typecookie := NGM_PPPOE_COOKIE; cmd := NGM_PPPOE_SUCCESS;
     sts_hook := hk; maxp_data := 0 |}.

(** ... and connected: SUCCESS arrived for the link's hook. *)
Definition w_up : World :=
  world_after
    (PppoeCtrlReadEvent host_ok 4095 (Some (success_msg "mpd4242-0")))
    w_connecting.

(** ... and the same SUCCESS message read once more. *)
Definition w_dup : World :=
  world_after
    (PppoeCtrlReadEvent host_ok 4095 (Some (success_msg "mpd4242-0")))
    w_up.

(** A second link on the same interface, created while link 0 is
    CONNECTING, and not opened yet. *)
Definition w_second : World :=
  world_after (PppoeSetCommand host_ok 1 ["em0"] SET_IFACE)
    (world_after (LinkCreate link_request) w_connecting).

(** Link 0 is CONNECTING and the operator enables ACFCOMP again
    ([set link enable acfcomp], [set link accept acfcomp]). *)
Definition w_acfcomp : World :=
  world_after
    (modLink 0 (fun l => set_incoming_enable false (set_acfcomp true true l)))
    w_connecting.

(** Link 0 configured and enabled for incoming calls
    ([set link enable incoming]), then updated: it listens for the
    service [isp] on its parent. *)
Definition w_enabled : World :=
  world_after
    (modLink 0 (fun l => set_incoming_enable true (set_acfcomp true true l)))
    w_configured.
Definition w_listening : World :=
  world_after (PppoeNodeUpdate host_ok 0) w_enabled.

(** The listening link is opened for an outgoing call, and while it
    is CONNECTING the operator types [set pppoe iface undefined]: the
    listener and the parent are released and no new parent is found. *)
Definition w_calling : World :=
  world_after (PppoeOpen host_ok 0) w_listening.
Definition w_orphan : World :=
  world_after (PppoeSetCommand host_ok 0 ["undefined"] SET_IFACE) w_calling.

(** The same host, with [gShutdownInProgress] set from the time [t0]
    on. *)
Definition host_stopping (t0 : nat) : Host :=
  {| gPid := gPid host_ok; char_signed := char_signed host_ok;
     gLogOptions_PHYS3 := gLogOptions_PHYS3 host_ok;
     host_PhysGetUpperHook := host_PhysGetUpperHook host_ok;
     host_PhysIsBusy := host_PhysIsBusy host_ok;
     host_LinkInst := host_LinkInst host_ok;
     host_gShutdownInProgress := fun t => Nat.leb t0 t;
     host_OVERLOAD := host_OVERLOAD host_ok;
     host_gethostname := host_gethostname host_ok;
     ng_SendMsg := ng_SendMsg host_ok; ng_SendData := ng_SendData host_ok;
     ng_FuncDisconnect := ng_FuncDisconnect host_ok;
     ng_FuncShutdownNode := ng_FuncShutdownNode host_ok;
     ng_MkSockNode := ng_MkSockNode host_ok;
     ng_RecvMsg_types := ng_RecvMsg_types host_ok;
     ng_RecvMsg_hooks := ng_RecvMsg_hooks host_ok;
     ng_GetNodeID := ng_GetNodeID host_ok;
     sys_IfaceSetFlag := sys_IfaceSetFlag host_ok;
     sys_kldload := sys_kldload host_ok |}.

Definition link_of (w : World) (k : nat) : Link :=
  match gLinks w !! k with
  | Some (Some l) => l
  | _ => link_request
  end.
Definition parent_of (w : World) (p : nat) : PppoeIf :=
  match PppoeIfs w !! p with
  | Some e => e
  | None => PppoeIf_zero
  end.

(** A discovery frame, Ethernet header first (14 bytes of zero) and
    the PPPoE header at offset 14.  Its payload of 19 bytes holds a
    Vendor-Specific tag of 9 bytes (the BBF vendor id, sub-tag 1 with
    the two bytes [AB], and one more byte 1) and a Service-Name tag
    [CD]. *)
Definition bbf_frame : list Z :=
  repeat 0 14 ++ [17; 9; 0; 0; 0; 19]
  ++ [1; 5; 0; 9; 0; 0; 13; 233; 1; 2; 65; 66; 1]
  ++ [1; 1; 0; 2; 67; 68].

Definition bbf_mem : mem := mem_of_bytes bbf_frame.

(** A frame with Service-Name [isp] and a BBF tag that holds the
    circuit id [circuit-A] and the remote id [remote-B]. *)
Definition agent_frame : list Z :=
  repeat 0 14 ++ [17; 9; 0; 0; 0; 36]
  ++ [1; 1; 0; 3; 105; 115; 112]
  ++ [1; 5; 0; 25; 0; 0; 13; 233]
  ++ [1; 9; 99; 105; 114; 99; 117; 105; 116; 45; 65]
  ++ [2; 8; 114; 101; 109; 111; 116; 101; 45; 66].

End Demo.

(* ===================================================================== *)
(** * What a link reports                                                 *)
(* ===================================================================== *)

(** The methods of [gPppoePhysType] that only read the link:
    [PppoeOriginated], [PppoeIsSync], [PppoePeerMacAddr],
    [PppoePeerIface], [PppoeCallingNum], [PppoeCalledNum],
    [PppoeSelfName], [PppoePeerName], [PppoeGetMtu], [PppoeGetMru]. *)
Module PppoeReport.
Import Libc TagCodec Pppoe.

Inductive originate := LINK_ORIGINATE_LOCAL | LINK_ORIGINATE_REMOTE.

(** What a call has done to the caller's buffer: nothing, or the text
    the buffer now starts with, which a terminator follows. *)
Inductive buffer := Untouched | Holds (s : string).

(** The number of bytes that were stored. *)
Definition written (b : buffer) : nat :=
  match b with
  | Untouched => 0
  | Holds s => S (String.length s)
  end.

(** [strlcpy(buf, s, buf_len)], and [snprintf(buf, buf_len, ...)] whose
    formatted text is [s]: at most [buf_len - 1] characters and the
    terminator; a buffer of size 0 is left alone. *)
Definition strlcpy_buf (s : string) (buf_len : nat) : buffer :=
  match buf_len with
  | O => Untouched
  | S n => Holds (truncate n s)
  end.

Definition snprintf_buf (s : string) (buf_len : nat) : buffer :=
  match buf_len with
  | O => Untouched
  | S n => Holds (truncate n s)
  end.

(** [sprintf(buf, s)] knows no size. *)
Definition sprintf_buf (s : string) : buffer := Holds s.

(** ** [%02x] *)

Definition hex_digit (d : Z) : ascii :=
  if d <? 10 then ascii_of_N (Z.to_N (48 + d))
  else ascii_of_N (Z.to_N (87 + d)).

(** [%02x] of an [u_char]: two digits, lower case. *)
Definition hex2 (b : Z) (rest : string) : string :=
  String (hex_digit ((b mod 256) / 16))
    (String (hex_digit ((b mod 256) mod 16)) rest).

Section Report.
(** The text that the C library's [ether_ntoa_r] stores for an
    address; it is not given the size of the buffer. *)
Variable ether_ntoa : list Z -> string.

Definition ether_ntoa_r (a : list Z) : buffer := Holds (ether_ntoa a).

Definition PppoeOriginated (l : Link) : originate :=
  if incoming (lnk_info l) then LINK_ORIGINATE_REMOTE
  else LINK_ORIGINATE_LOCAL.

Definition PppoeIsSync (l : Link) : Z := 1.

Definition PppoePeerMacAddr (l : Link) (buf_len : nat) : Z * buffer :=
  let pppoe := lnk_info l in
  if Nat.ltb buf_len 18 then (1, Untouched)
  else (0, ether_ntoa_r (peeraddr pppoe)).

Definition PppoePeerIface (l : Link) (buf_len : nat) : Z * buffer :=
  let pppoe := lnk_info l in
  (0, strlcpy_buf (iface pppoe) buf_len).

(** The [switch (pppoe->mac_format)], which [PppoeCallingNum] and
    [PppoeCalledNum] have word for word in common. *)
Definition mac_switch (pppoe : pppoeinfo) (buf_len : nat) : Z * buffer :=
  let a i := nth i (peeraddr pppoe) 0 in
  if mac_format pppoe =? MAC_UNFORMATTED then
    (0, snprintf_buf
          (hex2 (a 0%nat) (hex2 (a 1%nat) (hex2 (a 2%nat)
             (hex2 (a 3%nat) (hex2 (a 4%nat) (hex2 (a 5%nat)
                EmptyString))))))
          buf_len)
  else if mac_format pppoe =? MAC_UNIX_LIKE then
    (0, ether_ntoa_r (peeraddr pppoe))
  else if mac_format pppoe =? MAC_CISCO_LIKE then
    (0, snprintf_buf
          (hex2 (a 0%nat) (hex2 (a 1%nat) (String "."
             (hex2 (a 2%nat) (hex2 (a 3%nat) (String "."
                (hex2 (a 4%nat) (hex2 (a 5%nat) EmptyString))))))))
          buf_len)
  else if mac_format pppoe =? MAC_IETF then
    (0, snprintf_buf
          (hex2 (a 0%nat) (String "-" (hex2 (a 1%nat) (String "-"
             (hex2 (a 2%nat) (String "-" (hex2 (a 3%nat) (String "-"
                (hex2 (a 4%nat) (String "-" (hex2 (a 5%nat)
                   EmptyString)))))))))))
          buf_len)
  else (-1, sprintf_buf "unknown").

Definition PppoeCallingNum (l : Link) (buf_len : nat) : Z * buffer :=
  let pppoe := lnk_info l in
  if incoming pppoe then mac_switch pppoe buf_len
  else (0, strlcpy_buf (real_session pppoe) buf_len).

Definition PppoeCalledNum (l : Link) (buf_len : nat) : Z * buffer :=
  let pppoe := lnk_info l in
  if negb (incoming pppoe) then mac_switch pppoe buf_len
  else (0, strlcpy_buf (real_session pppoe) buf_len).

Definition PppoeSelfName (l : Link) (buf_len : nat) : Z * buffer :=
  let pppoe := lnk_info l in
  (0, strlcpy_buf (agent_cid pppoe) buf_len).

Definition PppoePeerName (l : Link) (buf_len : nat) : Z * buffer :=
  let pppoe := lnk_info l in
  (0, strlcpy_buf (agent_rid pppoe) buf_len).

(** [conf_mtu] and [conf_mru] are [l->conf.mtu] and [l->conf.mru], which
    belong to the link layer; [l->type->mtu] and [l->type->mru] are
    those of [gPppoePhysType]. *)
Definition PppoeGetMtu (l : Link) (conf : Z) (conf_mtu : Z) : Z :=
  let pppoe := lnk_info l in
  if (0 <? max_payload pppoe) && mp_reply pppoe then max_payload pppoe
  else if conf =? 0 then PPPOE_MTU
  else conf_mtu.

Definition PppoeGetMru (l : Link) (conf : Z) (conf_mru : Z) : Z :=
  let pppoe := lnk_info l in
  if (0 <? max_payload pppoe) && mp_reply pppoe then max_payload pppoe
  else if conf =? 0 then PPPOE_MRU
  else conf_mru.

End Report.

End PppoeReport.

(* ===================================================================== *)
(** * Tag iteration stays inside the declared length                      *)
(* ===================================================================== *)

Section TagBounds.
Import Libc TagCodec.

Variable m : mem.

Definition within (lo hi : Z) (loads : list Z) : Prop :=
  Forall (fun a => lo <= a < hi) loads.

Lemma within_app lo hi l1 l2 :
  within lo hi l1 -> within lo hi l2 -> within lo hi (l1 ++ l2).
Proof. unfold within. intros. apply Forall_app; auto. Qed.

Lemma within_load16 lo hi a :
  lo <= a -> a + 2 <= hi -> within lo hi (snd (load16 m a)).
Proof.
  intros. unfold within, load16, load8; simpl.
  repeat constructor; lia.
Qed.

Lemma within_load32 lo hi a :
  lo <= a -> a + 4 <= hi -> within lo hi (snd (load32 m a)).
Proof.
  intros. unfold within, load32, load16, load8; simpl.
  repeat constructor; lia.
Qed.

Lemma get_tag_loop_within endp idx pt lo :
  lo <= pt -> within lo endp (snd (get_tag_loop m endp idx pt)).
Proof.
  funelim (get_tag_loop m endp idx pt); intros Hlo; cbn [snd];
    unfold tag_len, tag_type, sizeof_pppoe_tag in *.
  - constructor.
  - apply within_load16; lia.
  - apply within_app; apply within_load16; lia.
  - pose proof (load16_nonneg m (pt + 2)).
    apply within_app; [ apply within_load16; lia | ].
    apply within_app; [ apply within_load16; lia | ].
    apply H. lia.
Qed.

Lemma get_tag_loop_found endp idx pt lo r :
  lo <= pt -> fst (get_tag_loop m endp idx pt) = Some r ->
  lo <= r /\ r + sizeof_pppoe_tag + fst (tag_len m r) <= endp
  /\ fst (tag_type m r) = idx.
Proof.
  funelim (get_tag_loop m endp idx pt); intros Hlo Hr; cbn [fst] in Hr;
    try discriminate.
  - injection Hr as <-. repeat split; [lia | lia | assumption].
  - pose proof (load16_nonneg m (pt + 2)).
    apply H; [ unfold tag_len, sizeof_pppoe_tag in *; lia | assumption ].
Qed.

Lemma print_tags_loop_inside endp pt lo :
  lo <= pt ->
  Forall (fun tv => lo + sizeof_pppoe_tag <= tv_value tv
                    /\ 0 <= tv_len tv
                    /\ tv_value tv + tv_len tv <= endp)
         (print_tags_loop m endp pt).
Proof.
  funelim (print_tags_loop m endp pt); intros Hlo; try constructor.
  - cbn [tv_value tv_len]. pose proof (load16_nonneg m (pt + 2)).
    unfold tag_len, sizeof_pppoe_tag in *. lia.
  - pose proof (load16_nonneg m (pt + 2)).
    assert (Hn : lo <= pt + sizeof_pppoe_tag + fst (tag_len m pt))
      by (unfold tag_len, sizeof_pppoe_tag in *; lia).
    specialize (H lo Hn).
    eapply Forall_impl; [ exact H | ]. simpl. intros tv Htv. exact Htv.
Qed.

Lemma print_tags_loop_eq endp pt :
  print_tags_loop m endp pt =
  if Z_le_dec (pt + sizeof_pppoe_tag) endp then
    if Z_gt_dec (pt + sizeof_pppoe_tag + fst (tag_len m pt)) endp then []
    else {| tv_type := fst (tag_type m pt);
            tv_value := pt + sizeof_pppoe_tag;
            tv_len := fst (tag_len m pt) |}
         :: print_tags_loop m endp
              (pt + sizeof_pppoe_tag + fst (tag_len m pt))
  else [].
Proof.
  funelim (print_tags_loop m endp pt);
    try rewrite Heq0; rewrite Heq; reflexivity.
Qed.

(** [get_tag] returns the first tag of the iteration that has the
    wanted type. *)
Lemma get_tag_loop_find endp idx pt :
  fst (get_tag_loop m endp idx pt)
  = option_map (fun tv => tv_value tv - sizeof_pppoe_tag)
      (List.find (fun tv => tv_type tv =? idx) (print_tags_loop m endp pt)).
Proof.
  funelim (get_tag_loop m endp idx pt); rewrite print_tags_loop_eq;
    rewrite ?Heq1, ?Heq0, ?Heq; cbn [fst]; try reflexivity.
  - cbn [List.find tv_type]. rewrite e, Z.eqb_refl.
    cbn [option_map tv_value]. f_equal. lia.
  - cbn [List.find tv_type].
    rewrite (proj2 (Z.eqb_neq _ _) n0). exact H.
Qed.

Lemma get_tag_loop_overflow endp idx pt :
  pt + sizeof_pppoe_tag <= endp ->
  pt + sizeof_pppoe_tag + fst (tag_len m pt) > endp ->
  get_tag_loop m endp idx pt = (None, snd (tag_len m pt))
  /\ print_tags_loop m endp pt = [].
Proof.
  intros H1 H2. split.
  - funelim (get_tag_loop m endp idx pt);
      solve [ reflexivity | contradiction ].
  - funelim (print_tags_loop m endp pt);
      solve [ reflexivity | contradiction ].
Qed.

Lemma vs_match_within lo hi idx pt :
  lo <= pt ->
  pt + sizeof_pppoe_tag + fst (tag_len m pt) <= hi ->
  within lo hi (snd (vs_match m idx pt)).
Proof.
  intros Hlo Hhi. pose proof (load16_nonneg m (pt + 2)) as Hn.
  unfold vs_match, tag_len, tag_type, sizeof_pppoe_tag in *.
  destruct (fst (load16 m pt) =? PTT_VENDOR); cbn [snd];
    [ | apply within_load16; lia ].
  destruct (4 <=? fst (load16 m (pt + 2))) eqn:E; cbn [snd].
  - apply Z.leb_le in E.
    apply within_app; [ apply within_load16; lia | ].
    apply within_app; [ apply within_load16; lia | ].
    apply within_load32; lia.
  - apply within_app; apply within_load16; lia.
Qed.

Lemma get_vs_tag_loop_within endp idx pt lo :
  lo <= pt -> within lo endp (snd (get_vs_tag_loop m endp idx pt)).
Proof.
  funelim (get_vs_tag_loop m endp idx pt); intros Hlo; cbn [snd].
  - constructor.
  - unfold tag_len, sizeof_pppoe_tag in *. apply within_load16; lia.
  - apply within_app;
      [ unfold tag_len, sizeof_pppoe_tag in *; apply within_load16; lia | ].
    apply vs_match_within; lia.
  - pose proof (load16_nonneg m (pt + 2)).
    apply within_app;
      [ unfold tag_len, sizeof_pppoe_tag in *; apply within_load16; lia | ].
    apply within_app; [ apply vs_match_within; lia | ].
    apply H. unfold tag_len, sizeof_pppoe_tag in *. lia.
Qed.

(** The tag returned by [get_vs_tag] is a vendor tag of the wanted
    vendor, at least four bytes long and inside the declared length. *)
Lemma get_vs_tag_loop_found endp idx pt lo r :
  lo <= pt -> fst (get_vs_tag_loop m endp idx pt) = Some r ->
  lo <= r /\ r + sizeof_pppoe_tag + fst (tag_len m r) <= endp
  /\ 4 <= fst (tag_len m r).
Proof.
  funelim (get_vs_tag_loop m endp idx pt); intros Hlo Hr; cbn [fst] in Hr;
    try discriminate.
  - injection Hr as <-. repeat split; [ lia | lia | ].
    unfold vs_match in Heq.
    destruct (fst (tag_type m pt) =? PTT_VENDOR); [ | discriminate ].
    destruct (4 <=? fst (tag_len m pt)) eqn:E; [ | discriminate ].
    apply Z.leb_le in E. exact E.
  - pose proof (load16_nonneg m (pt + 2)).
    apply H; [ unfold tag_len, sizeof_pppoe_tag in *; lia | assumption ].
Qed.

End TagBounds.

(** C1.  Whatever the memory holds and whatever the header's length field
    [L] says, every load of [get_tag] is at one of the [6 + L] bytes that
    start at the PPPoE header; a tag that is returned, and every tag the
    iteration visits, lies with its whole value inside that range;
    [get_tag] returns the first visited tag of the wanted type; a tag
    whose value would run past the range ends the iteration with nothing
    returned for it or after it; and with [L = 0] no tag is visited, no
    tag header is loaded and the result is NULL. *)
Theorem get_tag_stays_in_length (m : TagCodec.mem) (ph idx : Z) :
  within ph (ph + 6 + fst (TagCodec.hdr_length m ph))
    (snd (TagCodec.get_tag m ph idx))
  /\ (forall pt, fst (TagCodec.get_tag m ph idx) = Some pt ->
        ph + 6 <= pt
        /\ pt + 4 + fst (TagCodec.tag_len m pt)
             <= ph + 6 + fst (TagCodec.hdr_length m ph)
        /\ fst (TagCodec.tag_type m pt) = idx)
  /\ Forall (fun tv => ph + 6 + 4 <= TagCodec.tv_value tv
                       /\ 0 <= TagCodec.tv_len tv
                       /\ TagCodec.tv_value tv + TagCodec.tv_len tv
                            <= ph + 6 + fst (TagCodec.hdr_length m ph))
       (TagCodec.print_tags m ph)
  /\ fst (TagCodec.get_tag m ph idx)
     = option_map (fun tv => TagCodec.tv_value tv - 4)
         (List.find (fun tv => TagCodec.tv_type tv =? idx)
            (TagCodec.print_tags m ph))
  /\ (forall pt,
        pt + 4 <= ph + 6 + fst (TagCodec.hdr_length m ph) ->
        pt + 4 + fst (TagCodec.tag_len m pt)
          > ph + 6 + fst (TagCodec.hdr_length m ph) ->
        TagCodec.get_tag_loop m (ph + 6 + fst (TagCodec.hdr_length m ph)) idx pt
          = (None, snd (TagCodec.tag_len m pt))
        /\ TagCodec.print_tags_loop m
             (ph + 6 + fst (TagCodec.hdr_length m ph)) pt = [])
  /\ (fst (TagCodec.hdr_length m ph) = 0 ->
        TagCodec.get_tag m ph idx = (None, [ph + 4; ph + 4 + 1])
        /\ TagCodec.print_tags m ph = []).
Proof.
  unfold TagCodec.get_tag, TagCodec.print_tags, TagCodec.sizeof_pppoe_hdr,
    TagCodec.hdr_length.
  cbn [fst snd].
  pose proof (TagCodec.load16_nonneg m (ph + 4)) as HL.
  repeat split.
  - apply within_app.
    + apply within_load16; lia.
    + apply get_tag_loop_within. lia.
  - eapply get_tag_loop_found with (lo := ph + 6) in H; [ | lia ]. tauto.
  - eapply get_tag_loop_found with (lo := ph + 6) in H; [ | lia ].
    unfold TagCodec.sizeof_pppoe_tag in H. tauto.
  - eapply get_tag_loop_found with (lo := ph + 6) in H; [ | lia ]. tauto.
  - apply (print_tags_loop_inside m _ _ (ph + 6)). lia.
  - apply get_tag_loop_find.
  - apply get_tag_loop_overflow; assumption.
  - apply get_tag_loop_overflow; assumption.
  - rewrite H. simp get_tag_loop.
    destruct (Z_le_dec (ph + 6 + TagCodec.sizeof_pppoe_tag) (ph + 6 + 0))
      as [Hle | Hgt]; [ unfold TagCodec.sizeof_pppoe_tag in Hle; lia | ].
    reflexivity.
  - rewrite H. rewrite print_tags_loop_eq.
    destruct (Z_le_dec (ph + 6 + TagCodec.sizeof_pppoe_tag) (ph + 6 + 0))
      as [Hle | Hgt]; [ unfold TagCodec.sizeof_pppoe_tag in Hle; lia | ].
    reflexivity.
Qed.

Lemma get_tag_stays_in_length_witness :
  (14 + 6 <= 33
   /\ 33 + 4 + fst (TagCodec.tag_len Demo.bbf_mem 33)
        <= 14 + 6 + fst (TagCodec.hdr_length Demo.bbf_mem 14)
   /\ fst (TagCodec.tag_type Demo.bbf_mem 33) = TagCodec.PTT_SRV_NAME)
  /\ (TagCodec.get_tag_loop
        (TagCodec.mem_of_bytes [17; 9; 0; 0; 0; 4; 1; 1; 0; 100])
        (0 + 6
         + fst (TagCodec.hdr_length
                  (TagCodec.mem_of_bytes [17; 9; 0; 0; 0; 4; 1; 1; 0; 100])
                  0))
        TagCodec.PTT_SRV_NAME 6
      = (None,
         snd (TagCodec.tag_len
                (TagCodec.mem_of_bytes [17; 9; 0; 0; 0; 4; 1; 1; 0; 100]) 6))
      /\ TagCodec.print_tags_loop
           (TagCodec.mem_of_bytes [17; 9; 0; 0; 0; 4; 1; 1; 0; 100])
           (0 + 6
            + fst (TagCodec.hdr_length
                     (TagCodec.mem_of_bytes [17; 9; 0; 0; 0; 4; 1; 1; 0; 100])
                     0)) 6 = [])
  /\ (TagCodec.get_tag (TagCodec.mem_of_bytes []) 0 TagCodec.PTT_SRV_NAME
      = (None, [0 + 4; 0 + 4 + 1])
      /\ TagCodec.print_tags (TagCodec.mem_of_bytes []) 0 = []).
Proof.
  split; [ | split ].
  - apply (proj1 (proj2 (get_tag_stays_in_length Demo.bbf_mem 14
                           TagCodec.PTT_SRV_NAME)) 33).
    vm_compute. reflexivity.
  - apply (proj1 (proj2 (proj2 (proj2 (proj2
             (get_tag_stays_in_length
                (TagCodec.mem_of_bytes [17; 9; 0; 0; 0; 4; 1; 1; 0; 100])
                0 TagCodec.PTT_SRV_NAME))))) 6).
    + vm_compute. discriminate.
    + vm_compute. reflexivity.
  - apply (proj2 (proj2 (proj2 (proj2 (proj2
             (get_tag_stays_in_length (TagCodec.mem_of_bytes []) 0
                TagCodec.PTT_SRV_NAME)))))).
    vm_compute. reflexivity.
Defined.

Section ScanReturns.
Import Libc TagCodec.

Lemma size_t_of_small (z : Z) : 0 <= z < 2 ^ 32 -> size_t_of z = z.
Proof.
  intros H. unfold size_t_of, SIZE_MOD. apply Z.mod_small. lia.
Qed.

(** The loop over the sub-TLVs moves on by two bytes at least, so it
    ends within the rounds that [bbf_scan] allows. *)
Lemma bbf_loop_returns (fuel : nat) (cs : bool) (m : mem) (b len pos : Z)
    (st : agent_ids) :
  0 <= pos <= len + 64 -> 0 <= len < 2 ^ 16 ->
  (Z.to_nat (len - pos) < fuel)%nat ->
  bbf_loop fuel cs m b len pos st <> None.
Proof.
  revert pos st. induction fuel as [ | fuel IH ]; intros pos st Hp Hl Hf;
    [ lia | ].
  cbn [bbf_loop]. rewrite (size_t_of_small (pos + 1)) by lia.
  destruct (pos + 1 <=? len) eqn:E; [ | discriminate ].
  apply Z.leb_le in E.
  destruct (size_t_of (fst (load_char cs m (b + pos + 1)))
            >? size_t_of (len - pos - 2)); [ discriminate | ].
  cbv zeta.
  set (len1 := if size_t_of (fst (load_char cs m (b + pos + 1)))
                  >=? sizeof_agent_id
               then sizeof_agent_id - 1
               else size_t_of (fst (load_char cs m (b + pos + 1)))).
  assert (H1 : 0 <= len1 <= 63).
  { subst len1. unfold sizeof_agent_id.
    pose proof (Z.mod_pos_bound (fst (load_char cs m (b + pos + 1)))
                  SIZE_MOD ltac:(reflexivity)) as Hm.
    fold (size_t_of (fst (load_char cs m (b + pos + 1)))) in Hm.
    destruct (size_t_of (fst (load_char cs m (b + pos + 1))) >=? 64) eqn:E1;
      [ lia | ].
    rewrite Z.geb_leb in E1. apply Z.leb_gt in E1. lia. }
  rewrite (size_t_of_small (pos + 2 + len1)) by lia.
  apply IH; lia.
Qed.

Lemma bbf_scan_returns (cs : bool) (m : mem) (ph : Z) :
  bbf_scan cs m ph <> None.
Proof.
  unfold bbf_scan. cbv zeta.
  destruct (fst (get_vs_tag m ph BBF_VENDOR)) as [tag | ] eqn:E;
    [ | discriminate ].
  unfold get_vs_tag in E. cbn [fst] in E.
  apply (get_vs_tag_loop_found m _ _ _ (ph + sizeof_pppoe_hdr)) in E
    as (_ & _ & H4); [ | lia ].
  assert (H16 : fst (tag_len m tag) < 2 ^ 16).
  { unfold tag_len, load16, load8. cbn [fst].
    pose proof (Z.mod_pos_bound (m (tag + 2)) 256 ltac:(lia)).
    pose proof (Z.mod_pos_bound (m (tag + 2 + 1)) 256 ltac:(lia)). lia. }
  rewrite (size_t_of_small (fst (tag_len m tag) - 4)) by lia.
  apply bbf_loop_returns; lia.
Qed.

End ScanReturns.

(* ===================================================================== *)
(** * Hook names: printing a link id and reading it back                  *)
(* ===================================================================== *)

Section HookNames.
Import Libc.

Lemma append_assoc (a b c : string) :
  String.append (String.append a b) c = String.append a (String.append b c).
Proof. induction a; simpl; congruence. Qed.

Lemma append_length (a b : string) :
  String.length (String.append a b) = (String.length a + String.length b)%nat.
Proof. induction a; simpl; congruence. Qed.

Lemma truncate_all (n : nat) (s : string) :
  (String.length s <= n)%nat -> truncate n s = s.
Proof.
  revert n. induction s as [ | c s IH ]; intros [ | n ] H; simpl in *;
    try reflexivity; try lia.
  f_equal. apply IH. lia.
Qed.

Lemma truncate_nonempty (n : nat) (s : string) :
  s <> EmptyString -> truncate (S n) s <> EmptyString.
Proof. destruct s; simpl; congruence. Qed.

Lemma strncmp_eq_prefix (p s : string) :
  strncmp_eq (String.append p s) p (String.length p) = true.
Proof.
  induction p as [ | c p IH ]; simpl; [ reflexivity | ].
  rewrite Ascii.eqb_refl. exact IH.
Qed.

Lemma advance_prefix (p s : string) :
  advance (String.length p) (String.append p s) = s.
Proof. induction p; simpl; auto. Qed.

(** Digits. *)

Lemma char_code_digit (d : Z) :
  0 <= d < 10 -> char_code (digit_char d) = 48 + d.
Proof.
  intros H. unfold char_code, digit_char.
  assert (E : d = 0 \/ d = 1 \/ d = 2 \/ d = 3 \/ d = 4 \/ d = 5 \/ d = 6
              \/ d = 7 \/ d = 8 \/ d = 9) by lia.
  repeat (destruct E as [-> | E]; [ reflexivity | ]). subst. reflexivity.
Qed.

Lemma isdigit_digit (d : Z) : 0 <= d < 10 -> isdigit (digit_char d) = true.
Proof.
  intros H. unfold isdigit. rewrite char_code_digit by assumption.
  apply andb_true_iff. split; apply Z.leb_le; lia.
Qed.

Lemma isspace_digit (d : Z) : 0 <= d < 10 -> isspace (digit_char d) = false.
Proof.
  intros H. unfold isspace. rewrite char_code_digit by assumption.
  apply orb_false_iff. split.
  - apply Z.eqb_neq. lia.
  - apply andb_false_iff. right. apply Z.leb_gt. lia.
Qed.

Lemma utoa_fuel_app (f : nat) (n : Z) (acc : string) :
  utoa_fuel f n acc = String.append (utoa_fuel f n EmptyString) acc.
Proof.
  revert n acc. induction f as [ | f IH ]; intros n acc; simpl;
    [ reflexivity | ].
  destruct (n <? 10); [ reflexivity | ].
  rewrite (IH (n / 10) (String _ acc)).
  rewrite (IH (n / 10) (String _ EmptyString)).
  rewrite append_assoc. reflexivity.
Qed.

Lemma utoa_fuel_length (f : nat) (n : Z) :
  (String.length (utoa_fuel f n EmptyString) <= f)%nat.
Proof.
  revert n. induction f as [ | f IH ]; intros n; simpl; [ lia | ].
  destruct (n <? 10); simpl; [ lia | ].
  rewrite utoa_fuel_app, append_length. simpl.
  specialize (IH (n / 10)). lia.
Qed.

(** The first character printed is a digit. *)
Lemma utoa_fuel_head (f : nat) (n : Z) (acc : string) :
  0 <= n ->
  exists d rest, 0 <= d < 10
                 /\ utoa_fuel (S f) n acc = String (digit_char d) rest.
Proof.
  revert n acc. induction f as [ | f IH ]; intros n acc Hn.
  - simpl. destruct (n <? 10) eqn:E.
    + apply Z.ltb_lt in E. eauto.
    + exists (n mod 10), acc. split; [ | reflexivity ].
      apply Z.mod_pos_bound. lia.
  - cbn [utoa_fuel]. destruct (n <? 10) eqn:E.
    + apply Z.ltb_lt in E. eauto.
    + apply (IH (n / 10)). apply Z.div_pos; lia.
Qed.

(** Reading back what was printed. *)
Lemma strtol_digits_utoa (f : nat) (n : Z) (acc : string) :
  0 <= n < 10 ^ Z.of_nat f ->
  exists k, 0 <= k
    /\ forall a, strtol_digits a (utoa_fuel f n acc)
                 = strtol_digits (a * 10 ^ k + n) acc.
Proof.
  revert n acc. induction f as [ | f IH ]; intros n acc Hn.
  - simpl in Hn. exists 0. split; [ lia | ]. intros a. simpl.
    f_equal. lia.
  - cbn [utoa_fuel]. destruct (n <? 10) eqn:E.
    + apply Z.ltb_lt in E. exists 1. split; [ lia | ]. intros a.
      cbn [strtol_digits]. rewrite isdigit_digit by lia.
      rewrite char_code_digit by lia. f_equal. lia.
    + apply Z.ltb_ge in E.
      assert (Hm : 0 <= n mod 10 < 10) by (apply Z.mod_pos_bound; lia).
      assert (Hd : 0 <= n / 10 < 10 ^ Z.of_nat f).
      { split; [ apply Z.div_pos; lia | ].
        apply Z.div_lt_upper_bound; [ lia | ].
        replace (Z.of_nat (S f)) with (Z.of_nat f + 1) in Hn by lia.
        rewrite Z.pow_add_r in Hn by lia. lia. }
      destruct (IH (n / 10) (String (digit_char (n mod 10)) acc) Hd)
        as (k & Hk & IHk).
      exists (k + 1). split; [ lia | ]. intros a.
      rewrite IHk. cbn [strtol_digits]. rewrite isdigit_digit by lia.
      rewrite char_code_digit by lia. f_equal.
      rewrite Z.pow_add_r by lia.
      pose proof (Z.div_mod n 10). lia.
Qed.

Lemma strtol_utoa (n : Z) :
  0 <= n < 2 ^ 31 -> strtol (utoa n EmptyString) = (n, EmptyString).
Proof.
  intros Hn. unfold strtol, utoa.
  destruct (utoa_fuel_head 9 n EmptyString) as (d & rest & Hd & E);
    [ lia | ].
  assert (Hsp : skip_space (utoa_fuel 10 n EmptyString)
                = utoa_fuel 10 n EmptyString).
  { rewrite E. simpl. rewrite isspace_digit by assumption. reflexivity. }
  rewrite Hsp.
  assert (Hsign : match utoa_fuel 10 n EmptyString with
                  | String "-" t => (true, t)
                  | String "+" t => (false, t)
                  | _ => (false, utoa_fuel 10 n EmptyString)
                  end = (false, utoa_fuel 10 n EmptyString)).
  { rewrite E.
    assert (Hc : char_code (digit_char d) = 48 + d)
      by (apply char_code_digit; assumption).
    remember (48 + d) as code eqn:Hcode.
    destruct (digit_char d) as [[] [] [] [] [] [] [] []];
      try reflexivity; vm_compute in Hc; lia. }
  rewrite Hsign.
  assert (Hsd : starts_with_digit (utoa_fuel 10 n EmptyString) = true).
  { rewrite E. simpl. apply isdigit_digit. assumption. }
  rewrite Hsd.
  destruct (strtol_digits_utoa 10 n EmptyString) as (k & Hk & Hrd);
    [ change (10 ^ Z.of_nat 10) with 10000000000; lia | ].
  rewrite Hrd. simpl. f_equal.
  replace (0 * 10 ^ k + n) with n by lia.
  unfold clamp_long, LONG_MIN, LONG_MAX.
  destruct (n <? - 2 ^ 63) eqn:E1; [ apply Z.ltb_lt in E1; lia | ].
  destruct (2 ^ 63 - 1 <? n) eqn:E2; [ apply Z.ltb_lt in E2; lia | ].
  reflexivity.
Qed.

Lemma int_of_long_small (n : Z) : - 2 ^ 31 <= n < 2 ^ 31 -> int_of_long n = n.
Proof.
  intros H. unfold int_of_long. rewrite Z.mod_small; lia.
Qed.

Lemma atoi_utoa (n : Z) : 0 <= n < 2 ^ 31 -> atoi (utoa n EmptyString) = n.
Proof.
  intros H. unfold atoi. rewrite strtol_utoa by assumption.
  apply int_of_long_small. simpl. lia.
Qed.

End HookNames.

(* ===================================================================== *)
(** * Running the state-passing functions                                 *)
(* ===================================================================== *)

Section Running.
Import Libc TagCodec Pppoe.

Context {A B : Type}.

Lemma bind_Ok (c : M A) (f : A -> M B) (w w1 : World) (a : A) :
  c w = Ok a w1 -> bind c f w = f a w1.
Proof. intros H. unfold bind. rewrite H. reflexivity. Qed.

Lemma bind_Fault (c : M A) (f : A -> M B) (w : World) (x : fault) :
  c w = Fault x -> bind c f w = Fault x.
Proof. intros H. unfold bind. rewrite H. reflexivity. Qed.

Lemma bind_bind {C : Type} (c : M A) (f : A -> M B) (g : B -> M C)
    (w : World) :
  bind (bind c f) g w = bind c (fun a => bind (f a) g) w.
Proof. unfold bind. destruct (c w); reflexivity. Qed.

Lemma bind_ret (a : A) (f : A -> M B) (w : World) : bind (ret a) f w = f a w.
Proof. reflexivity. Qed.

Lemma bind_inv (c : M A) (f : A -> M B) (w w' : World) (b : B) :
  bind c f w = Ok b w' ->
  exists a w1, c w = Ok a w1 /\ f a w1 = Ok b w'.
Proof.
  unfold bind. destruct (c w) as [a w1 | x]; [ eauto | discriminate ].
Qed.

End Running.

Section RunningLinks.
Import Libc TagCodec Pppoe.

Context {B : Type}.

Lemma bind_emit (e : event) (f : unit -> M B) (w : World) :
  bind (emit e) f w = f tt (set_trace (trace w ++ [e]) w).
Proof. reflexivity. Qed.

Lemma bind_now (f : nat -> M B) (w : World) :
  bind now f w = f (length (trace w)) w.
Proof. reflexivity. Qed.

Lemma bind_get (f : World -> M B) (w : World) : bind get f w = f w w.
Proof. reflexivity. Qed.

Lemma bind_modify (g : World -> World) (f : unit -> M B) (w : World) :
  bind (modify g) f w = f tt (g w).
Proof. reflexivity. Qed.

Lemma getLink_Ok (w : World) (k : nat) (l : Link) :
  gLinks w !! k = Some (Some l) -> getLink k w = Ok l w.
Proof. intros H. unfold getLink. rewrite H. reflexivity. Qed.

Lemma getLink_inv (w w' : World) (k : nat) (l : Link) :
  getLink k w = Ok l w' -> w' = w /\ gLinks w !! k = Some (Some l).
Proof.
  unfold getLink. destruct (gLinks w !! k) as [[l0 | ] | ];
    intros H; inversion H; subst; auto.
Qed.

Lemma modLink_Ok (w : World) (k : nat) (l : Link) (f : Link -> Link) :
  gLinks w !! k = Some (Some l) ->
  modLink k f w = Ok tt (set_gLinks (<[k := Some (f l)]> (gLinks w)) w).
Proof.
  intros H. unfold modLink. erewrite bind_Ok by (apply getLink_Ok; eauto).
  reflexivity.
Qed.

Lemma modInfo_Ok (w : World) (k : nat) (l : Link)
    (f : pppoeinfo -> pppoeinfo) :
  gLinks w !! k = Some (Some l) ->
  modInfo k f w
  = Ok tt (set_gLinks (<[k := Some (set_info (f (lnk_info l)) l)]> (gLinks w)) w).
Proof.
  intros H. unfold modInfo. erewrite bind_Ok by (apply getLink_Ok; eauto).
  reflexivity.
Qed.

Lemma getInfo_Ok (w : World) (k : nat) (l : Link) :
  gLinks w !! k = Some (Some l) -> getInfo k w = Ok (lnk_info l) w.
Proof.
  intros H. unfold getInfo. erewrite bind_Ok by (apply getLink_Ok; eauto).
  reflexivity.
Qed.

Lemma getIf_Ok (w : World) (p : nat) (e : PppoeIf) :
  PppoeIfs w !! p = Some e -> getIf p w = Ok e w.
Proof. intros H. unfold getIf. rewrite H. reflexivity. Qed.

Lemma parentOf_Ok (w : World) (k p : nat) (l : Link) (e : PppoeIf) :
  gLinks w !! k = Some (Some l) -> PIf (lnk_info l) = Some p ->
  PppoeIfs w !! p = Some e -> parentOf k w = Ok (p, e) w.
Proof.
  intros Hl Hp He. unfold parentOf.
  erewrite bind_Ok by (apply getInfo_Ok; eauto). rewrite Hp.
  erewrite bind_Ok by (apply getIf_Ok; eauto). reflexivity.
Qed.

Lemma modLink_inv (w w' : World) (k : nat) (f : Link -> Link) (a : unit) :
  modLink k f w = Ok a w' ->
  exists l, gLinks w !! k = Some (Some l)
            /\ w' = set_gLinks (<[k := Some (f l)]> (gLinks w)) w.
Proof.
  unfold modLink. intros H. apply bind_inv in H as (l & w1 & H1 & H2).
  apply getLink_inv in H1 as [-> Hl]. inversion H2. eauto.
Qed.

Lemma getInfo_inv (w w' : World) (k : nat) (pe : pppoeinfo) :
  getInfo k w = Ok pe w' ->
  w' = w /\ exists l, gLinks w !! k = Some (Some l) /\ pe = lnk_info l.
Proof.
  unfold getInfo. intros H. apply bind_inv in H as (l & w1 & H1 & H2).
  apply getLink_inv in H1 as [-> Hl]. inversion H2. subst. eauto.
Qed.

Lemma getIf_inv (w w' : World) (p : nat) (e : PppoeIf) :
  getIf p w = Ok e w' -> w' = w /\ PppoeIfs w !! p = Some e.
Proof.
  unfold getIf. destruct (PppoeIfs w !! p); intros H; inversion H; auto.
Qed.

(** The slot the host picks for a new link. *)
Lemma first_free_shift (ls : list (option Link)) (i : nat) :
  first_free ls i = (i + first_free ls 0)%nat.
Proof.
  revert i. induction ls as [ | [l | ] ls IH ]; intros i; simpl;
    [ lia | | lia ].
  rewrite (IH (S i)), (IH 1%nat). lia.
Qed.

Lemma first_free_le (ls : list (option Link)) :
  (first_free ls 0 <= length ls)%nat.
Proof.
  induction ls as [ | [l | ] ls IH ]; simpl; [ lia | | lia ].
  rewrite first_free_shift. lia.
Qed.

Lemma first_free_empty (ls : list (option Link)) (l : Link) :
  ls !! first_free ls 0 <> Some (Some l).
Proof.
  induction ls as [ | [l0 | ] ls IH ]; simpl; [ discriminate | | discriminate ].
  rewrite first_free_shift. simpl. exact IH.
Qed.

Lemma place_link_new (ls : list (option Link)) (l : Link) :
  place_link (first_free ls 0) l ls !! first_free ls 0 = Some (Some l).
Proof.
  unfold place_link. pose proof (first_free_le ls) as Hle.
  destruct (Nat.ltb (first_free ls 0) (length ls)) eqn:E.
  - apply Nat.ltb_lt in E. apply list_lookup_insert_eq. exact E.
  - apply Nat.ltb_ge in E.
    assert (E' : first_free ls 0 = length ls) by lia. rewrite E'.
    rewrite lookup_app_r by lia. rewrite Nat.sub_diag. reflexivity.
Qed.

Lemma place_link_old (ls : list (option Link)) (l x : Link) (j : nat) :
  ls !! j = Some (Some x) ->
  place_link (first_free ls 0) l ls !! j = Some (Some x).
Proof.
  intros Hj. unfold place_link.
  destruct (Nat.ltb (first_free ls 0) (length ls)).
  - rewrite list_lookup_insert_ne; [ exact Hj | ].
    intros E. rewrite <- E in Hj. exact (first_free_empty _ _ Hj).
  - apply lookup_app_l_Some. exact Hj.
Qed.

Lemma modIf_inv (w w' : World) (p : nat) (f : PppoeIf -> PppoeIf) (a : unit) :
  modIf p f w = Ok a w' ->
  exists e, PppoeIfs w !! p = Some e
            /\ w' = set_PppoeIfs (<[p := f e]> (PppoeIfs w)) w.
Proof.
  unfold modIf. intros H. apply bind_inv in H as (e & w1 & H1 & H2).
  apply getIf_inv in H1 as [-> He]. inversion H2. eauto.
Qed.

Lemma modIf_Ok (w : World) (p : nat) (e : PppoeIf) (f : PppoeIf -> PppoeIf) :
  PppoeIfs w !! p = Some e ->
  modIf p f w = Ok tt (set_PppoeIfs (<[p := f e]> (PppoeIfs w)) w).
Proof.
  intros H. unfold modIf. erewrite bind_Ok by (apply getIf_Ok; eauto).
  reflexivity.
Qed.

Lemma lookup_updated_if (ls : list PppoeIf) (p : nat) (x y : PppoeIf) :
  ls !! p = Some x -> <[p := y]> ls !! p = Some y.
Proof.
  intros H. apply list_lookup_insert_eq. eapply lookup_lt_Some. eauto.
Qed.

Lemma place_link_inv (ls : list (option Link)) (l x : Link) (j : nat) :
  place_link (first_free ls 0) l ls !! j = Some (Some x) ->
  j = first_free ls 0 /\ x = l \/ ls !! j = Some (Some x).
Proof.
  unfold place_link. pose proof (first_free_le ls) as Hle.
  destruct (Nat.ltb (first_free ls 0) (length ls)) eqn:E; intros H.
  - apply Nat.ltb_lt in E.
    destruct (decide (first_free ls 0 = j)) as [<- | Hne].
    + rewrite list_lookup_insert_eq in H by assumption.
      inversion H. auto.
    + rewrite list_lookup_insert_ne in H by assumption. auto.
  - apply Nat.ltb_ge in E.
    apply lookup_app_Some in H as [H | [Hge H]]; [ auto | ].
    destruct (j - length ls)%nat eqn:Ej; [ | discriminate ].
    inversion H. left. split; [ lia | reflexivity ].
Qed.

Lemma place_link_again (ls : list (option Link)) (l x : Link) :
  <[first_free ls 0 := Some x]> (place_link (first_free ls 0) l ls)
  = place_link (first_free ls 0) x ls.
Proof.
  unfold place_link. pose proof (first_free_le ls) as Hle.
  destruct (Nat.ltb (first_free ls 0) (length ls)) eqn:E.
  - apply list_insert_insert_eq.
  - apply Nat.ltb_ge in E.
    assert (E' : first_free ls 0 = length ls) by lia. rewrite E'.
    replace (length ls) with (length ls + 0)%nat at 1 by lia.
    rewrite insert_app_r. reflexivity.
Qed.

(** A slot that holds a link still holds one after an update. *)
Lemma lookup_updated (ls : list (option Link)) (k : nat) (x y : option Link) :
  ls !! k = Some x -> <[k := y]> ls !! k = Some y.
Proof.
  intros H. apply list_lookup_insert_eq. eapply lookup_lt_Some. eauto.
Qed.

End RunningLinks.

(** Symbolic execution of a sequence: the state is kept as an explicit
    record, calls whose arguments are known are run, repeated updates of
    one slot are merged. *)
Ltac world_norm :=
  cbn [Pppoe.gLinks Pppoe.PppoeIfs Pppoe.heap Pppoe.gNgEtherLoaded Pppoe.trace
       Pppoe.set_gLinks Pppoe.set_PppoeIfs Pppoe.set_heap
       Pppoe.set_gNgEtherLoaded Pppoe.set_trace fst snd] in *;
  rewrite ?list_insert_insert_eq.

Ltac lookup_solve :=
  world_norm;
  first [ eassumption
        | eapply lookup_updated; eassumption
        | eapply lookup_updated_if; eassumption
        | apply list_lookup_insert_eq; eapply lookup_lt_Some; eassumption ].

Ltac run_step :=
  first
    [ rewrite bind_bind
    | rewrite bind_ret
    | rewrite bind_emit
    | rewrite bind_now
    | rewrite bind_get
    | rewrite bind_modify
    | erewrite bind_Ok by (eapply getLink_Ok; lookup_solve)
    | erewrite bind_Ok by (eapply getInfo_Ok; lookup_solve)
    | erewrite bind_Ok by (eapply modLink_Ok; lookup_solve)
    | erewrite bind_Ok by (eapply modInfo_Ok; lookup_solve)
    | erewrite bind_Ok by (eapply getIf_Ok; lookup_solve)
    | erewrite bind_Ok by (eapply modIf_Ok; lookup_solve)
    | erewrite bind_Ok by (eapply parentOf_Ok; lookup_solve) ];
  world_norm.

Ltac run_last :=
  first
    [ erewrite modLink_Ok by lookup_solve
    | erewrite modInfo_Ok by lookup_solve
    | erewrite modIf_Ok by lookup_solve
    | erewrite getLink_Ok by lookup_solve ];
  world_norm.

(** Inversion of a run of a call that cannot fail. *)
Ltac prim_inv H :=
  cbv [Pppoe.ret Pppoe.emit Pppoe.modify Pppoe.now Pppoe.get] in H;
  injection H as <- <-.

(* ===================================================================== *)
(** * Closing a link                                                      *)
(* ===================================================================== *)

Section Closing.
Import Libc TagCodec Pppoe.
Variable host : Host.

(** The private info after [PppoeDoClose] has run on a link that was
    not DOWN: everything that belongs to the session is cleared, the
    configuration and the parent are kept. *)
Definition info_after_DoClose (pe : pppoeinfo) : pppoeinfo :=
  {| iface := iface pe; path := path pe; hook := hook pe;
     session := session pe; acname := acname pe;
     max_payload := max_payload pe; mac_format := mac_format pe;
     peeraddr := [0; 0; 0; 0; 0; 0];
     real_session := EmptyString; agent_cid := EmptyString;
     agent_rid := EmptyString; incoming := false; opened := opened pe;
     mp_reply := false; PIf := PIf pe; plist := plist pe;
     connectTimer := false |}.

Definition link_after_DoClose (l : Link) : Link :=
  set_state PHYS_STATE_DOWN (set_info (info_after_DoClose (lnk_info l)) l).

Lemma phys_state_eqb_eq (a b : phys_state) :
  phys_state_eqb a b = true <-> a = b.
Proof. destruct a, b; simpl; split; intros H; congruence. Qed.

Lemma phys_state_eqb_neq (a b : phys_state) :
  phys_state_eqb a b = false <-> a <> b.
Proof. destruct a, b; simpl; split; intros H; congruence. Qed.

Lemma PppoeDoClose_down (w : World) (k : nat) (l : Link) :
  gLinks w !! k = Some (Some l) -> lnk_state l = PHYS_STATE_DOWN ->
  PppoeDoClose host k w = Ok tt w.
Proof.
  intros Hl Hs. unfold PppoeDoClose. run_step.
  rewrite Hs. reflexivity.
Qed.

Lemma PppoeDoClose_active (w : World) (k p : nat) (l : Link) (e : PppoeIf) :
  gLinks w !! k = Some (Some l) -> lnk_state l <> PHYS_STATE_DOWN ->
  PIf (lnk_info l) = Some p -> PppoeIfs w !! p = Some e ->
  PppoeDoClose host k w
  = Ok tt (set_trace
             (trace w ++ [EvNgFuncDisconnect (csock e) (addr_node (node_id e))
                            (session_hook_of host l);
                          EvTimerStop k])
             (set_gLinks (<[k := Some (link_after_DoClose l)]> (gLinks w)) w)).
Proof.
  intros Hl Hs Hp He. destruct w as [ls ifs hp ld tr]. world_norm.
  unfold PppoeDoClose. run_step.
  apply phys_state_eqb_neq in Hs. rewrite Hs.
  unfold NgFuncDisconnect, TimerStop.
  repeat run_step. run_last.
  rewrite <- app_assoc.
  destruct l as [? ? ? ? ? ? ? ? ? []]. reflexivity.
Qed.

Lemma PppoeDoClose_opened_commute (o : bool) (l : Link) :
  link_after_DoClose (set_info (set_opened o (lnk_info l)) l)
  = set_info (set_opened o (lnk_info (link_after_DoClose l)))
      (link_after_DoClose l).
Proof. destruct l as [? ? ? ? ? ? ? ? ? []]. reflexivity. Qed.

End Closing.

(** [PppoeClose] on a link that is DOWN, or that has its parent.  The
    flag [opened] is cleared.  When the link is DOWN nothing else
    happens: no call leaves the file and the rest of the state is as
    before.  When it is not DOWN and [pi->PIf] points to an entry of
    [PppoeIfs], the session hook is disconnected on the parent's control
    socket, the connect timer is stopped, [peeraddr] is zeroed,
    [real_session], [agent_cid] and [agent_rid] are emptied, [mp_reply]
    is cleared, the state is DOWN, and the host is told
    [PhysDown] with [STR_MANUALLY]; these are the only three calls. *)
Theorem PppoeClose_effect (host : Pppoe.Host) (w : Pppoe.World) (k : nat)
    (l : Pppoe.Link) :
  Pppoe.gLinks w !! k = Some (Some l) ->
  (Pppoe.lnk_state l = Pppoe.PHYS_STATE_DOWN ->
   Pppoe.PppoeClose host k w
   = Pppoe.Ok tt
       (Pppoe.set_gLinks
          (<[k := Some (Pppoe.set_info
                          (Pppoe.set_opened false (Pppoe.lnk_info l)) l)]>
             (Pppoe.gLinks w)) w))
  /\ (Pppoe.lnk_state l <> Pppoe.PHYS_STATE_DOWN ->
      forall (p : nat) (e : Pppoe.PppoeIf),
        Pppoe.PIf (Pppoe.lnk_info l) = Some p ->
        Pppoe.PppoeIfs w !! p = Some e ->
        exists l' : Pppoe.Link,
          Pppoe.PppoeClose host k w
          = Pppoe.Ok tt
              (Pppoe.set_trace
                 (Pppoe.trace w
                  ++ [Pppoe.EvNgFuncDisconnect (Pppoe.csock e)
                        (Pppoe.addr_node (Pppoe.node_id e))
                        (Pppoe.session_hook_of host l);
                      Pppoe.EvTimerStop k;
                      Pppoe.EvPhysDown k Pppoe.STR_MANUALLY])
                 (Pppoe.set_gLinks (<[k := Some l']> (Pppoe.gLinks w)) w))
          /\ Pppoe.lnk_state l' = Pppoe.PHYS_STATE_DOWN
          /\ Pppoe.opened (Pppoe.lnk_info l') = false
          /\ Pppoe.connectTimer (Pppoe.lnk_info l') = false
          /\ Pppoe.peeraddr (Pppoe.lnk_info l') = [0; 0; 0; 0; 0; 0]
          /\ Pppoe.real_session (Pppoe.lnk_info l') = EmptyString
          /\ Pppoe.agent_cid (Pppoe.lnk_info l') = EmptyString
          /\ Pppoe.agent_rid (Pppoe.lnk_info l') = EmptyString
          /\ Pppoe.mp_reply (Pppoe.lnk_info l') = false
          /\ l' = link_after_DoClose
                    (Pppoe.set_info
                       (Pppoe.set_opened false (Pppoe.lnk_info l)) l)).
Proof.
  intros Hl. split.
  - intros Hs. destruct w as [ls ifs hp ld tr]. world_norm.
    unfold Pppoe.PppoeClose. repeat run_step.
    cbn [Pppoe.lnk_state Pppoe.set_info]. rewrite Hs. reflexivity.
  - intros Hs p e Hp He.
    eexists. split; [ | repeat split ].
    destruct w as [ls ifs hp ld tr]. world_norm.
    unfold Pppoe.PppoeClose. repeat run_step.
    cbn [Pppoe.lnk_state Pppoe.set_info].
    rewrite (proj2 (phys_state_eqb_neq _ _) Hs).
    erewrite bind_Ok.
    2:{ eapply PppoeDoClose_active with (p := p) (e := e); world_norm.
        - eapply lookup_updated; eassumption.
        - exact Hs.
        - exact Hp.
        - exact He. }
    world_norm. unfold Pppoe.PhysDown, Pppoe.emit, Pppoe.modify. world_norm.
    rewrite <- app_assoc. reflexivity.
    all: reflexivity.
Qed.

(* ===================================================================== *)
(** * Invariants of the state-passing functions                           *)
(* ===================================================================== *)

Section Preservation.
Import Libc TagCodec Pppoe.

(** [c] keeps [I]: from a state in [I], a run of [c] that ends ends in
    [I].  (That runs do end is shown where it is claimed.) *)
Definition preserves (I : World -> Prop) {A : Type} (c : M A) : Prop :=
  forall w a w', I w -> c w = Ok a w' -> I w'.

Variable I : World -> Prop.

Lemma pres_ret {A} (a : A) : preserves I (ret a).
Proof. intros w a' w' HI H. inversion H. subst. exact HI. Qed.

Lemma pres_crash {A} (x : fault) : preserves I (@crash A x).
Proof. intros w a' w' HI H. discriminate. Qed.

Lemma pres_bind {A B} (c : M A) (f : A -> M B) :
  preserves I c -> (forall a, preserves I (f a)) -> preserves I (bind c f).
Proof.
  intros Hc Hf w b w' HI H.
  apply bind_inv in H as (a & w1 & H1 & H2).
  eapply Hf; [ | exact H2 ]. eapply Hc; eauto.
Qed.

Lemma pres_get : preserves I get.
Proof. intros w a w' HI H. inversion H. subst. exact HI. Qed.

Lemma pres_now : preserves I now.
Proof. intros w a w' HI H. inversion H. subst. exact HI. Qed.

Lemma pres_getLink k : preserves I (getLink k).
Proof. intros w a w' HI H. apply getLink_inv in H as [-> _]. exact HI. Qed.

Lemma pres_getInfo k : preserves I (getInfo k).
Proof.
  apply pres_bind; [ apply pres_getLink | intros; apply pres_ret ].
Qed.

Lemma pres_getIf p : preserves I (getIf p).
Proof.
  intros w a w' HI H. unfold getIf in H.
  destruct (PppoeIfs w !! p); inversion H. subst. exact HI.
Qed.

Lemma pres_getList a : preserves I (getList a).
Proof.
  intros w r w' HI H. unfold getList in H.
  destruct (heap w !! a) as [[pl | ] | ]; inversion H. subst. exact HI.
Qed.

Lemma pres_parentOf k : preserves I (parentOf k).
Proof.
  unfold parentOf. apply pres_bind; [ apply pres_getInfo | intros pi ].
  destruct (PIf pi); [ | apply pres_crash ].
  apply pres_bind; [ apply pres_getIf | intros; apply pres_ret ].
Qed.

Lemma pres_gLinks_at id : preserves I (gLinks_at id).
Proof.
  intros w a w' HI H. unfold gLinks_at in H.
  destruct ((id <? 0) || (Z.of_nat (length (gLinks w)) <=? id));
    [ discriminate | ].
  destruct (gLinks w !! Z.to_nat id); inversion H. subst. exact HI.
Qed.

(** Updates: what has to be shown of [I] for each kind of store. *)

Lemma pres_modify (g : World -> World) :
  (forall w, I w -> I (g w)) -> preserves I (modify g).
Proof. intros Hg w a w' HI H. inversion H. subst. auto. Qed.

Lemma pres_emit (e : event) :
  (forall w, I w -> I (set_trace (trace w ++ [e]) w)) -> preserves I (emit e).
Proof. intros H. apply pres_modify. exact H. Qed.

Lemma pres_modLink k (f : Link -> Link) :
  (forall w l, I w -> gLinks w !! k = Some (Some l) ->
               I (set_gLinks (<[k := Some (f l)]> (gLinks w)) w)) ->
  preserves I (modLink k f).
Proof.
  intros Hf w a w' HI H. unfold modLink in H.
  apply bind_inv in H as (l & w1 & H1 & H2).
  apply getLink_inv in H1 as [-> Hl]. inversion H2. subst. auto.
Qed.

Lemma pres_modInfo k (f : pppoeinfo -> pppoeinfo) :
  (forall w l, I w -> gLinks w !! k = Some (Some l) ->
               I (set_gLinks
                    (<[k := Some (set_info (f (lnk_info l)) l)]> (gLinks w)) w)) ->
  preserves I (modInfo k f).
Proof.
  intros Hf w a w' HI H. unfold modInfo in H.
  apply bind_inv in H as (l & w1 & H1 & H2).
  apply getLink_inv in H1 as [-> Hl]. inversion H2. subst. auto.
Qed.

Lemma pres_modIf p (f : PppoeIf -> PppoeIf) :
  (forall w e, I w -> PppoeIfs w !! p = Some e ->
               I (set_PppoeIfs (<[p := f e]> (PppoeIfs w)) w)) ->
  preserves I (modIf p f).
Proof.
  intros Hf w a w' HI H. unfold modIf in H.
  apply bind_inv in H as (e & w1 & H1 & H2).
  unfold getIf in H1. destruct (PppoeIfs w !! p) eqn:E; inversion H1. subst.
  inversion H2. subst. auto.
Qed.

Lemma pres_setList a (pl : option PppoeList) :
  (forall w, I w -> I (set_heap (<[a := pl]> (heap w)) w)) ->
  preserves I (setList a pl).
Proof. intros H. apply pres_modify. exact H. Qed.

Lemma pres_Malloc_list (pl : PppoeList) :
  (forall w, I w -> I (set_heap (heap w ++ [Some pl]) w)) ->
  preserves I (Malloc_list pl).
Proof. intros Hh w a w' HI H. inversion H. subst. auto. Qed.

End Preservation.

Section Hoare.
Import Libc TagCodec Pppoe.

Definition hoare {A : Type} (P : World -> Prop) (c : M A)
    (Q : A -> World -> Prop) : Prop :=
  forall w a w', P w -> c w = Ok a w' -> Q a w'.

Lemma hoare_bind {A B} (P : World -> Prop) (Q : A -> World -> Prop)
    (R : B -> World -> Prop) (c : M A) (f : A -> M B) :
  hoare P c Q -> (forall a, hoare (Q a) (f a) R) -> hoare P (bind c f) R.
Proof.
  intros Hc Hf w b w' HP H.
  apply bind_inv in H as (a & w1 & H1 & H2).
  eapply Hf; [ | exact H2 ]. eapply Hc; eauto.
Qed.

Lemma hoare_bind_pres {A B} (I : World -> Prop) (R : B -> World -> Prop)
    (c : M A) (f : A -> M B) :
  preserves I c -> (forall a, hoare I (f a) R) -> hoare I (bind c f) R.
Proof. intros Hc Hf. eapply hoare_bind; [ exact Hc | exact Hf ]. Qed.

Lemma hoare_pres {A} (I : World -> Prop) (c : M A) :
  preserves I c <-> hoare I c (fun _ => I).
Proof. split; intros H; exact H. Qed.

Lemma hoare_weaken {A} (P P' : World -> Prop) (Q Q' : A -> World -> Prop)
    (c : M A) :
  (forall w, P' w -> P w) -> (forall a w, Q a w -> Q' a w) ->
  hoare P c Q -> hoare P' c Q'.
Proof. intros HP HQ H w a w' HP' Hc. eauto. Qed.

End Hoare.

Section Fusion.
Import Libc TagCodec Pppoe.

Lemma preserves_ext (I : World -> Prop) {A} (c c' : M A) :
  (forall w, c w = c' w) -> preserves I c' -> preserves I c.
Proof. intros E H w a w' HI Hc. rewrite E in Hc. eauto. Qed.

(** Two updates of one link in a row are one update. *)
Lemma modLink_fuse {A} k (f g : Link -> Link) (c : M A) (w : World) :
  (modLink k f ;; modLink k g ;; c) w
  = (modLink k (fun l => g (f l)) ;; c) w.
Proof.
  unfold modLink, getLink, setLink, modify, bind.
  destruct (gLinks w !! k) as [[l | ] | ] eqn:E; try reflexivity.
  cbn [gLinks set_gLinks].
  rewrite (lookup_updated _ _ _ _ E).
  cbn [gLinks set_gLinks PppoeIfs heap gNgEtherLoaded trace].
  rewrite list_insert_insert_eq. reflexivity.
Qed.

Lemma modLink_fuse_last k (f g : Link -> Link) (w : World) :
  (modLink k f ;; modLink k g) w = modLink k (fun l => g (f l)) w.
Proof.
  unfold modLink, getLink, setLink, modify, bind.
  destruct (gLinks w !! k) as [[l | ] | ] eqn:E; try reflexivity.
  cbn [gLinks set_gLinks].
  rewrite (lookup_updated _ _ _ _ E).
  cbn [gLinks set_gLinks PppoeIfs heap gNgEtherLoaded trace].
  rewrite list_insert_insert_eq. reflexivity.
Qed.

Lemma modInfo_as_modLink k (f : pppoeinfo -> pppoeinfo) :
  modInfo k f = modLink k (fun l => set_info (f (lnk_info l)) l).
Proof. reflexivity. Qed.

End Fusion.

(** Takes a function body apart along its control structure; [side]
    proves what an update has to respect, [known] closes the calls of
    functions that are already dealt with. *)
Ltac pres_walk side known :=
  repeat
    (cbv zeta;
     match goal with
     | |- preserves _ _ => solve [ known ]
     | |- preserves _ (Pppoe.bind _ _) => apply pres_bind; [ | intros ? ]
     | |- preserves _ (Pppoe.ret _) => apply pres_ret
     | |- preserves _ (Pppoe.crash _) => apply pres_crash
     | |- preserves _ Pppoe.get => apply pres_get
     | |- preserves _ Pppoe.now => apply pres_now
     | |- preserves _ (Pppoe.getLink _) => apply pres_getLink
     | |- preserves _ (Pppoe.getInfo _) => apply pres_getInfo
     | |- preserves _ (Pppoe.getIf _) => apply pres_getIf
     | |- preserves _ (Pppoe.getList _) => apply pres_getList
     | |- preserves _ (Pppoe.parentOf _) => apply pres_parentOf
     | |- preserves _ (Pppoe.gLinks_at _) => apply pres_gLinks_at
     | |- preserves _ (Pppoe.emit _) => apply pres_emit; side
     | |- preserves _ (Pppoe.modify _) => apply pres_modify; side
     | |- preserves _ (Pppoe.modLink _ _) => apply pres_modLink; side
     | |- preserves _ (Pppoe.modInfo _ _) => apply pres_modInfo; side
     | |- preserves _ (Pppoe.modIf _ _) => apply pres_modIf; side
     | |- preserves _ (Pppoe.setList _ _) => apply pres_setList; side
     | |- preserves _ (Pppoe.Malloc_list _) => apply pres_Malloc_list; side
     | |- preserves _ (Pppoe.Log _ _) => unfold Pppoe.Log
     | |- preserves _ (Pppoe.Perror _) => unfold Pppoe.Perror
     | |- preserves _ (Pppoe.Error _) => unfold Pppoe.Error
     | |- preserves _ (Pppoe.PhysUp _) => unfold Pppoe.PhysUp
     | |- preserves _ (Pppoe.PhysDown _ _) => unfold Pppoe.PhysDown
     | |- preserves _ (Pppoe.PhysIncoming _) => unfold Pppoe.PhysIncoming
     | |- preserves _ (Pppoe.PhysGetUpperHook _ _) =>
         unfold Pppoe.PhysGetUpperHook
     | |- preserves _ (Pppoe.TimerStop _) => unfold Pppoe.TimerStop
     | |- preserves _ (Pppoe.TimerInit _) => unfold Pppoe.TimerInit
     | |- preserves _ (Pppoe.TimerStart _) => unfold Pppoe.TimerStart
     | |- preserves _ (Pppoe.NgSendMsg _ _ _ _ _ _) => unfold Pppoe.NgSendMsg
     | |- preserves _ (Pppoe.NgSendData _ _ _ _) => unfold Pppoe.NgSendData
     | |- preserves _ (Pppoe.NgFuncDisconnect _ _ _ _) =>
         unfold Pppoe.NgFuncDisconnect
     | |- preserves _ (Pppoe.NgFuncShutdownNode _ _ _) =>
         unfold Pppoe.NgFuncShutdownNode
     | |- preserves _ (Pppoe.NgGetNodeID _ _ _) => unfold Pppoe.NgGetNodeID
     | |- preserves _ (Pppoe.close_socks _) => unfold Pppoe.close_socks
     | |- preserves _ (if ?b then _ else _) => destruct b
     | |- preserves _ (match ?x with _ => _ end) => destruct x
     end).

(* ===================================================================== *)
(** * What holds of a link that is DOWN                                   *)
(* ===================================================================== *)

Section DownInvariant.
Import Libc TagCodec Pppoe.
Variable host : Host.

(** A link that is DOWN has no timer running, no peer address, no
    agent ids, no max-payload reply; its [real_session] is empty, or
    still the ["*"] that [PppoeInit] copied from [session]. *)
Definition down_ok (l : Link) : Prop :=
  lnk_state l = PHYS_STATE_DOWN ->
  connectTimer (lnk_info l) = false
  /\ peeraddr (lnk_info l) = [0; 0; 0; 0; 0; 0]
  /\ (real_session (lnk_info l) = EmptyString
      \/ real_session (lnk_info l) = "*")
  /\ agent_cid (lnk_info l) = EmptyString
  /\ agent_rid (lnk_info l) = EmptyString
  /\ mp_reply (lnk_info l) = false.

Definition DownInv (w : World) : Prop :=
  forall k l, gLinks w !! k = Some (Some l) -> down_ok l.

Lemma DownInv_same (w w' : World) :
  gLinks w' = gLinks w -> DownInv w -> DownInv w'.
Proof. intros E H k l Hl. rewrite E in Hl. eauto. Qed.

Lemma DownInv_insert (w : World) (k : nat) (ol : option Link) :
  DownInv w -> (forall l, ol = Some l -> down_ok l) ->
  DownInv (set_gLinks (<[k := ol]> (gLinks w)) w).
Proof.
  intros H Hl k' l' Hk'. cbn [gLinks set_gLinks] in Hk'.
  destruct (decide (k = k')) as [<- | Hne].
  - destruct (decide (k < length (gLinks w))%nat) as [Hlt | Hge].
    + rewrite list_lookup_insert_eq in Hk' by assumption.
      inversion Hk'. subst. auto.
    + rewrite list_insert_ge in Hk' by lia. eauto.
  - rewrite list_lookup_insert_ne in Hk' by assumption. eauto.
Qed.

(** The same, with the link in slot [k] known not to be DOWN. *)
Definition ActInv (k : nat) (w : World) : Prop :=
  DownInv w
  /\ exists l, gLinks w !! k = Some (Some l)
               /\ lnk_state l <> PHYS_STATE_DOWN.

Lemma ActInv_same (k : nat) (w w' : World) :
  gLinks w' = gLinks w -> ActInv k w -> ActInv k w'.
Proof.
  intros E [HI Hk]. split; [ eapply DownInv_same; eauto | ].
  rewrite E. exact Hk.
Qed.

Lemma ActInv_update (k : nat) (w : World) (l' : Link) :
  DownInv w -> (exists l, gLinks w !! k = Some (Some l)) ->
  lnk_state l' <> PHYS_STATE_DOWN ->
  ActInv k (set_gLinks (<[k := Some l']> (gLinks w)) w).
Proof.
  intros HI [l Hl] Hs. split.
  - apply DownInv_insert; [ assumption | ].
    intros l0 E. inversion E. subst l0. intros Hd. contradiction.
  - exists l'. split; [ | assumption ].
    cbn [gLinks set_gLinks]. eapply lookup_updated. eassumption.
Qed.

Lemma ActInv_info (k : nat) (w : World) (l : Link) (pe : pppoeinfo) :
  ActInv k w -> gLinks w !! k = Some (Some l) ->
  ActInv k (set_gLinks (<[k := Some (set_info pe l)]> (gLinks w)) w).
Proof.
  intros [HI (l0 & Hl0 & Hs)] Hl. rewrite Hl in Hl0.
  inversion Hl0. subst l0.
  apply ActInv_update; [ assumption | eauto | exact Hs ].
Qed.

End DownInvariant.

Ltac down_link :=
  match goal with
  | HI : DownInv ?w, Hl : Pppoe.gLinks ?w !! _ = Some (Some ?l) |- _ =>
      let Hok := fresh "Hok" in
      pose proof (HI _ _ Hl) as Hok;
      unfold down_ok in *;
      cbn [Pppoe.lnk_state Pppoe.lnk_info Pppoe.set_state Pppoe.set_info
           Pppoe.set_acfcomp Pppoe.set_incoming_enable
           Pppoe.connectTimer Pppoe.peeraddr Pppoe.real_session
           Pppoe.agent_cid Pppoe.agent_rid Pppoe.mp_reply
           Pppoe.set_iface Pppoe.set_path Pppoe.set_hook Pppoe.set_session
           Pppoe.set_acname Pppoe.set_max_payload Pppoe.set_mac_format
           Pppoe.set_peeraddr Pppoe.set_real_session Pppoe.set_agent_cid
           Pppoe.set_agent_rid Pppoe.set_incoming Pppoe.set_opened
           Pppoe.set_mp_reply Pppoe.set_PIf Pppoe.set_plist
           Pppoe.set_connectTimer] in *;
      first [ exact Hok | intros; discriminate
            | let H := fresh "H" in
              intros H; specialize (Hok H);
              destruct Hok as (? & ? & ? & ? & ? & ?);
              repeat split; auto; fail
            | intros; repeat split; auto; fail ]
  end.

Ltac down_side :=
  intros;
  first
    [ eapply DownInv_same; [ reflexivity | assumption ]
    | eapply DownInv_insert;
      [ assumption
      | let l' := fresh "l'" in let E := fresh "E" in
        intros l' E; inversion E; subst l'; clear E; down_link ] ].

Ltac act_side :=
  intros;
  first
    [ eapply ActInv_same; [ reflexivity | assumption ]
    | eapply ActInv_info; eassumption
    | match goal with
      | H : ActInv _ _ |- _ =>
          destruct H as [? ?];
          eapply ActInv_update; [ assumption | eauto | cbn; discriminate ]
      end ].

Section DownPreserved.
Import Libc TagCodec Pppoe.
Variable host : Host.

Lemma Down_CreatePppoeNode p ifn pth hk :
  preserves DownInv (CreatePppoeNode host p ifn pth hk).
Proof.
  unfold CreatePppoeNode, probe_ether. pres_walk down_side fail.
Qed.

Lemma Down_PppoeGetNode k : preserves DownInv (PppoeGetNode host k).
Proof.
  unfold PppoeGetNode.
  pres_walk down_side ltac:(apply Down_CreatePppoeNode).
Qed.

Lemma Down_PppoeReleaseNode k : preserves DownInv (PppoeReleaseNode k).
Proof. unfold PppoeReleaseNode. pres_walk down_side fail. Qed.

Lemma Down_slist_find ls s : preserves DownInv (slist_find ls s).
Proof.
  induction ls as [ | a ls IH ]; simpl;
    pres_walk down_side ltac:(exact IH).
Qed.

Lemma Down_PppoeListen k : preserves DownInv (PppoeListen host k).
Proof.
  unfold PppoeListen. pres_walk down_side ltac:(apply Down_slist_find).
Qed.

Lemma Down_PppoeUnListen k : preserves DownInv (PppoeUnListen host k).
Proof. unfold PppoeUnListen. pres_walk down_side fail. Qed.

(** The stores of [PppoeDoClose], taken together. *)
Lemma Down_close_stores k :
  preserves DownInv
    (modInfo k (set_connectTimer false) ;;
     modLink k (set_state PHYS_STATE_DOWN) ;;
     modInfo k (set_incoming false) ;;
     modInfo k (set_peeraddr (repeat 0 ETHER_ADDR_LEN)) ;;
     modInfo k (set_real_session EmptyString) ;;
     modInfo k (set_agent_cid EmptyString) ;;
     modInfo k (set_agent_rid EmptyString) ;;
     modInfo k (set_mp_reply false)).
Proof.
  eapply preserves_ext.
  - intros w. rewrite !modInfo_as_modLink.
    do 6 rewrite modLink_fuse. rewrite modLink_fuse_last. reflexivity.
  - apply pres_modLink. intros w l HI Hl.
    apply DownInv_insert; [ assumption | ].
    intros l' E. inversion E. subst l'. clear E.
    unfold down_ok. cbn. auto 10.
Qed.

Lemma Down_PppoeDoClose k : preserves DownInv (PppoeDoClose host k).
Proof.
  unfold PppoeDoClose.
  apply pres_bind; [ apply pres_getLink | intros l ].
  destruct (phys_state_eqb (lnk_state l) PHYS_STATE_DOWN);
    [ apply pres_ret | ].
  apply pres_bind; [ apply pres_parentOf | intros pp ].
  apply pres_bind; [ pres_walk down_side fail | intros _ ].
  unfold TimerStop.
  eapply preserves_ext; [ intros w; rewrite bind_bind; reflexivity | ].
  apply pres_bind; [ pres_walk down_side fail | intros _ ].
  apply Down_close_stores.
Qed.

Lemma Down_PppoeConnectTimeout k :
  preserves DownInv (PppoeConnectTimeout host k).
Proof.
  unfold PppoeConnectTimeout.
  pres_walk down_side ltac:(apply Down_PppoeDoClose).
Qed.

Lemma Down_timer_fire k : preserves DownInv (timer_fire host k).
Proof.
  unfold timer_fire.
  pres_walk down_side ltac:(apply Down_PppoeConnectTimeout).
Qed.

Lemma Down_PppoeClose k : preserves DownInv (PppoeClose host k).
Proof.
  unfold PppoeClose. pres_walk down_side ltac:(apply Down_PppoeDoClose).
Qed.

Lemma Down_PppoeShutdown k : preserves DownInv (PppoeShutdown host k).
Proof.
  unfold PppoeShutdown.
  pres_walk down_side
    ltac:(first [ apply Down_PppoeDoClose | apply Down_PppoeUnListen
                | apply Down_PppoeReleaseNode ]).
Qed.

Lemma Down_LinkShutdown k : preserves DownInv (LinkShutdown host k).
Proof.
  unfold LinkShutdown.
  apply pres_bind; [ pres_walk down_side fail | intros _ ].
  apply pres_bind; [ apply Down_PppoeShutdown | intros _ ].
  apply pres_modify. intros w HI.
  apply DownInv_insert; [ assumption | intros l E; discriminate ].
Qed.

Lemma Down_PppoeNodeUpdate k : preserves DownInv (PppoeNodeUpdate host k).
Proof.
  unfold PppoeNodeUpdate.
  pres_walk down_side
    ltac:(first [ apply Down_PppoeGetNode | apply Down_PppoeListen
                | apply Down_PppoeUnListen | apply Down_PppoeReleaseNode ]).
Qed.

Lemma Down_relisten k b : preserves DownInv (relisten host k b).
Proof.
  unfold relisten.
  pres_walk down_side
    ltac:(first [ apply Down_PppoeGetNode | apply Down_PppoeListen
                | apply Down_PppoeUnListen | apply Down_PppoeReleaseNode ]).
Qed.

Lemma Down_PppoeSetCommand k av arg :
  preserves DownInv (PppoeSetCommand host k av arg).
Proof.
  unfold PppoeSetCommand.
  pres_walk down_side ltac:(apply Down_relisten).
Qed.

(** *** Creation and instantiation *)

Lemma DownInv_place (w : World) (k : nat) (l : Link) :
  DownInv w -> down_ok l ->
  DownInv (set_gLinks (place_link k l (gLinks w)) w).
Proof.
  intros HI Hl. unfold place_link.
  destruct (Nat.ltb k (length (gLinks w))).
  - apply DownInv_insert; [ assumption | ].
    intros l' E. inversion E. subst. assumption.
  - intros k' l' Hk'. cbn [gLinks set_gLinks] in Hk'.
    apply lookup_app_Some in Hk' as [Hk' | [_ Hk']]; [ eauto | ].
    destruct (k' - length (gLinks w))%nat; [ | discriminate ].
    inversion Hk'. subst. assumption.
Qed.

Lemma down_ok_init (l : Link) (pe : pppoeinfo) :
  connectTimer pe = false -> peeraddr pe = [0; 0; 0; 0; 0; 0] ->
  (real_session pe = EmptyString \/ real_session pe = "*") ->
  agent_cid pe = EmptyString -> agent_rid pe = EmptyString ->
  mp_reply pe = false ->
  down_ok (set_info pe l).
Proof. intros. unfold down_ok. cbn. auto 10. Qed.

Lemma Down_PppoeInit k : preserves DownInv (PppoeInit k).
Proof.
  unfold PppoeInit. cbv zeta.
  apply pres_bind; [ | intros; apply pres_ret ].
  apply pres_modLink. intros w l HI Hl.
  apply DownInv_insert; [ assumption | ].
  intros l' E. inversion E. subst l'. clear E.
  apply down_ok_init; try reflexivity. right. reflexivity.
Qed.

Lemma Down_LinkCreate l0 : preserves DownInv (LinkCreate l0).
Proof.
  unfold LinkCreate.
  apply pres_bind; [ apply pres_get | intros w0 ]. cbv zeta.
  apply pres_bind.
  - apply pres_modify. intros w HI. apply DownInv_place; [ assumption | ].
    unfold down_ok. cbn. auto 10.
  - intros _. apply pres_bind; [ | intros; apply pres_ret ].
    destruct (lnk_type l0); [ apply Down_PppoeInit | apply pres_ret ].
Qed.

(** [PppoeInst] gives the new link the template's info; in [LinkInst]
    the new link is a copy of the template, state included. *)
Lemma Down_PppoeInst_copy k kt :
  hoare (fun w => DownInv w
                  /\ exists l lt, gLinks w !! k = Some (Some l)
                                  /\ gLinks w !! kt = Some (Some lt)
                                  /\ lnk_info l = lnk_info lt)
        (PppoeInst k kt) (fun _ => DownInv).
Proof.
  intros w a w' (HI & l & lt & Hl & Hlt & E) H.
  unfold PppoeInst in H.
  apply bind_inv in H as (lt' & w1 & H1 & H).
  apply getLink_inv in H1 as [-> Hlt']. rewrite Hlt in Hlt'.
  inversion Hlt'. subst lt'. clear Hlt'.
  apply bind_inv in H as (u & w2 & H1 & H).
  apply modLink_inv in H1 as (l2 & Hl2 & ->).
  rewrite Hl in Hl2. inversion Hl2. subst l2. clear Hl2.
  revert H.
  assert (preserves DownInv
            (pi <- getInfo k ;;
             match PIf pi with
             | Some p => modIf p (fun e => set_refs (refs e + 1) e)
             | None => ret tt
             end ;;
             match plist pi with
             | Some a =>
                 pl <- getList a ;;
                 setList a (Some {| pl_session := pl_session pl;
                                    pl_refs := pl_refs pl + 1 |})
             | None => ret tt
             end ;;
             ret 0)) as Hrest by (pres_walk down_side fail).
  apply Hrest.
  apply DownInv_insert; [ assumption | ].
  intros l' E'. inversion E'. subst l'. clear E'.
  rewrite <- E. pose proof (HI _ _ Hl) as Hok.
  destruct l. exact Hok.
Qed.

Lemma Down_LinkInst kt : preserves DownInv (LinkInst host kt).
Proof.
  intros w a w' HI H. unfold LinkInst in H.
  apply bind_inv in H as (t & w1 & H1 & H). prim_inv H1.
  apply bind_inv in H as (u & w2 & H1 & H). prim_inv H1.
  destruct (host_LinkInst host (length (trace w))) as [nm | ];
    [ | prim_inv H;
        eapply DownInv_same; [ reflexivity | eassumption ] ].
  apply bind_inv in H as (lt & w3 & H1 & H).
  apply getLink_inv in H1 as [-> Hlt]. cbn [gLinks set_trace] in Hlt.
  apply bind_inv in H as (w0 & w4 & H1 & H). prim_inv H1.
  cbv zeta in H.
  apply bind_inv in H as (u2 & w5 & H1 & H). prim_inv H1.
  apply bind_inv in H as (r & w6 & H1 & H). prim_inv H.
  revert H1. apply Down_PppoeInst_copy.
  cbn [gLinks set_gLinks set_trace]. split.
  - apply (DownInv_place (set_trace _ w)).
    + eapply DownInv_same; [ reflexivity | eassumption ].
    + pose proof (HI _ _ Hlt) as Hok. unfold down_ok in *. cbn. exact Hok.
  - eexists _, lt. split; [ apply place_link_new | ].
    split; [ apply place_link_old; exact Hlt | reflexivity ].
Qed.

(** *** Opening *)

Lemma Down_open_stores k :
  preserves DownInv
    (TimerStart k ;;
     modLink k (set_state PHYS_STATE_CONNECTING) ;;
     modInfo k (fun pe =>
       set_real_session (strlcpy (session pe) (Z.to_nat MAX_SESSION)) pe) ;;
     modInfo k (set_agent_cid EmptyString) ;;
     modInfo k (set_agent_rid EmptyString) ;;
     modInfo k (set_mp_reply false)).
Proof.
  unfold TimerStart.
  eapply preserves_ext; [ intros w; rewrite bind_bind; reflexivity | ].
  apply pres_bind; [ pres_walk down_side fail | intros _ ].
  eapply preserves_ext.
  - intros w. rewrite !modInfo_as_modLink.
    do 4 rewrite modLink_fuse. rewrite modLink_fuse_last. reflexivity.
  - apply pres_modLink. intros w l HI Hl.
    apply DownInv_insert; [ assumption | ].
    intros l' E. inversion E. subst l'. clear E.
    unfold down_ok. cbn. discriminate.
Qed.

Lemma Down_PppoeOpen k : preserves DownInv (PppoeOpen host k).
Proof.
  unfold PppoeOpen, open_fail3, open_fail2, open_fail.
  pres_walk down_side
    ltac:(first [ apply Down_PppoeGetNode | apply Down_open_stores ]).
Qed.

(** *** Control messages *)

Lemma Down_ctrl_find_link p msg :
  hoare DownInv (ctrl_find_link host p msg)
    (fun r w => match r with
                | Some k => ActInv k w
                | None => DownInv w
                end).
Proof.
  assert (Hdrop : forall lvl text,
             hoare DownInv (Log lvl text ;; ret (@None nat))
               (fun r w => match r with
                           | Some k => ActInv k w
                           | None => DownInv w
                           end)).
  { intros lvl text w r w' HI H. unfold Log in H.
    apply bind_inv in H as (u & w1 & H1 & H). prim_inv H1. prim_inv H.
    eapply DownInv_same; [ reflexivity | eassumption ]. }
  unfold ctrl_find_link. cbv zeta.
  destruct (strncmp_eq (sts_hook msg) "listen-" 7).
  { intros w r w' HI H. prim_inv H. exact HI. }
  destruct (negb (strncmp_eq (sts_hook msg) (hook_prefix host)
                    (strlen (hook_prefix host)))); [ apply Hdrop | ].
  destruct (negb (streq (snd (strtol (advance (strlen (hook_prefix host))
                                        (sts_hook msg)))) EmptyString));
    [ apply Hdrop | ].
  intros w r w' HI H.
  apply bind_inv in H as (ol & w1 & H1 & H).
  unfold gLinks_at in H1.
  destruct ((_ <? 0) || (_ <=? _)); [ discriminate | ].
  destruct (gLinks w !! _) as [ol' | ] eqn:Hol; [ | discriminate ].
  injection H1 as <- <-.
  destruct ol' as [l | ]; [ | revert H; apply Hdrop; assumption ].
  destruct (lnk_type l); [ | revert H; apply Hdrop; assumption ].
  destruct (negb (option_nat_eqb (Some p) (PIf (lnk_info l))));
    [ revert H; apply Hdrop; assumption | ].
  destruct (phys_state_eqb (lnk_state l) PHYS_STATE_DOWN) eqn:Hs.
  - apply bind_inv in H as (u & w1 & H1 & H). prim_inv H.
    revert H1.
    assert (preserves DownInv
              (if negb (is_cmd_close (cmd msg))
               then Log LG_PHYS "PPPoE: message in DOWN state"
               else ret tt)) as Hp by (pres_walk down_side fail).
    apply Hp. assumption.
  - prim_inv H. split; [ assumption | ].
    exists l. split; [ assumption | ].
    apply phys_state_eqb_neq. assumption.
Qed.

Lemma Down_ctrl_link_cmd k msg :
  hoare (ActInv k) (ctrl_link_cmd host k msg) (fun _ => DownInv).
Proof.
  assert (Hw : forall c : M unit, preserves (ActInv k) c ->
                 hoare (ActInv k) c (fun _ => DownInv)).
  { intros c Hc w a w' HI H. apply (Hc w a w' HI H). }
  assert (Hd : forall c : M unit, preserves DownInv c ->
                 hoare (ActInv k) c (fun _ => DownInv)).
  { intros c Hc w a w' HI H. apply (Hc w a w' (proj1 HI) H). }
  unfold ctrl_link_cmd.
  destruct (cmd msg); try (apply Hd; apply pres_ret).
  - apply Hw. pres_walk act_side fail.
  - apply Hd. pres_walk down_side ltac:(apply Down_PppoeDoClose).
  - apply Hd. pres_walk down_side ltac:(apply Down_PppoeDoClose).
  - apply Hw. pres_walk act_side fail.
Qed.

Lemma Down_PppoeCtrlReadEvent p recv :
  preserves DownInv (PppoeCtrlReadEvent host p recv).
Proof.
  unfold PppoeCtrlReadEvent, ctrl_other_cmd.
  apply pres_bind; [ apply pres_getIf | intros e ].
  apply pres_bind; [ pres_walk down_side fail | intros _ ].
  destruct recv as [msg | ]; [ | pres_walk down_side fail ].
  destruct (typecookie msg);
    [ pres_walk down_side fail | | pres_walk down_side fail ].
  destruct (is_link_cmd (cmd msg)); [ | pres_walk down_side fail ].
  apply hoare_pres.
  refine (hoare_bind _ _ _ _ _ (Down_ctrl_find_link p msg) _).
  intros [k | ]; [ apply Down_ctrl_link_cmd | ].
  apply hoare_pres. apply pres_ret.
Qed.

(** *** Incoming requests *)

Lemma Down_listen_close_socket k :
  preserves DownInv (listen_close_socket host k).
Proof.
  unfold listen_close_socket.
  pres_walk down_side ltac:(apply Down_LinkShutdown).
Qed.

Lemma Down_listen_shutdown_tee k path1 :
  preserves DownInv (listen_shutdown_tee host k path1).
Proof.
  unfold listen_shutdown_tee.
  pres_walk down_side ltac:(apply Down_listen_close_socket).
Qed.

Lemma Down_accept_stores k (peer : list Z) (rs cid rid : string) :
  preserves DownInv
    (modLink k (set_state PHYS_STATE_CONNECTING) ;;
     modInfo k (set_incoming true) ;;
     modInfo k (set_peeraddr peer) ;;
     modInfo k (set_real_session rs) ;;
     modInfo k (set_agent_cid cid) ;;
     modInfo k (set_agent_rid rid) ;;
     Log LG_PHYS2 "PPPoE response sent" ;;
     TimerInit k ;;
     TimerStart k ;;
     PhysIncoming k).
Proof.
  apply hoare_pres.
  refine (hoare_bind _ (fun _ => ActInv k) _ _ _ _ _).
  - intros w a w' HI H. apply modLink_inv in H as (l & Hl & ->).
    apply ActInv_update; [ assumption | eauto | cbn; discriminate ].
  - intros _.
    assert (preserves (ActInv k)
              (modInfo k (set_incoming true) ;;
               modInfo k (set_peeraddr peer) ;;
               modInfo k (set_real_session rs) ;;
               modInfo k (set_agent_cid cid) ;;
               modInfo k (set_agent_rid rid) ;;
               Log LG_PHYS2 "PPPoE response sent" ;;
               TimerInit k ;;
               TimerStart k ;;
               PhysIncoming k)) as Hp by (pres_walk act_side fail).
    intros w a w' HI H. exact (proj1 (Hp w a w' HI H)).
Qed.

Lemma Down_listen_accept p k sz response rs cid rid :
  preserves DownInv (listen_accept host p k sz response rs cid rid).
Proof.
  unfold listen_accept.
  pres_walk down_side
    ltac:(first [ apply Down_listen_close_socket
                | apply Down_listen_shutdown_tee
                | apply Down_accept_stores ]).
Qed.

Lemma Down_log_tags tags : preserves DownInv (log_tags tags).
Proof.
  induction tags as [ | t tags IH ]; simpl;
    pres_walk down_side ltac:(exact IH).
Qed.

Lemma Down_PppoeListenEvent p sz response rhook :
  preserves DownInv (PppoeListenEvent host p sz response rhook).
Proof.
  unfold PppoeListenEvent.
  pres_walk down_side
    ltac:(first [ apply Down_log_tags | apply Down_LinkInst
                | apply Down_listen_accept ]).
Qed.

(** *** Every turn of the event loop *)

Lemma DownInv_step (w w' : World) :
  DownInv w -> step host w w' -> DownInv w'.
Proof.
  intros HI Hstep. destruct Hstep.
  - eapply Down_LinkCreate; eauto.
  - eapply Down_LinkInst; eauto.
  - eapply Down_PppoeOpen; eauto.
  - eapply Down_PppoeClose; eauto.
  - eapply Down_LinkShutdown; eauto.
  - eapply Down_PppoeNodeUpdate; eauto.
  - eapply Down_PppoeSetCommand; eauto.
  - match goal with H : modLink _ _ _ = _ |- _ => revert H end.
    apply pres_modLink; [ | assumption ]. down_side.
  - eapply Down_PppoeCtrlReadEvent; eauto.
  - eapply Down_PppoeListenEvent; eauto.
  - eapply Down_timer_fire; eauto.
Qed.

Lemma DownInv_reachable (w : World) : reachable host w -> DownInv w.
Proof.
  induction 1 as [ | w w' Hr IH Hs ].
  - intros k l Hl. discriminate.
  - eapply DownInv_step; eauto.
Qed.

End DownPreserved.

(* ===================================================================== *)
(** * What a link that is DOWN keeps from the step before                 *)
(* ===================================================================== *)

Section DownSince.
Import Libc TagCodec Pppoe.

(** [l'] is what became of the link [l]: if it is DOWN and has a
    [real_session], then [l] was DOWN as well, with the same
    [real_session]. *)
Definition kept (l l' : Link) : Prop :=
  lnk_state l' = PHYS_STATE_DOWN ->
  real_session (lnk_info l') = EmptyString
  \/ (lnk_state l = PHYS_STATE_DOWN
      /\ real_session (lnk_info l') = real_session (lnk_info l)).

(** The links of [w], slot by slot, against the links [G] that the
    step began with. *)
Definition Keep (G : list (option Link)) (w : World) : Prop :=
  forall k l l',
    G !! k = Some (Some l) -> gLinks w !! k = Some (Some l') -> kept l l'.

Lemma kept_refl (l : Link) : kept l l.
Proof. intros H. right. split; [ exact H | reflexivity ]. Qed.

Lemma kept_trans (l0 l l' : Link) : kept l0 l -> kept l l' -> kept l0 l'.
Proof.
  intros H0 H1 Hs. destruct (H1 Hs) as [E | [Hd E]]; [ left; exact E | ].
  destruct (H0 Hd) as [E0 | [Hd0 E0]].
  - left. congruence.
  - right. split; [ exact Hd0 | congruence ].
Qed.

Lemma Keep_start (w : World) : Keep (gLinks w) w.
Proof.
  intros k l l' Hl Hl'. rewrite Hl in Hl'. inversion Hl'. apply kept_refl.
Qed.

Lemma Keep_same G (w w' : World) :
  gLinks w' = gLinks w -> Keep G w -> Keep G w'.
Proof. intros E H k l l' Hl Hl'. rewrite E in Hl'. eauto. Qed.

Lemma Keep_insert G (w : World) (k : nat) (l l' : Link) :
  Keep G w -> gLinks w !! k = Some (Some l) -> kept l l' ->
  Keep G (set_gLinks (<[k := Some l']> (gLinks w)) w).
Proof.
  intros H Hl Hk k' l0 l1 Hl0 Hl1. cbn [gLinks set_gLinks] in Hl1.
  destruct (decide (k = k')) as [<- | Hne].
  - rewrite (lookup_updated _ _ _ _ Hl) in Hl1. inversion Hl1. subst l1.
    eapply kept_trans; [ | exact Hk ]. eauto.
  - rewrite list_lookup_insert_ne in Hl1 by assumption. eauto.
Qed.

Lemma Keep_remove G (w : World) (k : nat) :
  Keep G w -> Keep G (set_gLinks (<[k := None]> (gLinks w)) w).
Proof.
  intros H k' l0 l1 Hl0 Hl1. cbn [gLinks set_gLinks] in Hl1.
  destruct (decide (k = k')) as [<- | Hne].
  - destruct (decide (k < length (gLinks w))%nat) as [Hlt | Hge].
    + rewrite list_lookup_insert_eq in Hl1 by assumption. discriminate.
    + rewrite list_insert_ge in Hl1 by lia. eauto.
  - rewrite list_lookup_insert_ne in Hl1 by assumption. eauto.
Qed.

(** A slot that was free when the step began may take any link. *)
Lemma Keep_free G (w : World) (k : nat) (ol : option Link) :
  (forall l, G !! k <> Some (Some l)) ->
  Keep G w -> Keep G (set_gLinks (<[k := ol]> (gLinks w)) w).
Proof.
  intros Hf H k' l0 l1 Hl0 Hl1. cbn [gLinks set_gLinks] in Hl1.
  destruct (decide (k = k')) as [<- | Hne].
  - exfalso. exact (Hf _ Hl0).
  - rewrite list_lookup_insert_ne in Hl1 by assumption. eauto.
Qed.

Lemma Keep_place (w : World) (l : Link) :
  Keep (gLinks w)
    (set_gLinks (place_link (first_free (gLinks w) 0) l (gLinks w)) w).
Proof.
  intros k l0 l1 Hl0 Hl1. cbn [gLinks set_gLinks] in Hl1.
  apply place_link_inv in Hl1 as [[-> _] | Hl1].
  - exfalso. exact (first_free_empty _ _ Hl0).
  - rewrite Hl0 in Hl1. inversion Hl1. apply kept_refl.
Qed.

(** The same, with the link in slot [k] known not to be DOWN. *)
Definition KeepAct (G : list (option Link)) (k : nat) (w : World) : Prop :=
  Keep G w
  /\ exists l, gLinks w !! k = Some (Some l)
               /\ lnk_state l <> PHYS_STATE_DOWN.

Lemma KeepAct_same G (k : nat) (w w' : World) :
  gLinks w' = gLinks w -> KeepAct G k w -> KeepAct G k w'.
Proof.
  intros E [HI Hk]. split; [ eapply Keep_same; eauto | ].
  rewrite E. exact Hk.
Qed.

Lemma KeepAct_update G (k : nat) (w : World) (l l' : Link) :
  Keep G w -> gLinks w !! k = Some (Some l) ->
  lnk_state l' <> PHYS_STATE_DOWN ->
  KeepAct G k (set_gLinks (<[k := Some l']> (gLinks w)) w).
Proof.
  intros HI Hl Hs. split.
  - eapply Keep_insert; [ assumption | exact Hl | ].
    intros Hd. contradiction.
  - exists l'. split; [ | assumption ].
    cbn [gLinks set_gLinks]. eapply lookup_updated. eassumption.
Qed.

Lemma KeepAct_info G (k : nat) (w : World) (l : Link) (pe : pppoeinfo) :
  KeepAct G k w -> gLinks w !! k = Some (Some l) ->
  KeepAct G k (set_gLinks (<[k := Some (set_info pe l)]> (gLinks w)) w).
Proof.
  intros [HI (l0 & Hl0 & Hs)] Hl. rewrite Hl in Hl0.
  inversion Hl0. subst l0.
  eapply KeepAct_update; [ assumption | exact Hl | exact Hs ].
Qed.

End DownSince.

Ltac keep_link :=
  unfold kept;
  cbn [Pppoe.lnk_state Pppoe.lnk_info Pppoe.set_state Pppoe.set_info
       Pppoe.set_acfcomp Pppoe.set_incoming_enable
       Pppoe.connectTimer Pppoe.peeraddr Pppoe.real_session
       Pppoe.agent_cid Pppoe.agent_rid Pppoe.mp_reply
       Pppoe.set_iface Pppoe.set_path Pppoe.set_hook Pppoe.set_session
       Pppoe.set_acname Pppoe.set_max_payload Pppoe.set_mac_format
       Pppoe.set_peeraddr Pppoe.set_real_session Pppoe.set_agent_cid
       Pppoe.set_agent_rid Pppoe.set_incoming Pppoe.set_opened
       Pppoe.set_mp_reply Pppoe.set_PIf Pppoe.set_plist
       Pppoe.set_connectTimer];
  first [ intros; discriminate
        | let H := fresh "H" in
          intros H; right; split; [ exact H | reflexivity ]
        | intros; left; reflexivity ].

Ltac keep_side :=
  intros;
  first
    [ eapply Keep_same; [ reflexivity | assumption ]
    | eapply Keep_insert; [ assumption | eassumption | keep_link ] ].

Ltac keep_act_side :=
  intros;
  first
    [ eapply KeepAct_same; [ reflexivity | assumption ]
    | eapply KeepAct_info; eassumption
    | match goal with
      | H : KeepAct _ _ _ |- _ =>
          destruct H as [? ?];
          eapply KeepAct_update;
          [ assumption | eassumption | cbn; discriminate ]
      end ].

Section KeepPreserved.
Import Libc TagCodec Pppoe.
Variable host : Host.
Variable G : list (option Link).

Lemma Keep_CreatePppoeNode p ifn pth hk :
  preserves (Keep G) (CreatePppoeNode host p ifn pth hk).
Proof.
  unfold CreatePppoeNode, probe_ether. pres_walk keep_side fail.
Qed.

Lemma Keep_PppoeGetNode k : preserves (Keep G) (PppoeGetNode host k).
Proof.
  unfold PppoeGetNode.
  pres_walk keep_side ltac:(apply Keep_CreatePppoeNode).
Qed.

Lemma Keep_PppoeReleaseNode k : preserves (Keep G) (PppoeReleaseNode k).
Proof. unfold PppoeReleaseNode. pres_walk keep_side fail. Qed.

Lemma Keep_slist_find ls s : preserves (Keep G) (slist_find ls s).
Proof.
  induction ls as [ | a ls IH ]; simpl;
    pres_walk keep_side ltac:(exact IH).
Qed.

Lemma Keep_PppoeListen k : preserves (Keep G) (PppoeListen host k).
Proof.
  unfold PppoeListen. pres_walk keep_side ltac:(apply Keep_slist_find).
Qed.

Lemma Keep_PppoeUnListen k : preserves (Keep G) (PppoeUnListen host k).
Proof. unfold PppoeUnListen. pres_walk keep_side fail. Qed.

(** The stores of [PppoeDoClose], taken together: the link is DOWN
    with an empty [real_session]. *)
Lemma Keep_close_stores k :
  preserves (Keep G)
    (modInfo k (set_connectTimer false) ;;
     modLink k (set_state PHYS_STATE_DOWN) ;;
     modInfo k (set_incoming false) ;;
     modInfo k (set_peeraddr (repeat 0 ETHER_ADDR_LEN)) ;;
     modInfo k (set_real_session EmptyString) ;;
     modInfo k (set_agent_cid EmptyString) ;;
     modInfo k (set_agent_rid EmptyString) ;;
     modInfo k (set_mp_reply false)).
Proof.
  eapply preserves_ext.
  - intros w. rewrite !modInfo_as_modLink.
    do 6 rewrite modLink_fuse. rewrite modLink_fuse_last. reflexivity.
  - apply pres_modLink. keep_side.
Qed.

Lemma Keep_PppoeDoClose k : preserves (Keep G) (PppoeDoClose host k).
Proof.
  unfold PppoeDoClose.
  apply pres_bind; [ apply pres_getLink | intros l ].
  destruct (phys_state_eqb (lnk_state l) PHYS_STATE_DOWN);
    [ apply pres_ret | ].
  apply pres_bind; [ apply pres_parentOf | intros pp ].
  apply pres_bind; [ pres_walk keep_side fail | intros _ ].
  unfold TimerStop.
  eapply preserves_ext; [ intros w; rewrite bind_bind; reflexivity | ].
  apply pres_bind; [ pres_walk keep_side fail | intros _ ].
  apply Keep_close_stores.
Qed.

Lemma Keep_PppoeConnectTimeout k :
  preserves (Keep G) (PppoeConnectTimeout host k).
Proof.
  unfold PppoeConnectTimeout.
  pres_walk keep_side ltac:(apply Keep_PppoeDoClose).
Qed.

Lemma Keep_timer_fire k : preserves (Keep G) (timer_fire host k).
Proof.
  unfold timer_fire.
  pres_walk keep_side ltac:(apply Keep_PppoeConnectTimeout).
Qed.

Lemma Keep_PppoeClose k : preserves (Keep G) (PppoeClose host k).
Proof.
  unfold PppoeClose. pres_walk keep_side ltac:(apply Keep_PppoeDoClose).
Qed.

Lemma Keep_PppoeShutdown k : preserves (Keep G) (PppoeShutdown host k).
Proof.
  unfold PppoeShutdown.
  pres_walk keep_side
    ltac:(first [ apply Keep_PppoeDoClose | apply Keep_PppoeUnListen
                | apply Keep_PppoeReleaseNode ]).
Qed.

Lemma Keep_LinkShutdown k : preserves (Keep G) (LinkShutdown host k).
Proof.
  unfold LinkShutdown.
  apply pres_bind; [ pres_walk keep_side fail | intros _ ].
  apply pres_bind; [ apply Keep_PppoeShutdown | intros _ ].
  apply pres_modify. intros w HI. apply Keep_remove. exact HI.
Qed.

Lemma Keep_PppoeNodeUpdate k : preserves (Keep G) (PppoeNodeUpdate host k).
Proof.
  unfold PppoeNodeUpdate.
  pres_walk keep_side
    ltac:(first [ apply Keep_PppoeGetNode | apply Keep_PppoeListen
                | apply Keep_PppoeUnListen | apply Keep_PppoeReleaseNode ]).
Qed.

Lemma Keep_relisten k b : preserves (Keep G) (relisten host k b).
Proof.
  unfold relisten.
  pres_walk keep_side
    ltac:(first [ apply Keep_PppoeGetNode | apply Keep_PppoeListen
                | apply Keep_PppoeUnListen | apply Keep_PppoeReleaseNode ]).
Qed.

Lemma Keep_PppoeSetCommand k av arg :
  preserves (Keep G) (PppoeSetCommand host k av arg).
Proof.
  unfold PppoeSetCommand.
  pres_walk keep_side ltac:(apply Keep_relisten).
Qed.

(** *** Opening *)

Lemma Keep_open_stores k :
  preserves (Keep G)
    (TimerStart k ;;
     modLink k (set_state PHYS_STATE_CONNECTING) ;;
     modInfo k (fun pe =>
       set_real_session (strlcpy (session pe) (Z.to_nat MAX_SESSION)) pe) ;;
     modInfo k (set_agent_cid EmptyString) ;;
     modInfo k (set_agent_rid EmptyString) ;;
     modInfo k (set_mp_reply false)).
Proof.
  unfold TimerStart.
  eapply preserves_ext; [ intros w; rewrite bind_bind; reflexivity | ].
  apply pres_bind; [ pres_walk keep_side fail | intros _ ].
  eapply preserves_ext.
  - intros w. rewrite !modInfo_as_modLink.
    do 4 rewrite modLink_fuse. rewrite modLink_fuse_last. reflexivity.
  - apply pres_modLink. keep_side.
Qed.

Lemma Keep_PppoeOpen k : preserves (Keep G) (PppoeOpen host k).
Proof.
  unfold PppoeOpen, open_fail3, open_fail2, open_fail.
  pres_walk keep_side
    ltac:(first [ apply Keep_PppoeGetNode | apply Keep_open_stores ]).
Qed.

(** *** Control messages *)

Lemma Keep_ctrl_find_link p msg :
  hoare (Keep G) (ctrl_find_link host p msg)
    (fun r w => match r with
                | Some k => KeepAct G k w
                | None => Keep G w
                end).
Proof.
  assert (Hdrop : forall lvl text,
             hoare (Keep G) (Log lvl text ;; ret (@None nat))
               (fun r w => match r with
                           | Some k => KeepAct G k w
                           | None => Keep G w
                           end)).
  { intros lvl text w r w' HI H. unfold Log in H.
    apply bind_inv in H as (u & w1 & H1 & H). prim_inv H1. prim_inv H.
    eapply Keep_same; [ reflexivity | eassumption ]. }
  unfold ctrl_find_link. cbv zeta.
  destruct (strncmp_eq (sts_hook msg) "listen-" 7).
  { intros w r w' HI H. prim_inv H. exact HI. }
  destruct (negb (strncmp_eq (sts_hook msg) (hook_prefix host)
                    (strlen (hook_prefix host)))); [ apply Hdrop | ].
  destruct (negb (streq (snd (strtol (advance (strlen (hook_prefix host))
                                        (sts_hook msg)))) EmptyString));
    [ apply Hdrop | ].
  intros w r w' HI H.
  apply bind_inv in H as (ol & w1 & H1 & H).
  unfold gLinks_at in H1.
  destruct ((_ <? 0) || (_ <=? _)); [ discriminate | ].
  destruct (gLinks w !! _) as [ol' | ] eqn:Hol; [ | discriminate ].
  injection H1 as <- <-.
  destruct ol' as [l | ]; [ | revert H; apply Hdrop; assumption ].
  destruct (lnk_type l); [ | revert H; apply Hdrop; assumption ].
  destruct (negb (option_nat_eqb (Some p) (PIf (lnk_info l))));
    [ revert H; apply Hdrop; assumption | ].
  destruct (phys_state_eqb (lnk_state l) PHYS_STATE_DOWN) eqn:Hs.
  - apply bind_inv in H as (u & w1 & H1 & H). prim_inv H.
    revert H1.
    assert (preserves (Keep G)
              (if negb (is_cmd_close (cmd msg))
               then Log LG_PHYS "PPPoE: message in DOWN state"
               else ret tt)) as Hp by (pres_walk keep_side fail).
    apply Hp. assumption.
  - prim_inv H. split; [ assumption | ].
    exists l. split; [ assumption | ].
    apply phys_state_eqb_neq. assumption.
Qed.

Lemma Keep_ctrl_link_cmd k msg :
  hoare (KeepAct G k) (ctrl_link_cmd host k msg) (fun _ => Keep G).
Proof.
  assert (Hw : forall c : M unit, preserves (KeepAct G k) c ->
                 hoare (KeepAct G k) c (fun _ => Keep G)).
  { intros c Hc w a w' HI H. apply (Hc w a w' HI H). }
  assert (Hd : forall c : M unit, preserves (Keep G) c ->
                 hoare (KeepAct G k) c (fun _ => Keep G)).
  { intros c Hc w a w' HI H. apply (Hc w a w' (proj1 HI) H). }
  unfold ctrl_link_cmd.
  destruct (cmd msg); try (apply Hd; apply pres_ret).
  - apply Hw. pres_walk keep_act_side fail.
  - apply Hd. pres_walk keep_side ltac:(apply Keep_PppoeDoClose).
  - apply Hd. pres_walk keep_side ltac:(apply Keep_PppoeDoClose).
  - apply Hw. pres_walk keep_act_side fail.
Qed.

Lemma Keep_PppoeCtrlReadEvent p recv :
  preserves (Keep G) (PppoeCtrlReadEvent host p recv).
Proof.
  unfold PppoeCtrlReadEvent, ctrl_other_cmd.
  apply pres_bind; [ apply pres_getIf | intros e ].
  apply pres_bind; [ pres_walk keep_side fail | intros _ ].
  destruct recv as [msg | ]; [ | pres_walk keep_side fail ].
  destruct (typecookie msg);
    [ pres_walk keep_side fail | | pres_walk keep_side fail ].
  destruct (is_link_cmd (cmd msg)); [ | pres_walk keep_side fail ].
  apply hoare_pres.
  refine (hoare_bind _ _ _ _ _ (Keep_ctrl_find_link p msg) _).
  intros [k | ]; [ apply Keep_ctrl_link_cmd | ].
  apply hoare_pres. apply pres_ret.
Qed.

(** *** Incoming requests *)

Lemma Keep_listen_close_socket k :
  preserves (Keep G) (listen_close_socket host k).
Proof.
  unfold listen_close_socket.
  pres_walk keep_side ltac:(apply Keep_LinkShutdown).
Qed.

Lemma Keep_listen_shutdown_tee k path1 :
  preserves (Keep G) (listen_shutdown_tee host k path1).
Proof.
  unfold listen_shutdown_tee.
  pres_walk keep_side ltac:(apply Keep_listen_close_socket).
Qed.

Lemma Keep_accept_stores k (peer : list Z) (rs cid rid : string) :
  preserves (Keep G)
    (modLink k (set_state PHYS_STATE_CONNECTING) ;;
     modInfo k (set_incoming true) ;;
     modInfo k (set_peeraddr peer) ;;
     modInfo k (set_real_session rs) ;;
     modInfo k (set_agent_cid cid) ;;
     modInfo k (set_agent_rid rid) ;;
     Log LG_PHYS2 "PPPoE response sent" ;;
     TimerInit k ;;
     TimerStart k ;;
     PhysIncoming k).
Proof.
  apply hoare_pres.
  refine (hoare_bind _ (fun _ => KeepAct G k) _ _ _ _ _).
  - intros w a w' HI H. apply modLink_inv in H as (l & Hl & ->).
    eapply KeepAct_update; [ assumption | exact Hl | cbn; discriminate ].
  - intros _.
    assert (preserves (KeepAct G k)
              (modInfo k (set_incoming true) ;;
               modInfo k (set_peeraddr peer) ;;
               modInfo k (set_real_session rs) ;;
               modInfo k (set_agent_cid cid) ;;
               modInfo k (set_agent_rid rid) ;;
               Log LG_PHYS2 "PPPoE response sent" ;;
               TimerInit k ;;
               TimerStart k ;;
               PhysIncoming k)) as Hp by (pres_walk keep_act_side fail).
    intros w a w' HI H. exact (proj1 (Hp w a w' HI H)).
Qed.

Lemma Keep_listen_accept p k sz response rs cid rid :
  preserves (Keep G) (listen_accept host p k sz response rs cid rid).
Proof.
  unfold listen_accept.
  pres_walk keep_side
    ltac:(first [ apply Keep_listen_close_socket
                | apply Keep_listen_shutdown_tee
                | apply Keep_accept_stores ]).
Qed.

End KeepPreserved.

Section KeepCreated.
Import Libc TagCodec Pppoe.
Variable host : Host.

Section FreeSlot.
Variable G : list (option Link).
Variable k : nat.
Hypothesis G_free : forall l, G !! k <> Some (Some l).

Ltac free_side :=
  intros;
  first
    [ eapply Keep_same; [ reflexivity | assumption ]
    | apply Keep_free; [ exact G_free | assumption ] ].

Lemma Keep_PppoeInit : preserves (Keep G) (PppoeInit k).
Proof. unfold PppoeInit. pres_walk free_side fail. Qed.

Lemma Keep_PppoeInst kt : preserves (Keep G) (PppoeInst k kt).
Proof. unfold PppoeInst. pres_walk free_side fail. Qed.

End FreeSlot.

(** A new link goes into a slot that is free, and no other slot is
    written. *)
Lemma Keep_LinkCreate l0 (w : World) (k : nat) (w' : World) :
  LinkCreate l0 w = Ok k w' -> Keep (gLinks w) w'.
Proof.
  intros H. unfold LinkCreate in H.
  apply bind_inv in H as (w0 & w1 & H1 & H). prim_inv H1.
  cbv zeta in H.
  apply bind_inv in H as (u & w2 & H1 & H). prim_inv H1.
  apply bind_inv in H as (r & w3 & H1 & H). prim_inv H.
  revert H1.
  assert (preserves (Keep (gLinks w))
            (match lnk_type l0 with
             | gPppoePhysType => PppoeInit (first_free (gLinks w) 0)
             | other_phystype => ret 0
             end)) as Hp.
  { destruct (lnk_type l0); [ | apply pres_ret ].
    apply Keep_PppoeInit. intros l. apply first_free_empty. }
  apply Hp. apply Keep_place.
Qed.

Lemma Keep_LinkInst kt (w : World) (r : option nat) (w' : World) :
  LinkInst host kt w = Ok r w' -> Keep (gLinks w) w'.
Proof.
  intros H. unfold LinkInst in H.
  apply bind_inv in H as (t & w1 & H1 & H). prim_inv H1.
  apply bind_inv in H as (u & w2 & H1 & H). prim_inv H1.
  destruct (host_LinkInst host (length (trace w))) as [nm | ];
    [ | prim_inv H;
        apply (Keep_same _ w); [ reflexivity | apply Keep_start ] ].
  apply bind_inv in H as (lt & w3 & H1 & H).
  apply getLink_inv in H1 as [-> Hlt]. cbn [gLinks set_trace] in Hlt.
  apply bind_inv in H as (w0 & w4 & H1 & H). prim_inv H1.
  cbv zeta in H.
  apply bind_inv in H as (u2 & w5 & H1 & H). prim_inv H1.
  apply bind_inv in H as (r' & w6 & H1 & H). prim_inv H.
  revert H1. cbn [gLinks set_gLinks set_trace].
  apply Keep_PppoeInst; [ intros l; apply first_free_empty | ].
  apply (Keep_place (set_trace _ w)).
Qed.

Lemma Keep_log_tags G tags : preserves (Keep G) (log_tags tags).
Proof.
  induction tags as [ | t tags IH ]; simpl;
    pres_walk keep_side ltac:(exact IH).
Qed.

(** Until [PppoeListenEvent] has chosen a link it writes to the log
    alone. *)
Definition Still (G : list (option Link)) (w : World) : Prop :=
  gLinks w = G.

Ltac still_side := intros; unfold Still in *; cbn [gLinks set_trace];
                   assumption.

Lemma Still_log_tags G tags : preserves (Still G) (log_tags tags).
Proof.
  induction tags as [ | t tags IH ]; simpl;
    pres_walk still_side ltac:(exact IH).
Qed.

Lemma Still_Keep {A} G (c : M A) :
  preserves (Still G) c -> hoare (Still G) c (fun _ => Keep G).
Proof.
  intros Hc w a w' HS H. pose proof (Hc w a w' HS H) as HS'.
  unfold Still in HS'. subst G. apply Keep_start.
Qed.

Lemma Keep_PppoeListenEvent p sz response rhook (w w' : World) :
  PppoeListenEvent host p sz response rhook w = Ok tt w' ->
  Keep (gLinks w) w'.
Proof.
  revert w'.
  enough (hoare (Still (gLinks w))
            (PppoeListenEvent host p sz response rhook)
            (fun _ => Keep (gLinks w))) as Hh.
  { intros w' H. exact (Hh w tt w' eq_refl H). }
  generalize (gLinks w) as G. clear w. intros G.
  unfold PppoeListenEvent.
  destruct (sz =? -1);
    [ apply Still_Keep; pres_walk still_side fail | ].
  destruct (sz =? 0);
    [ apply Still_Keep; pres_walk still_side fail | ].
  destruct (negb (strncmp_eq rhook "listen-" 7));
    [ apply Still_Keep; pres_walk still_side fail | ].
  cbv zeta.
  destruct (size_t_of sz <? sizeof_pppoe_full_hdr);
    [ apply Still_Keep; pres_walk still_side fail | ].
  apply hoare_bind_pres; [ pres_walk still_side fail | intros _ ].
  apply hoare_bind_pres;
    [ pres_walk still_side ltac:(apply Still_log_tags) | intros _ ].
  apply hoare_bind_pres; [ apply pres_now | intros t ].
  destruct (host_gShutdownInProgress host t);
    [ apply Still_Keep; pres_walk still_side fail | ].
  destruct (host_OVERLOAD host t);
    [ apply Still_Keep; pres_walk still_side fail | ].
  apply hoare_bind_pres; [ apply pres_get | intros w0 ].
  refine (hoare_bind _ (fun _ => Keep G) _ _ _ _ _).
  - destruct (scan_links _ _ _ _ _) as [k | ];
      [ | apply Still_Keep; apply pres_ret ].
    apply hoare_bind_pres; [ apply pres_getLink | intros l ].
    destruct (lnk_tmpl l); [ | apply Still_Keep; apply pres_ret ].
    intros w r w' HS H. unfold Still in HS. subst G.
    eapply Keep_LinkInst. exact H.
  - intros [k | ].
    + apply hoare_pres. apply Keep_listen_accept.
    + apply hoare_pres. pres_walk keep_side fail.
Qed.

(** *** Every turn of the event loop *)

Lemma Keep_step (w w' : World) : step host w w' -> Keep (gLinks w) w'.
Proof.
  intros Hstep. destruct Hstep.
  - eapply Keep_LinkCreate; eauto.
  - eapply Keep_LinkInst; eauto.
  - eapply Keep_PppoeOpen; [ apply Keep_start | eauto ].
  - eapply Keep_PppoeClose; [ apply Keep_start | eauto ].
  - eapply Keep_LinkShutdown; [ apply Keep_start | eauto ].
  - eapply Keep_PppoeNodeUpdate; [ apply Keep_start | eauto ].
  - eapply Keep_PppoeSetCommand; [ apply Keep_start | eauto ].
  - match goal with H : modLink _ _ _ = _ |- _ => revert H end.
    apply pres_modLink; [ | apply Keep_start ]. keep_side.
  - eapply Keep_PppoeCtrlReadEvent; [ apply Keep_start | eauto ].
  - eapply Keep_PppoeListenEvent; eauto.
  - eapply Keep_timer_fire; [ apply Keep_start | eauto ].
Qed.

End KeepCreated.

(* ===================================================================== *)
(** * The table of parent interfaces                                      *)
(* ===================================================================== *)

Section Registry.
Import Libc TagCodec Pppoe.

(** Whether the link in a slot points to parent [p]. *)
Definition holds (p : nat) (ol : option Link) : bool :=
  match ol with
  | Some l => option_nat_eqb (PIf (lnk_info l)) (Some p)
  | None => false
  end.

(** The number of links that point to parent [p]. *)
Fixpoint holders (p : nat) (ls : list (option Link)) : Z :=
  match ls with
  | [] => 0
  | ol :: rest => (if holds p ol then 1 else 0) + holders p rest
  end.

(** An entry is free (no reference, no path), or it is in use: it has
    references, both descriptors are valid, and it has a path. *)
Definition if_ok (e : PppoeIf) : Prop :=
  (refs e = 0 /\ ifnodepath e = EmptyString)
  \/ (0 < refs e /\ 0 <= csock e /\ 0 <= dsock e
      /\ ifnodepath e <> EmptyString).

Definition RegInv (w : World) : Prop :=
  (forall p e, PppoeIfs w !! p = Some e ->
               if_ok e /\ refs e = holders p (gLinks w))
  /\ (forall k l, gLinks w !! k = Some (Some l) ->
                  lnk_type l = gPppoePhysType ->
                  path (lnk_info l) <> EmptyString).

Lemma if_ok_iff (e : PppoeIf) :
  if_ok e ->
  (0 < refs e <-> 0 <= csock e /\ 0 <= dsock e /\ ifnodepath e <> EmptyString).
Proof.
  intros [[Hr Hp] | (Hr & Hc & Hd & Hp)]; split; intros H.
  - lia.
  - destruct H as (_ & _ & H). contradiction.
  - auto.
  - assumption.
Qed.

Lemma holders_nonneg p ls : 0 <= holders p ls.
Proof.
  induction ls as [ | ol ls IH ]; simpl; [ lia | ].
  destruct (holds p ol); lia.
Qed.

Lemma holders_insert p ls k (old new : option Link) :
  ls !! k = Some old ->
  holders p (<[k := new]> ls)
  = holders p ls - (if holds p old then 1 else 0)
    + (if holds p new then 1 else 0).
Proof.
  revert k. induction ls as [ | ol ls IH ]; intros [ | k ] Hk;
    try discriminate; simpl in *.
  - inversion Hk. subst. lia.
  - rewrite (IH k Hk). lia.
Qed.

Lemma holders_app p ls (x : option Link) :
  holders p (ls ++ [x]) = holders p ls + (if holds p x then 1 else 0).
Proof. induction ls as [ | ol ls IH ]; simpl; [ lia | rewrite IH; lia ]. Qed.

Lemma holders_place p ls (l : Link) :
  holders p (place_link (first_free ls 0) l ls)
  = holders p ls + (if holds p (Some l) then 1 else 0).
Proof.
  unfold place_link. pose proof (first_free_le ls) as Hle.
  destruct (Nat.ltb (first_free ls 0) (length ls)) eqn:E.
  - apply Nat.ltb_lt in E.
    destruct (ls !! first_free ls 0) as [[l0 | ] | ] eqn:Hl.
    + exfalso. exact (first_free_empty _ _ Hl).
    + rewrite (holders_insert _ _ _ _ _ Hl). simpl. lia.
    + apply lookup_ge_None in Hl. lia.
  - apply holders_app.
Qed.

Lemma holders_pos p ls k l :
  ls !! k = Some (Some l) -> PIf (lnk_info l) = Some p -> 1 <= holders p ls.
Proof.
  revert k. induction ls as [ | ol ls IH ]; intros [ | k ] Hk Hp;
    try discriminate; simpl in *.
  - inversion Hk. subst. simpl. rewrite Hp. simpl.
    rewrite Nat.eqb_refl. pose proof (holders_nonneg p ls). lia.
  - specialize (IH k Hk Hp). destruct (holds p ol); lia.
Qed.

Lemma option_nat_eqb_eq (a b : option nat) :
  option_nat_eqb a b = true <-> a = b.
Proof.
  destruct a, b; simpl; split; intros H; try congruence.
  - apply Nat.eqb_eq in H. congruence.
  - inversion H. apply Nat.eqb_refl.
Qed.

(** ** What an update has to respect *)

Lemma RegInv_same (w w' : World) :
  gLinks w' = gLinks w -> PppoeIfs w' = PppoeIfs w -> RegInv w -> RegInv w'.
Proof.
  intros E1 E2 [H1 H2]. split.
  - intros p e He. rewrite E2 in He. rewrite E1. auto.
  - intros k l Hl. rewrite E1 in Hl. eauto.
Qed.

(** A link may change as long as its parent pointer and its type stay
    and its path is kept or not empty. *)
Lemma RegInv_link (w : World) (k : nat) (l l' : Link) :
  RegInv w -> gLinks w !! k = Some (Some l) ->
  PIf (lnk_info l') = PIf (lnk_info l) ->
  lnk_type l' = lnk_type l ->
  (path (lnk_info l') = path (lnk_info l)
   \/ path (lnk_info l') <> EmptyString) ->
  RegInv (set_gLinks (<[k := Some l']> (gLinks w)) w).
Proof.
  intros [H1 H2] Hl Hp Ht Hpath. split.
  - intros p e He. cbn [PppoeIfs gLinks set_gLinks] in *.
    destruct (H1 p e He) as [Hok Hr]. split; [ assumption | ].
    rewrite (holders_insert _ _ _ _ _ Hl). simpl. rewrite Hp. lia.
  - intros k' l0 Hk' Ht0. cbn [gLinks set_gLinks] in Hk'.
    destruct (decide (k = k')) as [<- | Hne].
    + rewrite (lookup_updated _ _ _ _ Hl) in Hk'. inversion Hk'. subst l0.
      destruct Hpath as [E | Hn]; [ | assumption ].
      rewrite E. apply (H2 k l Hl). congruence.
    + rewrite list_lookup_insert_ne in Hk' by assumption. eauto.
Qed.

(** An entry may change as long as it stays well formed and keeps its
    reference count. *)
Lemma RegInv_if (w : World) (p : nat) (e e' : PppoeIf) :
  RegInv w -> PppoeIfs w !! p = Some e ->
  refs e' = refs e -> (if_ok e -> if_ok e') ->
  RegInv (set_PppoeIfs (<[p := e']> (PppoeIfs w)) w).
Proof.
  intros [H1 H2] He Hr Hok. split; [ | exact H2 ].
  intros q e0 Hq. cbn [PppoeIfs gLinks set_PppoeIfs] in *.
  destruct (decide (p = q)) as [<- | Hne].
  - rewrite list_lookup_insert_eq in Hq
      by (eapply lookup_lt_Some; eassumption).
    inversion Hq. subst e0. destruct (H1 p e He) as [Hok0 Hr0].
    split; [ auto | congruence ].
  - rewrite list_lookup_insert_ne in Hq by assumption. auto.
Qed.

Lemma if_ok_socks (e : PppoeIf) (cs ds : nat) :
  if_ok e -> if_ok (set_socks (Z.of_nat cs) (Z.of_nat ds) e).
Proof.
  intros [[Hr Hp] | (Hr & Hc & Hd & Hp)]; [ left | right ]; cbn;
    repeat split; auto; lia.
Qed.

Lemma iface_path_nonempty (n : nat) (s : string) :
  iface_path (S n) s <> EmptyString.
Proof. destruct s; simpl; discriminate. Qed.

(** ** The invariant, with one slot known to hold a PPPoE link *)

Definition RegG (g : option nat) (w : World) : Prop :=
  RegInv w /\ match g with
              | Some k0 => is_pppoe w k0
              | None => True
              end.

Lemma RegG_same g (w w' : World) :
  gLinks w' = gLinks w -> PppoeIfs w' = PppoeIfs w -> RegG g w -> RegG g w'.
Proof.
  intros E1 E2 [H1 H2]. split; [ eapply RegInv_same; eauto | ].
  destruct g; [ | exact I ]. unfold is_pppoe in *. rewrite E1. exact H2.
Qed.

Lemma RegG_link g (w : World) (k : nat) (l l' : Link) :
  RegG g w -> gLinks w !! k = Some (Some l) ->
  PIf (lnk_info l') = PIf (lnk_info l) ->
  lnk_type l' = lnk_type l ->
  (path (lnk_info l') = path (lnk_info l)
   \/ path (lnk_info l') <> EmptyString) ->
  RegG g (set_gLinks (<[k := Some l']> (gLinks w)) w).
Proof.
  intros [H1 H2] Hl Hp Ht Hpath. split; [ eapply RegInv_link; eauto | ].
  destruct g as [k0 | ]; [ | exact I ].
  destruct H2 as (l0 & Hl0 & Ht0). unfold is_pppoe. cbn [gLinks set_gLinks].
  destruct (decide (k = k0)) as [<- | Hne].
  - exists l'. rewrite (lookup_updated _ _ _ _ Hl). split; [ reflexivity | ].
    rewrite Hl in Hl0. inversion Hl0. subst. congruence.
  - exists l0. rewrite list_lookup_insert_ne by assumption. auto.
Qed.

Lemma RegG_if g (w : World) (p : nat) (e e' : PppoeIf) :
  RegG g w -> PppoeIfs w !! p = Some e ->
  refs e' = refs e -> (if_ok e -> if_ok e') ->
  RegG g (set_PppoeIfs (<[p := e']> (PppoeIfs w)) w).
Proof.
  intros [H1 H2] He Hr Hok. split; [ eapply RegInv_if; eauto | ].
  destruct g; [ exact H2 | exact I ].
Qed.

(** A link is pointed to another parent, or to none, while the entry
    concerned is updated to match. *)
Lemma RegG_repoint g (w : World) (k p : nat) (l l' : Link) (e e' : PppoeIf) :
  RegG g w -> gLinks w !! k = Some (Some l) -> PppoeIfs w !! p = Some e ->
  lnk_type l' = lnk_type l -> path (lnk_info l') = path (lnk_info l) ->
  (PIf (lnk_info l) = None \/ PIf (lnk_info l) = Some p) ->
  (PIf (lnk_info l') = None \/ PIf (lnk_info l') = Some p) ->
  refs e' = refs e + (if holds p (Some l') then 1 else 0)
            - (if holds p (Some l) then 1 else 0) ->
  if_ok e' ->
  RegG g (set_gLinks (<[k := Some l']> (gLinks w))
            (set_PppoeIfs (<[p := e']> (PppoeIfs w)) w)).
Proof.
  intros [[H1 H2] H3] Hl He Ht Hpath Ha Hb Hr Hok. split; [ split | ].
  - intros q e0 Hq. cbn [PppoeIfs gLinks set_gLinks set_PppoeIfs] in *.
    rewrite (holders_insert _ _ _ _ _ Hl).
    destruct (decide (p = q)) as [<- | Hne].
    + rewrite (lookup_updated_if _ _ _ _ He) in Hq. inversion Hq. subst e0.
      split; [ assumption | ]. destruct (H1 p e He) as [_ E]. lia.
    + rewrite list_lookup_insert_ne in Hq by assumption.
      destruct (H1 q e0 Hq) as [Hok0 E]. split; [ assumption | ].
      assert (Hq1 : holds q (Some l) = false).
      { simpl. destruct Ha as [-> | ->]; simpl; [ reflexivity | ].
        apply Nat.eqb_neq. assumption. }
      assert (Hq2 : holds q (Some l') = false).
      { simpl. destruct Hb as [-> | ->]; simpl; [ reflexivity | ].
        apply Nat.eqb_neq. assumption. }
      rewrite Hq1, Hq2. lia.
  - intros k' l0 Hk' Ht0. cbn [gLinks set_gLinks set_PppoeIfs] in Hk'.
    destruct (decide (k = k')) as [<- | Hne].
    + rewrite (lookup_updated _ _ _ _ Hl) in Hk'. inversion Hk'. subst l0.
      rewrite Hpath. apply (H2 k l Hl). congruence.
    + rewrite list_lookup_insert_ne in Hk' by assumption. eauto.
  - destruct g as [k0 | ]; [ | exact I ].
    destruct H3 as (l0 & Hl0 & Ht0). unfold is_pppoe.
    cbn [gLinks set_gLinks set_PppoeIfs].
    destruct (decide (k = k0)) as [<- | Hne].
    + exists l'. rewrite (lookup_updated _ _ _ _ Hl). split; [ reflexivity | ].
      rewrite Hl in Hl0. inversion Hl0. subst. congruence.
    + exists l0. rewrite list_lookup_insert_ne by assumption. auto.
Qed.

(** A new link in the slot the host picks, pointing where a link that
    is already there points. *)
Lemma RegInv_place_fresh (w : World) (l : Link) :
  RegInv w -> PIf (lnk_info l) = None ->
  (lnk_type l = gPppoePhysType -> path (lnk_info l) <> EmptyString) ->
  RegInv (set_gLinks (place_link (first_free (gLinks w) 0) l (gLinks w)) w).
Proof.
  intros [H1 H2] Hp Hpath. split.
  - intros p e He. cbn [PppoeIfs gLinks set_gLinks] in *.
    rewrite holders_place. simpl. rewrite Hp. simpl.
    destruct (H1 p e He). split; [ assumption | lia ].
  - intros k' l0 Hk' Ht0. cbn [gLinks set_gLinks] in Hk'.
    apply place_link_inv in Hk' as [[_ ->] | Hk']; eauto.
Qed.

Lemma RegInv_place_held (w : World) (kt p : nat) (lt l : Link) (e : PppoeIf) :
  RegInv w -> gLinks w !! kt = Some (Some lt) ->
  PIf (lnk_info lt) = Some p -> PppoeIfs w !! p = Some e ->
  PIf (lnk_info l) = Some p -> lnk_type l = lnk_type lt ->
  path (lnk_info l) = path (lnk_info lt) ->
  RegInv (set_PppoeIfs (<[p := set_refs (refs e + 1) e]> (PppoeIfs w))
            (set_gLinks
               (place_link (first_free (gLinks w) 0) l (gLinks w)) w)).
Proof.
  intros [H1 H2] Hlt Hpt He Hp Ht Hpath. split.
  - intros q e0 Hq. cbn [PppoeIfs gLinks set_gLinks set_PppoeIfs] in *.
    rewrite holders_place. simpl. rewrite Hp. simpl.
    destruct (decide (p = q)) as [<- | Hne].
    + rewrite (lookup_updated_if _ _ _ _ He) in Hq. inversion Hq. subst e0.
      rewrite Nat.eqb_refl. destruct (H1 p e He) as [Hok Hr].
      split; [ | cbn; lia ].
      pose proof (holders_pos p _ _ _ Hlt Hpt) as Hpos.
      destruct Hok as [[Hr0 _] | (Hr0 & Hc & Hd & Hn)]; [ lia | ].
      right. cbn. repeat split; auto. lia.
    + rewrite list_lookup_insert_ne in Hq by assumption.
      destruct (H1 q e0 Hq) as [Hok Hr]. split; [ assumption | ].
      rewrite (proj2 (Nat.eqb_neq p q) Hne). lia.
  - intros k' l0 Hk' Ht0. cbn [gLinks set_gLinks set_PppoeIfs] in Hk'.
    apply place_link_inv in Hk' as [[_ ->] | Hk']; [ | eauto ].
    rewrite Hpath. apply (H2 kt lt Hlt). congruence.
Qed.

Lemma RegInv_remove (w : World) (k : nat) :
  RegInv w ->
  (forall l, gLinks w !! k = Some (Some l) -> PIf (lnk_info l) = None) ->
  RegInv (set_gLinks (<[k := None]> (gLinks w)) w).
Proof.
  intros [H1 H2] Hk. split.
  - intros p e He. cbn [PppoeIfs gLinks set_gLinks] in *.
    destruct (H1 p e He) as [Hok Hr]. split; [ assumption | ].
    destruct (gLinks w !! k) as [ol | ] eqn:Hl.
    + rewrite (holders_insert _ _ _ _ _ Hl). simpl.
      destruct ol as [l | ]; simpl; [ | lia ].
      rewrite (Hk l eq_refl). simpl. lia.
    + rewrite list_insert_ge by (apply lookup_ge_None; assumption).
      assumption.
  - intros k' l0 Hk' Ht0. cbn [gLinks set_gLinks] in Hk'.
    destruct (decide (k = k')) as [<- | Hne].
    + destruct (gLinks w !! k) as [ol | ] eqn:Hl.
      * rewrite (lookup_updated _ _ _ _ Hl) in Hk'. discriminate.
      * rewrite list_insert_ge in Hk' by (apply lookup_ge_None; assumption).
        congruence.
    + rewrite list_lookup_insert_ne in Hk' by assumption. eauto.
Qed.

End Registry.

Section RegistryEffects.
Import Libc TagCodec Pppoe.
Variable host : Host.

(** The entry after the last reference is gone. *)
Definition PppoeIf_released (e : PppoeIf) : PppoeIf :=
  {| ifnodepath := EmptyString; node_id := 0; refs := 0; csock := -1;
     dsock := -1; ctrlEvent := false; dataEvent := false;
     listeners := listeners e |}.

Lemma PppoeReleaseNode_last (w : World) (k p : nat) (l : Link) (e : PppoeIf) :
  gLinks w !! k = Some (Some l) -> PIf (lnk_info l) = Some p ->
  PppoeIfs w !! p = Some e -> refs e - 1 = 0 ->
  PppoeReleaseNode k w
  = Ok tt
      (set_trace
         (trace w ++ [EvEventUnRegister (csock e);
                      EvEventUnRegister (dsock e);
                      EvClose (csock e); EvClose (dsock e)])
         (set_gLinks
            (<[k := Some (set_info (set_PIf None (lnk_info l)) l)]> (gLinks w))
            (set_PppoeIfs (<[p := PppoeIf_released e]> (PppoeIfs w)) w))).
Proof.
  intros Hl Hp He Hr. destruct w as [ls ifs hp ld tr]. world_norm.
  unfold PppoeReleaseNode. run_step. rewrite Hp.
  run_step. run_step.
  cbn [refs set_refs]. rewrite Hr. cbn [Z.eqb].
  repeat run_step. run_last.
  cbn [csock dsock set_refs set_ifnodepath set_node_id set_events set_socks
       ifnodepath node_id refs ctrlEvent dataEvent listeners].
  rewrite <- !app_assoc. reflexivity.
Qed.

Lemma PppoeReleaseNode_shared (w : World) (k p : nat) (l : Link)
    (e : PppoeIf) :
  gLinks w !! k = Some (Some l) -> PIf (lnk_info l) = Some p ->
  PppoeIfs w !! p = Some e -> refs e - 1 <> 0 ->
  PppoeReleaseNode k w
  = Ok tt
      (set_gLinks
         (<[k := Some (set_info (set_PIf None (lnk_info l)) l)]> (gLinks w))
         (set_PppoeIfs (<[p := set_refs (refs e - 1) e]> (PppoeIfs w)) w)).
Proof.
  intros Hl Hp He Hr. destruct w as [ls ifs hp ld tr]. world_norm.
  unfold PppoeReleaseNode. run_step. rewrite Hp.
  run_step. run_step.
  cbn [refs set_refs]. rewrite (proj2 (Z.eqb_neq _ _) Hr).
  repeat run_step. run_last. reflexivity.
Qed.

(** ** The search of [PppoeGetNode] *)

Lemma find_parent_Some (ifs : list PppoeIf) (pth : string) (i : nat)
    (fr fr' : option nat) (j : nat) :
  find_parent ifs pth i fr = (Some j, fr') ->
  exists e, (i <= j)%nat /\ ifs !! (j - i)%nat = Some e
            /\ ifnodepath e <> EmptyString /\ ifnodepath e = pth.
Proof.
  revert i fr. induction ifs as [ | e ifs IH ]; intros i fr H; simpl in H;
    [ discriminate | ].
  unfold streq in H.
  destruct (String.eqb (ifnodepath e) EmptyString) eqn:E0.
  - apply IH in H as (e' & Hle & Hl & Hn & Hp). exists e'.
    split; [ lia | ]. split; [ | auto ].
    replace (j - i)%nat with (S (j - S i)) by lia. exact Hl.
  - destruct (String.eqb (ifnodepath e) pth) eqn:E1.
    + inversion H. subst. exists e. split; [ lia | ].
      rewrite Nat.sub_diag. split; [ reflexivity | ].
      split; [ apply String.eqb_neq; assumption
             | apply String.eqb_eq; assumption ].
    + apply IH in H as (e' & Hle & Hl & Hn & Hp). exists e'.
      split; [ lia | ]. split; [ | auto ].
      replace (j - i)%nat with (S (j - S i)) by lia. exact Hl.
Qed.

Lemma find_parent_free (ifs : list PppoeIf) (pth : string) (i : nat)
    (fr : option nat) (f : nat) :
  find_parent ifs pth i fr = (None, Some f) ->
  fr = Some f
  \/ exists e, (i <= f)%nat /\ ifs !! (f - i)%nat = Some e
               /\ ifnodepath e = EmptyString.
Proof.
  revert i fr. induction ifs as [ | e ifs IH ]; intros i fr H; simpl in H.
  - inversion H. auto.
  - unfold streq in H.
    destruct (String.eqb (ifnodepath e) EmptyString) eqn:E0.
    + apply IH in H as [H | (e' & Hle & Hl & Hp)].
      * inversion H. subst. right. exists e. split; [ lia | ].
        rewrite Nat.sub_diag. split; [ reflexivity | ].
        apply String.eqb_eq. assumption.
      * right. exists e'. split; [ lia | ]. split; [ | assumption ].
        replace (f - i)%nat with (S (f - S i)) by lia. exact Hl.
    + destruct (String.eqb (ifnodepath e) pth); [ discriminate | ].
      apply IH in H as [H | (e' & Hle & Hl & Hp)]; [ auto | ].
      right. exists e'. split; [ lia | ]. split; [ | assumption ].
      replace (f - i)%nat with (S (f - S i)) by lia. exact Hl.
Qed.

(** The first entry with the wanted path is the one found. *)
Lemma find_parent_first (ifs : list PppoeIf) (pth : string) (i : nat)
    (fr : option nat) (j : nat) (e : PppoeIf) :
  ifs !! j = Some e -> ifnodepath e = pth -> pth <> EmptyString ->
  (forall q e', (q < j)%nat -> ifs !! q = Some e' -> ifnodepath e' <> pth) ->
  exists fr', find_parent ifs pth i fr = (Some (i + j)%nat, fr').
Proof.
  revert i fr j. induction ifs as [ | e0 ifs IH ]; intros i fr j Hj Hp Hn Hfirst;
    [ discriminate | ].
  destruct j as [ | j ]; simpl in Hj |- *; unfold streq.
  - inversion Hj. subst e0.
    rewrite (proj2 (String.eqb_neq _ _)) by congruence.
    rewrite (proj2 (String.eqb_eq _ _) Hp).
    exists fr. f_equal. f_equal. lia.
  - assert (Hne : ifnodepath e0 <> pth)
      by (apply (Hfirst 0%nat); [ lia | reflexivity ]).
    assert (Hrec : forall q e', (q < j)%nat -> ifs !! q = Some e' ->
                                ifnodepath e' <> pth).
    { intros q e' Hq Hl. apply (Hfirst (S q)); [ lia | exact Hl ]. }
    destruct (String.eqb (ifnodepath e0) EmptyString).
    + destruct (IH (S i) (Some i) j Hj Hp Hn Hrec) as [fr' E].
      exists fr'. rewrite E. f_equal. f_equal. lia.
    + rewrite (proj2 (String.eqb_neq _ _) Hne).
      destruct (IH (S i) fr j Hj Hp Hn Hrec) as [fr' E].
      exists fr'. rewrite E. f_equal. f_equal. lia.
Qed.

(** [PppoeGetNode] when the path is already in the table. *)
Lemma PppoeGetNode_found (w : World) (k j : nat) (l : Link) (e : PppoeIf)
    (fr : option nat) :
  gLinks w !! k = Some (Some l) -> PIf (lnk_info l) = None ->
  path (lnk_info l) <> "undefined:" ->
  find_parent (firstn PPPOE_MAXPARENTIFS (PppoeIfs w)) (path (lnk_info l))
    0 None = (Some j, fr) ->
  PppoeIfs w !! j = Some e ->
  PppoeGetNode host k w
  = Ok tt
      (set_gLinks
         (<[k := Some (set_info (set_PIf (Some j) (lnk_info l)) l)]> (gLinks w))
         (set_PppoeIfs (<[j := set_refs (refs e + 1) e]> (PppoeIfs w)) w)).
Proof.
  intros Hl Hp Hu Hf He. destruct w as [ls ifs hp ld tr]. world_norm.
  unfold PppoeGetNode. run_step. rewrite Hp.
  unfold streq. rewrite (proj2 (String.eqb_neq _ _) Hu).
  run_step. rewrite Hf. repeat run_step. run_last. reflexivity.
Qed.

End RegistryEffects.

Ltac reg_side :=
  intros;
  first
    [ eapply RegG_same; [ reflexivity | reflexivity | assumption ]
    | eapply RegG_link;
      [ eassumption | eassumption | reflexivity | reflexivity
      | first [ left; reflexivity | right; apply iface_path_nonempty ] ]
    | eapply RegG_if;
      [ eassumption | eassumption | reflexivity
      | first [ exact (fun H => H) | apply if_ok_socks ] ] ].

Section Creating.
Import Libc TagCodec Pppoe.

(** While [CreatePppoeNode] works on the free entry [p]: the links
    are untouched, the entry stays free, and once the socket node is
    made its two descriptors are valid. *)
Definition Cr (g : option nat) (p : nat) (ls : list (option Link))
    (valid : bool) (w : World) : Prop :=
  RegG g w /\ gLinks w = ls
  /\ exists e, PppoeIfs w !! p = Some e /\ refs e = 0
               /\ ifnodepath e = EmptyString
               /\ (valid = true -> 0 <= csock e /\ 0 <= dsock e).

Lemma Cr_same g p ls v (w w' : World) :
  gLinks w' = gLinks w -> PppoeIfs w' = PppoeIfs w ->
  Cr g p ls v w -> Cr g p ls v w'.
Proof.
  intros E1 E2 (HR & HL & He). split; [ eapply RegG_same; eauto | ].
  rewrite E1, E2. auto.
Qed.

Lemma Cr_if g p ls v (w : World) (e0 e' : PppoeIf) :
  Cr g p ls v w -> PppoeIfs w !! p = Some e0 ->
  refs e' = refs e0 -> ifnodepath e' = ifnodepath e0 ->
  (csock e' = csock e0 /\ dsock e' = dsock e0
   \/ 0 <= csock e' /\ 0 <= dsock e') ->
  Cr g p ls v (set_PppoeIfs (<[p := e']> (PppoeIfs w)) w).
Proof.
  intros (HR & HL & e & He & Hr & Hp & Hv) He0 Er Ep Es.
  rewrite He0 in He. inversion He. subst e0. clear He.
  split; [ | split; [ exact HL | ] ].
  - eapply RegG_if; eauto. intros _. left. split; congruence.
  - exists e'. cbn [PppoeIfs set_PppoeIfs].
    rewrite (lookup_updated_if _ _ _ _ He0).
    split; [ reflexivity | ]. split; [ congruence | ].
    split; [ congruence | ].
    intros Hvt. destruct Es as [[-> ->] | Es]; auto.
Qed.

End Creating.

Ltac cr_side :=
  intros;
  first
    [ eapply Cr_same; [ reflexivity | reflexivity | assumption ]
    | eapply Cr_if;
      [ eassumption | eassumption | reflexivity | reflexivity
      | first [ left; split; reflexivity | right; cbn; lia ] ] ].

Section RegistryPreserved.
Import Libc TagCodec Pppoe.
Variable host : Host.
Variable g : option nat.

Lemma Reg_slist_find ls s : preserves (RegG g) (slist_find ls s).
Proof.
  induction ls as [ | a ls IH ]; simpl;
    pres_walk reg_side ltac:(exact IH).
Qed.

Lemma Reg_PppoeListen k : preserves (RegG g) (PppoeListen host k).
Proof.
  unfold PppoeListen. pres_walk reg_side ltac:(apply Reg_slist_find).
Qed.

Lemma Reg_PppoeUnListen k : preserves (RegG g) (PppoeUnListen host k).
Proof. unfold PppoeUnListen. pres_walk reg_side fail. Qed.

Lemma Reg_CreatePppoeNode p ifn pth hk :
  preserves (RegG g) (CreatePppoeNode host p ifn pth hk).
Proof.
  unfold CreatePppoeNode, probe_ether. pres_walk reg_side fail.
Qed.

Lemma Reg_PppoeReleaseNode k :
  hoare (RegG g) (PppoeReleaseNode k)
    (fun _ w => RegG g w
                /\ forall l, gLinks w !! k = Some (Some l) ->
                             PIf (lnk_info l) = None).
Proof.
  intros w a w' HI H. pose proof H as H0. unfold PppoeReleaseNode in H0.
  apply bind_inv in H0 as (pi & w1 & H1 & H0).
  apply getInfo_inv in H1 as (-> & l & Hl & ->).
  destruct (PIf (lnk_info l)) as [p | ] eqn:Hp.
  - apply bind_inv in H0 as (u & w2 & H1 & _).
    apply modIf_inv in H1 as (e & He & _).
    assert (Hrefs : 1 <= refs e).
    { destruct HI as [[H1 _] _]. destruct (H1 p e He) as [_ ->].
      eapply holders_pos; eauto. }
    assert (Hok : if_ok e) by (destruct HI as [[H1 _] _]; apply (H1 p e He)).
    assert (Hhold : holds p (Some l) = true)
      by (simpl; rewrite Hp; simpl; apply Nat.eqb_refl).
    destruct (Z.eq_dec (refs e - 1) 0) as [Hz | Hnz].
    + rewrite (PppoeReleaseNode_last w k p l e Hl Hp He Hz) in H.
      injection H as <- <-. split.
      * eapply (RegG_same g (set_gLinks _ (set_PppoeIfs _ w)));
          [ reflexivity | reflexivity | ].
        eapply RegG_repoint; eauto.
        -- rewrite Hhold. cbn. lia.
        -- left. split; reflexivity.
      * intros l0 Hl0. cbn [gLinks set_gLinks set_trace] in Hl0.
        rewrite (lookup_updated _ _ _ _ Hl) in Hl0. inversion Hl0.
        reflexivity.
    + rewrite (PppoeReleaseNode_shared w k p l e Hl Hp He Hnz) in H.
      injection H as <- <-. split.
      * eapply RegG_repoint; eauto.
        -- rewrite Hhold. cbn. lia.
        -- destruct Hok as [[Hr _] | (Hr & Hc & Hd & Hpth)]; [ lia | ].
           right. cbn. repeat split; auto. lia.
      * intros l0 Hl0. cbn [gLinks set_gLinks] in Hl0.
        rewrite (lookup_updated _ _ _ _ Hl) in Hl0. inversion Hl0.
        reflexivity.
  - prim_inv H0. split; [ assumption | ].
    intros l0 Hl0. rewrite Hl in Hl0. inversion Hl0. subst. assumption.
Qed.

Lemma Reg_PppoeReleaseNode_pres k : preserves (RegG g) (PppoeReleaseNode k).
Proof. intros w a w' HI H. exact (proj1 (Reg_PppoeReleaseNode k w a w' HI H)). Qed.

Lemma Cr_CreatePppoeNode p ls ifn pth hk :
  hoare (Cr g p ls false) (CreatePppoeNode host p ifn pth hk)
    (fun r w => Cr g p ls false w /\ (r <> 0 -> Cr g p ls true w)).
Proof.
  assert (HB : forall text,
             hoare (Cr g p ls false) (Perror text ;; ret 0)
               (fun r w => Cr g p ls false w
                           /\ (r <> 0 -> Cr g p ls true w))).
  { intros text w r w' HI H. unfold Perror in H.
    apply bind_inv in H as (u & w1 & H1 & H). prim_inv H1. prim_inv H.
    split; [ | congruence ].
    eapply Cr_same; [ reflexivity | reflexivity | eassumption ]. }
  unfold CreatePppoeNode.
  apply hoare_bind_pres; [ pres_walk cr_side fail | intros t ].
  apply hoare_bind_pres; [ pres_walk cr_side fail | intros _ ].
  destruct (negb (sys_IfaceSetFlag host t =? 0)); [ apply HB | ].
  apply hoare_bind_pres; [ pres_walk cr_side fail | intros t' ].
  apply hoare_bind_pres; [ pres_walk cr_side fail | intros _ ].
  destruct (ng_MkSockNode host t') as [[cs ds] | ]; [ | apply HB ].
  refine (hoare_bind _ (fun _ => Cr g p ls true) _ _ _ _ _).
  - intros w a w' (HR & HL & e & He & Hr & Hp & Hv) H.
    apply modIf_inv in H as (e0 & He0 & ->).
    rewrite He in He0. inversion He0. subst e0. clear He0.
    split; [ | split; [ exact HL | ] ].
    + eapply RegG_if; eauto. apply if_ok_socks.
    + eexists. cbn [PppoeIfs set_PppoeIfs].
      rewrite (lookup_updated_if _ _ _ _ He).
      split; [ reflexivity | ]. cbn. repeat split; auto; lia.
  - intros _.
    match goal with
    | |- hoare _ ?c _ =>
        assert (preserves (Cr g p ls true) c) as Hrest
    end.
    { unfold probe_ether. pres_walk cr_side fail. }
    intros w r w' HI H. specialize (Hrest w r w' HI H).
    split; [ | intros _; exact Hrest ].
    destruct Hrest as (HR & HL & e & He & Hr & Hp & _).
    split; [ assumption | ]. split; [ assumption | ].
    exists e. repeat split; auto; discriminate.
Qed.

End RegistryPreserved.

Section RegistryAcquire.
Import Libc TagCodec Pppoe.
Variable host : Host.

Lemma Reg_PppoeGetNode k :
  preserves (RegG (Some k)) (PppoeGetNode host k).
Proof.
  intros w a w' HI H. pose proof H as H0. unfold PppoeGetNode in H0.
  apply bind_inv in H0 as (pi & w1 & H1 & H0).
  apply getInfo_inv in H1 as (-> & l & Hl & ->).
  destruct (PIf (lnk_info l)) as [p | ] eqn:Hp; [ prim_inv H0; assumption | ].
  destruct (streq (path (lnk_info l)) "undefined:") eqn:Hu.
  { prim_inv H0. eapply RegG_same; [ reflexivity | reflexivity | eassumption ]. }
  apply bind_inv in H0 as (w0 & w2 & H1 & H0). prim_inv H1.
  destruct (find_parent (firstn PPPOE_MAXPARENTIFS (PppoeIfs w))
              (path (lnk_info l)) 0 None) as [[j | ] fr] eqn:Hf.
  - (* the path is in the table *)
    clear H0.
    destruct (find_parent_Some _ _ _ _ _ _ Hf) as (e & _ & He & Hne & _).
    rewrite Nat.sub_0_r in He. apply lookup_take_Some in He as [He _].
    unfold streq in Hu. apply String.eqb_neq in Hu.
    rewrite (PppoeGetNode_found host w k j l e fr Hl Hp Hu Hf He) in H.
    injection H as <- <-.
    assert (Hok : if_ok e) by (destruct HI as [[H1 _] _]; apply (H1 j e He)).
    eapply RegG_repoint; eauto.
    + simpl. rewrite Hp. simpl. rewrite Nat.eqb_refl. cbn. lia.
    + destruct Hok as [[_ Hp0] | (Hr & Hc & Hd & Hpth)]; [ contradiction | ].
      right. cbn. repeat split; auto. lia.
  - destruct fr as [free | ].
    + (* a new node on a free entry *)
      destruct (find_parent_free _ _ _ _ _ Hf) as [Habs | (e & _ & He & Hpe)];
        [ discriminate | ].
      rewrite Nat.sub_0_r in He. apply lookup_take_Some in He as [He _].
      assert (Hok : if_ok e)
        by (destruct HI as [[H1 _] _]; apply (H1 free e He)).
      assert (Hr0 : refs e = 0).
      { destruct Hok as [[Hr _] | (_ & _ & _ & Hn)];
          [ assumption | contradiction ]. }
      apply bind_inv in H0 as (r & w1 & H1 & H0).
      apply (Cr_CreatePppoeNode host (Some k) free (gLinks w)) in H1.
      2:{ split; [ assumption | ]. split; [ reflexivity | ].
          exists e. repeat split; auto; discriminate. }
      destruct H1 as [Hcr Hcr1].
      destruct (negb (r =? 0)) eqn:Hr.
      * apply negb_true_iff, Z.eqb_neq in Hr. specialize (Hcr1 Hr).
        destruct Hcr1 as (HR1 & HL1 & e1 & He1 & Hr1 & Hp1 & Hv1).
        destruct (Hv1 eq_refl) as [Hc Hd].
        rewrite <- HL1 in Hl.
        apply bind_inv in H0 as (u & w2 & H1 & H0).
        apply modIf_inv in H1 as (e2 & He2 & ->).
        rewrite He1 in He2. inversion He2. subst e2. clear He2.
        apply bind_inv in H0 as (u2 & w3 & H1 & H0).
        apply modIf_inv in H1 as (e3 & He3 & ->).
        cbn [PppoeIfs set_PppoeIfs] in He3.
        rewrite (lookup_updated_if _ _ _ _ He1) in He3.
        inversion He3. subst e3. clear He3.
        apply modLink_inv in H0 as (l3 & Hl3 & ->).
        cbn [gLinks set_PppoeIfs] in Hl3. rewrite Hl in Hl3.
        inversion Hl3. subst l3. clear Hl3.
        cbn [gLinks PppoeIfs set_PppoeIfs set_gLinks].
        rewrite list_insert_insert_eq.
        apply (RegG_repoint (Some k) w1 k free l _ e1); auto.
        -- simpl. rewrite Hp. simpl. rewrite Nat.eqb_refl. cbn. lia.
        -- assert (Hnp : strlcpy (path (lnk_info l)) MAX_PATH <> EmptyString).
           { unfold strlcpy. apply truncate_nonempty.
             destruct HR1 as [[_ Hpaths] (lk & Hlk & Htk)].
             rewrite Hl in Hlk. inversion Hlk. subst lk.
             apply (Hpaths k l Hl Htk). }
           right.
           cbn [refs csock dsock ifnodepath set_refs set_ifnodepath].
           repeat split; auto; lia.
      * unfold Log in H0. prim_inv H0.
        eapply RegG_same; [ reflexivity | reflexivity | apply Hcr ].
    + unfold Log in H0. prim_inv H0.
      eapply RegG_same; [ reflexivity | reflexivity | eassumption ].
Qed.

End RegistryAcquire.

Section RegistrySteps.
Import Libc TagCodec Pppoe.
Variable host : Host.

Lemma Reg_PppoeDoClose g k : preserves (RegG g) (PppoeDoClose host k).
Proof. unfold PppoeDoClose. pres_walk reg_side fail. Qed.

Lemma Reg_PppoeClose g k : preserves (RegG g) (PppoeClose host k).
Proof.
  unfold PppoeClose. pres_walk reg_side ltac:(apply Reg_PppoeDoClose).
Qed.

Lemma Reg_timer_fire g k : preserves (RegG g) (timer_fire host k).
Proof.
  unfold timer_fire, PppoeConnectTimeout.
  pres_walk reg_side ltac:(apply Reg_PppoeDoClose).
Qed.

Lemma Reg_PppoeOpen k : preserves (RegG (Some k)) (PppoeOpen host k).
Proof.
  unfold PppoeOpen, open_fail3, open_fail2, open_fail.
  pres_walk reg_side ltac:(apply Reg_PppoeGetNode).
Qed.

Lemma Reg_PppoeNodeUpdate k :
  preserves (RegG (Some k)) (PppoeNodeUpdate host k).
Proof.
  unfold PppoeNodeUpdate.
  pres_walk reg_side
    ltac:(first [ apply Reg_PppoeGetNode | apply Reg_PppoeListen
                | apply Reg_PppoeUnListen | apply Reg_PppoeReleaseNode_pres ]).
Qed.

Lemma Reg_relisten k b : preserves (RegG (Some k)) (relisten host k b).
Proof.
  unfold relisten.
  pres_walk reg_side
    ltac:(first [ apply Reg_PppoeGetNode | apply Reg_PppoeListen
                | apply Reg_PppoeUnListen | apply Reg_PppoeReleaseNode_pres ]).
Qed.

Lemma Reg_PppoeSetCommand k av arg :
  preserves (RegG (Some k)) (PppoeSetCommand host k av arg).
Proof.
  unfold PppoeSetCommand.
  pres_walk reg_side ltac:(apply Reg_relisten).
Qed.

Lemma Reg_PppoeCtrlReadEvent g p recv :
  preserves (RegG g) (PppoeCtrlReadEvent host p recv).
Proof.
  unfold PppoeCtrlReadEvent, ctrl_find_link, ctrl_link_cmd, ctrl_other_cmd.
  pres_walk reg_side ltac:(apply Reg_PppoeDoClose).
Qed.

(** After [PppoeShutdown] the link points to no parent, and its slot
    can be given back. *)
Lemma Reg_LinkShutdown k : preserves (RegG None) (LinkShutdown host k).
Proof.
  unfold LinkShutdown, PppoeShutdown.
  apply pres_bind; [ pres_walk reg_side fail | intros _ ].
  intros w a w' HI H.
  apply bind_inv in H as (u & w1 & H1 & H). prim_inv H.
  apply bind_inv in H1 as (u1 & w2 & H1 & H).
  assert (HI2 : RegG None w2) by (eapply Reg_PppoeDoClose; eauto).
  apply bind_inv in H as (u2 & w3 & H2 & H).
  assert (HI3 : RegG None w3) by (eapply Reg_PppoeUnListen; eauto).
  apply bind_inv in H as (u3 & w4 & H3 & H).
  apply (Reg_PppoeReleaseNode None k _ _ _ HI3) in H3 as [HI4 Hnone].
  prim_inv H. split; [ | exact I ].
  apply (RegInv_remove (set_trace _ w4)).
  - eapply RegInv_same; [ reflexivity | reflexivity | apply HI4 ].
  - exact Hnone.
Qed.

Lemma Reg_LinkCreate l0 : preserves (RegG None) (LinkCreate l0).
Proof.
  intros w a w' [HI _] H. unfold LinkCreate in H.
  apply bind_inv in H as (w0 & w1 & H1 & H). prim_inv H1. cbv zeta in H.
  split; [ | exact I ].
  apply bind_inv in H as (u & w1 & H1 & H). prim_inv H1.
  apply bind_inv in H as (r & w2 & H2 & H). prim_inv H.
  destruct (lnk_type l0) eqn:Ht.
  - unfold PppoeInit in H2. cbv zeta in H2.
    apply bind_inv in H2 as (u1 & w3 & H1 & H2). prim_inv H2.
    apply modLink_inv in H1 as (l1 & Hl1 & ->).
    cbn [gLinks set_gLinks] in *. rewrite place_link_new in Hl1.
    inversion Hl1. subst l1. clear Hl1.
    rewrite place_link_again.
    eapply RegInv_same;
      [ | | apply (RegInv_place_fresh w); [ exact HI | | ] ].
    + reflexivity.
    + reflexivity.
    + reflexivity.
    + intros _. cbn. discriminate.
  - prim_inv H2. apply RegInv_place_fresh; [ assumption | reflexivity | ].
    cbn. discriminate.
Qed.

Lemma Reg_LinkInst kt : preserves (RegG None) (LinkInst host kt).
Proof.
  intros w a w' [HI _] H. split; [ | exact I ]. unfold LinkInst in H.
  apply bind_inv in H as (t & w1 & H1 & H). prim_inv H1.
  apply bind_inv in H as (u & w2 & H1 & H). prim_inv H1.
  destruct (host_LinkInst host (length (trace w))) as [nm | ];
    [ | prim_inv H;
        eapply RegInv_same; [ reflexivity | reflexivity | eassumption ] ].
  apply bind_inv in H as (lt & w3 & H1 & H).
  apply getLink_inv in H1 as [-> Hlt]. cbn [gLinks set_trace] in Hlt.
  apply bind_inv in H as (w0 & w4 & H1 & H). prim_inv H1.
  cbv zeta in H.
  apply bind_inv in H as (u2 & w5 & H1 & H). prim_inv H1.
  apply bind_inv in H as (r & w6 & H1 & H). prim_inv H.
  cbn [gLinks set_trace] in H1.
  unfold PppoeInst in H1.
  apply bind_inv in H1 as (lt' & w7 & H2 & H1).
  apply getLink_inv in H2 as [-> Hlt'].
  cbn [gLinks set_gLinks] in Hlt'.
  rewrite (place_link_old _ _ _ _ Hlt) in Hlt'.
  inversion Hlt'. subst lt'. clear Hlt'.
  apply bind_inv in H1 as (u3 & w8 & H2 & H1).
  apply modLink_inv in H2 as (l1 & Hl1 & ->).
  cbn [gLinks set_gLinks] in Hl1. rewrite place_link_new in Hl1.
  inversion Hl1. subst l1. clear Hl1.
  cbn [gLinks set_gLinks set_trace] in H1. rewrite place_link_again in H1.
  apply bind_inv in H1 as (pi & w9 & H2 & H1).
  apply getInfo_inv in H2 as (-> & l2 & Hl2 & ->).
  cbn [gLinks set_gLinks] in Hl2. rewrite place_link_new in Hl2.
  inversion Hl2. subst l2. clear Hl2. cbn [lnk_info set_info] in H1.
  apply bind_inv in H1 as (u4 & w10 & H2 & H1).
  assert (Hrest : RegG None w10 -> RegInv w6).
  { intros HI10. revert H1.
    match goal with
    | |- ?c _ = _ -> _ =>
        assert (preserves (RegG None) c) as Hp
          by (pres_walk reg_side fail)
    end.
    intros H1. exact (proj1 (Hp _ _ _ HI10 H1)). }
  apply Hrest. split; [ | exact I ].
  destruct (PIf (lnk_info lt)) as [p | ] eqn:Hp.
  - apply modIf_inv in H2 as (e & He & ->).
    cbn [PppoeIfs set_gLinks set_trace] in He.
    eapply RegInv_same;
      [ | | eapply (RegInv_place_held w kt p lt);
            [ exact HI | exact Hlt | exact Hp | exact He | | | ] ].
    + reflexivity.
    + reflexivity.
    + exact Hp.
    + reflexivity.
    + reflexivity.
  - prim_inv H2.
    eapply RegInv_same; [ | | apply (RegInv_place_fresh w); [ exact HI | | ] ].
    + reflexivity.
    + reflexivity.
    + exact Hp.
    + cbn. intros Ht. destruct HI as [_ Hpaths]. eauto.
Qed.

Lemma Reg_listen_close_socket k :
  preserves (RegG None) (listen_close_socket host k).
Proof.
  unfold listen_close_socket.
  pres_walk reg_side ltac:(apply Reg_LinkShutdown).
Qed.

Lemma Reg_listen_accept p k sz response rs cid rid :
  preserves (RegG None) (listen_accept host p k sz response rs cid rid).
Proof.
  unfold listen_accept, listen_shutdown_tee.
  pres_walk reg_side ltac:(apply Reg_listen_close_socket).
Qed.

Lemma Reg_log_tags g tags : preserves (RegG g) (log_tags tags).
Proof.
  induction tags as [ | t tags IH ]; simpl;
    pres_walk reg_side ltac:(exact IH).
Qed.

Lemma Reg_PppoeListenEvent p sz response rhook :
  preserves (RegG None) (PppoeListenEvent host p sz response rhook).
Proof.
  unfold PppoeListenEvent.
  pres_walk reg_side
    ltac:(first [ apply Reg_log_tags | apply Reg_LinkInst
                | apply Reg_listen_accept ]).
Qed.

(** ** Every turn of the event loop *)

Lemma RegInv_step (w w' : World) : RegInv w -> step host w w' -> RegInv w'.
Proof.
  intros HI Hstep.
  assert (HN : RegG None w) by (split; [ assumption | exact I ]).
  destruct Hstep.
  - eapply Reg_LinkCreate; eauto.
  - eapply Reg_LinkInst; eauto.
  - eapply (Reg_PppoeOpen k); [ | eassumption ]. split; assumption.
  - eapply (Reg_PppoeClose None); eauto.
  - eapply Reg_LinkShutdown; eauto.
  - eapply (Reg_PppoeNodeUpdate k); [ | eassumption ]. split; assumption.
  - eapply (Reg_PppoeSetCommand k); [ | eassumption ]. split; assumption.
  - match goal with Hm : modLink _ _ _ = _ |- _ =>
      eapply (pres_modLink (RegG None)); [ | exact HN | exact Hm ]
    end.
    reg_side.
  - eapply (Reg_PppoeCtrlReadEvent None); eauto.
  - eapply Reg_PppoeListenEvent; eauto.
  - eapply (Reg_timer_fire None); eauto.
Qed.

Lemma lookup_repeat {X : Type} (x y : X) (n i : nat) :
  repeat x n !! i = Some y -> y = x.
Proof.
  revert i. induction n as [ | n IH ]; intros [ | i ] H; simpl in H;
    try discriminate.
  - inversion H. reflexivity.
  - eauto.
Qed.

Lemma RegInv_init : RegInv World_init.
Proof.
  split.
  - intros p e He. unfold World_init in He. cbn [PppoeIfs] in He.
    apply lookup_repeat in He as ->.
    split; [ left; split; reflexivity | reflexivity ].
  - intros k l Hl. discriminate.
Qed.

Lemma RegInv_reachable (w : World) : reachable host w -> RegInv w.
Proof.
  induction 1 as [ | w w' Hr IH Hs ].
  - apply RegInv_init.
  - eapply RegInv_step; eauto.
Qed.

End RegistrySteps.

(* ===================================================================== *)
(** * Control messages                                                    *)
(* ===================================================================== *)

Section Routing.
Import Libc TagCodec Pppoe.
Variable host : Host.
Hypothesis gPid_int : 0 <= gPid host < 2 ^ 31.

Lemma itoa_nonneg (z : Z) (acc : string) : 0 <= z -> itoa z acc = utoa z acc.
Proof.
  intros H. unfold itoa.
  destruct (z <? 0) eqn:E; [ apply Z.ltb_lt in E; lia | reflexivity ].
Qed.

Definition prefix_text : string :=
  String.append "mpd"
    (String.append (utoa (gPid host) EmptyString) "-").

Lemma hook_prefix_text : hook_prefix host = prefix_text.
Proof.
  unfold hook_prefix, prefix_text.
  rewrite itoa_nonneg by lia. unfold utoa.
  rewrite (utoa_fuel_app 10 (gPid host) (String "-" EmptyString)).
  apply truncate_all.
  pose proof (utoa_fuel_length 10 (gPid host)) as Hlen.
  cbn [String.length String.append]. rewrite append_length.
  cbn [String.length]. unfold NG_HOOKSIZ. lia.
Qed.

Lemma session_hook_text (l : Link) :
  0 <= lnk_id l < 2 ^ 31 ->
  session_hook_of host l
  = String.append prefix_text (utoa (lnk_id l) EmptyString).
Proof.
  intros Hid. unfold session_hook_of, prefix_text.
  rewrite !itoa_nonneg by lia. unfold utoa.
  rewrite (utoa_fuel_app 10 (gPid host)
             (String "-" (utoa_fuel 10 (lnk_id l) EmptyString))).
  pose proof (utoa_fuel_length 10 (gPid host)) as Hlen1.
  pose proof (utoa_fuel_length 10 (lnk_id l)) as Hlen2.
  rewrite truncate_all.
  - cbn [String.append]. rewrite append_assoc. reflexivity.
  - cbn [String.length String.append]. rewrite append_length.
    cbn [String.length]. unfold NG_HOOKSIZ. lia.
Qed.

Lemma session_hook_not_listen (l : Link) :
  strncmp_eq (session_hook_of host l) "listen-" 7 = false.
Proof. reflexivity. Qed.

(** A message that carries the session hook of a link that is not
    DOWN, received on that link's parent, is routed to the link. *)
Lemma ctrl_find_link_routes (w : World) (p k : nat) (l : Link)
    (msg : ctrl_msg) :
  gLinks w !! k = Some (Some l) ->
  lnk_id l = Z.of_nat k -> Z.of_nat k < 2 ^ 31 ->
  lnk_type l = gPppoePhysType -> PIf (lnk_info l) = Some p ->
  lnk_state l <> PHYS_STATE_DOWN ->
  sts_hook msg = session_hook_of host l ->
  ctrl_find_link host p msg w = Ok (Some k) w.
Proof.
  intros Hl Hid Hk Ht Hp Hs Hh. unfold ctrl_find_link. cbv zeta.
  rewrite Hh, session_hook_not_listen.
  rewrite session_hook_text by lia. rewrite hook_prefix_text.
  unfold strlen. rewrite strncmp_eq_prefix. cbn [negb].
  rewrite advance_prefix. rewrite strtol_utoa by lia.
  cbn [fst snd]. rewrite int_of_long_small by lia.
  cbn [streq String.eqb negb].
  assert (Hat : gLinks_at (lnk_id l) w = Ok (Some l) w).
  { unfold gLinks_at. pose proof (lookup_lt_Some _ _ _ Hl) as Hlt.
    destruct (lnk_id l <? 0) eqn:E1; [ apply Z.ltb_lt in E1; lia | ].
    destruct (Z.of_nat (length (gLinks w)) <=? lnk_id l) eqn:E2;
      [ apply Z.leb_le in E2; lia | ].
    cbn [orb]. rewrite Hid, Nat2Z.id, Hl. reflexivity. }
  rewrite (bind_Ok _ _ _ _ _ Hat). rewrite Ht, Hp.
  cbn [option_nat_eqb]. rewrite Nat.eqb_refl. cbn [negb].
  rewrite (proj2 (phys_state_eqb_neq _ _) Hs).
  rewrite Hid, Nat2Z.id. reflexivity.
Qed.

End Routing.

Section Success.
Import Libc TagCodec Pppoe.
Variable host : Host.
Hypothesis gPid_int : 0 <= gPid host < 2 ^ 31.

(** The world after a SUCCESS message for link [k], whose record
    was [l], arrived on the parent [e]. *)
Definition after_success (w : World) (e : PppoeIf) (k : nat) (l : Link)
    : World :=
  if opened (lnk_info l) then
    set_trace
      (trace w ++ [EvNgRecvMsg (csock e);
                   EvLog LG_PHYS "PPPoE: connection successful";
                   EvTimerStop k; EvPhysUp k])
      (set_gLinks
         (<[k := Some (set_state PHYS_STATE_UP
                         (set_info (set_connectTimer false (lnk_info l))
                            l))]> (gLinks w)) w)
  else
    set_trace
      (trace w ++ [EvNgRecvMsg (csock e);
                   EvLog LG_PHYS "PPPoE: connection successful"])
      (set_gLinks
         (<[k := Some (set_state PHYS_STATE_READY l)]> (gLinks w)) w).

(** SUCCESS for a link in any state but DOWN. *)
Lemma ctrl_success_effect (w : World) (p k : nat) (e : PppoeIf) (l : Link)
    (msg : ctrl_msg) :
  gLinks w !! k = Some (Some l) ->
  PppoeIfs w !! p = Some e ->
  lnk_id l = Z.of_nat k -> Z.of_nat k < 2 ^ 31 ->
  lnk_type l = gPppoePhysType -> PIf (lnk_info l) = Some p ->
  lnk_state l <> PHYS_STATE_DOWN ->
  typecookie msg = NGM_PPPOE_COOKIE -> cmd msg = NGM_PPPOE_SUCCESS ->
  sts_hook msg = session_hook_of host l ->
  PppoeCtrlReadEvent host p (Some msg) w = Ok tt (after_success w e k l).
Proof.
  intros Hl He Hid Hk Ht Hp Hs Hc Hm Hh.
  unfold PppoeCtrlReadEvent, after_success.
  rewrite (bind_Ok _ _ _ _ _ (getIf_Ok _ _ _ He)).
  rewrite bind_emit. rewrite Hc, Hm. cbn [is_link_cmd].
  erewrite bind_Ok; cycle 1.
  { apply (ctrl_find_link_routes host gPid_int _ p k l msg); auto. }
  unfold ctrl_link_cmd. rewrite Hm.
  destruct w as [ls ifs hp ld tr]. world_norm.
  unfold Log, TimerStop, PhysUp. repeat run_step.
  destruct (opened (lnk_info l)).
  - repeat run_step. cbv [emit modify]. world_norm.
    rewrite <- !app_assoc. reflexivity.
  - run_last. rewrite <- !app_assoc. reflexivity.
Qed.

End Success.

(** C2.  A SUCCESS message that names the session hook of a link in state
    CONNECTING, read on the control socket of the link's parent: when the
    link's [opened] flag is set, the connect timer is stopped, the state
    becomes UP and the host is told [PhysUp]; when it is not set, the
    state becomes READY and nothing else about the link changes. *)
Theorem success_in_connecting (host : Pppoe.Host) (w : Pppoe.World)
    (p k : nat) (e : Pppoe.PppoeIf) (l : Pppoe.Link) (msg : Pppoe.ctrl_msg) :
  0 <= Pppoe.gPid host < 2 ^ 31 ->
  Pppoe.gLinks w !! k = Some (Some l) ->
  Pppoe.PppoeIfs w !! p = Some e ->
  Pppoe.lnk_id l = Z.of_nat k -> Z.of_nat k < 2 ^ 31 ->
  Pppoe.lnk_type l = Pppoe.gPppoePhysType ->
  Pppoe.PIf (Pppoe.lnk_info l) = Some p ->
  Pppoe.lnk_state l = Pppoe.PHYS_STATE_CONNECTING ->
  Pppoe.typecookie msg = Pppoe.NGM_PPPOE_COOKIE ->
  Pppoe.cmd msg = Pppoe.NGM_PPPOE_SUCCESS ->
  Pppoe.sts_hook msg = Pppoe.session_hook_of host l ->
  (Pppoe.opened (Pppoe.lnk_info l) = true ->
   Pppoe.PppoeCtrlReadEvent host p (Some msg) w
   = Pppoe.Ok tt
       (Pppoe.set_trace
          (Pppoe.trace w
           ++ [Pppoe.EvNgRecvMsg (Pppoe.csock e);
               Pppoe.EvLog Pppoe.LG_PHYS "PPPoE: connection successful";
               Pppoe.EvTimerStop k; Pppoe.EvPhysUp k])
          (Pppoe.set_gLinks
             (<[k := Some (Pppoe.set_state Pppoe.PHYS_STATE_UP
                             (Pppoe.set_info
                                (Pppoe.set_connectTimer false
                                   (Pppoe.lnk_info l)) l))]>
                (Pppoe.gLinks w)) w)))
  /\ (Pppoe.opened (Pppoe.lnk_info l) = false ->
      Pppoe.PppoeCtrlReadEvent host p (Some msg) w
      = Pppoe.Ok tt
          (Pppoe.set_trace
             (Pppoe.trace w
              ++ [Pppoe.EvNgRecvMsg (Pppoe.csock e);
                  Pppoe.EvLog Pppoe.LG_PHYS "PPPoE: connection successful"])
             (Pppoe.set_gLinks
                (<[k := Some (Pppoe.set_state Pppoe.PHYS_STATE_READY l)]>
                   (Pppoe.gLinks w)) w))).
Proof.
  intros Hpid Hl He Hid Hk Ht Hp Hs Hc Hm Hh.
  assert (Hnd : Pppoe.lnk_state l <> Pppoe.PHYS_STATE_DOWN)
    by (rewrite Hs; discriminate).
  pose proof (ctrl_success_effect host Hpid w p k e l msg
                Hl He Hid Hk Ht Hp Hnd Hc Hm Hh) as Hrun.
  unfold after_success in Hrun.
  split; intros Ho; rewrite Ho in Hrun; exact Hrun.
Qed.

Lemma success_in_connecting_witness :
  Pppoe.PppoeCtrlReadEvent Demo.host_ok 4095
    (Some (Demo.success_msg "mpd4242-0")) Demo.w_connecting
  = Pppoe.Ok tt
      (Pppoe.set_trace
         (Pppoe.trace Demo.w_connecting
          ++ [Pppoe.EvNgRecvMsg
                (Pppoe.csock (Demo.parent_of Demo.w_connecting 4095));
              Pppoe.EvLog Pppoe.LG_PHYS "PPPoE: connection successful";
              Pppoe.EvTimerStop 0; Pppoe.EvPhysUp 0])
         (Pppoe.set_gLinks
            (<[0%nat := Some (Pppoe.set_state Pppoe.PHYS_STATE_UP
                                (Pppoe.set_info
                                   (Pppoe.set_connectTimer false
                                      (Pppoe.lnk_info
                                         (Demo.link_of Demo.w_connecting 0)))
                                   (Demo.link_of Demo.w_connecting 0)))]>
               (Pppoe.gLinks Demo.w_connecting)) Demo.w_connecting)).
Proof.
  apply (proj1 (success_in_connecting Demo.host_ok Demo.w_connecting
                  4095%nat 0%nat (Demo.parent_of Demo.w_connecting 4095)
                  (Demo.link_of Demo.w_connecting 0)
                  (Demo.success_msg "mpd4242-0")
                  ltac:(vm_compute; split; [ discriminate | reflexivity ])
                  ltac:(vm_compute; reflexivity)
                  ltac:(vm_compute; reflexivity)
                  ltac:(vm_compute; reflexivity)
                  ltac:(vm_compute; reflexivity)
                  ltac:(vm_compute; reflexivity)
                  ltac:(vm_compute; reflexivity)
                  ltac:(vm_compute; reflexivity)
                  ltac:(vm_compute; reflexivity)
                  ltac:(vm_compute; reflexivity)
                  ltac:(vm_compute; reflexivity))).
  vm_compute. reflexivity.
Defined.

(* ===================================================================== *)
(** * Results on reachable states                                         *)
(* ===================================================================== *)

Section DemoFacts.
Import Libc TagCodec Pppoe Demo.

Lemma w_created_reachable : reachable host_ok w_created.
Proof.
  apply (reach_step host_ok World_init w_created (reach_init host_ok)).
  apply (step_create host_ok link_request World_init 0%nat w_created).
  vm_compute. reflexivity.
Qed.

Lemma w_created_link : is_pppoe w_created 0.
Proof. exists (link_of w_created 0). split; vm_compute; reflexivity. Qed.

Lemma w_iface_step : step host_ok w_created w_iface.
Proof.
  apply (step_set host_ok 0%nat ["em0"] SET_IFACE w_created 0 w_iface).
  - exact w_created_link.
  - vm_compute. reflexivity.
Qed.

Lemma w_iface_reachable : reachable host_ok w_iface.
Proof.
  exact (reach_step host_ok w_created w_iface w_created_reachable
           w_iface_step).
Qed.

Lemma w_configured_reachable : reachable host_ok w_configured.
Proof.
  apply (reach_step host_ok w_iface w_configured w_iface_reachable).
  apply (step_set host_ok 0%nat ["isp"] SET_SESSION w_iface 0 w_configured).
  - exists (link_of w_iface 0). split; vm_compute; reflexivity.
  - vm_compute. reflexivity.
Qed.

Lemma w_connecting_reachable : reachable host_ok w_connecting.
Proof.
  apply (reach_step host_ok w_configured w_connecting
           w_configured_reachable).
  apply (step_open host_ok 0%nat w_configured w_connecting).
  - exists (link_of w_configured 0). split; vm_compute; reflexivity.
  - vm_compute. reflexivity.
Qed.

(** In [w_second] the only entry of the table in use is the last. *)
Lemma w_second_table :
  PppoeIfs w_second
  = repeat PppoeIf_zero 4095 ++ [parent_of w_second 4095].
Proof. vm_compute. reflexivity. Qed.

Lemma w_second_first (q : nat) (e' : PppoeIf) :
  (q < 4095)%nat -> PppoeIfs w_second !! q = Some e' ->
  ifnodepath e' <> "em0:".
Proof.
  intros Hq He. rewrite w_second_table in He.
  rewrite lookup_app_l in He by (rewrite repeat_length; exact Hq).
  apply lookup_repeat in He. subst e'. discriminate.
Qed.

End DemoFacts.

(** C6 (as the code has it).  In every reachable state, a link in state
    DOWN has an idle connect timer, an all-zero [peeraddr], empty
    [agent_cid] and [agent_rid], and [mp_reply] cleared; its
    [real_session] is empty or is the ["*"] that [PppoeInit] copies
    from the default [session].  It is ["*"] only on a link that has
    been DOWN ever since it was initialized: whatever step led to this
    state, if the link was there before the step it was DOWN with the
    same ["*"] before it, so that no call was opened, accepted or closed
    on it in between ([PppoeDoClose] leaves the empty string). *)
Theorem down_link_at_rest (host : Pppoe.Host) (w : Pppoe.World) (k : nat)
    (l : Pppoe.Link) :
  Pppoe.reachable host w ->
  Pppoe.gLinks w !! k = Some (Some l) ->
  Pppoe.lnk_state l = Pppoe.PHYS_STATE_DOWN ->
  Pppoe.connectTimer (Pppoe.lnk_info l) = false
  /\ Pppoe.peeraddr (Pppoe.lnk_info l) = [0; 0; 0; 0; 0; 0]
  /\ (Pppoe.real_session (Pppoe.lnk_info l) = EmptyString
      \/ Pppoe.real_session (Pppoe.lnk_info l) = "*")
  /\ Pppoe.agent_cid (Pppoe.lnk_info l) = EmptyString
  /\ Pppoe.agent_rid (Pppoe.lnk_info l) = EmptyString
  /\ Pppoe.mp_reply (Pppoe.lnk_info l) = false
  /\ (Pppoe.real_session (Pppoe.lnk_info l) = "*" ->
      forall (w0 : Pppoe.World) (l0 : Pppoe.Link),
        Pppoe.step host w0 w ->
        Pppoe.gLinks w0 !! k = Some (Some l0) ->
        Pppoe.lnk_state l0 = Pppoe.PHYS_STATE_DOWN
        /\ Pppoe.real_session (Pppoe.lnk_info l0) = "*").
Proof.
  intros Hr Hl Hs.
  destruct (DownInv_reachable host w Hr k l Hl Hs)
    as (Ht & Hp & Hrs & Hc & Hi & Hm).
  split; [ exact Ht | ]. split; [ exact Hp | ]. split; [ exact Hrs | ].
  split; [ exact Hc | ]. split; [ exact Hi | ]. split; [ exact Hm | ].
  intros Hstar w0 l0 Hstep Hl0.
  destruct (Keep_step host w0 w Hstep k l0 l Hl0 Hl Hs) as [E | [Hd E]].
  - rewrite Hstar in E. discriminate.
  - split; [ exact Hd | congruence ].
Qed.

Lemma down_link_at_rest_witness :
  (Pppoe.connectTimer (Pppoe.lnk_info (Demo.link_of Demo.w_iface 0)) = false
   /\ Pppoe.peeraddr (Pppoe.lnk_info (Demo.link_of Demo.w_iface 0))
      = [0; 0; 0; 0; 0; 0]
   /\ (Pppoe.real_session (Pppoe.lnk_info (Demo.link_of Demo.w_iface 0))
       = EmptyString
       \/ Pppoe.real_session (Pppoe.lnk_info (Demo.link_of Demo.w_iface 0))
          = "*")
   /\ Pppoe.agent_cid (Pppoe.lnk_info (Demo.link_of Demo.w_iface 0))
      = EmptyString
   /\ Pppoe.agent_rid (Pppoe.lnk_info (Demo.link_of Demo.w_iface 0))
      = EmptyString
   /\ Pppoe.mp_reply (Pppoe.lnk_info (Demo.link_of Demo.w_iface 0)) = false)
  /\ Pppoe.lnk_state (Demo.link_of Demo.w_created 0) = Pppoe.PHYS_STATE_DOWN
  /\ Pppoe.real_session (Pppoe.lnk_info (Demo.link_of Demo.w_created 0)) = "*".
Proof.
  destruct (down_link_at_rest Demo.host_ok Demo.w_iface 0
              (Demo.link_of Demo.w_iface 0) w_iface_reachable
              ltac:(vm_compute; reflexivity) ltac:(vm_compute; reflexivity))
    as (Ht & Hp & Hrs & Hc & Hi & Hm & Hsince).
  split.
  - split; [ exact Ht | ]. split; [ exact Hp | ]. split; [ exact Hrs | ].
    split; [ exact Hc | ]. split; [ exact Hi | exact Hm ].
  - apply (Hsince ltac:(vm_compute; reflexivity) Demo.w_created
             (Demo.link_of Demo.w_created 0)).
    + exact w_iface_step.
    + vm_compute. reflexivity.
Defined.

(** C6, the state right after link initialization: the link that
    [LinkCreate] made at program start is DOWN and its [real_session] is
    the one-character string ["*"], not the empty string. *)
Lemma fresh_link_real_session :
  Pppoe.reachable Demo.host_ok Demo.w_created
  /\ Pppoe.gLinks Demo.w_created !! 0%nat
     = Some (Some (Demo.link_of Demo.w_created 0))
  /\ Pppoe.lnk_state (Demo.link_of Demo.w_created 0) = Pppoe.PHYS_STATE_DOWN
  /\ Pppoe.real_session (Pppoe.lnk_info (Demo.link_of Demo.w_created 0)) = "*"
  /\ Pppoe.real_session (Pppoe.lnk_info (Demo.link_of Demo.w_created 0))
     <> EmptyString.
Proof.
  split; [ exact w_created_reachable | ].
  vm_compute. repeat split; try reflexivity. discriminate.
Qed.

(** C7.  The table [PppoeIfs] of parent interfaces.

    - In every reachable state, an entry has a positive [refs] exactly
      when both descriptors are valid ([csock >= 0], [dsock >= 0]) and
      [ifnodepath] is not empty; [refs] is never negative, and it is
      zero exactly when [ifnodepath] is empty.
    - [PppoeGetNode] for a link without parent whose [path] is the
      [ifnodepath] of an entry (the first such entry, [j]) adds one to
      that entry's [refs] and makes it the link's parent; nothing else
      changes and nothing is called.
    - [PppoeReleaseNode] for a link with parent [p] subtracts one from
      [refs].  When the result is zero the entry's path and node id are
      cleared, both events are unregistered, both descriptors are
      closed and set to -1; otherwise the entry is otherwise untouched.
      In both cases the link has no parent afterwards. *)
Theorem parent_registry (host : Pppoe.Host) (w : Pppoe.World) :
  (Pppoe.reachable host w ->
   forall (p : nat) (e : Pppoe.PppoeIf),
     Pppoe.PppoeIfs w !! p = Some e ->
     0 <= Pppoe.refs e
     /\ (0 < Pppoe.refs e
         <-> 0 <= Pppoe.csock e /\ 0 <= Pppoe.dsock e
             /\ Pppoe.ifnodepath e <> EmptyString)
     /\ (Pppoe.refs e = 0 <-> Pppoe.ifnodepath e = EmptyString))
  /\ (forall (k j : nat) (l : Pppoe.Link) (e : Pppoe.PppoeIf),
        Pppoe.gLinks w !! k = Some (Some l) ->
        Pppoe.PIf (Pppoe.lnk_info l) = None ->
        Pppoe.path (Pppoe.lnk_info l) <> "undefined:" ->
        Pppoe.path (Pppoe.lnk_info l) <> EmptyString ->
        (j < Pppoe.PPPOE_MAXPARENTIFS)%nat ->
        Pppoe.PppoeIfs w !! j = Some e ->
        Pppoe.ifnodepath e = Pppoe.path (Pppoe.lnk_info l) ->
        (forall (q : nat) (e' : Pppoe.PppoeIf),
           (q < j)%nat -> Pppoe.PppoeIfs w !! q = Some e' ->
           Pppoe.ifnodepath e' <> Pppoe.path (Pppoe.lnk_info l)) ->
        Pppoe.PppoeGetNode host k w
        = Pppoe.Ok tt
            (Pppoe.set_gLinks
               (<[k := Some (Pppoe.set_info
                               (Pppoe.set_PIf (Some j) (Pppoe.lnk_info l))
                               l)]> (Pppoe.gLinks w))
               (Pppoe.set_PppoeIfs
                  (<[j := Pppoe.set_refs (Pppoe.refs e + 1) e]>
                     (Pppoe.PppoeIfs w)) w)))
  /\ (forall (k p : nat) (l : Pppoe.Link) (e : Pppoe.PppoeIf),
        Pppoe.gLinks w !! k = Some (Some l) ->
        Pppoe.PIf (Pppoe.lnk_info l) = Some p ->
        Pppoe.PppoeIfs w !! p = Some e ->
        (Pppoe.refs e - 1 = 0 ->
         Pppoe.PppoeReleaseNode k w
         = Pppoe.Ok tt
             (Pppoe.set_trace
                (Pppoe.trace w
                 ++ [Pppoe.EvEventUnRegister (Pppoe.csock e);
                     Pppoe.EvEventUnRegister (Pppoe.dsock e);
                     Pppoe.EvClose (Pppoe.csock e);
                     Pppoe.EvClose (Pppoe.dsock e)])
                (Pppoe.set_gLinks
                   (<[k := Some (Pppoe.set_info
                                   (Pppoe.set_PIf None (Pppoe.lnk_info l))
                                   l)]> (Pppoe.gLinks w))
                   (Pppoe.set_PppoeIfs
                      (<[p := {| Pppoe.ifnodepath := EmptyString;
                                 Pppoe.node_id := 0; Pppoe.refs := 0;
                                 Pppoe.csock := -1; Pppoe.dsock := -1;
                                 Pppoe.ctrlEvent := false;
                                 Pppoe.dataEvent := false;
                                 Pppoe.listeners := Pppoe.listeners e |}]>
                         (Pppoe.PppoeIfs w)) w))))
        /\ (Pppoe.refs e - 1 <> 0 ->
            Pppoe.PppoeReleaseNode k w
            = Pppoe.Ok tt
                (Pppoe.set_gLinks
                   (<[k := Some (Pppoe.set_info
                                   (Pppoe.set_PIf None (Pppoe.lnk_info l))
                                   l)]> (Pppoe.gLinks w))
                   (Pppoe.set_PppoeIfs
                      (<[p := Pppoe.set_refs (Pppoe.refs e - 1) e]>
                         (Pppoe.PppoeIfs w)) w)))).
Proof.
  split; [ | split ].
  - intros Hr p e He.
    destruct (RegInv_reachable host w Hr) as [Hifs _].
    destruct (Hifs p e He) as [Hok _].
    split; [ | split ].
    + destruct Hok as [[E _] | [H _]]; lia.
    + exact (if_ok_iff e Hok).
    + destruct Hok as [[E Hp] | (H & _ & _ & Hp)]; split; intros H';
        try assumption; try lia; contradiction.
  - intros k j l e Hl Hp Hu Hne Hj He Hpath Hfirst.
    destruct (find_parent_first
                (firstn Pppoe.PPPOE_MAXPARENTIFS (Pppoe.PppoeIfs w))
                (Pppoe.path (Pppoe.lnk_info l)) 0 None j e) as [fr Hfind].
    + apply lookup_take_Some. split; assumption.
    + exact Hpath.
    + exact Hne.
    + intros q e' Hq He'. apply lookup_take_Some in He' as [He' _].
      eauto.
    + eapply PppoeGetNode_found; eauto.
  - intros k p l e Hl Hp He. split; intros Hrefs.
    + exact (PppoeReleaseNode_last w k p l e Hl Hp He Hrefs).
    + exact (PppoeReleaseNode_shared w k p l e Hl Hp He Hrefs).
Qed.

Lemma parent_registry_witness :
  (0 <= Pppoe.refs (Demo.parent_of Demo.w_connecting 4095)
   /\ (0 < Pppoe.refs (Demo.parent_of Demo.w_connecting 4095)
       <-> 0 <= Pppoe.csock (Demo.parent_of Demo.w_connecting 4095)
           /\ 0 <= Pppoe.dsock (Demo.parent_of Demo.w_connecting 4095)
           /\ Pppoe.ifnodepath (Demo.parent_of Demo.w_connecting 4095)
              <> EmptyString)
   /\ (Pppoe.refs (Demo.parent_of Demo.w_connecting 4095) = 0
       <-> Pppoe.ifnodepath (Demo.parent_of Demo.w_connecting 4095)
           = EmptyString))
  /\ Pppoe.refs
       (Demo.parent_of
          (Demo.world_after (Pppoe.PppoeGetNode Demo.host_ok 1)
             Demo.w_second) 4095) = 2
  /\ Pppoe.refs
       (Demo.parent_of
          (Demo.world_after (Pppoe.PppoeReleaseNode 0) Demo.w_connecting)
          4095) = 0.
Proof.
  split; [ | split ].
  - apply (proj1 (parent_registry Demo.host_ok Demo.w_connecting)
             w_connecting_reachable 4095%nat).
    vm_compute. reflexivity.
  - unfold Demo.world_after.
    rewrite (proj1 (proj2 (parent_registry Demo.host_ok Demo.w_second))
               1%nat 4095%nat (Demo.link_of Demo.w_second 1)
               (Demo.parent_of Demo.w_second 4095)).
    + vm_compute. reflexivity.
    + vm_compute. reflexivity.
    + vm_compute. reflexivity.
    + vm_compute. discriminate.
    + vm_compute. discriminate.
    + vm_compute. lia.
    + vm_compute. reflexivity.
    + vm_compute. reflexivity.
    + exact w_second_first.
  - unfold Demo.world_after.
    rewrite (proj1 (proj2 (proj2 (parent_registry Demo.host_ok
                                    Demo.w_connecting))
                      0%nat 4095%nat (Demo.link_of Demo.w_connecting 0)
                      (Demo.parent_of Demo.w_connecting 4095)
                      ltac:(vm_compute; reflexivity)
                      ltac:(vm_compute; reflexivity)
                      ltac:(vm_compute; reflexivity))
               ltac:(vm_compute; reflexivity)).
    vm_compute. reflexivity.
Defined.

Lemma PppoeClose_effect_witness :
  Pppoe.PppoeClose Demo.host_ok 0 Demo.w_created
  = Pppoe.Ok tt
      (Pppoe.set_gLinks
         (<[0%nat := Some (Pppoe.set_info
                             (Pppoe.set_opened false
                                (Pppoe.lnk_info
                                   (Demo.link_of Demo.w_created 0)))
                             (Demo.link_of Demo.w_created 0))]>
            (Pppoe.gLinks Demo.w_created)) Demo.w_created)
  /\ exists l' : Pppoe.Link,
       Pppoe.gLinks
         (Demo.world_after (Pppoe.PppoeClose Demo.host_ok 0)
            Demo.w_connecting) = [Some l']
       /\ Pppoe.lnk_state l' = Pppoe.PHYS_STATE_DOWN
       /\ Pppoe.opened (Pppoe.lnk_info l') = false.
Proof.
  split.
  - apply (proj1 (PppoeClose_effect Demo.host_ok Demo.w_created 0
                    (Demo.link_of Demo.w_created 0)
                    ltac:(vm_compute; reflexivity))).
    vm_compute. reflexivity.
  - destruct (proj2 (PppoeClose_effect Demo.host_ok Demo.w_connecting 0
                       (Demo.link_of Demo.w_connecting 0)
                       ltac:(vm_compute; reflexivity))
                ltac:(vm_compute; discriminate)
                4095%nat (Demo.parent_of Demo.w_connecting 4095)
                ltac:(vm_compute; reflexivity)
                ltac:(vm_compute; reflexivity))
      as (l' & Hrun & Hs & Ho & _).
    exists l'. unfold Demo.world_after. rewrite Hrun.
    split; [ | split; assumption ].
    cbn [Pppoe.gLinks Pppoe.set_trace Pppoe.set_gLinks].
    replace (Pppoe.gLinks Demo.w_connecting)
      with [Some (Demo.link_of Demo.w_connecting 0)]
      by (vm_compute; reflexivity).
    reflexivity.
Defined.

(* ===================================================================== *)
(** * The set commands                                                    *)
(* ===================================================================== *)

(** [set pppoe max-payload n], by the [int] that [atoi] makes of the
    text: below [PPPOE_MRU] or above [ETHER_MAX_LEN - 8] the command
    ends in [Error]: the result is not zero, the message is recorded,
    and links, parents and listeners are as before, [max_payload]
    included.  In the range the value is stored and the command returns
    0.  The text [1492] (= [PPPOE_MRU]) is accepted and stored, the text
    [1491] is rejected. *)
Theorem max_payload_range (host : Pppoe.Host) (w : Pppoe.World) (k : nat)
    (l : Pppoe.Link) (a0 : string) :
  Pppoe.gLinks w !! k = Some (Some l) ->
  (Libc.atoi a0 < Pppoe.PPPOE_MRU \/ Pppoe.ETHER_MAX_LEN - 8 < Libc.atoi a0 ->
   Pppoe.PppoeSetCommand host k [a0] Pppoe.SET_MAX_PAYLOAD w
   = Pppoe.Ok Pppoe.CMD_ERR_OTHER
       (Pppoe.set_trace
          (Pppoe.trace w ++ [Pppoe.EvError "PPP-Max-Payload value"]) w)
   /\ Pppoe.CMD_ERR_OTHER <> 0)
  /\ (Pppoe.PPPOE_MRU <= Libc.atoi a0 <= Pppoe.ETHER_MAX_LEN - 8 ->
      Pppoe.PppoeSetCommand host k [a0] Pppoe.SET_MAX_PAYLOAD w
      = Pppoe.Ok 0
          (Pppoe.set_gLinks
             (<[k := Some (Pppoe.set_info
                             (Pppoe.set_max_payload (Libc.atoi a0)
                                (Pppoe.lnk_info l)) l)]>
                (Pppoe.gLinks w)) w))
  /\ Pppoe.PppoeSetCommand host k ["1492"] Pppoe.SET_MAX_PAYLOAD w
     = Pppoe.Ok 0
         (Pppoe.set_gLinks
            (<[k := Some (Pppoe.set_info
                            (Pppoe.set_max_payload Pppoe.PPPOE_MRU
                               (Pppoe.lnk_info l)) l)]>
               (Pppoe.gLinks w)) w)
  /\ Pppoe.PppoeSetCommand host k ["1491"] Pppoe.SET_MAX_PAYLOAD w
     = Pppoe.Ok Pppoe.CMD_ERR_OTHER
         (Pppoe.set_trace
            (Pppoe.trace w ++ [Pppoe.EvError "PPP-Max-Payload value"]) w).
Proof.
  intros Hl.
  assert (Hin : forall a : string,
             Pppoe.PPPOE_MRU <= Libc.atoi a <= Pppoe.ETHER_MAX_LEN - 8 ->
             Pppoe.PppoeSetCommand host k [a] Pppoe.SET_MAX_PAYLOAD w
             = Pppoe.Ok 0
                 (Pppoe.set_gLinks
                    (<[k := Some (Pppoe.set_info
                                    (Pppoe.set_max_payload (Libc.atoi a)
                                       (Pppoe.lnk_info l)) l)]>
                       (Pppoe.gLinks w)) w)).
  { intros a Ha. unfold Pppoe.PppoeSetCommand.
    unfold Pppoe.PPPOE_MRU, Pppoe.ETHER_MAX_LEN in *.
    destruct (Libc.atoi a <? 1492) eqn:E1; [ apply Z.ltb_lt in E1; lia | ].
    destruct (1518 - 8 <? Libc.atoi a) eqn:E2;
      [ apply Z.ltb_lt in E2; lia | ].
    cbn [orb]. destruct w as [ls ifs hp ld tr]. world_norm.
    repeat run_step. cbv [Pppoe.ret].
    unfold Libc.uint16_of_int. rewrite Z.mod_small by lia. reflexivity. }
  assert (Hout : forall a : string,
             Libc.atoi a < Pppoe.PPPOE_MRU
             \/ Pppoe.ETHER_MAX_LEN - 8 < Libc.atoi a ->
             Pppoe.PppoeSetCommand host k [a] Pppoe.SET_MAX_PAYLOAD w
             = Pppoe.Ok Pppoe.CMD_ERR_OTHER
                 (Pppoe.set_trace
                    (Pppoe.trace w ++ [Pppoe.EvError "PPP-Max-Payload value"])
                    w)).
  { intros a Ha. unfold Pppoe.PppoeSetCommand.
    assert (E : (Libc.atoi a <? Pppoe.PPPOE_MRU)
                || (Pppoe.ETHER_MAX_LEN - 8 <? Libc.atoi a) = true).
    { apply orb_true_iff.
      destruct Ha; [ left | right ]; apply Z.ltb_lt; assumption. }
    rewrite E. reflexivity. }
  split; [ | split; [ | split ] ].
  - intros Ha. split; [ apply Hout; assumption | discriminate ].
  - apply Hin.
  - apply (Hin "1492"). vm_compute. split; discriminate.
  - apply (Hout "1491"). left. vm_compute. reflexivity.
Qed.

Lemma max_payload_range_witness :
  Pppoe.PppoeSetCommand Demo.host_ok 0 ["1500"] Pppoe.SET_MAX_PAYLOAD
    Demo.w_created
  = Pppoe.Ok 0
      (Pppoe.set_gLinks
         (<[0%nat := Some (Pppoe.set_info
                             (Pppoe.set_max_payload (Libc.atoi "1500")
                                (Pppoe.lnk_info
                                   (Demo.link_of Demo.w_created 0)))
                             (Demo.link_of Demo.w_created 0))]>
            (Pppoe.gLinks Demo.w_created)) Demo.w_created)
  /\ Pppoe.PppoeSetCommand Demo.host_ok 0 ["1511"] Pppoe.SET_MAX_PAYLOAD
       Demo.w_created
     = Pppoe.Ok Pppoe.CMD_ERR_OTHER
         (Pppoe.set_trace
            (Pppoe.trace Demo.w_created
             ++ [Pppoe.EvError "PPP-Max-Payload value"]) Demo.w_created).
Proof.
  split.
  - apply (proj1 (proj2 (max_payload_range Demo.host_ok Demo.w_created 0
                           (Demo.link_of Demo.w_created 0) "1500"
                           ltac:(vm_compute; reflexivity)))).
    vm_compute. split; discriminate.
  - apply (proj1 (max_payload_range Demo.host_ok Demo.w_created 0
                    (Demo.link_of Demo.w_created 0) "1511"
                    ltac:(vm_compute; reflexivity))).
    right. vm_compute. reflexivity.
Defined.

(* ===================================================================== *)
(** * Opening a link that is already active                               *)
(* ===================================================================== *)

(** C10 (as the code has it).  [PppoeOpen] on an outgoing link that is
    not DOWN sets [opened], disables and denies the ACFCOMP option of
    the link (as every call of [PppoeOpen] does, before it looks at the
    state) and writes one log line.  Nothing else changes: the state,
    the timer and every other field of the link, the table of parents
    with its reference counts and the listeners are as before, and
    neither a netgraph message nor a notification of the host is
    issued. *)
Theorem PppoeOpen_when_active (host : Pppoe.Host) (w : Pppoe.World)
    (k : nat) (l : Pppoe.Link) :
  Pppoe.gLinks w !! k = Some (Some l) ->
  Pppoe.incoming (Pppoe.lnk_info l) = false ->
  Pppoe.lnk_state l <> Pppoe.PHYS_STATE_DOWN ->
  Pppoe.PppoeOpen host k w
  = Pppoe.Ok tt
      (Pppoe.set_trace
         (Pppoe.trace w ++ [Pppoe.EvLog Pppoe.LG_PHYS "PPPoE allready active"])
         (Pppoe.set_gLinks
            (<[k := Some (Pppoe.set_acfcomp false false
                            (Pppoe.set_info
                               (Pppoe.set_opened true (Pppoe.lnk_info l))
                               l))]> (Pppoe.gLinks w)) w)).
Proof.
  intros Hl Hi Hs. destruct w as [ls ifs hp ld tr]. world_norm.
  unfold Pppoe.PppoeOpen. repeat run_step. cbv zeta.
  cbn [Pppoe.lnk_info Pppoe.set_acfcomp Pppoe.set_info Pppoe.incoming
       Pppoe.set_opened Pppoe.lnk_state].
  rewrite Hi. rewrite (proj2 (phys_state_eqb_neq _ _) Hs). cbn [negb].
  reflexivity.
Qed.

Lemma PppoeOpen_when_active_witness :
  Pppoe.PppoeOpen Demo.host_ok 0 Demo.w_connecting
  = Pppoe.Ok tt
      (Pppoe.set_trace
         (Pppoe.trace Demo.w_connecting
          ++ [Pppoe.EvLog Pppoe.LG_PHYS "PPPoE allready active"])
         (Pppoe.set_gLinks
            (<[0%nat := Some (Pppoe.set_acfcomp false false
                                (Pppoe.set_info
                                   (Pppoe.set_opened true
                                      (Pppoe.lnk_info
                                         (Demo.link_of Demo.w_connecting 0)))
                                   (Demo.link_of Demo.w_connecting 0)))]>
               (Pppoe.gLinks Demo.w_connecting)) Demo.w_connecting)).
Proof.
  apply (PppoeOpen_when_active Demo.host_ok Demo.w_connecting 0
           (Demo.link_of Demo.w_connecting 0)).
  - vm_compute. reflexivity.
  - vm_compute. reflexivity.
  - vm_compute. discriminate.
Defined.

Section DemoOptions.
Import Libc TagCodec Pppoe Demo.

Lemma w_acfcomp_reachable : reachable host_ok w_acfcomp.
Proof.
  apply (reach_step host_ok w_connecting w_acfcomp w_connecting_reachable).
  apply (step_options host_ok 0%nat true true false w_connecting w_acfcomp).
  - exists (link_of w_connecting 0). split; vm_compute; reflexivity.
  - vm_compute. reflexivity.
Qed.

End DemoOptions.

(** C10, a call that does more than set [opened]: link 0 is outgoing
    and CONNECTING, with ACFCOMP enabled and accepted; after [PppoeOpen]
    both are off. *)
Lemma PppoeOpen_changes_options :
  Pppoe.reachable Demo.host_ok Demo.w_acfcomp
  /\ Pppoe.incoming (Pppoe.lnk_info (Demo.link_of Demo.w_acfcomp 0)) = false
  /\ Pppoe.lnk_state (Demo.link_of Demo.w_acfcomp 0)
     = Pppoe.PHYS_STATE_CONNECTING
  /\ Pppoe.acfcomp_enable (Demo.link_of Demo.w_acfcomp 0) = true
  /\ Pppoe.acfcomp_accept (Demo.link_of Demo.w_acfcomp 0) = true
  /\ exists w' : Pppoe.World,
       Pppoe.PppoeOpen Demo.host_ok 0 Demo.w_acfcomp = Pppoe.Ok tt w'
       /\ Pppoe.acfcomp_enable (Demo.link_of w' 0) = false
       /\ Pppoe.acfcomp_accept (Demo.link_of w' 0) = false
       /\ Pppoe.trace w'
          = Pppoe.trace Demo.w_acfcomp
            ++ [Pppoe.EvLog Pppoe.LG_PHYS "PPPoE allready active"].
Proof.
  split; [ exact w_acfcomp_reachable | ].
  do 4 (split; [ vm_compute; reflexivity | ]).
  exists (Demo.world_after (Pppoe.PppoeOpen Demo.host_ok 0) Demo.w_acfcomp).
  split; [ vm_compute; reflexivity | ].
  split; [ vm_compute; reflexivity | ].
  split; vm_compute; reflexivity.
Qed.

(* ===================================================================== *)
(** * A link id outside the table                                         *)
(* ===================================================================== *)

(** C8, at a hook whose number is not an index of the table.  The table
    of links has one slot; a SUCCESS message arrives on the control
    socket of the parent in use and names the hook ["mpd4242-7"], or
    ["mpd4242--1"].  The prefix is ours and the rest is a number, so
    [gLinks[7]], or [gLinks[-1]], is read: outside the array. *)
Theorem PppoeCtrlReadEvent_stray_id :
  length (Pppoe.gLinks Demo.w_connecting) = 1%nat
  /\ Pppoe.hook_prefix Demo.host_ok = "mpd4242-"
  /\ Pppoe.PppoeCtrlReadEvent Demo.host_ok 4095
       (Some (Demo.success_msg "mpd4242-7")) Demo.w_connecting
     = Pppoe.Fault Pppoe.out_of_bounds
  /\ Pppoe.PppoeCtrlReadEvent Demo.host_ok 4095
       (Some (Demo.success_msg "mpd4242--1")) Demo.w_connecting
     = Pppoe.Fault Pppoe.out_of_bounds.
Proof.
  split; [ vm_compute; reflexivity | ].
  split; [ vm_compute; reflexivity | ].
  split; vm_compute; reflexivity.
Qed.

(* ===================================================================== *)
(** * The scan of the BBF tag on a frame with a trailing byte             *)
(* ===================================================================== *)

(** C4, on [Demo.bbf_frame].  The Vendor-Specific tag starts at offset
    20 and its value, 9 bytes, occupies the offsets 24 to 32.  After the
    sub-tag [1 2 A B] one byte of the value is left ([pos + 1 <= len]
    holds with [pos = 4], [len = 5]), so the loop goes round again: it
    reads the length of a sub-tag at offset 33 and one byte of value at
    offset 34, both behind the vendor tag (they are the type of the
    Service-Name tag), and writes that byte over the first byte of the
    circuit id found before: [AB] becomes the byte 1 and [B]. *)
Theorem bbf_scan_trailing_byte :
  fst (TagCodec.get_vs_tag Demo.bbf_mem 14 TagCodec.BBF_VENDOR) = Some 20
  /\ fst (TagCodec.tag_len Demo.bbf_mem 20) = 9
  /\ exists st : TagCodec.agent_ids,
       TagCodec.bbf_scan true Demo.bbf_mem 14 = Some st
       /\ firstn 3 (TagCodec.agent_cid_buf st) = [1; 66; 0]
       /\ In 33 (TagCodec.bbf_loads st)
       /\ In 34 (TagCodec.bbf_loads st).
Proof.
  split; [ vm_compute; reflexivity | ].
  split; [ vm_compute; reflexivity | ].
  eexists. split; [ vm_compute; reflexivity | ].
  split; [ reflexivity | ].
  split; cbn; tauto.
Qed.

(** The same scan on a frame whose sub-tags fill the vendor tag: both
    ids are found and every load is inside the frame's declared
    length. *)
Example bbf_scan_agent_frame :
  exists st : TagCodec.agent_ids,
    TagCodec.bbf_scan true (TagCodec.mem_of_bytes Demo.agent_frame) 14
    = Some st
    /\ firstn 10 (TagCodec.agent_cid_buf st)
       = [99; 105; 114; 99; 117; 105; 116; 45; 65; 0]
    /\ firstn 9 (TagCodec.agent_rid_buf st)
       = [114; 101; 109; 111; 116; 101; 45; 66; 0]
    /\ forallb (fun a => (14 <=? a) && (a <? 14 + 6 + 36))
         (TagCodec.bbf_loads st) = true.
Proof.
  eexists. split; [ vm_compute; reflexivity | ].
  split; [ reflexivity | ]. split; reflexivity.
Qed.

(* ===================================================================== *)
(** * An outgoing connect                                                 *)
(* ===================================================================== *)

Section Connect.
Import Libc TagCodec Pppoe.

(** The calls of [PhysUp] for link [k] in a list of events. *)
Definition is_PhysUp (k : nat) (e : event) : bool :=
  match e with
  | EvPhysUp j => Nat.eqb j k
  | _ => false
  end.
Definition PhysUp_calls (k : nat) (tr : list event) : nat :=
  length (filter (fun e => is_PhysUp k e = true) tr).

Lemma PhysUp_calls_app (k : nat) (a b : list event) :
  PhysUp_calls k (a ++ b) = (PhysUp_calls k a + PhysUp_calls k b)%nat.
Proof. unfold PhysUp_calls. rewrite filter_app, length_app. reflexivity. Qed.

Variable host : Host.
Variable k : nat.
Variable tr0 : list event.
Variable id : Z.
Variable s : string.

(** What has happened since the trace was [tr0]: no [PhysUp] for [k]. *)
Definition quiet (w : World) : Prop :=
  exists evs, trace w = tr0 ++ evs /\ PhysUp_calls k evs = 0%nat.

(** Link [k] while [PppoeOpen] runs on it: outgoing and DOWN. *)
Definition Opening (op : bool) (w : World) : Prop :=
  quiet w
  /\ exists l, gLinks w !! k = Some (Some l)
               /\ lnk_state l = PHYS_STATE_DOWN
               /\ lnk_id l = id /\ lnk_type l = gPppoePhysType
               /\ session (lnk_info l) = s
               /\ incoming (lnk_info l) = false
               /\ (op = true -> opened (lnk_info l) = true).

(** Link [k] when [PppoeOpen] has sent the connect request. *)
Definition Connecting (w : World) : Prop :=
  quiet w
  /\ exists l, gLinks w !! k = Some (Some l)
               /\ lnk_state l = PHYS_STATE_CONNECTING
               /\ lnk_id l = id /\ lnk_type l = gPppoePhysType
               /\ opened (lnk_info l) = true
               /\ real_session (lnk_info l)
                  = strlcpy s (Z.to_nat MAX_SESSION).

Lemma quiet_emit (w : World) (e : event) :
  is_PhysUp k e = false -> quiet w -> quiet (set_trace (trace w ++ [e]) w).
Proof.
  intros He (evs & Ht & Hn). exists (evs ++ [e]).
  cbn [trace set_trace]. rewrite Ht, app_assoc. split; [ reflexivity | ].
  rewrite PhysUp_calls_app, Hn. unfold PhysUp_calls.
  cbn [filter]. rewrite filter_cons_False by (rewrite He; discriminate).
  reflexivity.
Qed.

Lemma quiet_same (w w' : World) : trace w' = trace w -> quiet w -> quiet w'.
Proof. intros E (evs & Ht & Hn). exists evs. rewrite E. auto. Qed.

Lemma Opening_same op (w w' : World) :
  trace w' = trace w -> gLinks w' = gLinks w -> Opening op w -> Opening op w'.
Proof.
  intros Et El [Hq Hl]. split; [ eapply quiet_same; eauto | ].
  rewrite El. exact Hl.
Qed.

Lemma Opening_emit op (w : World) (e : event) :
  is_PhysUp k e = false -> Opening op w ->
  Opening op (set_trace (trace w ++ [e]) w).
Proof. intros He [Hq Hl]. split; [ apply quiet_emit; assumption | exact Hl ]. Qed.

(** An update of link [k] that keeps what [Opening] speaks about. *)
Lemma Opening_update op op' (w : World) (l : Link) (f : Link -> Link) :
  gLinks w !! k = Some (Some l) ->
  lnk_state (f l) = lnk_state l -> lnk_id (f l) = lnk_id l ->
  lnk_type (f l) = lnk_type l ->
  session (lnk_info (f l)) = session (lnk_info l) ->
  incoming (lnk_info (f l)) = incoming (lnk_info l) ->
  (op' = true ->
   opened (lnk_info (f l)) = true
   \/ (op = true /\ opened (lnk_info (f l)) = opened (lnk_info l))) ->
  Opening op w ->
  Opening op' (set_gLinks (<[k := Some (f l)]> (gLinks w)) w).
Proof.
  intros Hl H1 H2 H3 H4 H5 H6 [Hq (l0 & Hl0 & Hs & Hi & Ht & Hse & Hin & Hop)].
  rewrite Hl in Hl0. inversion Hl0. subst l0.
  split; [ eapply quiet_same; [ | exact Hq ]; reflexivity | ].
  exists (f l). split; [ cbn [gLinks set_gLinks]; eapply lookup_updated; eauto | ].
  rewrite H1, H2, H3, H4, H5. repeat (split; [ assumption | ]).
  intros E. destruct (H6 E) as [Ho | [Ho1 Ho2]]; [ exact Ho | ].
  rewrite Ho2. auto.
Qed.

End Connect.

Ltac open_side :=
  intros;
  first
    [ eapply Opening_same; [ reflexivity | reflexivity | assumption ]
    | eapply Opening_emit; [ reflexivity | assumption ]
    | eapply Opening_update;
      [ eassumption | reflexivity | reflexivity | reflexivity | reflexivity
      | reflexivity | intros; right; split; reflexivity | eassumption ] ].

Section ConnectSteps.
Import Libc TagCodec Pppoe.
Variable host : Host.
Variable k : nat.
Variable tr0 : list event.
Variable id : Z.
Variable s : string.

Let Opening_k := Opening k tr0 id s.
Let Connecting_k := Connecting k tr0 id s.
Let Opened_k (_ : unit) (w : World) : Prop :=
  Opening_k true w \/ Connecting_k w.

Lemma Open_CreatePppoeNode p ifn pth hk :
  preserves (Opening_k true) (CreatePppoeNode host p ifn pth hk).
Proof.
  unfold Opening_k, CreatePppoeNode, probe_ether.
  pres_walk open_side fail.
Qed.

Lemma Open_PppoeGetNode : preserves (Opening_k true) (PppoeGetNode host k).
Proof.
  pose proof Open_CreatePppoeNode as Hc. unfold Opening_k in *.
  unfold PppoeGetNode.
  pres_walk open_side ltac:(apply Hc).
Qed.

Lemma hoare_left {A} (c : M A) :
  preserves (Opening_k true) c -> hoare (Opening_k true) c (fun _ => Opened_k tt).
Proof. intros H w a w' HI Hc. left. eapply H; eauto. Qed.

(** The stores at the end of a successful [PppoeOpen]. *)
Lemma Open_stores :
  hoare (Opening_k true)
    (modLink k (set_state PHYS_STATE_CONNECTING) ;;
     modInfo k (fun pe =>
       set_real_session (strlcpy (session pe) (Z.to_nat MAX_SESSION)) pe) ;;
     modInfo k (set_agent_cid EmptyString) ;;
     modInfo k (set_agent_rid EmptyString) ;;
     modInfo k (set_mp_reply false))
    (fun _ => Opened_k tt).
Proof.
  intros w a w' [Hq (l & Hl & Hs & Hi & Ht & Hse & Hin & Hop)] H.
  rewrite !modInfo_as_modLink in H.
  do 3 rewrite modLink_fuse in H. rewrite modLink_fuse_last in H.
  apply modLink_inv in H as (l0 & Hl0 & ->).
  rewrite Hl in Hl0. inversion Hl0. subst l0.
  right. split; [ eapply quiet_same; [ | exact Hq ]; reflexivity | ].
  eexists. split; [ cbn [gLinks set_gLinks]; eapply lookup_updated; eauto | ].
  cbn. rewrite Hse. repeat split; auto.
Qed.

Lemma Open_PppoeOpen :
  hoare (Opening_k false) (PppoeOpen host k) (fun _ => Opened_k tt).
Proof.
  pose proof Open_PppoeGetNode as Hg. pose proof Open_stores as Hst.
  pose proof (@hoare_left unit) as Hleft.
  unfold Opened_k, Opening_k, Connecting_k in *.
  unfold PppoeOpen.
  apply hoare_bind with (Q := fun _ => Opening k tr0 id s true).
  { intros w a w' HO H. apply modLink_inv in H as (l & Hl & ->).
    eapply Opening_update;
      [ exact Hl | reflexivity | reflexivity | reflexivity | reflexivity
      | reflexivity | intros _; left; reflexivity | exact HO ]. }
  intros _. apply hoare_bind_pres; [ pres_walk open_side fail | intros _ ].
  apply hoare_bind
    with (Q := fun l w => Opening k tr0 id s true w
                          /\ gLinks w !! k = Some (Some l)).
  { intros w l w' HO H. apply getLink_inv in H as [-> Hl]. auto. }
  intros l. cbv zeta.
  assert (Hpre : forall c : M unit,
             (incoming (lnk_info l) = false ->
              lnk_state l = PHYS_STATE_DOWN ->
              hoare (Opening k tr0 id s true) c
                (fun _ w => Opening k tr0 id s true w
                            \/ Connecting k tr0 id s w)) ->
             forall c1 c2 : M unit,
             hoare (fun w => Opening k tr0 id s true w
                             /\ gLinks w !! k = Some (Some l))
               (if incoming (lnk_info l) then c1
                else if negb (phys_state_eqb (lnk_state l) PHYS_STATE_DOWN)
                     then c2 else c)
               (fun _ w => Opening k tr0 id s true w
                           \/ Connecting k tr0 id s w)).
  { intros c Hc c1 c2 w a w' [HO Hl] H.
    pose proof HO as [_ (l0 & Hl0 & Hs & _ & _ & _ & Hin & _)].
    rewrite Hl in Hl0. inversion Hl0. subst l0.
    rewrite Hin, Hs in H. cbn [phys_state_eqb negb] in H.
    eapply Hc; eauto. }
  apply Hpre. intros Hin Hs.
  repeat
    (cbv zeta;
     match goal with
     | |- hoare _ _ _ => solve [ apply Hst ]
     | |- hoare _ (bind _ _) _ =>
         apply hoare_bind_pres;
         [ pres_walk open_side ltac:(apply Hg) | intros ? ]
     | |- hoare _ (if ?b then _ else _) _ => destruct b
     | |- hoare _ (match ?x with _ => _ end) _ => destruct x
     | |- hoare _ (open_fail2 _ _ _ _) _ => unfold open_fail2
     | |- hoare _ (open_fail _) _ => unfold open_fail
     | |- hoare _ _ _ => apply Hleft; pres_walk open_side fail
     end).
Qed.

End ConnectSteps.

Section DemoConnect.
Import Libc TagCodec Pppoe Demo.

Lemma w_up_reachable : reachable host_ok w_up.
Proof.
  apply (reach_step host_ok w_connecting w_up w_connecting_reachable).
  apply (step_ctrl host_ok 4095%nat (parent_of w_connecting 4095)
           (Some (success_msg "mpd4242-0")) w_connecting w_up);
    vm_compute; reflexivity.
Qed.

Lemma w_dup_reachable : reachable host_ok w_dup.
Proof.
  apply (reach_step host_ok w_up w_dup w_up_reachable).
  apply (step_ctrl host_ok 4095%nat (parent_of w_up 4095)
           (Some (success_msg "mpd4242-0")) w_up w_dup);
    vm_compute; reflexivity.
Qed.

End DemoConnect.

(** C3 (as the code has it).  The handler of SUCCESS does not look at
    the state beyond DOWN:

    - a SUCCESS message for a link in any state but DOWN is acted on:
      with [opened] set the timer is stopped, the state is set to UP and
      [PhysUp] is called; otherwise the state is set to READY;
    - so a second SUCCESS for a link that is UP, opened, with the timer
      idle, leaves links and parents as they are, and stops the timer and
      calls [PhysUp] once more;
    - an outgoing connect in which one SUCCESS is read: [PppoeOpen] on a
      link that is DOWN leaves it CONNECTING, then the message for its
      hook arrives on its parent.  The link is then UP, [real_session] is
      the configured [session], and since the call of [PppoeOpen]
      [PhysUp] was called for it exactly once. *)
Theorem success_handling (host : Pppoe.Host) :
  0 <= Pppoe.gPid host < 2 ^ 31 ->
  (forall (w : Pppoe.World) (p k : nat) (e : Pppoe.PppoeIf) (l : Pppoe.Link)
          (msg : Pppoe.ctrl_msg),
      Pppoe.gLinks w !! k = Some (Some l) ->
      Pppoe.PppoeIfs w !! p = Some e ->
      Pppoe.lnk_id l = Z.of_nat k -> Z.of_nat k < 2 ^ 31 ->
      Pppoe.lnk_type l = Pppoe.gPppoePhysType ->
      Pppoe.PIf (Pppoe.lnk_info l) = Some p ->
      Pppoe.typecookie msg = Pppoe.NGM_PPPOE_COOKIE ->
      Pppoe.cmd msg = Pppoe.NGM_PPPOE_SUCCESS ->
      Pppoe.sts_hook msg = Pppoe.session_hook_of host l ->
      (Pppoe.lnk_state l <> Pppoe.PHYS_STATE_DOWN ->
       Pppoe.PppoeCtrlReadEvent host p (Some msg) w
       = Pppoe.Ok tt (after_success w e k l))
      /\ (Pppoe.lnk_state l = Pppoe.PHYS_STATE_UP ->
          Pppoe.opened (Pppoe.lnk_info l) = true ->
          Pppoe.connectTimer (Pppoe.lnk_info l) = false ->
          exists w' : Pppoe.World,
            Pppoe.PppoeCtrlReadEvent host p (Some msg) w = Pppoe.Ok tt w'
            /\ Pppoe.gLinks w' = Pppoe.gLinks w
            /\ Pppoe.PppoeIfs w' = Pppoe.PppoeIfs w
            /\ Pppoe.trace w'
               = Pppoe.trace w
                 ++ [Pppoe.EvNgRecvMsg (Pppoe.csock e);
                     Pppoe.EvLog Pppoe.LG_PHYS "PPPoE: connection successful";
                     Pppoe.EvTimerStop k; Pppoe.EvPhysUp k]))
  /\ (forall (w w1 : Pppoe.World) (p k : nat) (e : Pppoe.PppoeIf)
             (l l1 : Pppoe.Link) (msg : Pppoe.ctrl_msg),
        Pppoe.gLinks w !! k = Some (Some l) ->
        Pppoe.lnk_id l = Z.of_nat k -> Z.of_nat k < 2 ^ 31 ->
        Pppoe.lnk_type l = Pppoe.gPppoePhysType ->
        Pppoe.incoming (Pppoe.lnk_info l) = false ->
        Pppoe.lnk_state l = Pppoe.PHYS_STATE_DOWN ->
        Pppoe.PppoeOpen host k w = Pppoe.Ok tt w1 ->
        Pppoe.gLinks w1 !! k = Some (Some l1) ->
        Pppoe.lnk_state l1 = Pppoe.PHYS_STATE_CONNECTING ->
        Pppoe.PIf (Pppoe.lnk_info l1) = Some p ->
        Pppoe.PppoeIfs w1 !! p = Some e ->
        Pppoe.typecookie msg = Pppoe.NGM_PPPOE_COOKIE ->
        Pppoe.cmd msg = Pppoe.NGM_PPPOE_SUCCESS ->
        Pppoe.sts_hook msg = Pppoe.session_hook_of host l1 ->
        exists (w2 : Pppoe.World) (l2 : Pppoe.Link),
          Pppoe.PppoeCtrlReadEvent host p (Some msg) w1 = Pppoe.Ok tt w2
          /\ Pppoe.gLinks w2 !! k = Some (Some l2)
          /\ Pppoe.lnk_state l2 = Pppoe.PHYS_STATE_UP
          /\ Pppoe.real_session (Pppoe.lnk_info l2)
             = Libc.strlcpy (Pppoe.session (Pppoe.lnk_info l))
                 (Z.to_nat TagCodec.MAX_SESSION)
          /\ PhysUp_calls k (skipn (length (Pppoe.trace w)) (Pppoe.trace w2))
             = 1%nat).
Proof.
  intros Hpid. split.
  - intros w p k e l msg Hl He Hid Hk Ht Hp Hc Hm Hh.
    assert (Hrun : Pppoe.lnk_state l <> Pppoe.PHYS_STATE_DOWN ->
                   Pppoe.PppoeCtrlReadEvent host p (Some msg) w
                   = Pppoe.Ok tt (after_success w e k l)).
    { intros Hs. apply (ctrl_success_effect host Hpid); assumption. }
    split; [ exact Hrun | ].
    intros Hs Ho Htm. eexists. split.
    + apply Hrun. rewrite Hs. discriminate.
    + unfold after_success. rewrite Ho.
      cbn [Pppoe.gLinks Pppoe.PppoeIfs Pppoe.trace Pppoe.set_trace
           Pppoe.set_gLinks].
      split; [ | split; reflexivity ].
      replace (Pppoe.set_state Pppoe.PHYS_STATE_UP
                 (Pppoe.set_info
                    (Pppoe.set_connectTimer false (Pppoe.lnk_info l)) l))
        with l.
      * apply list_insert_id. exact Hl.
      * destruct l as [? ? ? ? st ? ? ? ? pi]. destruct pi.
        cbn in Hs, Htm. subst. reflexivity.
  - intros w w1 p k e l l1 msg Hl Hid Hk Ht Hin Hs Hopen Hl1 Hs1 Hp1 He1
      Hc Hm Hh.
    assert (HO : Opening k (Pppoe.trace w) (Pppoe.lnk_id l)
                   (Pppoe.session (Pppoe.lnk_info l)) false w).
    { split.
      - exists []. rewrite app_nil_r. split; reflexivity.
      - exists l. repeat split; auto. discriminate. }
    destruct (Open_PppoeOpen host k _ _ _ w tt w1 HO Hopen)
      as [[_ (l' & Hl' & Hs' & _)] | [Hq (l' & Hl' & _ & Hid' & Ht' & Ho' & Hrs)]].
    { rewrite Hl1 in Hl'. inversion Hl'. subst l'. congruence. }
    rewrite Hl1 in Hl'. inversion Hl'. subst l'.
    exists (after_success w1 e k l1). eexists. split.
    { apply (ctrl_success_effect host Hpid); try assumption.
      - congruence.
      - rewrite Hs1. discriminate. }
    unfold after_success. rewrite Ho'.
    cbn [Pppoe.gLinks Pppoe.trace Pppoe.set_trace Pppoe.set_gLinks].
    split; [ eapply lookup_updated; exact Hl1 | ].
    split; [ reflexivity | ].
    split; [ exact Hrs | ].
    destruct Hq as (evs & Htr & Hn). rewrite Htr, <- app_assoc.
    rewrite skipn_app, skipn_all, Nat.sub_diag, skipn_O. cbn [app].
    rewrite PhysUp_calls_app, Hn. unfold PhysUp_calls.
    cbn [filter]. rewrite !filter_cons_False by (cbn; discriminate).
    rewrite filter_cons_True by (cbn; apply Nat.eqb_refl).
    reflexivity.
Qed.

Lemma success_handling_witness :
  exists (w2 : Pppoe.World) (l2 : Pppoe.Link),
    Pppoe.PppoeCtrlReadEvent Demo.host_ok 4095
      (Some (Demo.success_msg "mpd4242-0")) Demo.w_connecting
    = Pppoe.Ok tt w2
    /\ Pppoe.gLinks w2 !! 0%nat = Some (Some l2)
    /\ Pppoe.lnk_state l2 = Pppoe.PHYS_STATE_UP
    /\ Pppoe.real_session (Pppoe.lnk_info l2)
       = Libc.strlcpy
           (Pppoe.session (Pppoe.lnk_info (Demo.link_of Demo.w_configured 0)))
           (Z.to_nat TagCodec.MAX_SESSION)
    /\ PhysUp_calls 0
         (skipn (length (Pppoe.trace Demo.w_configured)) (Pppoe.trace w2))
       = 1%nat.
Proof.
  apply (proj2 (success_handling Demo.host_ok
                  ltac:(vm_compute; split; [ discriminate | reflexivity ]))
           Demo.w_configured Demo.w_connecting 4095%nat 0%nat
           (Demo.parent_of Demo.w_connecting 4095)
           (Demo.link_of Demo.w_configured 0)
           (Demo.link_of Demo.w_connecting 0)
           (Demo.success_msg "mpd4242-0"));
    vm_compute; reflexivity.
Defined.

(** C3, a duplicate that is not a no-op: link 0 is UP after one SUCCESS
    and [PhysUp] was called once; the same message read again is
    handled like the first, and [PhysUp] has then been called twice. *)
Lemma duplicate_success_acted_on :
  Pppoe.reachable Demo.host_ok Demo.w_up
  /\ Pppoe.lnk_state (Demo.link_of Demo.w_up 0) = Pppoe.PHYS_STATE_UP
  /\ PhysUp_calls 0 (Pppoe.trace Demo.w_up) = 1%nat
  /\ Pppoe.PppoeCtrlReadEvent Demo.host_ok 4095
       (Some (Demo.success_msg "mpd4242-0")) Demo.w_up
     = Pppoe.Ok tt Demo.w_dup
  /\ Pppoe.trace Demo.w_dup
     = Pppoe.trace Demo.w_up
       ++ [Pppoe.EvNgRecvMsg 5;
           Pppoe.EvLog Pppoe.LG_PHYS "PPPoE: connection successful";
           Pppoe.EvTimerStop 0; Pppoe.EvPhysUp 0]
  /\ PhysUp_calls 0 (Pppoe.trace Demo.w_dup) = 2%nat.
Proof.
  split; [ exact w_up_reachable | ].
  do 4 (split; [ vm_compute; reflexivity | ]).
  vm_compute. reflexivity.
Qed.

(* ===================================================================== *)
(** * A call whose parent is gone                                         *)
(* ===================================================================== *)

Section NoParent.
Import Libc TagCodec Pppoe.
Variable host : Host.

(** [PppoeDoClose] reads [pi->PIf->node_id] without a test of
    [pi->PIf]. *)
Lemma PppoeDoClose_no_parent (w : World) (k : nat) (l : Link) :
  gLinks w !! k = Some (Some l) ->
  lnk_state l <> PHYS_STATE_DOWN ->
  PIf (lnk_info l) = None ->
  PppoeDoClose host k w = Fault null_deref.
Proof.
  intros Hl Hs Hp. unfold PppoeDoClose.
  erewrite bind_Ok by (apply getLink_Ok; exact Hl).
  rewrite (proj2 (phys_state_eqb_neq _ _) Hs).
  apply bind_Fault. unfold parentOf.
  erewrite bind_Ok by (apply getInfo_Ok; exact Hl).
  rewrite Hp. reflexivity.
Qed.

End NoParent.

Section DemoListening.
Import Libc TagCodec Pppoe Demo.

Lemma w_enabled_reachable : reachable host_ok w_enabled.
Proof.
  apply (reach_step host_ok w_configured w_enabled
           w_configured_reachable).
  apply (step_options host_ok 0%nat true true true w_configured w_enabled).
  - exists (link_of w_configured 0). split; vm_compute; reflexivity.
  - vm_compute. reflexivity.
Qed.

Lemma w_listening_reachable : reachable host_ok w_listening.
Proof.
  apply (reach_step host_ok w_enabled w_listening w_enabled_reachable).
  apply (step_update host_ok 0%nat w_enabled w_listening).
  - exists (link_of w_enabled 0). split; vm_compute; reflexivity.
  - vm_compute. reflexivity.
Qed.

Lemma w_calling_reachable : reachable host_ok w_calling.
Proof.
  apply (reach_step host_ok w_listening w_calling w_listening_reachable).
  apply (step_open host_ok 0%nat w_listening w_calling).
  - exists (link_of w_listening 0). split; vm_compute; reflexivity.
  - vm_compute. reflexivity.
Qed.

Lemma w_orphan_reachable : reachable host_ok w_orphan.
Proof.
  apply (reach_step host_ok w_calling w_orphan w_calling_reachable).
  apply (step_set host_ok 0%nat ["undefined"] SET_IFACE w_calling 0
           w_orphan).
  - exists (link_of w_calling 0). split; vm_compute; reflexivity.
  - vm_compute. reflexivity.
Qed.

End DemoListening.

(** C5 (where the code fails).  A link that listens for incoming calls
    is opened for an outgoing call, and while it is CONNECTING the
    operator types [set pppoe iface undefined]: [PppoeSetCommand]
    releases the listener and the parent without a look at the state, and
    [PppoeGetNode] finds no parent for the new path.  This state is
    reachable; in it the link is CONNECTING with its timer running and
    [pi->PIf] is NULL, and [PppoeClose] ends in [PppoeDoClose] reading
    [pi->PIf->node_id]: no hook is disconnected, no timer stopped, the
    link is not set DOWN and [PhysDown] is not called. *)
Theorem PppoeClose_without_parent :
  Pppoe.reachable Demo.host_ok Demo.w_orphan
  /\ Pppoe.lnk_state (Demo.link_of Demo.w_orphan 0)
     = Pppoe.PHYS_STATE_CONNECTING
  /\ Pppoe.connectTimer (Pppoe.lnk_info (Demo.link_of Demo.w_orphan 0)) = true
  /\ Pppoe.PIf (Pppoe.lnk_info (Demo.link_of Demo.w_orphan 0)) = None
  /\ Pppoe.PppoeClose Demo.host_ok 0 Demo.w_orphan
     = Pppoe.Fault Pppoe.null_deref.
Proof.
  split; [ exact w_orphan_reachable | ].
  split; [ vm_compute; reflexivity | ].
  split; [ vm_compute; reflexivity | ].
  split; [ vm_compute; reflexivity | ].
  vm_compute. reflexivity.
Qed.

(** C9 (where the code fails).  [set pppoe max-payload 4294968788]: the
    number is far above [ETHER_MAX_LEN - 8], [strtol] reads it whole, and
    the conversion of [atoi] to [int] turns it into 1492; the range test
    is made on that [int], so the command returns 0 and stores 1492. *)
Theorem max_payload_wrapped :
  Pppoe.ETHER_MAX_LEN - 8 < 4294968788
  /\ Libc.strtol "4294968788" = (4294968788, EmptyString)
  /\ Libc.atoi "4294968788" = Pppoe.PPPOE_MRU
  /\ Pppoe.PppoeSetCommand Demo.host_ok 0 ["4294968788"]
       Pppoe.SET_MAX_PAYLOAD Demo.w_created
     = Pppoe.Ok 0
         (Pppoe.set_gLinks
            (<[0%nat := Some (Pppoe.set_info
                               (Pppoe.set_max_payload 1492
                                  (Pppoe.lnk_info
                                     (Demo.link_of Demo.w_created 0)))
                               (Demo.link_of Demo.w_created 0))]>
               (Pppoe.gLinks Demo.w_created)) Demo.w_created).
Proof.
  split; [ vm_compute; reflexivity | ].
  split; [ vm_compute; reflexivity | ].
  split; vm_compute; reflexivity.
Qed.

(* ===================================================================== *)
(** * More on the tag codec                                               *)
(* ===================================================================== *)

Section VendorTag.
Import Libc TagCodec.
Variable m : mem.

Lemma vs_match_true (idx pt : Z) :
  fst (vs_match m idx pt) = true ->
  fst (tag_type m pt) = PTT_VENDOR
  /\ 4 <= fst (tag_len m pt)
  /\ fst (load32 m (pt + sizeof_pppoe_tag)) = idx.
Proof.
  unfold vs_match.
  destruct (fst (tag_type m pt) =? PTT_VENDOR) eqn:E1; [ | discriminate ].
  destruct (4 <=? fst (tag_len m pt)) eqn:E2; [ | discriminate ].
  cbn [fst]. intros E3.
  apply Z.eqb_eq in E1, E3. apply Z.leb_le in E2. auto.
Qed.

Lemma get_vs_tag_loop_match (endp idx pt r : Z) :
  fst (get_vs_tag_loop m endp idx pt) = Some r ->
  fst (vs_match m idx r) = true.
Proof.
  funelim (get_vs_tag_loop m endp idx pt); intros Hr; cbn [fst] in Hr;
    try discriminate.
  - injection Hr as <-. assumption.
  - auto.
Qed.

(** [get_vs_tag] returns the first tag of the iteration that passes
    the vendor test. *)
Lemma get_vs_tag_loop_find (endp idx pt : Z) :
  fst (get_vs_tag_loop m endp idx pt)
  = option_map (fun tv => tv_value tv - sizeof_pppoe_tag)
      (List.find
         (fun tv => fst (vs_match m idx (tv_value tv - sizeof_pppoe_tag)))
         (print_tags_loop m endp pt)).
Proof.
  funelim (get_vs_tag_loop m endp idx pt); rewrite print_tags_loop_eq;
    rewrite ?Heq1, ?Heq0, ?Heq; cbn [fst]; try reflexivity.
  - cbn [List.find tv_value].
    replace (pt + sizeof_pppoe_tag - sizeof_pppoe_tag) with pt by lia.
    rewrite Heq. cbn [option_map tv_value]. f_equal. lia.
  - cbn [List.find tv_value].
    replace (pt + sizeof_pppoe_tag - sizeof_pppoe_tag) with pt by lia.
    rewrite Heq. exact H.
Qed.

End VendorTag.

(** X1.  [get_vs_tag], whatever the memory holds: every load is at one
    of the [6 + L] bytes that start at the PPPoE header ([L] the
    header's length field); the tag returned is a Vendor-Specific tag
    with at least four bytes of value, the first four being the wanted
    vendor id, and it lies with its whole value inside that range; it is
    the first tag of the iteration that passes this test. *)
Theorem get_vs_tag_result (m : TagCodec.mem) (ph idx : Z) :
  within ph (ph + 6 + fst (TagCodec.hdr_length m ph))
    (snd (TagCodec.get_vs_tag m ph idx))
  /\ (forall pt, fst (TagCodec.get_vs_tag m ph idx) = Some pt ->
        ph + 6 <= pt
        /\ pt + 4 + fst (TagCodec.tag_len m pt)
             <= ph + 6 + fst (TagCodec.hdr_length m ph)
        /\ fst (TagCodec.tag_type m pt) = TagCodec.PTT_VENDOR
        /\ 4 <= fst (TagCodec.tag_len m pt)
        /\ fst (TagCodec.load32 m (pt + 4)) = idx)
  /\ fst (TagCodec.get_vs_tag m ph idx)
     = option_map (fun tv => TagCodec.tv_value tv - 4)
         (List.find
            (fun tv => fst (TagCodec.vs_match m idx (TagCodec.tv_value tv - 4)))
            (TagCodec.print_tags m ph)).
Proof.
  unfold TagCodec.get_vs_tag, TagCodec.print_tags, TagCodec.sizeof_pppoe_hdr,
    TagCodec.hdr_length.
  cbn [fst snd].
  pose proof (TagCodec.load16_nonneg m (ph + 4)) as HL.
  split; [ | split ].
  - apply within_app.
    + apply within_load16; lia.
    + apply get_vs_tag_loop_within. lia.
  - intros pt Hpt.
    pose proof (get_vs_tag_loop_match m _ _ _ _ Hpt) as Hm.
    apply vs_match_true in Hm as (Ht & H4 & Hv).
    apply (get_vs_tag_loop_found m _ _ _ (ph + 6)) in Hpt as (Hlo & Hhi & _);
      [ | lia ].
    unfold TagCodec.sizeof_pppoe_tag in *. auto.
  - apply get_vs_tag_loop_find.
Qed.

Lemma get_vs_tag_result_witness :
  14 + 6 <= 27
  /\ 27 + 4 + fst (TagCodec.tag_len (TagCodec.mem_of_bytes Demo.agent_frame) 27)
       <= 14 + 6
          + fst (TagCodec.hdr_length (TagCodec.mem_of_bytes Demo.agent_frame) 14)
  /\ fst (TagCodec.tag_type (TagCodec.mem_of_bytes Demo.agent_frame) 27)
     = TagCodec.PTT_VENDOR
  /\ 4 <= fst (TagCodec.tag_len (TagCodec.mem_of_bytes Demo.agent_frame) 27)
  /\ fst (TagCodec.load32 (TagCodec.mem_of_bytes Demo.agent_frame) (27 + 4))
     = TagCodec.BBF_VENDOR.
Proof.
  destruct (proj1 (proj2 (get_vs_tag_result
                            (TagCodec.mem_of_bytes Demo.agent_frame) 14
                            TagCodec.BBF_VENDOR)) 27
              ltac:(vm_compute; reflexivity)) as (H1 & H2 & H3 & H4 & H5).
  repeat (split; [ assumption | ]). assumption.
Defined.

Section AgentIds.
Import Libc TagCodec.

(** A buffer of 64 bytes whose last byte is the terminator. *)
Definition id_buf_ok (b : list Z) : Prop :=
  length b = 64%nat /\ nth 63 b 0 = 0.

Lemma strncpy_bytes_length (m : mem) (src : Z) (n : nat) :
  length (fst (strncpy_bytes m src n)) = n.
Proof.
  revert src. induction n as [ | n IH ]; intros src; [ reflexivity | ].
  cbn [strncpy_bytes]. cbv zeta.
  destruct (fst (load8 m src) =? 0); cbn [fst].
  - apply repeat_length.
  - cbn [length]. rewrite IH. reflexivity.
Qed.

(** Every load of [strncpy] is at one of the [n] bytes from [src]. *)
Lemma strncpy_bytes_loads (m : mem) (src : Z) (n : nat) :
  Forall (fun a => src <= a < src + Z.of_nat n)
    (snd (strncpy_bytes m src n)).
Proof.
  revert src. induction n as [ | n IH ]; intros src; [ constructor | ].
  cbn [strncpy_bytes]. cbv zeta.
  destruct (fst (load8 m src) =? 0); cbn [snd].
  - repeat constructor; lia.
  - constructor; [ lia | ].
    eapply Forall_impl; [ apply IH | ]. cbn beta. intros a Ha. lia.
Qed.

Lemma strncpy_keeps_terminator (dst : list Z) (m : mem) (src : Z) (n : nat) :
  (n <= 63)%nat -> id_buf_ok dst -> id_buf_ok (fst (strncpy dst m src n)).
Proof.
  intros Hn [Hlen Hlast]. unfold strncpy. cbn [fst]. split.
  - rewrite length_app, strncpy_bytes_length, length_skipn. lia.
  - rewrite app_nth2 by (rewrite strncpy_bytes_length; lia).
    rewrite strncpy_bytes_length, nth_skipn.
    replace (n + (63 - n))%nat with 63%nat by lia. exact Hlast.
Qed.

Lemma cstring_length_le (b : list Z) (i : nat) :
  (i < length b)%nat -> nth i b 0 = 0 ->
  (String.length (cstring b) <= i)%nat.
Proof.
  revert i. induction b as [ | x b IH ]; intros i Hi Hz;
    [ cbn in Hi; lia | ].
  cbn [cstring]. destruct (x =? 0) eqn:E; [ cbn; lia | ].
  destruct i as [ | i ].
  - cbn in Hz. subst x. discriminate.
  - cbn [String.length]. cbn in Hi, Hz.
    specialize (IH i ltac:(lia) Hz). lia.
Qed.

Lemma id_buf_zero : id_buf_ok (repeat 0 (Z.to_nat sizeof_agent_id)).
Proof. split; reflexivity. Qed.

(** The loop keeps both buffers terminated. *)
Lemma bbf_loop_buffers (fuel : nat) (cs : bool) (m : mem) (b len pos : Z)
    (st st' : agent_ids) :
  id_buf_ok (agent_cid_buf st) -> id_buf_ok (agent_rid_buf st) ->
  bbf_loop fuel cs m b len pos st = Some st' ->
  id_buf_ok (agent_cid_buf st') /\ id_buf_ok (agent_rid_buf st').
Proof.
  revert pos st. induction fuel as [ | fuel IH ]; intros pos st Hc Hr H;
    [ discriminate | ].
  cbn [bbf_loop] in H.
  destruct (size_t_of (pos + 1) <=? len);
    [ | injection H as <-; auto ].
  destruct (size_t_of (fst (load_char cs m (b + pos + 1)))
            >? size_t_of (len - pos - 2));
    [ injection H as <-; auto | ].
  cbv zeta in H.
  set (len1 := if size_t_of (fst (load_char cs m (b + pos + 1)))
                  >=? sizeof_agent_id
               then sizeof_agent_id - 1
               else size_t_of (fst (load_char cs m (b + pos + 1)))) in *.
  assert (H1 : (Z.to_nat len1 <= 63)%nat).
  { subst len1. unfold sizeof_agent_id.
    destruct (size_t_of (fst (load_char cs m (b + pos + 1))) >=? 64) eqn:E1;
      [ lia | ].
    rewrite Z.geb_leb in E1. apply Z.leb_gt in E1. lia. }
  apply IH in H; [ exact H | | ].
  - destruct (fst (load_char cs m (b + pos)) =? 1); cbn [agent_cid_buf].
    + apply strncpy_keeps_terminator; assumption.
    + destruct (fst (load_char cs m (b + pos)) =? 2); cbn [agent_cid_buf];
        assumption.
  - destruct (fst (load_char cs m (b + pos)) =? 1); cbn [agent_rid_buf];
      [ assumption | ].
    destruct (fst (load_char cs m (b + pos)) =? 2); cbn [agent_rid_buf];
      [ apply strncpy_keeps_terminator; assumption | assumption ].
Qed.

End AgentIds.

(** X2.  The scan of the BBF tag in [PppoeListenEvent], whatever the
    frame holds: the loop ends, and both locals [agent_cid] and
    [agent_rid] are 64 bytes with a zero in the last one, so the
    strings the link receives are at most 63 characters long. *)
Theorem bbf_scan_terminated_ids (cs : bool) (m : TagCodec.mem) (ph : Z) :
  exists st : TagCodec.agent_ids,
    TagCodec.bbf_scan cs m ph = Some st
    /\ length (TagCodec.agent_cid_buf st) = 64%nat
    /\ nth 63 (TagCodec.agent_cid_buf st) 0 = 0
    /\ length (TagCodec.agent_rid_buf st) = 64%nat
    /\ nth 63 (TagCodec.agent_rid_buf st) 0 = 0
    /\ (String.length (TagCodec.cstring (TagCodec.agent_cid_buf st)) <= 63)%nat
    /\ (String.length (TagCodec.cstring (TagCodec.agent_rid_buf st)) <= 63)%nat.
Proof.
  destruct (TagCodec.bbf_scan cs m ph) as [st | ] eqn:E;
    [ | exfalso; exact (bbf_scan_returns cs m ph E) ].
  exists st. split; [ reflexivity | ].
  assert (H : id_buf_ok (TagCodec.agent_cid_buf st)
              /\ id_buf_ok (TagCodec.agent_rid_buf st)).
  { unfold TagCodec.bbf_scan in E. cbv zeta in E.
    destruct (fst (TagCodec.get_vs_tag m ph TagCodec.BBF_VENDOR)).
    - eapply bbf_loop_buffers; [ | | exact E ]; apply id_buf_zero.
    - injection E as <-. split; apply id_buf_zero. }
  destruct H as [[Hc1 Hc2] [Hr1 Hr2]].
  repeat (split; [ assumption | ]).
  split; apply cstring_length_le; first [ lia | assumption ].
Qed.

Section ScanLoads.
Import Libc TagCodec.

Lemma within_weaken (lo hi lo' hi' : Z) (l : list Z) :
  lo' <= lo -> hi <= hi' -> within lo hi l -> within lo' hi' l.
Proof.
  intros H1 H2 H. eapply Forall_impl; [ exact H | ].
  cbn beta. intros a Ha. lia.
Qed.

(** The loads of the loop: the payload is [b, b + len); a round that
    starts on its last byte reads the sub-length behind it and up to
    63 bytes of value after that. *)
Lemma bbf_loop_loads (fuel : nat) (cs : bool) (m : mem)
    (b len pos lo hi : Z) (st st' : agent_ids) :
  0 <= pos <= len + 64 -> 0 <= len < 2 ^ 16 -> lo <= b ->
  b + len + 64 <= hi ->
  within lo hi (bbf_loads st) ->
  bbf_loop fuel cs m b len pos st = Some st' ->
  within lo hi (bbf_loads st').
Proof.
  revert pos st.
  induction fuel as [ | fuel IH ]; intros pos st Hp Hl Hlo Hhi Hw H;
    [ discriminate | ].
  cbn [bbf_loop] in H. rewrite (size_t_of_small (pos + 1)) in H by lia.
  destruct (pos + 1 <=? len) eqn:E; [ | injection H as <-; exact Hw ].
  apply Z.leb_le in E.
  assert (Hc1 : within lo hi (snd (load_char cs m (b + pos + 1)))).
  { unfold load_char. cbn [snd]. repeat constructor; lia. }
  assert (Hc0 : within lo hi (snd (load_char cs m (b + pos)))).
  { unfold load_char. cbn [snd]. repeat constructor; lia. }
  destruct (size_t_of (fst (load_char cs m (b + pos + 1)))
            >? size_t_of (len - pos - 2)).
  { injection H as <-. cbn [bbf_loads]. apply within_app; assumption. }
  cbv zeta in H.
  set (len1 := if size_t_of (fst (load_char cs m (b + pos + 1)))
                  >=? sizeof_agent_id
               then sizeof_agent_id - 1
               else size_t_of (fst (load_char cs m (b + pos + 1)))) in *.
  assert (H1 : 0 <= len1 <= 63).
  { subst len1. unfold sizeof_agent_id.
    pose proof (Z.mod_pos_bound (fst (load_char cs m (b + pos + 1)))
                  SIZE_MOD ltac:(reflexivity)) as Hm.
    fold (size_t_of (fst (load_char cs m (b + pos + 1)))) in Hm.
    destruct (size_t_of (fst (load_char cs m (b + pos + 1))) >=? 64) eqn:E1;
      [ lia | ].
    rewrite Z.geb_leb in E1. apply Z.leb_gt in E1. lia. }
  rewrite (size_t_of_small (pos + 2 + len1)) in H by lia.
  assert (Hcp : forall dst,
             within lo hi
               (snd (strncpy dst m (b + pos + 2) (Z.to_nat len1)))).
  { intros dst. unfold strncpy. cbn [snd].
    eapply Forall_impl; [ apply strncpy_bytes_loads | ].
    cbn beta. intros a Ha. lia. }
  eapply IH; [ | exact Hl | exact Hlo | exact Hhi | | exact H ]; [ lia | ].
  destruct (fst (load_char cs m (b + pos)) =? 1); cbn [bbf_loads].
  - repeat apply within_app; auto.
  - destruct (fst (load_char cs m (b + pos)) =? 2); cbn [bbf_loads];
      repeat apply within_app; auto.
Qed.

Lemma tag_len_bound (m : mem) (pt : Z) : 0 <= fst (tag_len m pt) < 2 ^ 16.
Proof.
  unfold tag_len, load16, load8. cbn [fst].
  pose proof (Z.mod_pos_bound (m (pt + 2)) 256 ltac:(lia)).
  pose proof (Z.mod_pos_bound (m (pt + 2 + 1)) 256 ltac:(lia)). lia.
Qed.

Lemma truncate_length (n : nat) (s : string) :
  (String.length (truncate n s) <= n)%nat.
Proof.
  revert s. induction n as [ | n IH ]; intros [ | c s ]; cbn; try lia.
  specialize (IH s). lia.
Qed.

Lemma cstring_length_all (b : list Z) :
  (String.length (cstring b) <= length b)%nat.
Proof.
  induction b as [ | x b IH ]; cbn [cstring]; [ cbn; lia | ].
  destruct (x =? 0); cbn; lia.
Qed.

Lemma load_bytes_within (m : mem) (a lo hi : Z) (n : nat) :
  lo <= a -> a + Z.of_nat n <= hi -> within lo hi (snd (load_bytes m a n)).
Proof.
  intros H1 H2. unfold load_bytes, within. cbn [snd].
  apply List.Forall_forall. intros x Hx.
  apply in_map_iff in Hx as (i & <- & Hi). apply in_seq in Hi. lia.
Qed.

Lemma get_vs_tag_bounds (m : mem) (ph idx : Z) :
  within ph (ph + 6 + fst (hdr_length m ph)) (snd (get_vs_tag m ph idx))
  /\ (forall pt, fst (get_vs_tag m ph idx) = Some pt ->
        ph + 6 <= pt
        /\ pt + 4 + fst (tag_len m pt) <= ph + 6 + fst (hdr_length m ph)
        /\ 4 <= fst (tag_len m pt)).
Proof.
  unfold get_vs_tag, sizeof_pppoe_hdr, hdr_length. cbn [fst snd].
  pose proof (load16_nonneg m (ph + 4)) as HL. split.
  - apply within_app.
    + apply within_load16; lia.
    + apply get_vs_tag_loop_within. lia.
  - intros pt Hpt.
    apply (get_vs_tag_loop_found m _ _ _ (ph + 6)) in Hpt; [ | lia ].
    unfold sizeof_pppoe_tag in Hpt. exact Hpt.
Qed.

Lemma get_tag_bounds (m : mem) (ph idx : Z) :
  within ph (ph + 6 + fst (hdr_length m ph)) (snd (get_tag m ph idx))
  /\ (forall pt, fst (get_tag m ph idx) = Some pt ->
        ph + 6 <= pt
        /\ pt + 4 + fst (tag_len m pt) <= ph + 6 + fst (hdr_length m ph)).
Proof.
  unfold get_tag, sizeof_pppoe_hdr, hdr_length. cbn [fst snd].
  pose proof (load16_nonneg m (ph + 4)) as HL. split.
  - apply within_app.
    + apply within_load16; lia.
    + apply get_tag_loop_within. lia.
  - intros pt Hpt.
    apply (get_tag_loop_found m _ _ _ (ph + 6)) in Hpt; [ | lia ].
    unfold sizeof_pppoe_tag in Hpt. tauto.
Qed.

End ScanLoads.

(** X3.  The loads of the BBF scan, whatever the frame holds: none is
    before the PPPoE header, and none is [64] bytes or more behind the
    [6 + L] bytes that the header declares. *)
Theorem bbf_scan_loads (cs : bool) (m : TagCodec.mem) (ph : Z)
    (st : TagCodec.agent_ids) :
  TagCodec.bbf_scan cs m ph = Some st ->
  within ph (ph + 6 + fst (TagCodec.hdr_length m ph) + 64)
    (TagCodec.bbf_loads st).
Proof.
  intros E. unfold TagCodec.bbf_scan in E. cbv zeta in E.
  pose proof (get_vs_tag_bounds m ph TagCodec.BBF_VENDOR) as (Hw & Hf).
  pose proof (TagCodec.load16_nonneg m (ph + 4)) as HL.
  fold (TagCodec.hdr_length m ph) in HL.
  destruct (fst (TagCodec.get_vs_tag m ph TagCodec.BBF_VENDOR))
    as [tag | ] eqn:Et.
  - destruct (Hf tag eq_refl) as (H1 & H2 & H4).
    pose proof (tag_len_bound m tag) as H16.
    rewrite (size_t_of_small (fst (TagCodec.tag_len m tag) - 4)) in E by lia.
    eapply (bbf_loop_loads _ _ _ _ _ _ ph); [ | | | | | exact E ].
    + lia.
    + lia.
    + unfold TagCodec.sizeof_pppoe_tag. lia.
    + unfold TagCodec.sizeof_pppoe_tag. lia.
    + cbn [TagCodec.bbf_loads]. apply within_app.
      * eapply within_weaken; [ | | exact Hw ]; lia.
      * apply (within_load16 m _ _ (tag + 2)); lia.
  - injection E as <-. cbn [TagCodec.bbf_loads].
    eapply within_weaken; [ | | exact Hw ]; lia.
Qed.

Lemma bbf_scan_loads_witness :
  exists st : TagCodec.agent_ids,
    TagCodec.bbf_scan true Demo.bbf_mem 14 = Some st
    /\ within 14 (14 + 6 + fst (TagCodec.hdr_length Demo.bbf_mem 14) + 64)
         (TagCodec.bbf_loads st).
Proof.
  eexists. split; [ vm_compute; reflexivity | ].
  apply (bbf_scan_loads true Demo.bbf_mem 14). vm_compute. reflexivity.
Defined.

(** X4.  The local [real_session] of [PppoeListenEvent]: it is at most
    63 characters long whatever the Service-Name tag says; without such
    a tag it is the name behind [listen-] in the hook, cut to 63
    characters; and the loads made for it are at the [6 + L] bytes the
    header declares. *)
Theorem real_session_of_fits (m : TagCodec.mem) (ph : Z) (sess : string) :
  (String.length (fst (TagCodec.real_session_of m ph sess)) <= 63)%nat
  /\ (fst (TagCodec.get_tag m ph TagCodec.PTT_SRV_NAME) = None ->
      fst (TagCodec.real_session_of m ph sess) = Libc.truncate 63 sess)
  /\ within ph (ph + 6 + fst (TagCodec.hdr_length m ph))
       (snd (TagCodec.real_session_of m ph sess)).
Proof.
  unfold TagCodec.real_session_of. cbv zeta.
  pose proof (get_tag_bounds m ph TagCodec.PTT_SRV_NAME) as (Hw & Hf).
  destruct (fst (TagCodec.get_tag m ph TagCodec.PTT_SRV_NAME)) as [tag | ]
    eqn:Et; cbn [fst snd].
  - destruct (Hf tag eq_refl) as (H1 & H2).
    pose proof (tag_len_bound m tag) as H16.
    set (len := if fst (TagCodec.tag_len m tag) >=? TagCodec.MAX_SESSION
                then TagCodec.MAX_SESSION - 1
                else fst (TagCodec.tag_len m tag)).
    assert (Hlen : 0 <= len <= 63 /\ len <= fst (TagCodec.tag_len m tag)).
    { subst len. unfold TagCodec.MAX_SESSION.
      destruct (fst (TagCodec.tag_len m tag) >=? 64) eqn:E.
      - rewrite Z.geb_leb in E. apply Z.leb_le in E. lia.
      - rewrite Z.geb_leb in E. apply Z.leb_gt in E. lia. }
    split; [ | split ].
    + etransitivity; [ apply cstring_length_all | ].
      unfold TagCodec.load_bytes. cbn [fst].
      rewrite length_map, length_seq. lia.
    + discriminate.
    + apply within_app; [ exact Hw | ].
      apply within_app.
      * apply (within_load16 m _ _ (tag + 2)); lia.
      * apply load_bytes_within; unfold TagCodec.sizeof_pppoe_tag; lia.
  - split; [ | split ].
    + unfold Libc.strlcpy. apply truncate_length.
    + intros _. reflexivity.
    + exact Hw.
Qed.

(* ===================================================================== *)
(** * Hook names                                                          *)
(* ===================================================================== *)

Section HookRoundTrip.
Import Libc TagCodec Pppoe.
Variable host : Host.
Hypothesis gPid_int : 0 <= gPid host < 2 ^ 31.

Lemma session_hook_parse (l : Link) :
  0 <= lnk_id l < 2 ^ 31 ->
  strtol (advance (strlen (hook_prefix host)) (session_hook_of host l))
  = (lnk_id l, EmptyString).
Proof.
  intros Hid. rewrite session_hook_text by assumption.
  rewrite hook_prefix_text by assumption.
  unfold strlen. rewrite advance_prefix. apply strtol_utoa. assumption.
Qed.

Lemma session_hook_length (l : Link) :
  0 <= lnk_id l < 2 ^ 31 ->
  (String.length (session_hook_of host l) < NG_HOOKSIZ)%nat.
Proof.
  intros Hid. rewrite session_hook_text by assumption.
  unfold prefix_text, utoa. rewrite !append_length.
  pose proof (utoa_fuel_length 10 (gPid host)).
  pose proof (utoa_fuel_length 10 (lnk_id l)).
  cbn [String.length]. unfold NG_HOOKSIZ. lia.
Qed.

End HookRoundTrip.

(** X5.  The name of a session hook, ["mpd%d-%d"] of the process id and
    the link id as [PppoeOpen], [PppoeDoClose] and [PppoeListenEvent]
    print it, read back the way [PppoeCtrlReadEvent] reads it: it fits
    the hook buffer, it does not start with ["listen-"], it starts with
    the prefix ["mpd%d-"], and [strtol] on what follows yields the link
    id and consumes everything.  So two links with different ids never
    share a hook name. *)
Theorem session_hook_round_trip (host : Pppoe.Host) (l : Pppoe.Link) :
  0 <= Pppoe.gPid host < 2 ^ 31 ->
  0 <= Pppoe.lnk_id l < 2 ^ 31 ->
  (String.length (Pppoe.session_hook_of host l) < Pppoe.NG_HOOKSIZ)%nat
  /\ Libc.strncmp_eq (Pppoe.session_hook_of host l) "listen-" 7 = false
  /\ Libc.strncmp_eq (Pppoe.session_hook_of host l) (Pppoe.hook_prefix host)
       (Libc.strlen (Pppoe.hook_prefix host)) = true
  /\ Libc.strtol
       (Libc.advance (Libc.strlen (Pppoe.hook_prefix host))
          (Pppoe.session_hook_of host l))
     = (Pppoe.lnk_id l, EmptyString)
  /\ (forall l' : Pppoe.Link,
        0 <= Pppoe.lnk_id l' < 2 ^ 31 ->
        Pppoe.session_hook_of host l' = Pppoe.session_hook_of host l ->
        Pppoe.lnk_id l' = Pppoe.lnk_id l).
Proof.
  intros Hpid Hid.
  split; [ apply session_hook_length; assumption | ].
  split; [ apply session_hook_not_listen | ].
  split.
  { rewrite (session_hook_text host Hpid) by assumption.
    rewrite (hook_prefix_text host Hpid).
    unfold Libc.strlen. apply strncmp_eq_prefix. }
  split; [ apply session_hook_parse; assumption | ].
  intros l' Hid' E.
  pose proof (session_hook_parse host Hpid l' Hid') as H'.
  rewrite E, (session_hook_parse host Hpid l Hid) in H'.
  congruence.
Qed.

Lemma session_hook_round_trip_witness :
  Libc.strtol
    (Libc.advance (Libc.strlen (Pppoe.hook_prefix Demo.host_ok))
       (Pppoe.session_hook_of Demo.host_ok (Demo.link_of Demo.w_second 1)))
  = (Pppoe.lnk_id (Demo.link_of Demo.w_second 1), EmptyString).
Proof.
  apply (proj1 (proj2 (proj2 (proj2
           (session_hook_round_trip Demo.host_ok (Demo.link_of Demo.w_second 1)
              ltac:(vm_compute; split; [ discriminate | reflexivity ])
              ltac:(vm_compute; split; [ discriminate | reflexivity ])))))).
Defined.

(* ===================================================================== *)
(** * The other control messages                                          *)
(* ===================================================================== *)

Section LinkMessages.
Import Libc TagCodec Pppoe.
Variable host : Host.
Hypothesis gPid_int : 0 <= gPid host < 2 ^ 31.

(** A per-link message for a link that is not DOWN reaches the second
    switch. *)
Lemma ctrl_link_message (w : World) (p k : nat) (e : PppoeIf) (l : Link)
    (msg : ctrl_msg) :
  gLinks w !! k = Some (Some l) ->
  PppoeIfs w !! p = Some e ->
  lnk_id l = Z.of_nat k -> Z.of_nat k < 2 ^ 31 ->
  lnk_type l = gPppoePhysType -> PIf (lnk_info l) = Some p ->
  lnk_state l <> PHYS_STATE_DOWN ->
  typecookie msg = NGM_PPPOE_COOKIE -> is_link_cmd (cmd msg) = true ->
  sts_hook msg = session_hook_of host l ->
  PppoeCtrlReadEvent host p (Some msg) w
  = ctrl_link_cmd host k msg
      (set_trace (trace w ++ [EvNgRecvMsg (csock e)]) w).
Proof.
  intros Hl He Hid Hk Ht Hp Hs Hc Hm Hh. unfold PppoeCtrlReadEvent.
  rewrite (bind_Ok _ _ _ _ _ (getIf_Ok _ _ _ He)).
  rewrite bind_emit. rewrite Hc, Hm.
  erewrite bind_Ok; cycle 1.
  { apply (ctrl_find_link_routes host gPid_int _ p k l msg); auto. }
  reflexivity.
Qed.

End LinkMessages.

(** X6.  A FAIL or a CLOSE message that names the session hook of a
    link that is not DOWN, read on the control socket of the link's
    parent: the message is logged, the session hook is disconnected, the
    connect timer stopped, the link set to DOWN with its session data
    cleared ([incoming], [peeraddr], [real_session], the agent ids,
    [mp_reply]; [opened], the configuration and the parent stay), and
    the host is told [PhysDown], with [STR_CON_FAILED0] for FAIL and
    [STR_DROPPED] for CLOSE.  Nothing else changes. *)
Theorem fail_and_close_messages (host : Pppoe.Host) (w : Pppoe.World)
    (p k : nat) (e : Pppoe.PppoeIf) (l : Pppoe.Link) (msg : Pppoe.ctrl_msg) :
  0 <= Pppoe.gPid host < 2 ^ 31 ->
  Pppoe.gLinks w !! k = Some (Some l) ->
  Pppoe.PppoeIfs w !! p = Some e ->
  Pppoe.lnk_id l = Z.of_nat k -> Z.of_nat k < 2 ^ 31 ->
  Pppoe.lnk_type l = Pppoe.gPppoePhysType ->
  Pppoe.PIf (Pppoe.lnk_info l) = Some p ->
  Pppoe.lnk_state l <> Pppoe.PHYS_STATE_DOWN ->
  Pppoe.typecookie msg = Pppoe.NGM_PPPOE_COOKIE ->
  Pppoe.sts_hook msg = Pppoe.session_hook_of host l ->
  (Pppoe.cmd msg = Pppoe.NGM_PPPOE_FAIL ->
   Pppoe.PppoeCtrlReadEvent host p (Some msg) w
   = Pppoe.Ok tt
       (Pppoe.set_trace
          (Pppoe.trace w
           ++ [Pppoe.EvNgRecvMsg (Pppoe.csock e);
               Pppoe.EvLog Pppoe.LG_PHYS "PPPoE: connection failed";
               Pppoe.EvNgFuncDisconnect (Pppoe.csock e)
                 (Pppoe.addr_node (Pppoe.node_id e))
                 (Pppoe.session_hook_of host l);
               Pppoe.EvTimerStop k;
               Pppoe.EvPhysDown k Pppoe.STR_CON_FAILED0])
          (Pppoe.set_gLinks
             (<[k := Some (link_after_DoClose l)]> (Pppoe.gLinks w)) w)))
  /\ (Pppoe.cmd msg = Pppoe.NGM_PPPOE_CLOSE ->
      Pppoe.PppoeCtrlReadEvent host p (Some msg) w
      = Pppoe.Ok tt
          (Pppoe.set_trace
             (Pppoe.trace w
              ++ [Pppoe.EvNgRecvMsg (Pppoe.csock e);
                  Pppoe.EvLog Pppoe.LG_PHYS "PPPoE: connection closed";
                  Pppoe.EvNgFuncDisconnect (Pppoe.csock e)
                    (Pppoe.addr_node (Pppoe.node_id e))
                    (Pppoe.session_hook_of host l);
                  Pppoe.EvTimerStop k;
                  Pppoe.EvPhysDown k Pppoe.STR_DROPPED])
             (Pppoe.set_gLinks
                (<[k := Some (link_after_DoClose l)]> (Pppoe.gLinks w)) w))).
Proof.
  intros Hpid Hl He Hid Hk Ht Hp Hs Hc Hh.
  split; intros Hm;
    (rewrite (ctrl_link_message host Hpid w p k e l msg)
       by (try assumption; rewrite Hm; reflexivity));
    unfold Pppoe.ctrl_link_cmd; rewrite Hm;
    destruct w as [ls ifs hp ld tr]; world_norm;
    unfold Pppoe.Log, Pppoe.PhysDown; repeat run_step;
    (erewrite bind_Ok by
       (apply (PppoeDoClose_active host _ k p l e); world_norm; assumption));
    world_norm; cbv [Pppoe.emit Pppoe.modify]; world_norm;
    rewrite <- !app_assoc; reflexivity.
Qed.

Lemma fail_and_close_messages_witness :
  Pppoe.PppoeCtrlReadEvent Demo.host_ok 4095
    (Some {| Pppoe.typecookie := Pppoe.NGM_PPPOE_COOKIE;
             Pppoe.cmd := Pppoe.NGM_PPPOE_FAIL;
             Pppoe.sts_hook := "mpd4242-0"; Pppoe.maxp_data := 0 |})
    Demo.w_connecting
  = Pppoe.Ok tt
      (Pppoe.set_trace
         (Pppoe.trace Demo.w_connecting
          ++ [Pppoe.EvNgRecvMsg
                (Pppoe.csock (Demo.parent_of Demo.w_connecting 4095));
              Pppoe.EvLog Pppoe.LG_PHYS "PPPoE: connection failed";
              Pppoe.EvNgFuncDisconnect
                (Pppoe.csock (Demo.parent_of Demo.w_connecting 4095))
                (Pppoe.addr_node
                   (Pppoe.node_id (Demo.parent_of Demo.w_connecting 4095)))
                (Pppoe.session_hook_of Demo.host_ok
                   (Demo.link_of Demo.w_connecting 0));
              Pppoe.EvTimerStop 0;
              Pppoe.EvPhysDown 0 Pppoe.STR_CON_FAILED0])
         (Pppoe.set_gLinks
            (<[0%nat := Some (link_after_DoClose
                                (Demo.link_of Demo.w_connecting 0))]>
               (Pppoe.gLinks Demo.w_connecting)) Demo.w_connecting)).
Proof.
  apply (proj1 (fail_and_close_messages Demo.host_ok Demo.w_connecting
                  4095%nat 0%nat (Demo.parent_of Demo.w_connecting 4095)
                  (Demo.link_of Demo.w_connecting 0)
                  {| Pppoe.typecookie := Pppoe.NGM_PPPOE_COOKIE;
                     Pppoe.cmd := Pppoe.NGM_PPPOE_FAIL;
                     Pppoe.sts_hook := "mpd4242-0"; Pppoe.maxp_data := 0 |}
                  ltac:(vm_compute; split; [ discriminate | reflexivity ])
                  ltac:(vm_compute; reflexivity)
                  ltac:(vm_compute; reflexivity)
                  ltac:(vm_compute; reflexivity)
                  ltac:(vm_compute; reflexivity)
                  ltac:(vm_compute; reflexivity)
                  ltac:(vm_compute; reflexivity)
                  ltac:(vm_compute; discriminate)
                  ltac:(vm_compute; reflexivity)
                  ltac:(vm_compute; reflexivity))).
  reflexivity.
Defined.

(** X7.  A SETMAXP message (the server's PPP-Max-Payload reply) for a
    link that is not DOWN: [mp_reply] is set when the link asked for a
    payload size ([max_payload > 0]) and the server returned that very
    size; otherwise a second line is logged and the link is untouched.
    In no case does the state, [max_payload] or anything but [mp_reply]
    change. *)
Theorem setmaxp_message (host : Pppoe.Host) (w : Pppoe.World)
    (p k : nat) (e : Pppoe.PppoeIf) (l : Pppoe.Link) (msg : Pppoe.ctrl_msg) :
  0 <= Pppoe.gPid host < 2 ^ 31 ->
  Pppoe.gLinks w !! k = Some (Some l) ->
  Pppoe.PppoeIfs w !! p = Some e ->
  Pppoe.lnk_id l = Z.of_nat k -> Z.of_nat k < 2 ^ 31 ->
  Pppoe.lnk_type l = Pppoe.gPppoePhysType ->
  Pppoe.PIf (Pppoe.lnk_info l) = Some p ->
  Pppoe.lnk_state l <> Pppoe.PHYS_STATE_DOWN ->
  Pppoe.typecookie msg = Pppoe.NGM_PPPOE_COOKIE ->
  Pppoe.cmd msg = Pppoe.NGM_PPPOE_SETMAXP ->
  Pppoe.sts_hook msg = Pppoe.session_hook_of host l ->
  (0 < Pppoe.max_payload (Pppoe.lnk_info l) ->
   Pppoe.max_payload (Pppoe.lnk_info l) = Pppoe.maxp_data msg ->
   Pppoe.PppoeCtrlReadEvent host p (Some msg) w
   = Pppoe.Ok tt
       (Pppoe.set_trace
          (Pppoe.trace w
           ++ [Pppoe.EvNgRecvMsg (Pppoe.csock e);
               Pppoe.EvLog Pppoe.LG_PHYS "PPPoE: rec'd PPP-Max-Payload"])
          (Pppoe.set_gLinks
             (<[k := Some (Pppoe.set_info
                             (Pppoe.set_mp_reply true (Pppoe.lnk_info l)) l)]>
                (Pppoe.gLinks w)) w)))
  /\ (Pppoe.max_payload (Pppoe.lnk_info l) <= 0
      \/ Pppoe.max_payload (Pppoe.lnk_info l) <> Pppoe.maxp_data msg ->
      exists text : string,
        Pppoe.PppoeCtrlReadEvent host p (Some msg) w
        = Pppoe.Ok tt
            (Pppoe.set_trace
               (Pppoe.trace w
                ++ [Pppoe.EvNgRecvMsg (Pppoe.csock e);
                    Pppoe.EvLog Pppoe.LG_PHYS "PPPoE: rec'd PPP-Max-Payload";
                    Pppoe.EvLog Pppoe.LG_PHYS text]) w)).
Proof.
  intros Hpid Hl He Hid Hk Ht Hp Hs Hc Hm Hh.
  rewrite (ctrl_link_message host Hpid w p k e l msg)
    by (try assumption; rewrite Hm; reflexivity).
  unfold Pppoe.ctrl_link_cmd. rewrite Hm.
  destruct w as [ls ifs hp ld tr]. world_norm.
  unfold Pppoe.Log. repeat run_step. split.
  - intros Hpos Heq.
    rewrite (proj2 (Z.ltb_lt _ _) Hpos), (proj2 (Z.eqb_eq _ _) Heq).
    run_last. rewrite <- !app_assoc. reflexivity.
  - intros Hno.
    destruct (0 <? Pppoe.max_payload (Pppoe.lnk_info l)) eqn:E1.
    + destruct (Pppoe.max_payload (Pppoe.lnk_info l) =? Pppoe.maxp_data msg)
        eqn:E2.
      * apply Z.ltb_lt in E1. apply Z.eqb_eq in E2. lia.
      * eexists. cbv [Pppoe.emit Pppoe.modify]. world_norm.
        rewrite <- !app_assoc. reflexivity.
    + eexists. cbv [Pppoe.emit Pppoe.modify]. world_norm.
      rewrite <- !app_assoc. reflexivity.
Qed.

Lemma setmaxp_message_witness :
  exists text : string,
    Pppoe.PppoeCtrlReadEvent Demo.host_ok 4095
      (Some {| Pppoe.typecookie := Pppoe.NGM_PPPOE_COOKIE;
               Pppoe.cmd := Pppoe.NGM_PPPOE_SETMAXP;
               Pppoe.sts_hook := "mpd4242-0"; Pppoe.maxp_data := 1500 |})
      Demo.w_connecting
    = Pppoe.Ok tt
        (Pppoe.set_trace
           (Pppoe.trace Demo.w_connecting
            ++ [Pppoe.EvNgRecvMsg
                  (Pppoe.csock (Demo.parent_of Demo.w_connecting 4095));
                Pppoe.EvLog Pppoe.LG_PHYS "PPPoE: rec'd PPP-Max-Payload";
                Pppoe.EvLog Pppoe.LG_PHYS text]) Demo.w_connecting).
Proof.
  apply (proj2 (setmaxp_message Demo.host_ok Demo.w_connecting
                  4095%nat 0%nat (Demo.parent_of Demo.w_connecting 4095)
                  (Demo.link_of Demo.w_connecting 0)
                  {| Pppoe.typecookie := Pppoe.NGM_PPPOE_COOKIE;
                     Pppoe.cmd := Pppoe.NGM_PPPOE_SETMAXP;
                     Pppoe.sts_hook := "mpd4242-0"; Pppoe.maxp_data := 1500 |}
                  ltac:(vm_compute; split; [ discriminate | reflexivity ])
                  ltac:(vm_compute; reflexivity)
                  ltac:(vm_compute; reflexivity)
                  ltac:(vm_compute; reflexivity)
                  ltac:(vm_compute; reflexivity)
                  ltac:(vm_compute; reflexivity)
                  ltac:(vm_compute; reflexivity)
                  ltac:(vm_compute; discriminate)
                  ltac:(vm_compute; reflexivity)
                  ltac:(vm_compute; reflexivity)
                  ltac:(vm_compute; reflexivity))).
  left. vm_compute. discriminate.
Defined.

(** X8.  What [PppoeCtrlReadEvent] does with everything but the four
    per-link commands: when [NgRecvMsg] fails, when the message carries
    another cookie, or when its command is not SUCCESS, FAIL, CLOSE or
    SETMAXP, exactly one line is written ([Perror] in the first case, a
    log line otherwise) and links, parents and listeners stay as they
    are. *)
Theorem other_messages_only_log (host : Pppoe.Host) (w : Pppoe.World)
    (p : nat) (e : Pppoe.PppoeIf) (recv : option Pppoe.ctrl_msg) :
  Pppoe.PppoeIfs w !! p = Some e ->
  match recv with
  | None => True
  | Some msg =>
      Pppoe.typecookie msg <> Pppoe.NGM_PPPOE_COOKIE
      \/ Pppoe.is_link_cmd (Pppoe.cmd msg) = false
  end ->
  exists ev : Pppoe.event,
    Pppoe.PppoeCtrlReadEvent host p recv w
    = Pppoe.Ok tt
        (Pppoe.set_trace
           (Pppoe.trace w ++ [Pppoe.EvNgRecvMsg (Pppoe.csock e); ev]) w)
    /\ match ev with
       | Pppoe.EvLog _ _ => recv <> None
       | Pppoe.EvPerror _ => recv = None
       | _ => False
       end.
Proof.
  intros He Hk. unfold Pppoe.PppoeCtrlReadEvent.
  rewrite (bind_Ok _ _ _ _ _ (getIf_Ok _ _ _ He)). rewrite bind_emit.
  destruct w as [ls ifs hp ld tr]. world_norm.
  assert (Hone : forall ev : Pppoe.event,
             Pppoe.emit ev
               {| Pppoe.gLinks := ls; Pppoe.PppoeIfs := ifs; Pppoe.heap := hp;
                  Pppoe.gNgEtherLoaded := ld;
                  Pppoe.trace := tr ++ [Pppoe.EvNgRecvMsg (Pppoe.csock e)] |}
             = Pppoe.Ok tt
                 {| Pppoe.gLinks := ls; Pppoe.PppoeIfs := ifs; Pppoe.heap := hp;
                    Pppoe.gNgEtherLoaded := ld;
                    Pppoe.trace :=
                      tr ++ [Pppoe.EvNgRecvMsg (Pppoe.csock e); ev] |}).
  { intros ev. cbv [Pppoe.emit Pppoe.modify]. world_norm.
    rewrite <- app_assoc. reflexivity. }
  destruct recv as [msg | ].
  - destruct (Pppoe.typecookie msg) eqn:Ec.
    + eexists. split; [ apply Hone | discriminate ].
    + destruct Hk as [Hk | Hk]; [ congruence | ]. rewrite Hk.
      unfold Pppoe.ctrl_other_cmd, Pppoe.Log.
      destruct (Pppoe.cmd msg); try discriminate;
        (eexists; split; [ apply Hone | discriminate ]).
    + eexists. split; [ apply Hone | discriminate ].
  - eexists. split; [ apply Hone | reflexivity ].
Qed.

Lemma other_messages_only_log_witness :
  exists ev : Pppoe.event,
    Pppoe.PppoeCtrlReadEvent Demo.host_ok 4095
      (Some {| Pppoe.typecookie := Pppoe.NGM_PPPOE_COOKIE;
               Pppoe.cmd := Pppoe.NGM_PPPOE_ACNAME;
               Pppoe.sts_hook := "ac1"; Pppoe.maxp_data := 0 |})
      Demo.w_connecting
    = Pppoe.Ok tt
        (Pppoe.set_trace
           (Pppoe.trace Demo.w_connecting
            ++ [Pppoe.EvNgRecvMsg
                  (Pppoe.csock (Demo.parent_of Demo.w_connecting 4095)); ev])
           Demo.w_connecting)
    /\ match ev with
       | Pppoe.EvLog _ _ =>
           Some {| Pppoe.typecookie := Pppoe.NGM_PPPOE_COOKIE;
                   Pppoe.cmd := Pppoe.NGM_PPPOE_ACNAME;
                   Pppoe.sts_hook := "ac1"; Pppoe.maxp_data := 0 |} <> None
       | Pppoe.EvPerror _ =>
           Some {| Pppoe.typecookie := Pppoe.NGM_PPPOE_COOKIE;
                   Pppoe.cmd := Pppoe.NGM_PPPOE_ACNAME;
                   Pppoe.sts_hook := "ac1"; Pppoe.maxp_data := 0 |} = None
       | _ => False
       end.
Proof.
  apply (other_messages_only_log Demo.host_ok Demo.w_connecting 4095%nat
           (Demo.parent_of Demo.w_connecting 4095)
           (Some {| Pppoe.typecookie := Pppoe.NGM_PPPOE_COOKIE;
                    Pppoe.cmd := Pppoe.NGM_PPPOE_ACNAME;
                    Pppoe.sts_hook := "ac1"; Pppoe.maxp_data := 0 |})).
  - vm_compute. reflexivity.
  - right. reflexivity.
Defined.

Section Dropped.
Import Libc TagCodec Pppoe.
Variable host : Host.

Lemma gLinks_at_in_range (w : World) (k : nat) (ol : option Link) :
  gLinks w !! k = Some ol -> gLinks_at (Z.of_nat k) w = Ok ol w.
Proof.
  intros H. unfold gLinks_at. pose proof (lookup_lt_Some _ _ _ H) as Hlt.
  destruct (Z.of_nat k <? 0) eqn:E1; [ apply Z.ltb_lt in E1; lia | ].
  destruct (Z.of_nat (length (gLinks w)) <=? Z.of_nat k) eqn:E2;
    [ apply Z.leb_le in E2; lia | ].
  cbn [orb]. rewrite Nat2Z.id, H. reflexivity.
Qed.

Lemma option_nat_eqb_neq (a b : option nat) :
  a <> b -> option_nat_eqb a b = false.
Proof.
  destruct a as [x | ], b as [y | ]; cbn; intros H; try reflexivity;
    try congruence.
  apply Nat.eqb_neq. congruence.
Qed.

Lemma emit_after (w : World) (a b : event) :
  emit b (set_trace (trace w ++ [a]) w)
  = Ok tt (set_trace (trace w ++ [a; b]) w).
Proof.
  destruct w. cbv [emit modify]. cbn. rewrite <- app_assoc. reflexivity.
Qed.

End Dropped.

(** X9.  The messages that the demultiplexer of [PppoeCtrlReadEvent]
    drops.  After the prefix ["mpd%d-"] the hook is read by [strtol],
    which skips white space, takes an optional sign and then the digits,
    and leaves the rest: ["12x"] leaves ["x"], while ["+0"] and [" 0"]
    are read to their end and name link 0.  For a SUCCESS, FAIL, CLOSE
    or SETMAXP message nothing but the trace changes in these cases:

    - a hook that starts with ["listen-"] is dropped without a line;
    - a hook without the prefix ["mpd%d-"] is dropped with one line;
    - a hook of which [strtol] leaves a rest that is not empty, or whose
      number is the index of an empty slot of [gLinks], of a link of
      another type, or of a link with another parent, is dropped with
      one line (at level ERR for SUCCESS);
    - a hook that [strtol] reads to its end and whose number is the
      index of a link of this type and parent that is DOWN is dropped,
      with one line unless the message is CLOSE. *)
Theorem link_message_dropped (host : Pppoe.Host) (w : Pppoe.World)
    (p : nat) (e : Pppoe.PppoeIf) (msg : Pppoe.ctrl_msg) :
  Pppoe.PppoeIfs w !! p = Some e ->
  Pppoe.typecookie msg = Pppoe.NGM_PPPOE_COOKIE ->
  Pppoe.is_link_cmd (Pppoe.cmd msg) = true ->
  (Libc.strncmp_eq (Pppoe.sts_hook msg) "listen-" 7 = true ->
   Pppoe.PppoeCtrlReadEvent host p (Some msg) w
   = Pppoe.Ok tt
       (Pppoe.set_trace
          (Pppoe.trace w ++ [Pppoe.EvNgRecvMsg (Pppoe.csock e)]) w))
  /\ (Libc.strncmp_eq (Pppoe.sts_hook msg) "listen-" 7 = false ->
      Libc.strncmp_eq (Pppoe.sts_hook msg) (Pppoe.hook_prefix host)
        (Libc.strlen (Pppoe.hook_prefix host)) = false ->
      Pppoe.PppoeCtrlReadEvent host p (Some msg) w
      = Pppoe.Ok tt
          (Pppoe.set_trace
             (Pppoe.trace w
              ++ [Pppoe.EvNgRecvMsg (Pppoe.csock e);
                  Pppoe.EvLog Pppoe.LG_ERR "PPPoE: message from unknown hook"])
             w))
  /\ (forall (id : Z) (rest : string),
        Libc.strncmp_eq (Pppoe.sts_hook msg) "listen-" 7 = false ->
        Libc.strncmp_eq (Pppoe.sts_hook msg) (Pppoe.hook_prefix host)
          (Libc.strlen (Pppoe.hook_prefix host)) = true ->
        Libc.strtol
          (Libc.advance (Libc.strlen (Pppoe.hook_prefix host))
             (Pppoe.sts_hook msg)) = (id, rest) ->
        (rest <> EmptyString
         \/ exists k : nat,
              Libc.int_of_long id = Z.of_nat k
              /\ (Pppoe.gLinks w !! k = Some None
                  \/ exists l : Pppoe.Link,
                       Pppoe.gLinks w !! k = Some (Some l)
                       /\ (Pppoe.lnk_type l <> Pppoe.gPppoePhysType
                           \/ Pppoe.PIf (Pppoe.lnk_info l) <> Some p))) ->
        Pppoe.PppoeCtrlReadEvent host p (Some msg) w
        = Pppoe.Ok tt
            (Pppoe.set_trace
               (Pppoe.trace w
                ++ [Pppoe.EvNgRecvMsg (Pppoe.csock e);
                    Pppoe.EvLog
                      (if Pppoe.is_cmd_success (Pppoe.cmd msg)
                       then Pppoe.LG_ERR else Pppoe.LG_PHYS)
                      "PPPoE: message from unexisting link"]) w))
  /\ (forall (id : Z) (k : nat) (l : Pppoe.Link),
        Libc.strncmp_eq (Pppoe.sts_hook msg) "listen-" 7 = false ->
        Libc.strncmp_eq (Pppoe.sts_hook msg) (Pppoe.hook_prefix host)
          (Libc.strlen (Pppoe.hook_prefix host)) = true ->
        Libc.strtol
          (Libc.advance (Libc.strlen (Pppoe.hook_prefix host))
             (Pppoe.sts_hook msg)) = (id, EmptyString) ->
        Libc.int_of_long id = Z.of_nat k ->
        Pppoe.gLinks w !! k = Some (Some l) ->
        Pppoe.lnk_type l = Pppoe.gPppoePhysType ->
        Pppoe.PIf (Pppoe.lnk_info l) = Some p ->
        Pppoe.lnk_state l = Pppoe.PHYS_STATE_DOWN ->
        Pppoe.PppoeCtrlReadEvent host p (Some msg) w
        = Pppoe.Ok tt
            (Pppoe.set_trace
               (Pppoe.trace w
                ++ Pppoe.EvNgRecvMsg (Pppoe.csock e)
                   :: (if Pppoe.is_cmd_close (Pppoe.cmd msg) then []
                       else [Pppoe.EvLog Pppoe.LG_PHYS
                               "PPPoE: message in DOWN state"])) w)).
Proof.
  intros He Hc Hm.
  assert (Hstart :
            Pppoe.PppoeCtrlReadEvent host p (Some msg) w
            = Pppoe.bind (Pppoe.ctrl_find_link host p msg)
                (fun found => match found with
                              | None => Pppoe.ret tt
                              | Some k => Pppoe.ctrl_link_cmd host k msg
                              end)
                (Pppoe.set_trace
                   (Pppoe.trace w ++ [Pppoe.EvNgRecvMsg (Pppoe.csock e)]) w)).
  { unfold Pppoe.PppoeCtrlReadEvent.
    rewrite (bind_Ok _ _ _ _ _ (getIf_Ok _ _ _ He)). rewrite bind_emit.
    rewrite Hc, Hm. reflexivity. }
  rewrite Hstart. clear Hstart. unfold Pppoe.ctrl_find_link. cbv zeta.
  assert (Hun : forall lvl text,
             Pppoe.bind
               (Pppoe.bind (Pppoe.Log lvl text) (fun _ => Pppoe.ret None))
               (fun found : option nat =>
                  match found with
                  | None => Pppoe.ret tt
                  | Some k => Pppoe.ctrl_link_cmd host k msg
                  end)
               (Pppoe.set_trace
                  (Pppoe.trace w ++ [Pppoe.EvNgRecvMsg (Pppoe.csock e)]) w)
             = Pppoe.Ok tt
                 (Pppoe.set_trace
                    (Pppoe.trace w
                     ++ [Pppoe.EvNgRecvMsg (Pppoe.csock e);
                         Pppoe.EvLog lvl text]) w)).
  { intros lvl text. unfold Pppoe.Log.
    rewrite bind_bind.
    rewrite (bind_Ok _ _ _ _ _ (emit_after w _ _)). reflexivity. }
  split; [ | split; [ | split ] ].
  - intros H1. rewrite H1. reflexivity.
  - intros H1 H2. rewrite H1, H2. cbn [negb]. apply Hun.
  - intros id rest H1 H2 H3 Hcase. rewrite H1, H2, H3. cbn [negb fst snd].
    destruct Hcase as [Hrest | (k & Hk & Hcase)].
    + assert (E : Libc.streq rest EmptyString = false).
      { unfold Libc.streq. apply String.eqb_neq. exact Hrest. }
      rewrite E. cbn [negb]. apply Hun.
    + destruct (negb (Libc.streq rest EmptyString)); [ apply Hun | ].
      rewrite Hk. rewrite bind_bind.
      destruct Hcase as [Hnone | (l & Hl & Hcase)].
      * erewrite bind_Ok by (apply gLinks_at_in_range; exact Hnone).
        cbv beta iota. apply Hun.
      * erewrite bind_Ok by (apply gLinks_at_in_range; exact Hl).
        cbv beta iota.
        destruct (Pppoe.lnk_type l) eqn:Et; [ | apply Hun ].
        destruct Hcase as [Hty | Hpar]; [ congruence | ].
        rewrite (option_nat_eqb_neq (Some p) (Pppoe.PIf (Pppoe.lnk_info l)))
          by congruence.
        cbn [negb]. apply Hun.
  - intros id k l H1 H2 H3 Hk Hl Ht Hp Hs.
    rewrite H1, H2, H3. cbn [negb fst snd Libc.streq String.eqb].
    rewrite Hk. rewrite bind_bind.
    erewrite bind_Ok by (apply gLinks_at_in_range; exact Hl).
    cbv beta iota. rewrite Ht, Hp. cbn [Pppoe.option_nat_eqb]. rewrite Nat.eqb_refl.
    cbn [negb]. rewrite Hs. cbn [Pppoe.phys_state_eqb].
    destruct (Pppoe.is_cmd_close (Pppoe.cmd msg)); cbn [negb].
    + destruct w. reflexivity.
    + unfold Pppoe.Log. rewrite !bind_bind.
      rewrite (bind_Ok _ _ _ _ _ (emit_after w _ _)). reflexivity.
Qed.

Lemma link_message_dropped_witness :
  Pppoe.PppoeCtrlReadEvent Demo.host_ok 4095
    (Some (Demo.success_msg "mpd4242-1")) Demo.w_second
  = Pppoe.Ok tt
      (Pppoe.set_trace
         (Pppoe.trace Demo.w_second
          ++ [Pppoe.EvNgRecvMsg
                (Pppoe.csock (Demo.parent_of Demo.w_second 4095));
              Pppoe.EvLog
                (if Pppoe.is_cmd_success
                      (Pppoe.cmd (Demo.success_msg "mpd4242-1"))
                 then Pppoe.LG_ERR else Pppoe.LG_PHYS)
                "PPPoE: message from unexisting link"]) Demo.w_second).
Proof.
  apply (proj1 (proj2 (proj2
           (link_message_dropped Demo.host_ok Demo.w_second 4095%nat
              (Demo.parent_of Demo.w_second 4095)
              (Demo.success_msg "mpd4242-1")
              ltac:(vm_compute; reflexivity)
              ltac:(reflexivity) ltac:(reflexivity)))) 1 EmptyString).
  - vm_compute. reflexivity.
  - vm_compute. reflexivity.
  - vm_compute. reflexivity.
  - right. exists 1%nat. split; [ vm_compute; reflexivity | ].
    right. exists (Demo.link_of Demo.w_second 1).
    split; [ vm_compute; reflexivity | ].
    right. vm_compute. discriminate.
Defined.

(** X10.  [PppoeConnectTimeout].  On a link that is not DOWN and has
    its parent ([pi->PIf] points to an entry [e] of [PppoeIfs]): one line
    is logged, the session hook is disconnected on the parent's control
    socket, the timer is stopped, the link is DOWN with its session data
    cleared, and the host is told [PhysDown] with [STR_CON_FAILED0];
    [opened] stays as it was.  On a link that is DOWN nothing is sent
    and nothing changes, but the line is logged and the host is told
    [PhysDown] all the same.  On a link that is not DOWN and has no
    parent ([pi->PIf] is NULL) the call does not return: [PppoeDoClose]
    reads [pi->PIf->node_id]. *)
Theorem PppoeConnectTimeout_effect (host : Pppoe.Host) (w : Pppoe.World)
    (k : nat) (l : Pppoe.Link) :
  Pppoe.gLinks w !! k = Some (Some l) ->
  (Pppoe.lnk_state l <> Pppoe.PHYS_STATE_DOWN ->
   forall (p : nat) (e : Pppoe.PppoeIf),
     Pppoe.PIf (Pppoe.lnk_info l) = Some p ->
     Pppoe.PppoeIfs w !! p = Some e ->
     Pppoe.PppoeConnectTimeout host k w
     = Pppoe.Ok tt
         (Pppoe.set_trace
            (Pppoe.trace w
             ++ [Pppoe.EvLog Pppoe.LG_PHYS "PPPoE connection timeout";
                 Pppoe.EvNgFuncDisconnect (Pppoe.csock e)
                   (Pppoe.addr_node (Pppoe.node_id e))
                   (Pppoe.session_hook_of host l);
                 Pppoe.EvTimerStop k;
                 Pppoe.EvPhysDown k Pppoe.STR_CON_FAILED0])
            (Pppoe.set_gLinks
               (<[k := Some (link_after_DoClose l)]> (Pppoe.gLinks w)) w))
     /\ Pppoe.opened (Pppoe.lnk_info (link_after_DoClose l))
        = Pppoe.opened (Pppoe.lnk_info l)
     /\ Pppoe.lnk_state (link_after_DoClose l) = Pppoe.PHYS_STATE_DOWN)
  /\ (Pppoe.lnk_state l = Pppoe.PHYS_STATE_DOWN ->
      Pppoe.PppoeConnectTimeout host k w
      = Pppoe.Ok tt
          (Pppoe.set_trace
             (Pppoe.trace w
              ++ [Pppoe.EvLog Pppoe.LG_PHYS "PPPoE connection timeout";
                  Pppoe.EvPhysDown k Pppoe.STR_CON_FAILED0]) w))
  /\ (Pppoe.lnk_state l <> Pppoe.PHYS_STATE_DOWN ->
      Pppoe.PIf (Pppoe.lnk_info l) = None ->
      Pppoe.PppoeConnectTimeout host k w = Pppoe.Fault Pppoe.null_deref).
Proof.
  intros Hl. split; [ | split ].
  - intros Hs p e Hp He. split; [ | split; reflexivity ].
    destruct w as [ls ifs hp ld tr]. world_norm.
    unfold Pppoe.PppoeConnectTimeout, Pppoe.Log, Pppoe.PhysDown.
    repeat run_step.
    erewrite bind_Ok by
      (apply (PppoeDoClose_active host _ k p l e); world_norm; assumption).
    world_norm. cbv [Pppoe.emit Pppoe.modify]. world_norm.
    rewrite <- !app_assoc. reflexivity.
  - intros Hs. destruct w as [ls ifs hp ld tr]. world_norm.
    unfold Pppoe.PppoeConnectTimeout, Pppoe.Log, Pppoe.PhysDown.
    repeat run_step.
    erewrite bind_Ok by
      (apply (PppoeDoClose_down host _ k l); world_norm; assumption).
    cbv [Pppoe.emit Pppoe.modify]. world_norm.
    rewrite <- !app_assoc. reflexivity.
  - intros Hs Hp. unfold Pppoe.PppoeConnectTimeout, Pppoe.Log.
    rewrite bind_emit. apply bind_Fault.
    apply (PppoeDoClose_no_parent host _ k l); [ exact Hl | exact Hs | exact Hp ].
Qed.

Lemma PppoeConnectTimeout_effect_witness :
  Pppoe.PppoeConnectTimeout Demo.host_ok 0 Demo.w_created
  = Pppoe.Ok tt
      (Pppoe.set_trace
         (Pppoe.trace Demo.w_created
          ++ [Pppoe.EvLog Pppoe.LG_PHYS "PPPoE connection timeout";
              Pppoe.EvPhysDown 0 Pppoe.STR_CON_FAILED0]) Demo.w_created)
  /\ Pppoe.lnk_state (link_after_DoClose (Demo.link_of Demo.w_connecting 0))
     = Pppoe.PHYS_STATE_DOWN
  /\ Pppoe.PppoeConnectTimeout Demo.host_ok 0 Demo.w_orphan
     = Pppoe.Fault Pppoe.null_deref.
Proof.
  split; [ | split ].
  - apply (proj1 (proj2
             (PppoeConnectTimeout_effect Demo.host_ok Demo.w_created 0
                (Demo.link_of Demo.w_created 0)
                ltac:(vm_compute; reflexivity)))).
    vm_compute. reflexivity.
  - apply (proj2 (proj2
             (proj1 (PppoeConnectTimeout_effect Demo.host_ok
                       Demo.w_connecting 0
                       (Demo.link_of Demo.w_connecting 0)
                       ltac:(vm_compute; reflexivity))
                ltac:(vm_compute; discriminate)
                4095%nat (Demo.parent_of Demo.w_connecting 4095)
                ltac:(vm_compute; reflexivity)
                ltac:(vm_compute; reflexivity)))).
  - apply (proj2 (proj2
             (PppoeConnectTimeout_effect Demo.host_ok Demo.w_orphan 0
                (Demo.link_of Demo.w_orphan 0)
                ltac:(vm_compute; reflexivity)))).
    + vm_compute. discriminate.
    + vm_compute. reflexivity.
Defined.

(* ===================================================================== *)
(** * What every link satisfies                                           *)
(* ===================================================================== *)

Section LinkInvariant.
Import Libc TagCodec Pppoe.

(** The state of a link against its flags and its timer: the comment
    [Invariants] at the head of [pppoe.c], as far as it speaks of the
    timer, and what the code keeps about [incoming] and [opened]. *)
Definition st_ok (l : Link) : Prop :=
  (lnk_state l = PHYS_STATE_DOWN -> incoming (lnk_info l) = false)
  /\ (lnk_state l = PHYS_STATE_UP ->
      connectTimer (lnk_info l) = false /\ opened (lnk_info l) = true)
  /\ (lnk_state l = PHYS_STATE_CONNECTING ->
      connectTimer (lnk_info l) = true)
  /\ (lnk_state l = PHYS_STATE_READY ->
      connectTimer (lnk_info l) = true /\ incoming (lnk_info l) = true)
  /\ (incoming (lnk_info l) = false -> lnk_state l <> PHYS_STATE_DOWN ->
      opened (lnk_info l) = true).

(** The configuration and the session data fit their fields. *)
Definition cfg_ok (l : Link) : Prop :=
  0 <= mac_format (lnk_info l) <= 3
  /\ (max_payload (lnk_info l) = 0
      \/ PPPOE_MRU <= max_payload (lnk_info l) <= ETHER_MAX_LEN - 8)
  /\ (String.length (iface (lnk_info l)) < IFNAMSIZ)%nat
  /\ (String.length (path (lnk_info l)) < MAX_PATH)%nat
  /\ (String.length (hook (lnk_info l)) < NG_HOOKSIZ)%nat
  /\ (String.length (session (lnk_info l)) < 64)%nat
  /\ (String.length (acname (lnk_info l)) < PPPOE_SERVICE_NAME_SIZE)%nat
  /\ (String.length (real_session (lnk_info l)) < 64)%nat
  /\ (String.length (agent_cid (lnk_info l)) < 64)%nat
  /\ (String.length (agent_rid (lnk_info l)) < 64)%nat
  /\ length (peeraddr (lnk_info l)) = ETHER_ADDR_LEN.

(** A link that holds a listener ([pi->list]) has a parent
    ([pi->PIf]). *)
Definition ref_ok (l : Link) : Prop :=
  plist (lnk_info l) <> None -> PIf (lnk_info l) <> None.

Definition link_ok (l : Link) : Prop := st_ok l /\ cfg_ok l /\ ref_ok l.

Definition LinkInv (w : World) : Prop :=
  forall k l, gLinks w !! k = Some (Some l) -> link_ok l.

(** The same with link [k] taken out: of it only [Q] is known. *)
Definition SusQ (k : nat) (Q : Link -> Prop) (w : World) : Prop :=
  (forall k' l, k' <> k -> gLinks w !! k' = Some (Some l) -> link_ok l)
  /\ exists l, gLinks w !! k = Some (Some l) /\ Q l.

Lemma LinkInv_same (w w' : World) :
  gLinks w' = gLinks w -> LinkInv w -> LinkInv w'.
Proof. intros E H k l Hl. rewrite E in Hl. eauto. Qed.

Lemma LinkInv_insert (w : World) (k : nat) (ol : option Link) :
  LinkInv w -> (forall l, ol = Some l -> link_ok l) ->
  LinkInv (set_gLinks (<[k := ol]> (gLinks w)) w).
Proof.
  intros H Hl k' l' Hk'. cbn [gLinks set_gLinks] in Hk'.
  destruct (decide (k = k')) as [<- | Hne].
  - destruct (decide (k < length (gLinks w))%nat) as [Hlt | Hge].
    + rewrite list_lookup_insert_eq in Hk' by assumption.
      inversion Hk'. subst. auto.
    + rewrite list_insert_ge in Hk' by lia. eauto.
  - rewrite list_lookup_insert_ne in Hk' by assumption. eauto.
Qed.

Lemma LinkInv_place (w : World) (k : nat) (l : Link) :
  LinkInv w -> link_ok l ->
  LinkInv (set_gLinks (place_link k l (gLinks w)) w).
Proof.
  intros HI Hl. unfold place_link.
  destruct (Nat.ltb k (length (gLinks w))).
  - apply LinkInv_insert; [ assumption | ].
    intros l' E. inversion E. subst. assumption.
  - intros k' l' Hk'. cbn [gLinks set_gLinks] in Hk'.
    apply lookup_app_Some in Hk' as [Hk' | [_ Hk']]; [ eauto | ].
    destruct (k' - length (gLinks w))%nat; [ | discriminate ].
    inversion Hk'. subst. assumption.
Qed.

Lemma SusQ_same (k : nat) (Q : Link -> Prop) (w w' : World) :
  gLinks w' = gLinks w -> SusQ k Q w -> SusQ k Q w'.
Proof. intros E H. unfold SusQ. rewrite E. exact H. Qed.

Lemma SusQ_weaken (k : nat) (Q Q' : Link -> Prop) (w : World) :
  (forall l, Q l -> Q' l) -> SusQ k Q w -> SusQ k Q' w.
Proof. intros HQ [Ho (l & Hl & Hq)]. split; [ exact Ho | eauto ]. Qed.

Lemma SusQ_update (k : nat) (Q : Link -> Prop) (w : World) (l : Link)
    (f : Link -> Link) :
  gLinks w !! k = Some (Some l) -> SusQ k Q w ->
  SusQ k (fun l' => exists l0, Q l0 /\ l' = f l0)
    (set_gLinks (<[k := Some (f l)]> (gLinks w)) w).
Proof.
  intros Hl [Ho (l0 & Hl0 & Hq)]. rewrite Hl in Hl0. inversion Hl0. subst l0.
  split.
  - intros k' l' Hne Hk'. cbn [gLinks set_gLinks] in Hk'.
    rewrite list_lookup_insert_ne in Hk' by congruence. eauto.
  - exists (f l). split; [ | eauto ].
    cbn [gLinks set_gLinks]. eapply lookup_updated. eassumption.
Qed.

Lemma SusQ_LinkInv (k : nat) (Q : Link -> Prop) (w : World) :
  (forall l, Q l -> link_ok l) -> SusQ k Q w -> LinkInv w.
Proof.
  intros HQ [Ho (l & Hl & Hq)] k' l' Hk'.
  destruct (decide (k' = k)) as [-> | Hne]; [ | eauto ].
  rewrite Hl in Hk'. inversion Hk'. subst. auto.
Qed.

Lemma LinkInv_SusQ (k : nat) (w : World) (l : Link) :
  gLinks w !! k = Some (Some l) -> LinkInv w ->
  SusQ k (fun l' => l' = l /\ link_ok l') w.
Proof.
  intros Hl HI. split; [ intros; eauto | ].
  exists l. split; [ assumption | split; [ reflexivity | eauto ] ].
Qed.

Lemma SusQ_put (k : nat) (Q : Link -> Prop) (w : World) (l l' : Link) :
  gLinks w !! k = Some (Some l) -> SusQ k Q w -> (Q l -> Q l') ->
  SusQ k Q (set_gLinks (<[k := Some l']> (gLinks w)) w).
Proof.
  intros Hl H HQ.
  eapply SusQ_weaken;
    [ | apply (SusQ_update k Q w l (fun _ => l') Hl H) ].
  intros l1 (l0 & H0 & ->). apply HQ.
  destruct H as [_ (l2 & Hl2 & H2)]. rewrite Hl in Hl2.
  inversion Hl2. subst. assumption.
Qed.

(** ** Rules *)

Lemma sus_emit k Q (e : event) : preserves (SusQ k Q) (emit e).
Proof.
  apply pres_emit. intros w H. eapply SusQ_same; [ reflexivity | exact H ].
Qed.

Lemma sus_modLink k Q (f : Link -> Link) :
  hoare (SusQ k Q) (modLink k f)
    (fun _ => SusQ k (fun l' => exists l0, Q l0 /\ l' = f l0)).
Proof.
  intros w a w' H Hc. apply modLink_inv in Hc as (l & Hl & ->).
  apply SusQ_update; assumption.
Qed.

Lemma sus_modInfo k Q (g : pppoeinfo -> pppoeinfo) :
  hoare (SusQ k Q) (modInfo k g)
    (fun _ => SusQ k (fun l' => exists l0,
                        Q l0 /\ l' = set_info (g (lnk_info l0)) l0)).
Proof. apply (sus_modLink k Q (fun l => set_info (g (lnk_info l)) l)). Qed.

Lemma sus_getLink k Q :
  hoare (SusQ k Q) (getLink k)
    (fun l => SusQ k (fun l' => l' = l /\ Q l')).
Proof.
  intros w l w' [Ho (l0 & Hl0 & Hq)] Hc.
  apply getLink_inv in Hc as [-> Hl]. rewrite Hl in Hl0.
  inversion Hl0. subst l0. split; [ exact Ho | eauto ].
Qed.

Lemma sus_getInfo k Q :
  hoare (SusQ k Q) (getInfo k)
    (fun pi => SusQ k (fun l' => lnk_info l' = pi /\ Q l')).
Proof.
  intros w pi w' H Hc. unfold getInfo in Hc.
  apply bind_inv in Hc as (l & w1 & H1 & Hc). prim_inv Hc.
  apply (sus_getLink k Q w l w1 H) in H1.
  eapply SusQ_weaken; [ | exact H1 ].
  intros l' [-> Hq]. auto.
Qed.

Lemma inv_getLink k :
  hoare LinkInv (getLink k)
    (fun l => SusQ k (fun l' => l' = l /\ link_ok l')).
Proof.
  intros w l w' HI Hc. apply getLink_inv in Hc as [-> Hl].
  apply LinkInv_SusQ; assumption.
Qed.

Lemma inv_modLink k (f : Link -> Link) :
  hoare LinkInv (modLink k f)
    (fun _ => SusQ k (fun l' => exists l0, link_ok l0 /\ l' = f l0)).
Proof.
  intros w a w' HI Hc. pose proof Hc as Hc'.
  apply modLink_inv in Hc' as (l & Hl & _).
  apply (sus_modLink k link_ok f w a w'); [ | exact Hc ].
  eapply SusQ_weaken; [ | apply (LinkInv_SusQ k w l Hl HI) ].
  intros l' [_ H]. exact H.
Qed.

Lemma hoare_ext {A} (P : World -> Prop) (Q : A -> World -> Prop)
    (c c' : M A) :
  (forall w, c w = c' w) -> hoare P c' Q -> hoare P c Q.
Proof. intros E H w a w' HP Hc. rewrite E in Hc. eauto. Qed.

Lemma hoare_post {A} (P : World -> Prop) (Q Q' : A -> World -> Prop)
    (c : M A) :
  hoare P c Q -> (forall a w, Q a w -> Q' a w) -> hoare P c Q'.
Proof. intros H HQ w a w' HP Hc. eauto. Qed.

Lemma hoare_pre {A} (P P' : World -> Prop) (Q : A -> World -> Prop)
    (c : M A) :
  (forall w, P' w -> P w) -> hoare P c Q -> hoare P' c Q.
Proof. intros HP H w a w' HP' Hc. eauto. Qed.

Lemma hoare_pres_post {A} (I R : World -> Prop) (c : M A) :
  preserves I c -> (forall (a : A) w, I w -> R w) ->
  hoare I c (fun _ => R).
Proof. intros Hc HR w a w' HI H. apply (HR a). eapply Hc; eauto. Qed.

(** ** Lengths *)

Lemma strlcpy_length (s : string) (n : nat) :
  (0 < n)%nat -> (String.length (strlcpy s n) < n)%nat.
Proof.
  intros Hn. unfold strlcpy. pose proof (truncate_length (n - 1) s). lia.
Qed.

Lemma iface_path_length (n : nat) (s : string) :
  (String.length s < n)%nat ->
  String.length (iface_path n s) = S (String.length s).
Proof.
  revert s. induction n as [ | n IH ]; intros s H; [ lia | ].
  destruct s as [ | c s ]; [ reflexivity | ].
  cbn [iface_path String.length]. rewrite IH; [ reflexivity | ].
  cbn [String.length] in H. lia.
Qed.

Lemma iface_path_fits (s : string) :
  (String.length (iface_path (MAX_PATH - 1) (strlcpy s (MAX_PATH - 1)))
   < MAX_PATH)%nat.
Proof.
  pose proof (strlcpy_length s (MAX_PATH - 1) ltac:(cbn; lia)) as H.
  rewrite iface_path_length by exact H. unfold MAX_PATH in *. cbn in *. lia.
Qed.

Lemma load_bytes_length (m : mem) (a : Z) (n : nat) :
  length (fst (load_bytes m a n)) = n.
Proof. unfold load_bytes. cbn [fst]. rewrite length_map, length_seq. reflexivity. Qed.

End LinkInvariant.

(** Opens the records of the links in sight and the definition of the
    invariant, and leaves arithmetic, lengths and flags to be decided. *)
Ltac ok_fields :=
  cbn [Pppoe.lnk_id Pppoe.lnk_name Pppoe.lnk_tmpl Pppoe.lnk_stay
       Pppoe.lnk_state Pppoe.lnk_type Pppoe.acfcomp_enable
       Pppoe.acfcomp_accept Pppoe.incoming_enable Pppoe.lnk_info
       Pppoe.set_state Pppoe.set_info Pppoe.set_acfcomp
       Pppoe.set_incoming_enable
       Pppoe.iface Pppoe.path Pppoe.hook Pppoe.session Pppoe.acname
       Pppoe.max_payload Pppoe.mac_format Pppoe.peeraddr
       Pppoe.real_session Pppoe.agent_cid Pppoe.agent_rid Pppoe.incoming
       Pppoe.opened Pppoe.mp_reply Pppoe.PIf Pppoe.plist
       Pppoe.connectTimer
       Pppoe.set_iface Pppoe.set_path Pppoe.set_hook Pppoe.set_session
       Pppoe.set_acname Pppoe.set_max_payload Pppoe.set_mac_format
       Pppoe.set_peeraddr Pppoe.set_real_session Pppoe.set_agent_cid
       Pppoe.set_agent_rid Pppoe.set_incoming Pppoe.set_opened
       Pppoe.set_mp_reply Pppoe.set_PIf Pppoe.set_plist
       Pppoe.set_connectTimer] in *.

Ltac ok_len :=
  first
    [ assumption
    | apply iface_path_fits
    | apply load_bytes_length
    | apply strlcpy_length; unfold Pppoe.IFNAMSIZ, Pppoe.MAX_PATH,
        Pppoe.NG_HOOKSIZ, Pppoe.PPPOE_SERVICE_NAME_SIZE, TagCodec.MAX_SESSION,
        TagCodec.sizeof_agent_id; cbn; lia
    | unfold Pppoe.MAC_UNFORMATTED, Pppoe.MAC_UNIX_LIKE, Pppoe.MAC_CISCO_LIKE,
        Pppoe.MAC_IETF; lia
    | cbn; lia ].

Ltac ok_link :=
  unfold link_ok, st_ok, cfg_ok, ref_ok in *; ok_fields;
  repeat match goal with
         | H : _ /\ _ |- _ => destruct H
         | H : exists _, _ |- _ => destruct H
         end;
  subst; ok_fields;
  repeat match goal with
         | |- _ /\ _ => split
         end;
  try solve [ intros; first [ congruence | tauto | ok_len ]
            | intros; repeat split; first [ congruence | tauto | ok_len ]
            | intros;
              match goal with
              | |- ?b = true => destruct b eqn:?; [ reflexivity | exfalso ]
              end;
              first [ congruence | tauto | intuition congruence ] ].

Ltac ok_side :=
  intros;
  first
    [ eapply LinkInv_same; [ reflexivity | assumption ]
    | eapply LinkInv_insert;
      [ assumption
      | let l' := fresh "l'" in let E := fresh "E" in
        intros l' E; inversion E; subst l'; clear E;
        match goal with
        | HI : LinkInv ?w, Hl : Pppoe.gLinks ?w !! _ = Some (Some ?l) |- _ =>
            pose proof (HI _ _ Hl)
        end;
        ok_link ] ].

Section LinkPreserved.
Import Libc TagCodec Pppoe.
Variable host : Host.

Lemma Li_CreatePppoeNode p ifn pth hk :
  preserves LinkInv (CreatePppoeNode host p ifn pth hk).
Proof.
  unfold CreatePppoeNode, probe_ether. pres_walk ok_side fail.
Qed.

Lemma Li_PppoeGetNode k : preserves LinkInv (PppoeGetNode host k).
Proof.
  unfold PppoeGetNode.
  pres_walk ok_side ltac:(apply Li_CreatePppoeNode).
Qed.

Lemma Li_slist_find ls s : preserves LinkInv (slist_find ls s).
Proof.
  induction ls as [ | a ls IH ]; simpl;
    pres_walk ok_side ltac:(exact IH).
Qed.

End LinkPreserved.

Ltac sus_side :=
  intros; eapply SusQ_same; [ reflexivity | assumption ].

Ltac sus_close :=
  let H := fresh "H" in
  intros ? ? H; eapply SusQ_LinkInv; [ | exact H ];
  clear H; intros ? H; cbv beta in H; try solve [ ok_link ].

Ltac sus_keep :=
  let H := fresh "H" in
  intros ? ? H; eapply SusQ_weaken; [ | exact H ];
  clear H; intros ? H; cbv beta in H;
  try solve [ split; ok_link ].

(** Follows a run of stores to one link, with calls that leave the links
    alone in between, and asks at its end for the invariant of the link
    that results. *)
Ltac sus_chain :=
  repeat
    (cbv zeta;
     lazymatch goal with
     | |- hoare _ (Pppoe.bind (Pppoe.bind _ _) _) _ =>
         eapply hoare_ext; [ intros ?; rewrite bind_bind; reflexivity | ]
     | |- hoare _ (Pppoe.bind (Pppoe.TimerStop _) _) _ => unfold Pppoe.TimerStop
     | |- hoare _ (Pppoe.bind (Pppoe.TimerInit _) _) _ => unfold Pppoe.TimerInit
     | |- hoare _ (Pppoe.bind (Pppoe.TimerStart _) _) _ =>
         unfold Pppoe.TimerStart
     | |- hoare _ (Pppoe.TimerStop _) _ => unfold Pppoe.TimerStop
     | |- hoare _ (Pppoe.TimerStart _) _ => unfold Pppoe.TimerStart
     | |- hoare _ (Pppoe.PhysUp _) _ => unfold Pppoe.PhysUp
     | |- hoare _ (Pppoe.PhysIncoming _) _ => unfold Pppoe.PhysIncoming
     | |- hoare _ (Pppoe.PhysDown _ _) _ => unfold Pppoe.PhysDown
     | |- hoare (SusQ ?k _) (Pppoe.bind (Pppoe.modLink ?k _) _) _ =>
         eapply hoare_bind; [ apply sus_modLink | intros ?; cbv beta ]
     | |- hoare (SusQ ?k _) (Pppoe.bind (Pppoe.modInfo ?k _) _) _ =>
         eapply hoare_bind; [ apply sus_modInfo | intros ?; cbv beta ]
     | |- hoare LinkInv (Pppoe.bind (Pppoe.modLink _ _) _) _ =>
         eapply hoare_bind; [ apply inv_modLink | intros ?; cbv beta ]
     | |- hoare LinkInv (Pppoe.bind (Pppoe.modInfo _ _) _) _ =>
         eapply hoare_bind; [ apply inv_modLink | intros ?; cbv beta ]
     | |- hoare LinkInv (Pppoe.bind _ _) _ =>
         eapply hoare_bind_pres;
         [ solve [ pres_walk ok_side fail ] | intros ?; cbv beta ]
     | |- hoare (SusQ _ _) (Pppoe.bind _ _) _ =>
         eapply hoare_bind_pres;
         [ solve [ pres_walk sus_side fail ] | intros ?; cbv beta ]
     | |- hoare (SusQ ?k _) (Pppoe.modLink ?k _) _ =>
         eapply hoare_post; [ apply sus_modLink | first [ sus_close | sus_keep ] ]
     | |- hoare (SusQ ?k _) (Pppoe.modInfo ?k _) _ =>
         eapply hoare_post; [ apply sus_modInfo | first [ sus_close | sus_keep ] ]
     | |- hoare (SusQ _ _) (Pppoe.emit _) _ =>
         apply hoare_pres_post; [ apply sus_emit | first [ sus_close | sus_keep ] ]
     | |- hoare (SusQ _ _) (Pppoe.ret _) _ =>
         apply hoare_pres_post; [ apply pres_ret | first [ sus_close | sus_keep ] ]
     end).

Section LinkPreserved2.
Import Libc TagCodec Pppoe.
Variable host : Host.

(** [PppoeDoClose], also for a link whose flags are in between. *)
Lemma Li_DoClose_sus k (Q : Link -> Prop) :
  (forall l, Q l -> cfg_ok l /\ ref_ok l
                    /\ (lnk_state l = PHYS_STATE_DOWN -> link_ok l)) ->
  hoare (SusQ k Q) (PppoeDoClose host k) (fun _ => LinkInv).
Proof.
  intros HQ. unfold PppoeDoClose.
  eapply hoare_bind; [ apply sus_getLink | intros l ].
  destruct (phys_state_eqb (lnk_state l) PHYS_STATE_DOWN) eqn:E.
  - apply phys_state_eqb_eq in E.
    apply hoare_pres_post; [ apply pres_ret | ].
    intros a w H. eapply SusQ_LinkInv; [ | exact H ].
    intros l' [-> Hq]. apply HQ; assumption.
  - unfold NgFuncDisconnect. sus_chain.
    repeat match goal with
           | H : exists _, _ |- _ => destruct H as (? & H & ?)
           end.
    match goal with H : _ /\ Q _ |- _ => destruct H as [-> Hq] end.
    apply HQ in Hq as (Hc & Hr & _). subst. ok_link.
Qed.

(** *** Listeners and parents *)

Lemma inv_getInfo k :
  hoare LinkInv (getInfo k)
    (fun pi => SusQ k (fun l' => lnk_info l' = pi /\ link_ok l')).
Proof.
  intros w pi w' HI Hc. unfold getInfo in Hc.
  apply bind_inv in Hc as (l & w1 & H1 & Hc). prim_inv Hc.
  apply (inv_getLink k w l w1 HI) in H1.
  eapply SusQ_weaken; [ | exact H1 ].
  intros l' [-> Hq]. auto.
Qed.

Lemma Sus_slist_find k Q ls s : preserves (SusQ k Q) (slist_find ls s).
Proof.
  induction ls as [ | a ls IH ]; simpl;
    pres_walk sus_side ltac:(exact IH).
Qed.

(** [PppoeListen] takes a listener only for a link that has a
    parent. *)
Lemma Li_PppoeListen k : preserves LinkInv (PppoeListen host k).
Proof.
  apply hoare_pres. unfold PppoeListen.
  eapply hoare_bind; [ apply inv_getInfo | intros pi; cbv beta ].
  destruct (plist pi) eqn:El;
    [ apply hoare_pres_post; [ apply pres_ret | sus_close ] | ].
  destruct (PIf pi) as [p | ] eqn:Ep;
    [ | apply hoare_pres_post; [ apply pres_ret | sus_close ] ].
  eapply hoare_pre
    with (P := SusQ k (fun l => link_ok l
                                /\ PIf (lnk_info l) = Some p)).
  { intros w H. eapply SusQ_weaken; [ | exact H ].
    intros l [<- Hok]. auto. }
  apply hoare_pres_post.
  - pres_walk
      ltac:(intros;
            first
              [ eapply SusQ_same; [ reflexivity | assumption ]
              | eapply SusQ_put;
                [ eassumption | assumption
                | let H := fresh "H" in
                  intros H; destruct H; split;
                  [ ok_link | ok_fields; assumption ] ] ])
      ltac:(apply Sus_slist_find).
  - intros _ w H. eapply SusQ_LinkInv; [ | exact H ].
    intros l [Hl _]. exact Hl.
Qed.

(** After [PppoeUnListen] the link holds no listener. *)
Lemma Li_UnListen_post k :
  hoare LinkInv (PppoeUnListen host k)
    (fun _ => SusQ k (fun l => link_ok l /\ plist (lnk_info l) = None)).
Proof.
  unfold PppoeUnListen.
  eapply hoare_bind; [ apply inv_getInfo | intros pi; cbv beta ].
  destruct (plist pi) eqn:El.
  - sus_chain.
  - apply hoare_pres_post; [ apply pres_ret | ].
    intros _ w H. eapply SusQ_weaken; [ | exact H ].
    intros l [<- Hok]. auto.
Qed.

Lemma Li_PppoeUnListen k : preserves LinkInv (PppoeUnListen host k).
Proof.
  apply hoare_pres. eapply hoare_post; [ apply Li_UnListen_post | ].
  intros ? w H. cbv beta in H. eapply SusQ_LinkInv; [ | exact H ].
  intros l [Hl _]. exact Hl.
Qed.

(** [PppoeReleaseNode] is called for a link without listener. *)
Lemma Li_Release_sus k :
  hoare (SusQ k (fun l => link_ok l /\ plist (lnk_info l) = None))
    (PppoeReleaseNode k) (fun _ => LinkInv).
Proof.
  unfold PppoeReleaseNode.
  eapply hoare_bind_pres; [ pres_walk sus_side fail | intros pi ].
  destruct (PIf pi).
  - sus_chain.
  - apply hoare_pres_post; [ apply pres_ret | ].
    intros _ w H. eapply SusQ_LinkInv; [ | exact H ].
    intros l [Hl _]. exact Hl.
Qed.

Lemma Li_UnListen_Release k :
  preserves LinkInv (PppoeUnListen host k ;; PppoeReleaseNode k).
Proof.
  apply hoare_pres.
  eapply hoare_bind; [ apply Li_UnListen_post | intros ?; cbv beta ].
  apply Li_Release_sus.
Qed.

End LinkPreserved2.

Section LinkPreserved3.
Import Libc TagCodec Pppoe.
Variable host : Host.

Lemma Li_PppoeDoClose k : preserves LinkInv (PppoeDoClose host k).
Proof.
  intros w a w' HI H. pose proof H as H'. unfold PppoeDoClose in H'.
  apply bind_inv in H' as (l & w1 & H1 & _).
  apply getLink_inv in H1 as [_ Hl].
  apply (Li_DoClose_sus host k link_ok) with (w := w) (a := a);
    [ | | exact H ].
  - intros l0 H0. split; [ apply H0 | ]. split; [ apply H0 | auto ].
  - eapply SusQ_weaken; [ | apply (LinkInv_SusQ k w l Hl HI) ].
    intros l' [_ Hq]. exact Hq.
Qed.

Lemma Li_PppoeConnectTimeout k :
  preserves LinkInv (PppoeConnectTimeout host k).
Proof.
  unfold PppoeConnectTimeout.
  pres_walk ok_side ltac:(apply Li_PppoeDoClose).
Qed.

(** The timer has fired: it does not run any more, whatever the
    state, until [PppoeDoClose] has set the link DOWN. *)
Lemma Li_timer_fire k : preserves LinkInv (timer_fire host k).
Proof.
  apply hoare_pres. unfold timer_fire, PppoeConnectTimeout, Log.
  eapply hoare_bind; [ apply inv_modLink | intros ?; cbv beta ].
  eapply hoare_bind_pres; [ apply sus_emit | intros ?; cbv beta ].
  eapply hoare_bind;
    [ apply Li_DoClose_sus | intros ?; cbv beta; apply hoare_pres;
                             pres_walk ok_side fail ].
  intros l (l0 & H0 & ->).
  split; [ ok_link | ]. split; [ ok_link | intros Hs; ok_link ].
Qed.

Lemma Li_PppoeClose k : preserves LinkInv (PppoeClose host k).
Proof.
  apply hoare_pres. unfold PppoeClose.
  eapply hoare_bind; [ apply inv_modLink | intros ?; cbv beta ].
  eapply hoare_bind; [ apply sus_getLink | intros l; cbv beta ].
  destruct (phys_state_eqb (lnk_state l) PHYS_STATE_DOWN) eqn:E.
  - apply phys_state_eqb_eq in E.
    apply hoare_pres_post; [ apply pres_ret | ].
    intros ? ? H. eapply SusQ_LinkInv; [ | exact H ].
    intros l' [-> (l0 & H0 & ->)]. ok_link.
  - eapply hoare_bind;
      [ apply Li_DoClose_sus | intros ?; cbv beta; apply hoare_pres;
                               pres_walk ok_side fail ].
    intros l' [-> (l0 & H0 & ->)].
    split; [ ok_link | ]. split; [ ok_link | intros Hs; ok_link ].
Qed.

Lemma Li_PppoeShutdown k : preserves LinkInv (PppoeShutdown host k).
Proof.
  unfold PppoeShutdown.
  apply pres_bind; [ apply Li_PppoeDoClose | intros _ ].
  eapply preserves_ext;
    [ intros w; rewrite <- bind_bind; reflexivity | ].
  apply pres_bind; [ apply Li_UnListen_Release | intros _ ].
  pres_walk ok_side fail.
Qed.

Lemma Li_LinkShutdown k : preserves LinkInv (LinkShutdown host k).
Proof.
  unfold LinkShutdown.
  apply pres_bind; [ pres_walk ok_side fail | intros _ ].
  apply pres_bind; [ apply Li_PppoeShutdown | intros _ ].
  apply pres_modify. intros w HI.
  apply LinkInv_insert; [ assumption | intros l E; discriminate ].
Qed.

Lemma Li_PppoeNodeUpdate k : preserves LinkInv (PppoeNodeUpdate host k).
Proof.
  unfold PppoeNodeUpdate.
  apply pres_bind; [ apply pres_getLink | intros l ].
  destruct (plist (lnk_info l)).
  - destruct (negb (incoming_enable l)); [ | apply pres_ret ].
    destruct (phys_state_eqb (lnk_state l) PHYS_STATE_DOWN).
    + apply Li_UnListen_Release.
    + apply pres_bind; [ apply Li_PppoeUnListen | intros _ ].
      apply pres_ret.
  - pres_walk ok_side
      ltac:(first [ apply Li_PppoeGetNode | apply Li_PppoeListen ]).
Qed.

Lemma Li_relisten k b : preserves LinkInv (relisten host k b).
Proof.
  unfold relisten.
  apply pres_bind; [ apply pres_getInfo | intros pi ].
  destruct (plist pi); [ | apply pres_ret ].
  destruct b.
  - apply hoare_pres.
    eapply hoare_bind; [ apply Li_UnListen_post | intros ?; cbv beta ].
    eapply hoare_ext; [ intros w; rewrite bind_bind; reflexivity | ].
    eapply hoare_bind; [ apply Li_Release_sus | intros ?; cbv beta ].
    apply hoare_pres.
    pres_walk ok_side
      ltac:(first [ apply Li_PppoeGetNode | apply Li_PppoeListen ]).
  - pres_walk ok_side
      ltac:(first [ apply Li_PppoeUnListen | apply Li_PppoeListen ]).
Qed.

Lemma Li_PppoeSetCommand k av arg :
  preserves LinkInv (PppoeSetCommand host k av arg).
Proof.
  unfold PppoeSetCommand. destruct arg;
    try solve [ pres_walk ok_side ltac:(apply Li_relisten) ].
  destruct av as [ | a0 [ | a1 av ] ]; try apply pres_ret.
  cbv zeta.
  destruct ((atoi a0 <? PPPOE_MRU) || (ETHER_MAX_LEN - 8 <? atoi a0)) eqn:E;
    [ pres_walk ok_side fail | ].
  apply orb_false_iff in E as [E1 E2].
  apply Z.ltb_ge in E1, E2.
  apply pres_bind; [ | intros; apply pres_ret ].
  apply pres_modInfo. intros w l HI Hl.
  apply LinkInv_insert; [ assumption | ].
  intros l' E. inversion E. subst l'. clear E.
  pose proof (HI _ _ Hl).
  assert (Hu : uint16_of_int (atoi a0) = atoi a0).
  { unfold uint16_of_int. apply Z.mod_small.
    unfold PPPOE_MRU, ETHER_MAX_LEN in *. lia. }
  unfold link_ok, st_ok, cfg_ok, ref_ok in *. ok_fields. rewrite Hu. tauto.
Qed.

End LinkPreserved3.

(** The invariant with one more fact about the link in slot [k]: it is
    meant to be open. *)
Definition OpInv (k : nat) : Pppoe.World -> Prop :=
  SusQ k (fun l => link_ok l /\ Pppoe.opened (Pppoe.lnk_info l) = true).

Ltac op_side :=
  intros; unfold OpInv in *;
  first
    [ eapply SusQ_same; [ reflexivity | assumption ]
    | eapply SusQ_put;
      [ eassumption | assumption
      | let H := fresh "H" in
        intros H; destruct H; split; [ ok_link | ok_fields; assumption ] ] ].

Section LinkPreserved4.
Import Libc TagCodec Pppoe.
Variable host : Host.

Lemma link_ok_fresh (l : Link) (pe : pppoeinfo) :
  lnk_state l = PHYS_STATE_DOWN ->
  incoming pe = false -> connectTimer pe = false -> plist pe = None ->
  cfg_ok (set_info pe l) ->
  link_ok (set_info pe l).
Proof.
  intros Hs Hi Ht Hp Hc. split; [ | split; [ exact Hc | ] ];
    [ | unfold ref_ok; ok_fields; congruence ].
  unfold st_ok. ok_fields. rewrite Hs, Hi.
  repeat split; intros; congruence.
Qed.

(** [PppoeInit] is given the link that [LinkCreate] has just made,
    which is DOWN. *)
Lemma Li_PppoeInit k :
  hoare (fun w => LinkInv w
                  /\ exists l, gLinks w !! k = Some (Some l)
                               /\ lnk_state l = PHYS_STATE_DOWN)
        (PppoeInit k) (fun _ => LinkInv).
Proof.
  intros w a w' (HI & l & Hl & Hs) H. unfold PppoeInit in H.
  cbv zeta in H.
  apply bind_inv in H as (u & w1 & H1 & H). prim_inv H.
  apply modLink_inv in H1 as (l1 & Hl1 & ->).
  rewrite Hl in Hl1. inversion Hl1. subst l1. clear Hl1.
  apply LinkInv_insert; [ assumption | ].
  intros l' E. inversion E. subst l'. clear E.
  apply (link_ok_fresh l);
    [ exact Hs | reflexivity | reflexivity | reflexivity | ].
  unfold cfg_ok. ok_fields.
  repeat split;
    first [ left; reflexivity | cbn; lia | vm_compute; reflexivity
          | vm_compute; discriminate
          | apply Nat.ltb_lt; vm_compute; reflexivity ].
Qed.

Lemma Li_LinkCreate l0 : preserves LinkInv (LinkCreate l0).
Proof.
  intros w a w' HI H. unfold LinkCreate in H.
  apply bind_inv in H as (w0 & w1 & H1 & H). prim_inv H1.
  cbv zeta in H.
  apply bind_inv in H as (u & w2 & H1 & H). prim_inv H1.
  apply bind_inv in H as (r & w3 & H1 & H). prim_inv H.
  match type of H1 with
  | _ (set_gLinks (place_link ?k ?l _) _) = _ =>
      assert (Hnew : LinkInv (set_gLinks (place_link k l (gLinks w)) w))
  end.
  { apply LinkInv_place; [ assumption | ].
    match goal with
    | |- link_ok ?l =>
        change l with (set_info pppoeinfo_zero l)
    end.
    apply link_ok_fresh;
      [ reflexivity | reflexivity | reflexivity | reflexivity | ].
    unfold cfg_ok. ok_fields.
    repeat split;
      first [ left; reflexivity | cbn; lia | vm_compute; reflexivity
            | vm_compute; discriminate
            | apply Nat.ltb_lt; vm_compute; reflexivity ]. }
  destruct (lnk_type l0); [ | prim_inv H1; exact Hnew ].
  revert H1. apply Li_PppoeInit. split; [ exact Hnew | ].
  eexists. split; [ apply place_link_new | reflexivity ].
Qed.

Lemma link_ok_copy (l lt : Link) :
  lnk_state l = lnk_state lt -> lnk_info l = lnk_info lt ->
  link_ok lt -> link_ok l.
Proof.
  unfold link_ok, st_ok, cfg_ok, ref_ok. intros -> ->. tauto.
Qed.

Lemma Li_PppoeInst_copy k kt :
  hoare (fun w => LinkInv w
                  /\ exists l lt, gLinks w !! k = Some (Some l)
                                  /\ gLinks w !! kt = Some (Some lt)
                                  /\ lnk_info l = lnk_info lt)
        (PppoeInst k kt) (fun _ => LinkInv).
Proof.
  intros w a w' (HI & l & lt & Hl & Hlt & E) H.
  unfold PppoeInst in H.
  apply bind_inv in H as (lt' & w1 & H1 & H).
  apply getLink_inv in H1 as [-> Hlt']. rewrite Hlt in Hlt'.
  inversion Hlt'. subst lt'. clear Hlt'.
  apply bind_inv in H as (u & w2 & H1 & H).
  apply modLink_inv in H1 as (l2 & Hl2 & ->).
  rewrite Hl in Hl2. inversion Hl2. subst l2. clear Hl2.
  revert H.
  assert (preserves LinkInv
            (pi <- getInfo k ;;
             match PIf pi with
             | Some p => modIf p (fun e => set_refs (refs e + 1) e)
             | None => ret tt
             end ;;
             match plist pi with
             | Some a =>
                 pl <- getList a ;;
                 setList a (Some {| pl_session := pl_session pl;
                                    pl_refs := pl_refs pl + 1 |})
             | None => ret tt
             end ;;
             ret 0)) as Hrest by (pres_walk ok_side fail).
  apply Hrest.
  apply LinkInv_insert; [ assumption | ].
  intros l' E'. inversion E'. subst l'. clear E'.
  rewrite <- E. pose proof (HI _ _ Hl) as Hok.
  destruct l. exact Hok.
Qed.

Lemma Li_LinkInst kt : preserves LinkInv (LinkInst host kt).
Proof.
  intros w a w' HI H. unfold LinkInst in H.
  apply bind_inv in H as (t & w1 & H1 & H). prim_inv H1.
  apply bind_inv in H as (u & w2 & H1 & H). prim_inv H1.
  destruct (host_LinkInst host (length (trace w))) as [nm | ];
    [ | prim_inv H;
        eapply LinkInv_same; [ reflexivity | eassumption ] ].
  apply bind_inv in H as (lt & w3 & H1 & H).
  apply getLink_inv in H1 as [-> Hlt]. cbn [gLinks set_trace] in Hlt.
  apply bind_inv in H as (w0 & w4 & H1 & H). prim_inv H1.
  cbv zeta in H.
  apply bind_inv in H as (u2 & w5 & H1 & H). prim_inv H1.
  apply bind_inv in H as (r & w6 & H1 & H). prim_inv H.
  revert H1. apply Li_PppoeInst_copy.
  cbn [gLinks set_gLinks set_trace]. split.
  - apply (LinkInv_place (set_trace _ w)).
    + eapply LinkInv_same; [ reflexivity | eassumption ].
    + apply (link_ok_copy _ lt); [ reflexivity | reflexivity | eauto ].
  - eexists _, lt. split; [ apply place_link_new | ].
    split; [ apply place_link_old; exact Hlt | reflexivity ].
Qed.

(** *** Opening *)

Lemma Op_CreatePppoeNode k p ifn pth hk :
  preserves (OpInv k) (CreatePppoeNode host p ifn pth hk).
Proof.
  unfold CreatePppoeNode, probe_ether. pres_walk op_side fail.
Qed.

Lemma Op_PppoeGetNode k : preserves (OpInv k) (PppoeGetNode host k).
Proof.
  unfold PppoeGetNode.
  pres_walk op_side ltac:(apply Op_CreatePppoeNode).
Qed.

Lemma Op_tail_incoming k :
  preserves (OpInv k)
    (TimerStop k ;; modLink k (set_state PHYS_STATE_UP) ;; PhysUp k).
Proof. apply hoare_pres. unfold OpInv. sus_chain. Qed.

Lemma Op_tail_outgoing k :
  preserves (OpInv k)
    (TimerInit k ;;
     TimerStart k ;;
     modLink k (set_state PHYS_STATE_CONNECTING) ;;
     modInfo k (fun pe =>
       set_real_session (strlcpy (session pe) (Z.to_nat MAX_SESSION)) pe) ;;
     modInfo k (set_agent_cid EmptyString) ;;
     modInfo k (set_agent_rid EmptyString) ;;
     modInfo k (set_mp_reply false)).
Proof. apply hoare_pres. unfold OpInv. sus_chain. Qed.

Lemma Li_PppoeOpen k : preserves LinkInv (PppoeOpen host k).
Proof.
  apply hoare_pres. unfold PppoeOpen.
  eapply hoare_bind; [ apply inv_modLink | intros ?; cbv beta ].
  eapply hoare_pre with (P := OpInv k).
  { intros w H. unfold OpInv. eapply SusQ_weaken; [ | exact H ].
    intros l (l0 & H0 & ->). split; ok_link. }
  apply hoare_pres_post.
  - unfold open_fail3, open_fail2, open_fail.
    pres_walk op_side
      ltac:(first [ apply Op_PppoeGetNode | apply Op_tail_incoming
                  | apply Op_tail_outgoing ]).
  - intros _ w H. eapply SusQ_LinkInv; [ | exact H ].
    intros l [Hl _]. exact Hl.
Qed.

End LinkPreserved4.

Section LinkPreserved5.
Import Libc TagCodec Pppoe.
Variable host : Host.

(** What [ctrl_find_link] has checked of the link it returns. *)
Definition ActQ (l : Link) : Prop :=
  link_ok l /\ lnk_state l <> PHYS_STATE_DOWN.

Lemma ActQ_LinkInv k w : SusQ k ActQ w -> LinkInv w.
Proof. apply SusQ_LinkInv. intros l [H _]. exact H. Qed.

Lemma Li_ctrl_find_link p msg :
  hoare LinkInv (ctrl_find_link host p msg)
    (fun r w => match r with
                | Some k => SusQ k ActQ w
                | None => LinkInv w
                end).
Proof.
  assert (Hdrop : forall lvl text,
             hoare LinkInv (Log lvl text ;; ret (@None nat))
               (fun r w => match r with
                           | Some k => SusQ k ActQ w
                           | None => LinkInv w
                           end)).
  { intros lvl text w r w' HI H. unfold Log in H.
    apply bind_inv in H as (u & w1 & H1 & H). prim_inv H1. prim_inv H.
    eapply LinkInv_same; [ reflexivity | eassumption ]. }
  unfold ctrl_find_link. cbv zeta.
  destruct (strncmp_eq (sts_hook msg) "listen-" 7).
  { intros w r w' HI H. prim_inv H. exact HI. }
  destruct (negb (strncmp_eq (sts_hook msg) (hook_prefix host)
                    (strlen (hook_prefix host)))); [ apply Hdrop | ].
  destruct (negb (streq (snd (strtol (advance (strlen (hook_prefix host))
                                        (sts_hook msg)))) EmptyString));
    [ apply Hdrop | ].
  intros w r w' HI H.
  apply bind_inv in H as (ol & w1 & H1 & H).
  unfold gLinks_at in H1.
  destruct ((_ <? 0) || (_ <=? _)); [ discriminate | ].
  destruct (gLinks w !! _) as [ol' | ] eqn:Hol; [ | discriminate ].
  injection H1 as <- <-.
  destruct ol' as [l | ]; [ | revert H; apply Hdrop; assumption ].
  destruct (lnk_type l); [ | revert H; apply Hdrop; assumption ].
  destruct (negb (option_nat_eqb (Some p) (PIf (lnk_info l))));
    [ revert H; apply Hdrop; assumption | ].
  destruct (phys_state_eqb (lnk_state l) PHYS_STATE_DOWN) eqn:Hs.
  - apply bind_inv in H as (u & w1 & H1 & H). prim_inv H.
    revert H1.
    assert (preserves LinkInv
              (if negb (is_cmd_close (cmd msg))
               then Log LG_PHYS "PPPoE: message in DOWN state"
               else ret tt)) as Hp by (pres_walk ok_side fail).
    apply Hp. assumption.
  - prim_inv H. apply phys_state_eqb_neq in Hs.
    eapply SusQ_weaken; [ | apply (LinkInv_SusQ _ _ l Hol HI) ].
    intros l' [-> Hok]. split; assumption.
Qed.

Lemma Li_ctrl_link_cmd k msg :
  hoare (SusQ k ActQ) (ctrl_link_cmd host k msg) (fun _ => LinkInv).
Proof.
  assert (Hd : forall c : M unit, preserves LinkInv c ->
                 hoare (SusQ k ActQ) c (fun _ => LinkInv)).
  { intros c Hc w a w' HI H.
    apply (Hc w a w' (ActQ_LinkInv k w HI) H). }
  assert (Hclose : forall lvl text reason,
             hoare (SusQ k ActQ)
               (Log lvl text ;; PppoeDoClose host k ;; PhysDown k reason)
               (fun _ => LinkInv)).
  { intros. apply Hd.
    pres_walk ok_side ltac:(apply Li_PppoeDoClose). }
  unfold ctrl_link_cmd.
  destruct (cmd msg); try (apply Hd; apply pres_ret);
    try apply Hclose.
  - unfold Log.
    eapply hoare_bind_pres; [ apply sus_emit | intros ?; cbv beta ].
    eapply hoare_bind; [ apply sus_getInfo | intros pi; cbv beta ].
    destruct (opened pi) eqn:Eo; sus_chain.
    all: unfold ActQ in *; ok_link.
    intros _.
    match goal with
    | |- connectTimer (lnk_info ?x) = true /\ _ =>
        destruct (incoming (lnk_info x)) eqn:Ei;
        destruct (lnk_state x) eqn:Es
    end; intuition congruence.
  - apply Hd. pres_walk ok_side fail.
Qed.

End LinkPreserved5.

Section LinkPreserved6.
Import Libc TagCodec Pppoe.
Variable host : Host.

Lemma Li_PppoeCtrlReadEvent p recv :
  preserves LinkInv (PppoeCtrlReadEvent host p recv).
Proof.
  unfold PppoeCtrlReadEvent, ctrl_other_cmd.
  apply pres_bind; [ apply pres_getIf | intros e ].
  apply pres_bind; [ pres_walk ok_side fail | intros _ ].
  destruct recv as [msg | ]; [ | pres_walk ok_side fail ].
  destruct (typecookie msg);
    [ pres_walk ok_side fail | | pres_walk ok_side fail ].
  destruct (is_link_cmd (cmd msg)); [ | pres_walk ok_side fail ].
  apply hoare_pres.
  refine (hoare_bind _ _ _ _ _ (Li_ctrl_find_link host p msg) _).
  intros [k | ]; [ apply Li_ctrl_link_cmd | ].
  apply hoare_pres. apply pres_ret.
Qed.

Lemma Li_listen_close_socket k :
  preserves LinkInv (listen_close_socket host k).
Proof.
  unfold listen_close_socket.
  pres_walk ok_side ltac:(apply Li_LinkShutdown).
Qed.

Lemma Li_listen_shutdown_tee k path1 :
  preserves LinkInv (listen_shutdown_tee host k path1).
Proof.
  unfold listen_shutdown_tee.
  pres_walk ok_side ltac:(apply Li_listen_close_socket).
Qed.

(** The stores of an accepted request: the link is CONNECTING from the
    first of them on, its timer runs from the last but one. *)
Lemma Li_accept_stores k (peer : mem) (rs cid rid : string) :
  preserves LinkInv
    (modLink k (set_state PHYS_STATE_CONNECTING) ;;
     modInfo k (set_incoming true) ;;
     modInfo k (set_peeraddr
       (fst (load_bytes peer (Z.of_nat ETHER_ADDR_LEN) ETHER_ADDR_LEN))) ;;
     modInfo k (set_real_session (strlcpy rs (Z.to_nat MAX_SESSION))) ;;
     modInfo k (set_agent_cid (strlcpy cid (Z.to_nat sizeof_agent_id))) ;;
     modInfo k (set_agent_rid (strlcpy rid (Z.to_nat sizeof_agent_id))) ;;
     Log LG_PHYS2 "PPPoE response sent" ;;
     TimerInit k ;;
     TimerStart k ;;
     PhysIncoming k).
Proof. apply hoare_pres. sus_chain. Qed.

Lemma Li_listen_accept p k sz response rs cid rid :
  preserves LinkInv (listen_accept host p k sz response rs cid rid).
Proof.
  unfold listen_accept.
  pres_walk ok_side
    ltac:(first [ apply Li_listen_close_socket
                | apply Li_listen_shutdown_tee
                | apply Li_accept_stores ]).
Qed.

Lemma Li_log_tags tags : preserves LinkInv (log_tags tags).
Proof.
  induction tags as [ | t tags IH ]; simpl;
    pres_walk ok_side ltac:(exact IH).
Qed.

Lemma Li_PppoeListenEvent p sz response rhook :
  preserves LinkInv (PppoeListenEvent host p sz response rhook).
Proof.
  unfold PppoeListenEvent.
  pres_walk ok_side
    ltac:(first [ apply Li_log_tags | apply Li_LinkInst
                | apply Li_listen_accept ]).
Qed.

(** *** Every turn of the event loop *)

Lemma LinkInv_step (w w' : World) :
  LinkInv w -> step host w w' -> LinkInv w'.
Proof.
  intros HI Hstep. destruct Hstep.
  - eapply Li_LinkCreate; eauto.
  - eapply Li_LinkInst; eauto.
  - eapply Li_PppoeOpen; eauto.
  - eapply Li_PppoeClose; eauto.
  - eapply Li_LinkShutdown; eauto.
  - eapply Li_PppoeNodeUpdate; eauto.
  - eapply Li_PppoeSetCommand; eauto.
  - match goal with H : modLink _ _ _ = _ |- _ => revert H end.
    apply pres_modLink; [ | assumption ]. ok_side.
  - eapply Li_PppoeCtrlReadEvent; eauto.
  - eapply Li_PppoeListenEvent; eauto.
  - eapply Li_timer_fire; eauto.
Qed.

Lemma LinkInv_reachable (w : World) : reachable host w -> LinkInv w.
Proof.
  induction 1 as [ | w w' Hr IH Hs ].
  - intros k l Hl. discriminate.
  - eapply LinkInv_step; eauto.
Qed.

End LinkPreserved6.

(** X11.  The connect timer follows the state of the link, in every
    reachable state of the program: it is idle while the link is DOWN or
    UP and it runs while the link is CONNECTING, as the comment
    [Invariants] of [pppoe.c] says; it also still runs while an incoming
    link is READY, waiting to be opened. *)
Theorem link_timer_by_state (host : Pppoe.Host) (w : Pppoe.World) (k : nat)
    (l : Pppoe.Link) :
  Pppoe.reachable host w ->
  Pppoe.gLinks w !! k = Some (Some l) ->
  Pppoe.connectTimer (Pppoe.lnk_info l)
  = match Pppoe.lnk_state l with
    | Pppoe.PHYS_STATE_DOWN | Pppoe.PHYS_STATE_UP => false
    | Pppoe.PHYS_STATE_CONNECTING | Pppoe.PHYS_STATE_READY => true
    end.
Proof.
  intros Hr Hl.
  pose proof (LinkInv_reachable host w Hr k l Hl) as [(_ & Hu & Hc & Hy & _) _].
  pose proof (DownInv_reachable host w Hr k l Hl) as Hd.
  unfold down_ok in Hd.
  destruct (Pppoe.lnk_state l).
  - apply Hd. reflexivity.
  - apply Hc. reflexivity.
  - apply Hy. reflexivity.
  - apply Hu. reflexivity.
Qed.

Lemma link_timer_by_state_witness :
  Pppoe.connectTimer (Pppoe.lnk_info (Demo.link_of Demo.w_connecting 0))
  = match Pppoe.lnk_state (Demo.link_of Demo.w_connecting 0) with
    | Pppoe.PHYS_STATE_DOWN | Pppoe.PHYS_STATE_UP => false
    | Pppoe.PHYS_STATE_CONNECTING | Pppoe.PHYS_STATE_READY => true
    end.
Proof.
  apply (link_timer_by_state Demo.host_ok Demo.w_connecting 0
           (Demo.link_of Demo.w_connecting 0)).
  - exact w_connecting_reachable.
  - vm_compute. reflexivity.
Defined.

(** X12.  The flags [incoming] and [opened] against the state, in every
    reachable state: a DOWN link is not marked incoming; an UP link has
    been opened; a READY link is an incoming one; and a link that is not
    DOWN and not incoming (an outgoing call in progress or established)
    has been opened. *)
Theorem link_flags_by_state (host : Pppoe.Host) (w : Pppoe.World) (k : nat)
    (l : Pppoe.Link) :
  Pppoe.reachable host w ->
  Pppoe.gLinks w !! k = Some (Some l) ->
  (Pppoe.lnk_state l = Pppoe.PHYS_STATE_DOWN ->
   Pppoe.incoming (Pppoe.lnk_info l) = false)
  /\ (Pppoe.lnk_state l = Pppoe.PHYS_STATE_UP ->
      Pppoe.opened (Pppoe.lnk_info l) = true)
  /\ (Pppoe.lnk_state l = Pppoe.PHYS_STATE_READY ->
      Pppoe.incoming (Pppoe.lnk_info l) = true)
  /\ (Pppoe.lnk_state l <> Pppoe.PHYS_STATE_DOWN ->
      Pppoe.incoming (Pppoe.lnk_info l) = false ->
      Pppoe.opened (Pppoe.lnk_info l) = true).
Proof.
  intros Hr Hl.
  pose proof (LinkInv_reachable host w Hr k l Hl)
    as [(Hd & Hu & _ & Hy & Ho) _].
  split; [ exact Hd | ].
  split; [ intros H; apply Hu; exact H | ].
  split; [ intros H; apply Hy; exact H | ].
  intros Hs Hi. apply Ho; assumption.
Qed.

Lemma link_flags_by_state_witness :
  (Pppoe.lnk_state (Demo.link_of Demo.w_up 0) = Pppoe.PHYS_STATE_DOWN ->
   Pppoe.incoming (Pppoe.lnk_info (Demo.link_of Demo.w_up 0)) = false)
  /\ (Pppoe.lnk_state (Demo.link_of Demo.w_up 0) = Pppoe.PHYS_STATE_UP ->
      Pppoe.opened (Pppoe.lnk_info (Demo.link_of Demo.w_up 0)) = true)
  /\ (Pppoe.lnk_state (Demo.link_of Demo.w_up 0) = Pppoe.PHYS_STATE_READY ->
      Pppoe.incoming (Pppoe.lnk_info (Demo.link_of Demo.w_up 0)) = true)
  /\ (Pppoe.lnk_state (Demo.link_of Demo.w_up 0) <> Pppoe.PHYS_STATE_DOWN ->
      Pppoe.incoming (Pppoe.lnk_info (Demo.link_of Demo.w_up 0)) = false ->
      Pppoe.opened (Pppoe.lnk_info (Demo.link_of Demo.w_up 0)) = true).
Proof.
  apply (link_flags_by_state Demo.host_ok Demo.w_up 0
           (Demo.link_of Demo.w_up 0)).
  - exact w_up_reachable.
  - vm_compute. reflexivity.
Defined.

(** X13.  The two numeric settings of a link stay in their ranges, in
    every reachable state: [mac_format] is one of the four formats of the
    enum (0 to 3), and [max_payload] is 0 (not set) or lies between
    [PPPOE_MRU] and [ETHER_MAX_LEN - 8]. *)
Theorem link_settings_in_range (host : Pppoe.Host) (w : Pppoe.World)
    (k : nat) (l : Pppoe.Link) :
  Pppoe.reachable host w ->
  Pppoe.gLinks w !! k = Some (Some l) ->
  Pppoe.MAC_UNFORMATTED <= Pppoe.mac_format (Pppoe.lnk_info l)
    <= Pppoe.MAC_IETF
  /\ (Pppoe.max_payload (Pppoe.lnk_info l) = 0
      \/ Pppoe.PPPOE_MRU <= Pppoe.max_payload (Pppoe.lnk_info l)
         <= Pppoe.ETHER_MAX_LEN - 8).
Proof.
  intros Hr Hl.
  pose proof (LinkInv_reachable host w Hr k l Hl) as [_ [(Hm & Hp & _) _]].
  split; [ exact Hm | exact Hp ].
Qed.

Lemma link_settings_in_range_witness :
  Pppoe.MAC_UNFORMATTED
    <= Pppoe.mac_format (Pppoe.lnk_info (Demo.link_of Demo.w_acfcomp 0))
    <= Pppoe.MAC_IETF
  /\ (Pppoe.max_payload (Pppoe.lnk_info (Demo.link_of Demo.w_acfcomp 0)) = 0
      \/ Pppoe.PPPOE_MRU
         <= Pppoe.max_payload (Pppoe.lnk_info (Demo.link_of Demo.w_acfcomp 0))
         <= Pppoe.ETHER_MAX_LEN - 8).
Proof.
  apply (link_settings_in_range Demo.host_ok Demo.w_acfcomp 0
           (Demo.link_of Demo.w_acfcomp 0)).
  - exact w_acfcomp_reachable.
  - vm_compute. reflexivity.
Defined.

(** X14.  What is stored in the character arrays of [struct pppoeinfo]
    fits them with its terminator, in every reachable state: [iface],
    [path], [hook], [session], [acname], [real_session], [agent_cid] and
    [agent_rid] are shorter than their arrays, and [peeraddr] has its six
    bytes. *)
Theorem link_strings_fit (host : Pppoe.Host) (w : Pppoe.World) (k : nat)
    (l : Pppoe.Link) :
  Pppoe.reachable host w ->
  Pppoe.gLinks w !! k = Some (Some l) ->
  (String.length (Pppoe.iface (Pppoe.lnk_info l)) < Pppoe.IFNAMSIZ)%nat
  /\ (String.length (Pppoe.path (Pppoe.lnk_info l)) < Pppoe.MAX_PATH)%nat
  /\ (String.length (Pppoe.hook (Pppoe.lnk_info l)) < Pppoe.NG_HOOKSIZ)%nat
  /\ (String.length (Pppoe.session (Pppoe.lnk_info l))
      < Z.to_nat TagCodec.MAX_SESSION)%nat
  /\ (String.length (Pppoe.acname (Pppoe.lnk_info l))
      < Pppoe.PPPOE_SERVICE_NAME_SIZE)%nat
  /\ (String.length (Pppoe.real_session (Pppoe.lnk_info l))
      < Z.to_nat TagCodec.MAX_SESSION)%nat
  /\ (String.length (Pppoe.agent_cid (Pppoe.lnk_info l))
      < Z.to_nat TagCodec.sizeof_agent_id)%nat
  /\ (String.length (Pppoe.agent_rid (Pppoe.lnk_info l))
      < Z.to_nat TagCodec.sizeof_agent_id)%nat
  /\ length (Pppoe.peeraddr (Pppoe.lnk_info l)) = Pppoe.ETHER_ADDR_LEN.
Proof.
  intros Hr Hl.
  pose proof (LinkInv_reachable host w Hr k l Hl) as [_ [(_ & _ & H) _]].
  exact H.
Qed.

Lemma link_strings_fit_witness :
  (String.length (Pppoe.iface (Pppoe.lnk_info (Demo.link_of Demo.w_up 0)))
   < Pppoe.IFNAMSIZ)%nat
  /\ (String.length (Pppoe.path (Pppoe.lnk_info (Demo.link_of Demo.w_up 0)))
      < Pppoe.MAX_PATH)%nat
  /\ (String.length (Pppoe.hook (Pppoe.lnk_info (Demo.link_of Demo.w_up 0)))
      < Pppoe.NG_HOOKSIZ)%nat
  /\ (String.length
        (Pppoe.session (Pppoe.lnk_info (Demo.link_of Demo.w_up 0)))
      < Z.to_nat TagCodec.MAX_SESSION)%nat
  /\ (String.length
        (Pppoe.acname (Pppoe.lnk_info (Demo.link_of Demo.w_up 0)))
      < Pppoe.PPPOE_SERVICE_NAME_SIZE)%nat
  /\ (String.length
        (Pppoe.real_session (Pppoe.lnk_info (Demo.link_of Demo.w_up 0)))
      < Z.to_nat TagCodec.MAX_SESSION)%nat
  /\ (String.length
        (Pppoe.agent_cid (Pppoe.lnk_info (Demo.link_of Demo.w_up 0)))
      < Z.to_nat TagCodec.sizeof_agent_id)%nat
  /\ (String.length
        (Pppoe.agent_rid (Pppoe.lnk_info (Demo.link_of Demo.w_up 0)))
      < Z.to_nat TagCodec.sizeof_agent_id)%nat
  /\ length (Pppoe.peeraddr (Pppoe.lnk_info (Demo.link_of Demo.w_up 0)))
     = Pppoe.ETHER_ADDR_LEN.
Proof.
  apply (link_strings_fit Demo.host_ok Demo.w_up 0
           (Demo.link_of Demo.w_up 0)).
  - exact w_up_reachable.
  - vm_compute. reflexivity.
Defined.

(** X22.  In every reachable state a link that holds a listener
    ([pi->list]) has a parent ([pi->PIf]): [PppoeListen] takes a listener
    only on a parent, and every [PppoeReleaseNode] comes after a
    [PppoeUnListen].  So the [pi->PIf->node_id] and [pi->PIf->csock] of
    [PppoeUnListen] never go through a null pointer. *)
Theorem listener_has_parent (host : Pppoe.Host) (w : Pppoe.World) (k : nat)
    (l : Pppoe.Link) (a : nat) :
  Pppoe.reachable host w ->
  Pppoe.gLinks w !! k = Some (Some l) ->
  Pppoe.plist (Pppoe.lnk_info l) = Some a ->
  exists p, Pppoe.PIf (Pppoe.lnk_info l) = Some p.
Proof.
  intros Hr Hl Ha.
  pose proof (LinkInv_reachable host w Hr k l Hl) as (_ & _ & Hp).
  unfold ref_ok in Hp.
  destruct (Pppoe.PIf (Pppoe.lnk_info l)) as [p | ]; [ eauto | ].
  exfalso. apply Hp; [ congruence | reflexivity ].
Qed.

Lemma listener_has_parent_witness :
  exists p,
    Pppoe.PIf (Pppoe.lnk_info (Demo.link_of Demo.w_listening 0)) = Some p.
Proof.
  apply (listener_has_parent Demo.host_ok Demo.w_listening 0
           (Demo.link_of Demo.w_listening 0) 0).
  - exact w_listening_reachable.
  - vm_compute. reflexivity.
  - vm_compute. reflexivity.
Defined.

(* ===================================================================== *)
(** * What a link reports                                                 *)
(* ===================================================================== *)

Section ReportFacts.
Import Libc TagCodec Pppoe PppoeReport.
Variable ether_ntoa : list Z -> string.

Lemma truncate_length_min (n : nat) (s : string) :
  String.length (truncate n s) = Nat.min n (String.length s).
Proof.
  revert s. induction n as [ | n IH ]; intros [ | c s ]; cbn;
    try reflexivity.
  rewrite IH. reflexivity.
Qed.

Lemma written_strlcpy (s : string) (n : nat) :
  written (strlcpy_buf s n) = Nat.min n (S (String.length s)).
Proof.
  destruct n as [ | n ]; cbn [strlcpy_buf written]; [ reflexivity | ].
  rewrite truncate_length_min. reflexivity.
Qed.

Lemma written_snprintf (s : string) (n : nat) :
  written (snprintf_buf s n) = Nat.min n (S (String.length s)).
Proof. apply written_strlcpy. Qed.

Lemma mac_switch_known (pe : pppoeinfo) (n : nat) :
  MAC_UNFORMATTED <= mac_format pe <= MAC_IETF ->
  fst (mac_switch ether_ntoa pe n) = 0.
Proof.
  unfold MAC_UNFORMATTED, MAC_IETF. intros H. unfold mac_switch.
  repeat match goal with
         | |- context [ ?a =? ?b ] =>
             destruct (Z.eqb_spec a b); [ reflexivity | ]
         end.
  unfold MAC_UNFORMATTED, MAC_UNIX_LIKE, MAC_CISCO_LIKE, MAC_IETF in *.
  lia.
Qed.

Lemma mac_switch_bounded (pe : pppoeinfo) (n : nat) :
  MAC_UNFORMATTED <= mac_format pe <= MAC_IETF ->
  mac_format pe <> MAC_UNIX_LIKE ->
  (written (snd (mac_switch ether_ntoa pe n)) <= n)%nat.
Proof.
  unfold MAC_UNFORMATTED, MAC_IETF. intros H Hu. unfold mac_switch.
  repeat match goal with
         | |- context [ ?a =? ?b ] =>
             destruct (Z.eqb_spec a b);
             [ try contradiction; cbn [snd];
               try (rewrite written_snprintf; apply Nat.le_min_l) | ]
         end.
  unfold MAC_UNFORMATTED, MAC_UNIX_LIKE, MAC_CISCO_LIKE, MAC_IETF in *.
  lia.
Qed.

End ReportFacts.

(** X15.  [PppoeCallingNum] and [PppoeCalledNum] succeed on every link of
    a reachable state: they return 0, the [default] case of their switch
    on [mac_format] (the text [unknown] and the result -1) is never
    taken. *)
Theorem numbers_never_unknown (host : Pppoe.Host) (w : Pppoe.World)
    (k : nat) (l : Pppoe.Link) (ether_ntoa : list Z -> string)
    (buf_len : nat) :
  Pppoe.reachable host w ->
  Pppoe.gLinks w !! k = Some (Some l) ->
  fst (PppoeReport.PppoeCallingNum ether_ntoa l buf_len) = 0
  /\ fst (PppoeReport.PppoeCalledNum ether_ntoa l buf_len) = 0.
Proof.
  intros Hr Hl.
  pose proof (LinkInv_reachable host w Hr k l Hl) as [_ [(Hm & _) _]].
  unfold PppoeReport.PppoeCallingNum, PppoeReport.PppoeCalledNum.
  cbv zeta.
  destruct (Pppoe.incoming (Pppoe.lnk_info l)); cbn [negb fst];
    split; try reflexivity; apply mac_switch_known; exact Hm.
Qed.

Lemma numbers_never_unknown_witness :
  fst (PppoeReport.PppoeCallingNum (fun _ => EmptyString)
         (Demo.link_of Demo.w_up 0) 32) = 0
  /\ fst (PppoeReport.PppoeCalledNum (fun _ => EmptyString)
            (Demo.link_of Demo.w_up 0) 32) = 0.
Proof.
  apply (numbers_never_unknown Demo.host_ok Demo.w_up 0
           (Demo.link_of Demo.w_up 0) (fun _ => EmptyString) 32).
  - exact w_up_reachable.
  - vm_compute. reflexivity.
Defined.

(** X16.  Unless the MAC format is [unix-like], [PppoeCallingNum] and
    [PppoeCalledNum] store at most [buf_len] bytes, terminator included,
    for every link of a reachable state and every [buf_len]; a buffer of
    size 0 is not written at all.  (With [unix-like] the text comes from
    [ether_ntoa_r], which is not told the size.) *)
Theorem numbers_fit_buffer (host : Pppoe.Host) (w : Pppoe.World)
    (k : nat) (l : Pppoe.Link) (ether_ntoa : list Z -> string)
    (buf_len : nat) :
  Pppoe.reachable host w ->
  Pppoe.gLinks w !! k = Some (Some l) ->
  Pppoe.mac_format (Pppoe.lnk_info l) <> Pppoe.MAC_UNIX_LIKE ->
  (PppoeReport.written
     (snd (PppoeReport.PppoeCallingNum ether_ntoa l buf_len)) <= buf_len)%nat
  /\ (PppoeReport.written
        (snd (PppoeReport.PppoeCalledNum ether_ntoa l buf_len))
      <= buf_len)%nat.
Proof.
  intros Hr Hl Hu.
  pose proof (LinkInv_reachable host w Hr k l Hl) as [_ [(Hm & _) _]].
  unfold PppoeReport.PppoeCallingNum, PppoeReport.PppoeCalledNum.
  cbv zeta.
  destruct (Pppoe.incoming (Pppoe.lnk_info l)); cbn [negb snd]; split;
    first [ apply mac_switch_bounded; assumption
          | rewrite written_strlcpy; apply Nat.le_min_l ].
Qed.

Lemma numbers_fit_buffer_witness :
  (PppoeReport.written
     (snd (PppoeReport.PppoeCallingNum (fun _ => EmptyString)
             (Demo.link_of Demo.w_up 0) 8)) <= 8)%nat
  /\ (PppoeReport.written
        (snd (PppoeReport.PppoeCalledNum (fun _ => EmptyString)
                (Demo.link_of Demo.w_up 0) 8)) <= 8)%nat.
Proof.
  apply (numbers_fit_buffer Demo.host_ok Demo.w_up 0
           (Demo.link_of Demo.w_up 0) (fun _ => EmptyString) 8).
  - exact w_up_reachable.
  - vm_compute. reflexivity.
  - vm_compute. discriminate.
Defined.

(** X17.  The MTU and the MRU that a link of a reachable state reports
    when it is asked for the default ([conf = 0]) lie between [PPPOE_MTU]
    (1492) and [ETHER_MAX_LEN - 8] (1510): it is the type's 1492, or the
    PPP-Max-Payload that was configured and that the server has
    confirmed.  Asked for the configured value ([conf <> 0]) the link
    reports that same payload, or else [l->conf.mtu] ([l->conf.mru]). *)
Theorem reported_mtu_in_range (host : Pppoe.Host) (w : Pppoe.World)
    (k : nat) (l : Pppoe.Link) (conf cm : Z) :
  Pppoe.reachable host w ->
  Pppoe.gLinks w !! k = Some (Some l) ->
  (Pppoe.PPPOE_MTU <= PppoeReport.PppoeGetMtu l 0 cm
     <= Pppoe.ETHER_MAX_LEN - 8)
  /\ (Pppoe.PPPOE_MRU <= PppoeReport.PppoeGetMru l 0 cm
        <= Pppoe.ETHER_MAX_LEN - 8)
  /\ (PppoeReport.PppoeGetMtu l conf cm = cm
      \/ Pppoe.PPPOE_MTU <= PppoeReport.PppoeGetMtu l conf cm
           <= Pppoe.ETHER_MAX_LEN - 8)
  /\ (PppoeReport.PppoeGetMru l conf cm = cm
      \/ Pppoe.PPPOE_MRU <= PppoeReport.PppoeGetMru l conf cm
           <= Pppoe.ETHER_MAX_LEN - 8).
Proof.
  intros Hr Hl.
  pose proof (LinkInv_reachable host w Hr k l Hl) as [_ [(_ & Hp & _) _]].
  unfold PppoeReport.PppoeGetMtu, PppoeReport.PppoeGetMru. cbv zeta.
  destruct (Z.ltb_spec 0 (Pppoe.max_payload (Pppoe.lnk_info l)));
    destruct (Pppoe.mp_reply (Pppoe.lnk_info l)); cbn [andb];
    destruct (Z.eqb_spec conf 0); cbn [Z.eqb];
    unfold Pppoe.PPPOE_MTU, Pppoe.PPPOE_MRU, Pppoe.ETHER_MAX_LEN in *; lia.
Qed.

Lemma reported_mtu_in_range_witness :
  (Pppoe.PPPOE_MTU <= PppoeReport.PppoeGetMtu (Demo.link_of Demo.w_up 0) 0 1500
     <= Pppoe.ETHER_MAX_LEN - 8)
  /\ (Pppoe.PPPOE_MRU
        <= PppoeReport.PppoeGetMru (Demo.link_of Demo.w_up 0) 0 1500
        <= Pppoe.ETHER_MAX_LEN - 8)
  /\ (PppoeReport.PppoeGetMtu (Demo.link_of Demo.w_up 0) 1 1500 = 1500
      \/ Pppoe.PPPOE_MTU
           <= PppoeReport.PppoeGetMtu (Demo.link_of Demo.w_up 0) 1 1500
           <= Pppoe.ETHER_MAX_LEN - 8)
  /\ (PppoeReport.PppoeGetMru (Demo.link_of Demo.w_up 0) 1 1500 = 1500
      \/ Pppoe.PPPOE_MRU
           <= PppoeReport.PppoeGetMru (Demo.link_of Demo.w_up 0) 1 1500
           <= Pppoe.ETHER_MAX_LEN - 8).
Proof.
  apply (reported_mtu_in_range Demo.host_ok Demo.w_up 0
           (Demo.link_of Demo.w_up 0) 1 1500).
  - exact w_up_reachable.
  - vm_compute. reflexivity.
Defined.

(* ===================================================================== *)
(** * The set commands                                                    *)
(* ===================================================================== *)

Section OneLink.
Import Libc TagCodec Pppoe.

(** Every link but [k] is as in [G], and link [k] satisfies [Q]. *)
Definition AtQ (k : nat) (G : list (option Link)) (Q : Link -> Prop)
    (w : World) : Prop :=
  (forall k', k' <> k -> gLinks w !! k' = G !! k')
  /\ exists l, gLinks w !! k = Some (Some l) /\ Q l.

Lemma AtQ_same k G Q (w w' : World) :
  gLinks w' = gLinks w -> AtQ k G Q w -> AtQ k G Q w'.
Proof. intros E H. unfold AtQ. rewrite E. exact H. Qed.

Lemma AtQ_put k G Q (w : World) (l l' : Link) :
  gLinks w !! k = Some (Some l) -> AtQ k G Q w -> (Q l -> Q l') ->
  AtQ k G Q (set_gLinks (<[k := Some l']> (gLinks w)) w).
Proof.
  intros Hl [Ho (l0 & Hl0 & Hq)] HQ. rewrite Hl in Hl0.
  inversion Hl0. subst l0. split.
  - intros k' Hne. cbn [gLinks set_gLinks].
    rewrite list_lookup_insert_ne by congruence. auto.
  - exists l'. split; [ | auto ].
    cbn [gLinks set_gLinks]. eapply lookup_updated. eassumption.
Qed.

Lemma AtQ_start k (w : World) (l : Link) (Q : Link -> Prop) :
  gLinks w !! k = Some (Some l) -> Q l -> AtQ k (gLinks w) Q w.
Proof. intros Hl Hq. split; [ reflexivity | eauto ]. Qed.

End OneLink.

(** For a property [Q] that speaks of fields which the update leaves
    alone. *)
Ltac at_side :=
  intros;
  first
    [ eapply AtQ_same; [ reflexivity | assumption ]
    | eapply AtQ_put;
      [ eassumption | assumption
      | let H := fresh "H" in intros H; ok_fields; exact H ] ].

Section OneLinkPreserved.
Import Libc TagCodec Pppoe.
Variable host : Host.
Variable k : nat.
Variable G : list (option Link).
Variable Q : Link -> Prop.

(** [Q] looks at nothing that the parent and listener bookkeeping
    writes: the fields [PIf] and [plist]. *)
Hypothesis Q_PIf : forall l v,
  Q l -> Q (set_info (set_PIf v (lnk_info l)) l).
Hypothesis Q_plist : forall l v,
  Q l -> Q (set_info (set_plist v (lnk_info l)) l).

Ltac atq_side :=
  intros;
  first
    [ eapply AtQ_same; [ reflexivity | assumption ]
    | eapply AtQ_put;
      [ eassumption | assumption
      | first [ apply Q_PIf | apply Q_plist ] ] ].

Lemma At_CreatePppoeNode p ifn pth hk :
  preserves (AtQ k G Q) (CreatePppoeNode host p ifn pth hk).
Proof.
  unfold CreatePppoeNode, probe_ether. pres_walk atq_side fail.
Qed.

Lemma At_PppoeGetNode : preserves (AtQ k G Q) (PppoeGetNode host k).
Proof.
  unfold PppoeGetNode.
  pres_walk atq_side ltac:(apply At_CreatePppoeNode).
Qed.

Lemma At_PppoeReleaseNode : preserves (AtQ k G Q) (PppoeReleaseNode k).
Proof. unfold PppoeReleaseNode. pres_walk atq_side fail. Qed.

Lemma At_slist_find ls s : preserves (AtQ k G Q) (slist_find ls s).
Proof.
  induction ls as [ | a ls IH ]; simpl;
    pres_walk atq_side ltac:(exact IH).
Qed.

Lemma At_PppoeListen : preserves (AtQ k G Q) (PppoeListen host k).
Proof.
  unfold PppoeListen. pres_walk atq_side ltac:(apply At_slist_find).
Qed.

Lemma At_PppoeUnListen : preserves (AtQ k G Q) (PppoeUnListen host k).
Proof. unfold PppoeUnListen. pres_walk atq_side fail. Qed.

Lemma At_relisten b : preserves (AtQ k G Q) (relisten host k b).
Proof.
  unfold relisten.
  pres_walk atq_side
    ltac:(first [ apply At_PppoeGetNode | apply At_PppoeListen
                | apply At_PppoeUnListen | apply At_PppoeReleaseNode ]).
Qed.


End OneLinkPreserved.

Section IfacePath.
Import Libc TagCodec Pppoe.

Lemma iface_path_get (n : nat) (s : string) (i : nat) (c : ascii) :
  (String.length s < n)%nat ->
  String.get i s = Some c ->
  String.get i (iface_path n s)
  = Some (if Ascii.eqb c "." || Ascii.eqb c ":" then "_"%char else c).
Proof.
  revert s i. induction n as [ | n IH ]; intros s i Hn Hg; [ lia | ].
  destruct s as [ | d s ]; [ destruct i; discriminate | ].
  cbn [String.length] in Hn. cbn [iface_path].
  destruct i as [ | i ]; cbn [String.get] in *.
  - injection Hg as ->. reflexivity.
  - apply IH; [ lia | exact Hg ].
Qed.

Lemma iface_path_end (n : nat) (s : string) :
  (String.length s < n)%nat ->
  String.get (String.length s) (iface_path n s) = Some ":"%char.
Proof.
  revert s. induction n as [ | n IH ]; intros s Hn; [ lia | ].
  destruct s as [ | d s ]; [ reflexivity | ].
  cbn [String.length] in *. cbn [iface_path String.get].
  apply IH. lia.
Qed.

Lemma strlcpy_twice (s : string) (n m : nat) :
  (0 < n)%nat -> (n <= m)%nat -> strlcpy (strlcpy s n) m = strlcpy s n.
Proof.
  intros Hn Hm. unfold strlcpy at 1. apply truncate_all.
  pose proof (strlcpy_length s n Hn). lia.
Qed.

End IfacePath.

(** The state of a link and the data of its session: the fields that
    opening, accepting and closing a call write. *)
Definition same_call (l l' : Pppoe.Link) : Prop :=
  Pppoe.lnk_state l' = Pppoe.lnk_state l
  /\ Pppoe.incoming (Pppoe.lnk_info l') = Pppoe.incoming (Pppoe.lnk_info l)
  /\ Pppoe.opened (Pppoe.lnk_info l') = Pppoe.opened (Pppoe.lnk_info l)
  /\ Pppoe.connectTimer (Pppoe.lnk_info l')
     = Pppoe.connectTimer (Pppoe.lnk_info l)
  /\ Pppoe.peeraddr (Pppoe.lnk_info l') = Pppoe.peeraddr (Pppoe.lnk_info l)
  /\ Pppoe.real_session (Pppoe.lnk_info l')
     = Pppoe.real_session (Pppoe.lnk_info l)
  /\ Pppoe.agent_cid (Pppoe.lnk_info l') = Pppoe.agent_cid (Pppoe.lnk_info l)
  /\ Pppoe.agent_rid (Pppoe.lnk_info l') = Pppoe.agent_rid (Pppoe.lnk_info l)
  /\ Pppoe.mp_reply (Pppoe.lnk_info l') = Pppoe.mp_reply (Pppoe.lnk_info l).

(** X18.  [set pppoe iface NAME] and [set pppoe iface NAME HOOK], when
    they return: [iface] is NAME cut to 15 characters; [path] is [iface]
    with every [.] and [:] replaced by [_] and one [:] appended, so it is
    one character longer than [iface] and its only colon is the last
    character; [hook] is HOOK cut to 31 characters, or [orphans] when no
    HOOK is given.  The result is 0 and no other link is touched. *)
Theorem set_iface_node_path (host : Pppoe.Host) (k : nat) (a0 : string)
    (rest : list string) (w w' : Pppoe.World) (r : Z) :
  (length rest <= 1)%nat ->
  Pppoe.PppoeSetCommand host k (a0 :: rest) Pppoe.SET_IFACE w = Pppoe.Ok r w' ->
  r = 0
  /\ (forall k', k' <> k -> Pppoe.gLinks w' !! k' = Pppoe.gLinks w !! k')
  /\ exists l',
       Pppoe.gLinks w' !! k = Some (Some l')
       /\ Pppoe.iface (Pppoe.lnk_info l') = Libc.strlcpy a0 Pppoe.IFNAMSIZ
       /\ Pppoe.hook (Pppoe.lnk_info l')
          = Libc.strlcpy (match rest with
                          | h :: _ => h
                          | [] => Pppoe.ETHER_DEFAULT_HOOK
                          end) Pppoe.NG_HOOKSIZ
       /\ String.length (Pppoe.path (Pppoe.lnk_info l'))
          = S (String.length (Pppoe.iface (Pppoe.lnk_info l')))
       /\ String.get (String.length (Pppoe.iface (Pppoe.lnk_info l')))
            (Pppoe.path (Pppoe.lnk_info l')) = Some ":"%char
       /\ (forall i c,
             String.get i (Pppoe.iface (Pppoe.lnk_info l')) = Some c ->
             String.get i (Pppoe.path (Pppoe.lnk_info l'))
             = Some (if Ascii.eqb c "." || Ascii.eqb c ":"
                     then "_"%char else c)).
Proof.
  intros Hrest H.
  set (X := Libc.strlcpy a0 Pppoe.IFNAMSIZ).
  set (Z0 := Libc.strlcpy (match rest with
                           | h :: _ => h
                           | [] => Pppoe.ETHER_DEFAULT_HOOK
                           end) Pppoe.NG_HOOKSIZ).
  set (Y := Pppoe.iface_path (Pppoe.MAX_PATH - 1) X).
  assert (HX : (String.length X < Pppoe.MAX_PATH - 1)%nat).
  { pose proof (strlcpy_length a0 Pppoe.IFNAMSIZ
                  ltac:(unfold Pppoe.IFNAMSIZ; lia)) as HL.
    unfold X. unfold Pppoe.IFNAMSIZ, Pppoe.MAX_PATH in *. lia. }
  assert (Hres : r = 0
                 /\ AtQ k (Pppoe.gLinks w)
                      (fun l => Pppoe.iface (Pppoe.lnk_info l) = X
                                /\ Pppoe.path (Pppoe.lnk_info l) = Y
                                /\ Pppoe.hook (Pppoe.lnk_info l) = Z0) w').
  { unfold Pppoe.PppoeSetCommand in H. cbv zeta in H.
    assert (Hh : match rest with
                 | [] => Some Pppoe.ETHER_DEFAULT_HOOK
                 | [h] => Some h
                 | _ => None
                 end
                 = Some (match rest with
                         | h :: _ => h
                         | [] => Pppoe.ETHER_DEFAULT_HOOK
                         end)).
    { destruct rest as [ | h [ | h2 rest ] ]; cbn in Hrest;
        [ reflexivity | reflexivity | lia ]. }
    assert (Hav : match a0 :: rest with
                  | [_; h] => Some h
                  | [_] => Some Pppoe.ETHER_DEFAULT_HOOK
                  | _ => None
                  end
                  = Some (match rest with
                          | h :: _ => h
                          | [] => Pppoe.ETHER_DEFAULT_HOOK
                          end)).
    { destruct rest as [ | h [ | h2 rest ] ]; cbn in Hrest;
        [ reflexivity | reflexivity | lia ]. }
    rewrite Hav in H. clear Hav Hh.
    apply bind_inv in H as (u1 & w1 & H1 & H).
    apply modLink_inv in H1 as (l & Hl & ->).
    apply bind_inv in H as (u2 & w2 & H2 & H).
    apply modLink_inv in H2 as (l2 & Hl2 & ->).
    cbn [Pppoe.gLinks Pppoe.set_gLinks] in Hl2.
    rewrite (lookup_updated _ _ _ _ Hl) in Hl2. inversion Hl2. subst l2.
    clear Hl2.
    apply bind_inv in H as (u3 & w3 & H3 & H).
    apply modLink_inv in H3 as (l3 & Hl3 & ->).
    cbn [Pppoe.gLinks Pppoe.set_gLinks] in Hl3.
    erewrite lookup_updated in Hl3
      by (eapply lookup_updated; exact Hl).
    inversion Hl3. subst l3. clear Hl3.
    apply bind_inv in H as (u4 & w4 & H4 & H). prim_inv H.
    split; [ reflexivity | ].
    revert H4. apply At_relisten.
    - intros l0 v Hq. ok_fields. exact Hq.
    - intros l0 v Hq. ok_fields. exact Hq.
    - split.
      + intros k' Hne. cbn [Pppoe.gLinks Pppoe.set_gLinks].
        rewrite !list_lookup_insert_ne by congruence. reflexivity.
      + eexists. split.
        * cbn [Pppoe.gLinks Pppoe.set_gLinks]. eapply lookup_updated.
          eapply lookup_updated. eapply lookup_updated. exact Hl.
        * cbv beta.
          cbn [Pppoe.lnk_info Pppoe.set_info Pppoe.iface Pppoe.path
               Pppoe.hook Pppoe.set_iface Pppoe.set_path Pppoe.set_hook].
          split; [ reflexivity | ]. split; [ | reflexivity ].
          unfold Y, X.
          rewrite strlcpy_twice
            by (unfold Pppoe.IFNAMSIZ, Pppoe.MAX_PATH; lia).
          reflexivity. }
  destruct Hres as [-> [Ho (l' & Hl' & Hi & Hp & Hk)]].
  split; [ reflexivity | ]. split; [ exact Ho | ].
  exists l'. split; [ exact Hl' | ].
  rewrite Hi, Hp, Hk. split; [ reflexivity | ]. split; [ reflexivity | ].
  unfold Y. split; [ apply iface_path_length; exact HX | ].
  split; [ apply iface_path_end; exact HX | ].
  intros i c Hg. apply iface_path_get; [ exact HX | exact Hg ].
Qed.

Lemma set_iface_node_path_witness :
  0 = 0
  /\ (forall k', k' <> 0%nat ->
        Pppoe.gLinks Demo.w_iface !! k' = Pppoe.gLinks Demo.w_created !! k')
  /\ exists l',
       Pppoe.gLinks Demo.w_iface !! 0%nat = Some (Some l')
       /\ Pppoe.iface (Pppoe.lnk_info l') = Libc.strlcpy "em0" Pppoe.IFNAMSIZ
       /\ Pppoe.hook (Pppoe.lnk_info l')
          = Libc.strlcpy Pppoe.ETHER_DEFAULT_HOOK Pppoe.NG_HOOKSIZ
       /\ String.length (Pppoe.path (Pppoe.lnk_info l'))
          = S (String.length (Pppoe.iface (Pppoe.lnk_info l')))
       /\ String.get (String.length (Pppoe.iface (Pppoe.lnk_info l')))
            (Pppoe.path (Pppoe.lnk_info l')) = Some ":"%char
       /\ (forall i c,
             String.get i (Pppoe.iface (Pppoe.lnk_info l')) = Some c ->
             String.get i (Pppoe.path (Pppoe.lnk_info l'))
             = Some (if Ascii.eqb c "." || Ascii.eqb c ":"
                     then "_"%char else c)).
Proof.
  apply (set_iface_node_path Demo.host_ok 0 "em0" [] Demo.w_created
           Demo.w_iface 0).
  - cbn. lia.
  - vm_compute. reflexivity.
Defined.

Section SetAndListener.
Import Libc TagCodec Pppoe.
Variable host : Host.
Variable k : nat.
Variable G : list (option Link).
Variable Q : Link -> Prop.

(** [set pppoe service] on a listening link: the listener is taken
    anew, the parent stays. *)
Lemma At_relisten_session :
  (forall l v, Q l -> Q (set_info (set_plist v (lnk_info l)) l)) ->
  preserves (AtQ k G Q) (relisten host k false).
Proof.
  intros HQ. unfold relisten. cbv iota.
  pres_walk
    ltac:(intros; eapply AtQ_same; [ reflexivity | assumption ])
    ltac:(first [ apply At_PppoeListen | apply At_PppoeUnListen ];
          exact HQ).
Qed.

(** On a link without a listener there is nothing to take anew. *)
Lemma At_relisten_idle (with_node : bool) :
  (forall l, Q l -> plist (lnk_info l) = None) ->
  preserves (AtQ k G Q) (relisten host k with_node).
Proof.
  intros HQ w a w' HA H. unfold relisten in H.
  apply bind_inv in H as (pe & w1 & H1 & H).
  apply getInfo_inv in H1 as [-> (l1 & Hl1 & ->)].
  pose proof HA as [_ (l2 & Hl2 & Hq)].
  rewrite Hl1 in Hl2. inversion Hl2. subst l2.
  rewrite (HQ _ Hq) in H. cbv [ret] in H. inversion H. subst. exact HA.
Qed.

End SetAndListener.

(** X19.  What a set command leaves alone: whatever the option and its
    arguments, accepted or not, the link keeps its state, its [incoming]
    and [opened] flags, its connect timer, the peer address, the
    [real_session], both agent ids and [mp_reply]; and no other link is
    touched.  The parent [pi->PIf] is kept as well by every command but
    [set pppoe iface] on a link that holds a listener: that one releases
    the parent and looks up the one of the new interface without a look
    at the state of the link, so a call in progress may lose its
    parent. *)
Theorem set_command_keeps_session_data (host : Pppoe.Host) (k : nat)
    (av : list string) (arg : Pppoe.set_option) (w w' : Pppoe.World)
    (l : Pppoe.Link) (r : Z) :
  Pppoe.gLinks w !! k = Some (Some l) ->
  Pppoe.PppoeSetCommand host k av arg w = Pppoe.Ok r w' ->
  (forall k', k' <> k -> Pppoe.gLinks w' !! k' = Pppoe.gLinks w !! k')
  /\ exists l',
       Pppoe.gLinks w' !! k = Some (Some l')
       /\ same_call l l'
       /\ (arg <> Pppoe.SET_IFACE \/ Pppoe.plist (Pppoe.lnk_info l) = None ->
           Pppoe.PIf (Pppoe.lnk_info l') = Pppoe.PIf (Pppoe.lnk_info l)).
Proof.
  intros Hl H.
  assert (Hp : preserves (AtQ k (Pppoe.gLinks w) (same_call l))
                 (Pppoe.PppoeSetCommand host k av arg)).
  { unfold Pppoe.PppoeSetCommand.
    pres_walk
      ltac:(intros;
            first
              [ eapply AtQ_same; [ reflexivity | assumption ]
              | eapply AtQ_put;
                [ eassumption | assumption
                | let H := fresh "H" in
                  intros H; unfold same_call in *; ok_fields; exact H ] ])
      ltac:(apply At_relisten;
            intros ? ? Hq; unfold same_call in *; ok_fields; exact Hq). }
  destruct (Hp w r w') as [Ho (l' & Hl' & Hsame)]; [ | exact H | ].
  { apply (AtQ_start k w l); [ exact Hl | ].
    unfold same_call. repeat split; reflexivity. }
  split; [ exact Ho | ]. exists l'. split; [ exact Hl' | ].
  split; [ exact Hsame | ]. intros Hcase.
  assert (Hq : preserves
                 (AtQ k (Pppoe.gLinks w)
                    (fun x =>
                       Pppoe.PIf (Pppoe.lnk_info x)
                       = Pppoe.PIf (Pppoe.lnk_info l)
                       /\ (arg = Pppoe.SET_IFACE ->
                           Pppoe.plist (Pppoe.lnk_info x) = None)))
                 (Pppoe.PppoeSetCommand host k av arg)).
  { unfold Pppoe.PppoeSetCommand.
    destruct arg;
      pres_walk
        ltac:(intros;
              first
                [ eapply AtQ_same; [ reflexivity | assumption ]
                | eapply AtQ_put;
                  [ eassumption | assumption
                  | let H := fresh "H" in
                    intros H; ok_fields; exact H ] ])
        ltac:(first
                [ apply At_relisten_idle; intros ? [_ Hn]; apply Hn;
                  reflexivity
                | apply At_relisten_session; intros ? ? [Hq1 _];
                  ok_fields; split; [ exact Hq1 | discriminate ] ]). }
  destruct (Hq w r w') as [_ (l'' & Hl'' & Hpar & _)]; [ | exact H | ].
  { apply (AtQ_start k w l); [ exact Hl | ].
    split; [ reflexivity | ]. intros ->.
    destruct Hcase as [Hne | Hn]; [ congruence | exact Hn ]. }
  rewrite Hl' in Hl''. inversion Hl''. subst l''. exact Hpar.
Qed.

Lemma set_command_keeps_session_data_witness :
  (forall k', k' <> 0%nat ->
     Pppoe.gLinks
       (Demo.world_after
          (Pppoe.PppoeSetCommand Demo.host_ok 0 ["ietf"] Pppoe.SET_MAC_FORMAT)
          Demo.w_up) !! k'
     = Pppoe.gLinks Demo.w_up !! k')
  /\ exists l',
       Pppoe.gLinks
         (Demo.world_after
            (Pppoe.PppoeSetCommand Demo.host_ok 0 ["ietf"]
               Pppoe.SET_MAC_FORMAT) Demo.w_up) !! 0%nat
       = Some (Some l')
       /\ same_call (Demo.link_of Demo.w_up 0) l'
       /\ Pppoe.PIf (Pppoe.lnk_info l')
          = Pppoe.PIf (Pppoe.lnk_info (Demo.link_of Demo.w_up 0)).
Proof.
  destruct (set_command_keeps_session_data Demo.host_ok 0 ["ietf"]
              Pppoe.SET_MAC_FORMAT Demo.w_up
              (Demo.world_after
                 (Pppoe.PppoeSetCommand Demo.host_ok 0 ["ietf"]
                    Pppoe.SET_MAC_FORMAT) Demo.w_up)
              (Demo.link_of Demo.w_up 0) 0
              ltac:(vm_compute; reflexivity) ltac:(vm_compute; reflexivity))
    as [Ho (l' & Hl' & Hsame & Hpar)].
  split; [ exact Ho | ]. exists l'. split; [ exact Hl' | ].
  split; [ exact Hsame | ]. apply Hpar. left. discriminate.
Defined.

(* ===================================================================== *)
(** * Requests that are not accepted                                      *)
(* ===================================================================== *)

(** The run so far has written to the log and done nothing else. *)
Definition Quiet (w0 w : Pppoe.World) : Prop :=
  Pppoe.gLinks w = Pppoe.gLinks w0
  /\ Pppoe.PppoeIfs w = Pppoe.PppoeIfs w0
  /\ Pppoe.heap w = Pppoe.heap w0
  /\ Pppoe.gNgEtherLoaded w = Pppoe.gNgEtherLoaded w0
  /\ exists logs,
       Pppoe.trace w
       = Pppoe.trace w0 ++ map (fun lt => Pppoe.EvLog (fst lt) (snd lt)) logs.

Section NotAccepted.
Import Libc TagCodec Pppoe.
Variable host : Host.

Lemma Quiet_start (w : World) : Quiet w w.
Proof.
  repeat split. exists []. cbn [map]. rewrite app_nil_r. reflexivity.
Qed.

Lemma Quiet_log (w0 w : World) lvl text :
  Quiet w0 w -> Quiet w0 (set_trace (trace w ++ [EvLog lvl text]) w).
Proof.
  intros (H1 & H2 & H3 & H4 & logs & H5).
  repeat split; try assumption.
  exists (logs ++ [(lvl, text)]). cbn [trace set_trace].
  rewrite H5, map_app, <- app_assoc. reflexivity.
Qed.

Lemma Quiet_Log (w0 : World) lvl text : preserves (Quiet w0) (Log lvl text).
Proof.
  unfold Log. apply pres_emit. intros w H. apply Quiet_log. exact H.
Qed.

Lemma Quiet_log_tags (w0 : World) tags : preserves (Quiet w0) (log_tags tags).
Proof.
  induction tags as [ | t tags IH ]; simpl.
  - apply pres_ret.
  - apply pres_bind; [ apply Quiet_Log | intros _; exact IH ].
Qed.

(** ... and has written [n] lines. *)
Definition QuietAt (w0 : World) (n : nat) (w : World) : Prop :=
  Quiet w0 w /\ length (trace w) = (length (trace w0) + n)%nat.

Lemma QuietAt_Log (w0 : World) (n : nat) lvl text :
  hoare (QuietAt w0 n) (Log lvl text) (fun _ => QuietAt w0 (S n)).
Proof.
  intros w a w' [HQ Hn] H. unfold Log in H. prim_inv H. split.
  - apply Quiet_log. exact HQ.
  - cbn [trace set_trace]. rewrite length_app, Hn. cbn [length]. lia.
Qed.

Lemma QuietAt_log_tags (w0 : World) tags :
  forall n,
    hoare (QuietAt w0 n) (log_tags tags)
      (fun _ => QuietAt w0 (n + length tags)).
Proof.
  induction tags as [ | t tags IH ]; intros n; simpl.
  - intros w a w' HQ H. cbv [ret] in H. inversion H. subst.
    rewrite Nat.add_0_r. exact HQ.
  - eapply hoare_bind; [ apply QuietAt_Log | intros ?; cbv beta ].
    replace (n + S (length tags))%nat with (S n + length tags)%nat by lia.
    apply IH.
Qed.

(** The time at which [PppoeListenEvent] looks at
    [gShutdownInProgress] and then at [OVERLOAD()]: it has logged the
    request and, at log level PHYS3, one line for each tag. *)
Definition flags_read_at (response : mem) (w : World) : nat :=
  (length (trace w) + 1
   + (if gLogOptions_PHYS3 host
      then length (print_tags response sizeof_ether_header)
      else 0))%nat.

End NotAccepted.

(** X20.  The requests that [PppoeListenEvent] does not accept leave
    everything as it was and send nothing; they are only logged.  These
    are: a failed or empty read ([sz] is -1 or 0), data from a hook whose
    name does not start with [listen-], a frame shorter than the Ethernet
    and PPPoE headers, a request that finds [gShutdownInProgress] set or
    the daemon overloaded at the moment the function looks at them (once
    each, after it has logged the request), and a request for which no
    PPPoE link is free, attached to this parent, configured for the
    session of the hook and enabled for incoming calls. *)
Theorem listen_event_ignored (host : Pppoe.Host) (p : nat) (sz : Z)
    (response : TagCodec.mem) (rhook : string) (w w' : Pppoe.World) :
  Pppoe.PppoeListenEvent host p sz response rhook w = Pppoe.Ok tt w' ->
  sz = -1 \/ sz = 0 \/ Libc.strncmp_eq rhook "listen-" 7 = false
  \/ Libc.size_t_of sz < TagCodec.sizeof_pppoe_full_hdr
  \/ Pppoe.host_gShutdownInProgress host (flags_read_at host response w) = true
  \/ Pppoe.host_OVERLOAD host (flags_read_at host response w) = true
  \/ Pppoe.scan_links host (Pppoe.gLinks w) 0 p (Libc.advance 7 rhook) = None ->
  Quiet w w'.
Proof.
  intros H Hcase.
  assert (Hq : forall c : Pppoe.M unit,
             preserves (Quiet w) c -> c w = Pppoe.Ok tt w' -> Quiet w w').
  { intros c Hc Hr. exact (Hc w tt w' (Quiet_start w) Hr). }
  unfold Pppoe.PppoeListenEvent in H.
  destruct (Z.eqb_spec sz (-1)) as [E1 | N1];
    [ revert H; apply Hq; apply Quiet_Log | ].
  destruct (Z.eqb_spec sz 0) as [E0 | N0];
    [ revert H; apply Hq; apply Quiet_Log | ].
  destruct (Libc.strncmp_eq rhook "listen-" 7) eqn:Eh; cbn [negb] in H;
    [ | revert H; apply Hq; apply Quiet_Log ].
  destruct (Z.ltb_spec (Libc.size_t_of sz) TagCodec.sizeof_pppoe_full_hdr)
    as [Et | Nt]; [ revert H; apply Hq; apply Quiet_Log | ].
  cbv zeta in H.
  apply bind_inv in H as (u1 & w1 & H1 & H).
  apply bind_inv in H as (u2 & w2 & H2 & H).
  apply bind_inv in H as (t & w3 & H3 & H).
  assert (HQ1 : QuietAt w 1 w1).
  { eapply (QuietAt_Log w 0); [ | exact H1 ].
    split; [ apply Quiet_start | lia ]. }
  assert (HQ2 : QuietAt w
                  (1 + (if Pppoe.gLogOptions_PHYS3 host
                        then length (TagCodec.print_tags response
                                       TagCodec.sizeof_ether_header)
                        else 0)) w2).
  { destruct (Pppoe.gLogOptions_PHYS3 host).
    - exact (QuietAt_log_tags w _ 1 w1 u2 w2 HQ1 H2).
    - cbv [Pppoe.ret] in H2. inversion H2. subst. exact HQ1. }
  assert (Et : t = flags_read_at host response w /\ w3 = w2).
  { unfold Pppoe.now in H3. inversion H3. subst. split; [ | reflexivity ].
    unfold flags_read_at. destruct HQ2 as [_ ->]. lia. }
  destruct Et as [-> ->]. destruct HQ2 as [HQ2 _]. revert H.
  assert (Hq2 : forall c : Pppoe.M unit,
             preserves (Quiet w) c -> c w2 = Pppoe.Ok tt w' -> Quiet w w').
  { intros c Hc Hr. exact (Hc w2 tt w' HQ2 Hr). }
  destruct (Pppoe.host_gShutdownInProgress host (flags_read_at host response w))
    eqn:Es; [ apply Hq2; apply Quiet_Log | ].
  destruct (Pppoe.host_OVERLOAD host (flags_read_at host response w)) eqn:Eo;
    [ apply Hq2; apply Quiet_Log | ].
  destruct Hcase as [Hc | [Hc | [Hc | [Hc | [Hc | [Hc | Hc]]]]]];
    try contradiction; try congruence; try lia.
  intros Hr.
  apply bind_inv in Hr as (w1' & w1'' & Hg & Hr). prim_inv Hg.
  destruct HQ2 as (HG & HI). rewrite HG, Hc in Hr.
  apply bind_inv in Hr as (ch & w4 & Hch & Hr). prim_inv Hch.
  revert Hr. apply Quiet_Log. split; assumption.
Qed.

(** A well-formed request for the service of a listening link, received
    when the shutdown has just begun: the flag was clear when the event
    was delivered and is set when the function looks at it. *)
Lemma listen_event_ignored_witness :
  Pppoe.host_gShutdownInProgress
    (Demo.host_stopping (length (Pppoe.trace Demo.w_listening) + 1))
    (length (Pppoe.trace Demo.w_listening)) = false
  /\ Quiet Demo.w_listening
       (Demo.world_after
          (Pppoe.PppoeListenEvent
             (Demo.host_stopping (length (Pppoe.trace Demo.w_listening) + 1))
             4095 56 (TagCodec.mem_of_bytes Demo.agent_frame) "listen-isp")
          Demo.w_listening).
Proof.
  split; [ vm_compute; reflexivity | ].
  apply (listen_event_ignored
           (Demo.host_stopping (length (Pppoe.trace Demo.w_listening) + 1))
           4095 56 (TagCodec.mem_of_bytes Demo.agent_frame) "listen-isp"
           Demo.w_listening).
  - vm_compute. reflexivity.
  - right. right. right. right. left. vm_compute. reflexivity.
Defined.

(* ===================================================================== *)
(** * The search for a free link                                          *)
(* ===================================================================== *)

(** What the loop of [PppoeListenEvent] asks of a link. *)
Definition wanted (host : Pppoe.Host) (p : nat) (sess : string)
    (l : Pppoe.Link) : Prop :=
  Pppoe.lnk_type l = Pppoe.gPppoePhysType
  /\ Pppoe.host_PhysIsBusy host l = false
  /\ Pppoe.PIf (Pppoe.lnk_info l) = Some p
  /\ Pppoe.session (Pppoe.lnk_info l) = sess
  /\ Pppoe.incoming_enable l = true.

Section Scan.
Import Libc TagCodec Pppoe.
Variable host : Host.

Lemma wanted_test (p : nat) (sess : string) (l : Link) :
  lnk_type l = gPppoePhysType ->
  negb (host_PhysIsBusy host l)
  && option_nat_eqb (PIf (lnk_info l)) (Some p)
  && streq (session (lnk_info l)) sess
  && incoming_enable l = true
  <-> wanted host p sess l.
Proof.
  intros Ht. unfold wanted, streq.
  rewrite !andb_true_iff, negb_true_iff, option_nat_eqb_eq, String.eqb_eq.
  tauto.
Qed.

Lemma scan_links_from (ls : list (option Link)) (k0 : nat) (p : nat)
    (sess : string) :
  match scan_links host ls k0 p sess with
  | Some k =>
      (k0 <= k)%nat
      /\ (exists l, ls !! (k - k0)%nat = Some (Some l)
                    /\ wanted host p sess l)
      /\ forall j l', (j < k - k0)%nat -> ls !! j = Some (Some l') ->
                      ~ wanted host p sess l'
  | None =>
      forall j l', ls !! j = Some (Some l') -> ~ wanted host p sess l'
  end.
Proof.
  revert k0. induction ls as [ | ol ls IH ]; intros k0;
    cbn [scan_links].
  - intros j l' H. discriminate.
  - assert (Hskip :
      (forall l, ol = Some l -> ~ wanted host p sess l) ->
      match scan_links host ls (S k0) p sess with
      | Some k =>
          (k0 <= k)%nat
          /\ (exists l, (ol :: ls) !! (k - k0)%nat = Some (Some l)
                        /\ wanted host p sess l)
          /\ forall j l', (j < k - k0)%nat ->
                          (ol :: ls) !! j = Some (Some l') ->
                          ~ wanted host p sess l'
      | None =>
          forall j l', (ol :: ls) !! j = Some (Some l') ->
                       ~ wanted host p sess l'
      end).
    { intros Hol. specialize (IH (S k0)).
      destruct (scan_links host ls (S k0) p sess) as [k | ].
      - destruct IH as (Hle & (l & Hl & Hw) & Hbefore).
        split; [ lia | ]. split.
        + exists l. split; [ | exact Hw ].
          replace (k - k0)%nat with (S (k - S k0)) by lia. exact Hl.
        + intros j l' Hj Hl'. destruct j as [ | j ].
          * cbn in Hl'. injection Hl' as Hl'. apply Hol. exact Hl'.
          * cbn in Hl'. apply (Hbefore j); [ lia | exact Hl' ].
      - intros j l' Hl'. destruct j as [ | j ].
        + cbn in Hl'. injection Hl' as Hl'. apply Hol. exact Hl'.
        + cbn in Hl'. apply (IH j). exact Hl'. }
    destruct ol as [l2 | ]; [ | apply Hskip; intros l E; discriminate ].
    destruct (lnk_type l2) eqn:Et.
    + destruct (negb (host_PhysIsBusy host l2)
                && option_nat_eqb (PIf (lnk_info l2)) (Some p)
                && streq (session (lnk_info l2)) sess
                && incoming_enable l2) eqn:E.
      * apply (wanted_test p sess l2 Et) in E.
        split; [ lia | ]. split.
        -- exists l2. rewrite Nat.sub_diag. split; [ reflexivity | exact E ].
        -- intros j l' Hj. lia.
      * apply Hskip. intros l El. injection El as <-.
        intros Hw. apply (wanted_test p sess l2 Et) in Hw. congruence.
    + apply Hskip. intros l El. injection El as <-.
      intros (Hw & _). congruence.
Qed.

End Scan.

(** X21.  The loop of [PppoeListenEvent] that looks for a link to take an
    incoming request finds the first slot of [gLinks] whose link is a
    PPPoE link, not busy, attached to the parent the request came in on,
    configured for the requested session and enabled for incoming calls;
    it finds none only when no slot holds such a link. *)
Theorem scan_links_first_wanted (host : Pppoe.Host)
    (ls : list (option Pppoe.Link)) (p : nat) (sess : string) :
  match Pppoe.scan_links host ls 0 p sess with
  | Some k =>
      (exists l, ls !! k = Some (Some l) /\ wanted host p sess l)
      /\ forall j l', (j < k)%nat -> ls !! j = Some (Some l') ->
                      ~ wanted host p sess l'
  | None => forall j l', ls !! j = Some (Some l') -> ~ wanted host p sess l'
  end.
Proof.
  pose proof (scan_links_from host ls 0 p sess) as H.
  destruct (Pppoe.scan_links host ls 0 p sess) as [k | ]; [ | exact H ].
  rewrite Nat.sub_0_r in H. destruct H as (_ & H1 & H2).
  split; assumption.
Qed.

(* ===================================================================== *)
(** * Closing twice                                                       *)
(* ===================================================================== *)

Section ClosedLink.
Import Libc TagCodec Pppoe.
Variable host : Host.

Definition closed (l : Link) : Prop :=
  lnk_state l = PHYS_STATE_DOWN /\ opened (lnk_info l) = false.

Lemma at_modLink k G Q (f : Link -> Link) :
  hoare (AtQ k G Q) (modLink k f)
    (fun _ => AtQ k G (fun l' => exists l0, Q l0 /\ l' = f l0)).
Proof.
  intros w a w' [Ho (l0 & Hl0 & Hq)] Hc.
  apply modLink_inv in Hc as (l & Hl & ->).
  rewrite Hl in Hl0. inversion Hl0. subst l0. split.
  - intros k' Hne. cbn [gLinks set_gLinks].
    rewrite list_lookup_insert_ne by congruence. auto.
  - exists (f l). split; [ | eauto ].
    cbn [gLinks set_gLinks]. eapply lookup_updated. eassumption.
Qed.

Lemma at_getLink k G Q :
  hoare (AtQ k G Q) (getLink k)
    (fun l => AtQ k G (fun l' => l' = l /\ Q l')).
Proof.
  intros w l w' [Ho (l0 & Hl0 & Hq)] Hc.
  apply getLink_inv in Hc as [-> Hl]. rewrite Hl in Hl0.
  inversion Hl0. subst l0. split; [ exact Ho | eauto ].
Qed.

Lemma AtQ_weaken k G (Q Q' : Link -> Prop) (w : World) :
  (forall l, Q l -> Q' l) -> AtQ k G Q w -> AtQ k G Q' w.
Proof. intros HQ [Ho (l & Hl & Hq)]. split; [ exact Ho | eauto ]. Qed.

(** After [PppoeDoClose] the link is DOWN; [opened] is not written. *)
Lemma DoClose_closes k G :
  hoare (AtQ k G (fun l => opened (lnk_info l) = false))
    (PppoeDoClose host k) (fun _ => AtQ k G closed).
Proof.
  unfold PppoeDoClose.
  eapply hoare_bind; [ apply at_getLink | intros l; cbv beta ].
  destruct (phys_state_eqb (lnk_state l) PHYS_STATE_DOWN) eqn:E.
  - apply phys_state_eqb_eq in E.
    apply hoare_pres_post; [ apply pres_ret | ].
    intros _ w H. eapply AtQ_weaken; [ | exact H ].
    intros l' [-> Ho]. split; assumption.
  - eapply hoare_pre
      with (P := AtQ k G (fun l => opened (lnk_info l) = false)).
    { intros w H. eapply AtQ_weaken; [ | exact H ].
      intros l' [_ Ho]. exact Ho. }
    eapply hoare_bind_pres; [ apply pres_parentOf | intros pp ].
    eapply hoare_bind_pres; [ pres_walk at_side fail | intros ? ].
    eapply hoare_bind_pres; [ pres_walk at_side fail | intros ? ].
    eapply hoare_bind; [ apply at_modLink | intros ?; cbv beta ].
    eapply hoare_pre with (P := AtQ k G closed).
    { intros w H. eapply AtQ_weaken; [ | exact H ].
      intros l' (l0 & Ho & ->). split; [ reflexivity | exact Ho ]. }
    apply hoare_pres.
    pres_walk
      ltac:(intros;
            first
              [ eapply AtQ_same; [ reflexivity | assumption ]
              | eapply AtQ_put;
                [ eassumption | assumption
                | let H := fresh "H" in
                  intros H; unfold closed in *; ok_fields; exact H ] ])
      fail.
Qed.

Lemma PppoeClose_closes k (w w1 : World) :
  PppoeClose host k w = Ok tt w1 ->
  exists l1, gLinks w1 !! k = Some (Some l1) /\ closed l1.
Proof.
  intros H.
  assert (Hh : hoare (AtQ k (gLinks w) (fun _ => True))
                 (PppoeClose host k)
                 (fun _ => AtQ k (gLinks w) closed)).
  { unfold PppoeClose.
    eapply hoare_bind; [ apply at_modLink | intros ?; cbv beta ].
    eapply hoare_pre
      with (P := AtQ k (gLinks w) (fun l => opened (lnk_info l) = false)).
    { intros w0 H0. eapply AtQ_weaken; [ | exact H0 ].
      intros l' (l0 & _ & ->). reflexivity. }
    eapply hoare_bind; [ apply at_getLink | intros l; cbv beta ].
    destruct (phys_state_eqb (lnk_state l) PHYS_STATE_DOWN) eqn:E.
    - apply phys_state_eqb_eq in E.
      apply hoare_pres_post; [ apply pres_ret | ].
      intros _ w0 H0. eapply AtQ_weaken; [ | exact H0 ].
      intros l' [-> Ho]. split; assumption.
    - eapply hoare_pre
        with (P := AtQ k (gLinks w)
                     (fun l => opened (lnk_info l) = false)).
      { intros w0 H0. eapply AtQ_weaken; [ | exact H0 ].
        intros l' [_ Ho]. exact Ho. }
      eapply hoare_bind; [ apply DoClose_closes | intros ?; cbv beta ].
      apply hoare_pres. pres_walk at_side fail. }
  pose proof H as H'. unfold PppoeClose in H'.
  apply bind_inv in H' as (u & w0 & H1 & _).
  apply modLink_inv in H1 as (l & Hl & _).
  destruct (Hh w tt w1 (AtQ_start k w l (fun _ => True) Hl I) H)
    as [_ Hex].
  exact Hex.
Qed.

Lemma set_opened_same (l : Link) :
  opened (lnk_info l) = false ->
  set_info (set_opened false (lnk_info l)) l = l.
Proof.
  destruct l as [? ? ? ? ? ? ? ? ? pe]. destruct pe. cbn.
  intros ->. reflexivity.
Qed.

Lemma set_gLinks_same (w : World) : set_gLinks (gLinks w) w = w.
Proof. destruct w. reflexivity. Qed.

End ClosedLink.

(** X23.  Closing is idempotent: once [PppoeClose] has returned, a
    second [PppoeClose], or a [PppoeDoClose], on the same link changes
    nothing and calls nothing; the link is DOWN with [opened] cleared. *)
Theorem close_twice (host : Pppoe.Host) (k : nat) (w w1 : Pppoe.World) :
  Pppoe.PppoeClose host k w = Pppoe.Ok tt w1 ->
  Pppoe.PppoeClose host k w1 = Pppoe.Ok tt w1
  /\ Pppoe.PppoeDoClose host k w1 = Pppoe.Ok tt w1
  /\ exists l1,
       Pppoe.gLinks w1 !! k = Some (Some l1)
       /\ Pppoe.lnk_state l1 = Pppoe.PHYS_STATE_DOWN
       /\ Pppoe.opened (Pppoe.lnk_info l1) = false.
Proof.
  intros H.
  destruct (PppoeClose_closes host k w w1 H) as (l1 & Hl1 & Hs & Ho).
  split; [ | split; [ | eauto ] ].
  - unfold Pppoe.PppoeClose.
    erewrite bind_Ok by (apply modInfo_Ok; exact Hl1).
    rewrite (set_opened_same l1 Ho).
    rewrite list_insert_id by exact Hl1.
    rewrite set_gLinks_same.
    erewrite bind_Ok by (apply getLink_Ok; exact Hl1).
    rewrite Hs. reflexivity.
  - apply (PppoeDoClose_down host w1 k l1 Hl1 Hs).
Qed.

Lemma close_twice_witness :
  Pppoe.PppoeClose Demo.host_ok 0
    (Demo.world_after (Pppoe.PppoeClose Demo.host_ok 0) Demo.w_up)
  = Pppoe.Ok tt (Demo.world_after (Pppoe.PppoeClose Demo.host_ok 0) Demo.w_up)
  /\ Pppoe.PppoeDoClose Demo.host_ok 0
       (Demo.world_after (Pppoe.PppoeClose Demo.host_ok 0) Demo.w_up)
     = Pppoe.Ok tt
         (Demo.world_after (Pppoe.PppoeClose Demo.host_ok 0) Demo.w_up)
  /\ exists l1,
       Pppoe.gLinks
         (Demo.world_after (Pppoe.PppoeClose Demo.host_ok 0) Demo.w_up)
       !! 0%nat = Some (Some l1)
       /\ Pppoe.lnk_state l1 = Pppoe.PHYS_STATE_DOWN
       /\ Pppoe.opened (Pppoe.lnk_info l1) = false.
Proof.
  apply (close_twice Demo.host_ok 0 Demo.w_up).
  vm_compute. reflexivity.
Defined.

(* ===================================================================== *)
(** * Updating the node of a link in use                                  *)
(* ===================================================================== *)

Section NodeUpdate.
Import Libc TagCodec Pppoe.
Variable host : Host.



End NodeUpdate.



(* ===================================================================== *)
(** * Listening and not listening any more                                *)
(* ===================================================================== *)

Section Listeners.
Import Libc TagCodec Pppoe.
Variable host : Host.

(** Links, parents and listener records are these. *)
Definition Core (A : list (option Link)) (B : list PppoeIf)
    (C : list (option PppoeList)) (w : World) : Prop :=
  gLinks w = A /\ PppoeIfs w = B /\ heap w = C.

Lemma getList_inv (a : nat) (w w' : World) (pl : PppoeList) :
  getList a w = Ok pl w' -> w' = w /\ heap w !! a = Some (Some pl).
Proof.
  unfold getList. destruct (heap w !! a) as [[pl0 | ] | ];
    intros H; inversion H; subst; auto.
Qed.

(** The [SLIST_FOREACH] of [PppoeListen]: the first record with the
    wanted session, if there is one. *)
Lemma slist_find_inv (ls : list nat) (s : string) (w w' : World)
    (r : option nat) :
  slist_find ls s w = Ok r w' ->
  w' = w
  /\ match r with
     | Some a =>
         In a ls /\ exists pl, heap w !! a = Some (Some pl)
                               /\ pl_session pl = s
     | None =>
         forall a pl, In a ls -> heap w !! a = Some (Some pl) ->
                      pl_session pl <> s
     end.
Proof.
  induction ls as [ | a0 ls IH ]; simpl; intros H.
  - cbv [ret] in H. injection H as <- <-.
    split; [ reflexivity | intros a pl [] ].
  - apply bind_inv in H as (pl & w1 & H1 & H).
    apply getList_inv in H1 as [-> Hpl].
    destruct (streq (pl_session pl) s) eqn:E.
    + cbv [ret] in H. injection H as <- <-.
      apply String.eqb_eq in E.
      split; [ reflexivity | ]. split; [ left; reflexivity | eauto ].
    + apply String.eqb_neq in E.
      apply IH in H as [-> Hr]. split; [ reflexivity | ].
      destruct r as [a | ].
      * destruct Hr as [Hin Hex]. split; [ right; exact Hin | exact Hex ].
      * intros a pl' [<- | Hin] Ha; [ | eauto ].
        rewrite Hpl in Ha. inversion Ha. subst pl'. exact E.
Qed.

Lemma set_plist_back (l : Link) (a : option nat) :
  plist (lnk_info l) = None ->
  set_info
    (set_plist None (lnk_info (set_info (set_plist a (lnk_info l)) l)))
    (set_info (set_plist a (lnk_info l)) l) = l.
Proof.
  destruct l as [? ? ? ? ? ? ? ? ? pe]. destruct pe. cbn.
  intros ->. reflexivity.
Qed.

Lemma set_listeners_back (e : PppoeIf) (a : nat) :
  set_listeners (slist_remove a (listeners (set_listeners (a :: listeners e) e)))
    (set_listeners (a :: listeners e) e) = e.
Proof.
  destruct e. cbn. rewrite Nat.eqb_refl. reflexivity.
Qed.

(** What [PppoeListen] does for a link with a parent and without a
    listener: it shares the listener of its session, or makes one. *)
Lemma PppoeListen_result (k p : nat) (l : Link) (e : PppoeIf)
    (w w1 : World) (r1 : Z) :
  gLinks w !! k = Some (Some l) -> plist (lnk_info l) = None ->
  PIf (lnk_info l) = Some p -> PppoeIfs w !! p = Some e ->
  PppoeListen host k w = Ok r1 w1 ->
  (exists a pl,
      In a (listeners e) /\ heap w !! a = Some (Some pl)
      /\ pl_session pl = session (lnk_info l)
      /\ Core (<[k := Some (set_info (set_plist (Some a) (lnk_info l)) l)]>
                 (gLinks w))
           (PppoeIfs w)
           (<[a := Some {| pl_session := pl_session pl;
                           pl_refs := pl_refs pl + 1 |}]> (heap w)) w1)
  \/ (exists pl,
        (forall a pl', In a (listeners e) ->
                       heap w !! a = Some (Some pl') ->
                       pl_session pl' <> session (lnk_info l))
        /\ pl_session pl = strlcpy (session (lnk_info l))
                              (Z.to_nat MAX_SESSION)
        /\ pl_refs pl = 1
        /\ Core (<[k := Some (set_info
                                (set_plist (Some (length (heap w)))
                                   (lnk_info l)) l)]> (gLinks w))
             (<[p := set_listeners (length (heap w) :: listeners e) e]>
                (PppoeIfs w))
             (heap w ++ [Some pl]) w1).
Proof.
  intros Hl Hn Hp He H. unfold PppoeListen in H.
  erewrite bind_Ok in H by (apply getInfo_Ok; exact Hl).
  rewrite Hn, Hp in H.
  erewrite bind_Ok in H by (apply getIf_Ok; exact He).
  apply bind_inv in H as (found & w0 & Hf & H).
  apply slist_find_inv in Hf as [-> Hfound].
  destruct found as [a | ].
  - left. destruct Hfound as (Hin & pl1 & Hpl1 & Hses).
    apply bind_inv in H as (pl & w0 & Hg & H).
    apply getList_inv in Hg as [-> Hpl].
    rewrite Hpl1 in Hpl. inversion Hpl. subst pl1. clear Hpl.
    rename Hpl1 into Hpl.
    apply bind_inv in H as (u & w0 & Hs & H).
    unfold setList in Hs. prim_inv Hs.
    apply bind_inv in H as (u' & w0 & Hm & H).
    apply modLink_inv in Hm as (l0 & Hl0 & ->).
    cbn [gLinks set_heap] in Hl0. rewrite Hl in Hl0.
    inversion Hl0. subst l0. clear Hl0.
    cbv [ret] in H. injection H as <- <-.
    exists a, pl. split; [ exact Hin | ]. split; [ exact Hpl | ].
    split; [ exact Hses | ]. repeat split.
  - right.
    apply bind_inv in H as (a & w0 & Hs & H).
    cbv [Malloc_list] in Hs. injection Hs as <- <-.
    apply bind_inv in H as (u' & w0 & Hm & H).
    apply modLink_inv in Hm as (l0 & Hl0 & ->).
    cbn [gLinks set_heap] in Hl0. rewrite Hl in Hl0.
    inversion Hl0. subst l0. clear Hl0.
    apply bind_inv in H as (u2 & w0 & Hi & H).
    apply modIf_inv in Hi as (e0 & He0 & ->).
    cbn [PppoeIfs set_gLinks set_heap] in He0. rewrite He in He0.
    inversion He0. subst e0. clear He0.
    exists {| pl_session := strlcpy (session (lnk_info l))
                              (Z.to_nat MAX_SESSION);
              pl_refs := 1 |}.
    split; [ exact Hfound | ].
    split; [ reflexivity | ]. split; [ reflexivity | revert H ].
    match goal with
    | |- ?c ?w0 = Ok r1 w1 -> Core ?A ?B ?C w1 =>
        assert (Hc : preserves (Core A B C) c)
    end.
    { pres_walk
        ltac:(intros ? (? & ? & ?); repeat split; assumption) fail. }
    apply Hc. repeat split.
Qed.

(** What [PppoeUnListen] does for a link that holds listener [a]. *)
Lemma PppoeUnListen_result (k p a : nat) (l : Link) (e : PppoeIf)
    (pl : PppoeList) (w w2 : World) (r2 : Z) :
  gLinks w !! k = Some (Some l) -> plist (lnk_info l) = Some a ->
  PIf (lnk_info l) = Some p -> PppoeIfs w !! p = Some e ->
  heap w !! a = Some (Some pl) ->
  PppoeUnListen host k w = Ok r2 w2 ->
  (pl_refs pl - 1 <> 0
   /\ Core (<[k := Some (set_info (set_plist None (lnk_info l)) l)]>
              (gLinks w))
        (PppoeIfs w)
        (<[a := Some {| pl_session := pl_session pl;
                        pl_refs := pl_refs pl - 1 |}]> (heap w)) w2)
  \/ (pl_refs pl - 1 = 0
      /\ Core (<[k := Some (set_info (set_plist None (lnk_info l)) l)]>
                 (gLinks w))
           (<[p := set_listeners (slist_remove a (listeners e)) e]>
              (PppoeIfs w))
           (<[a := None]> (heap w)) w2).
Proof.
  intros Hl Ha Hp He Hpl H. unfold PppoeUnListen in H.
  erewrite bind_Ok in H by (apply getInfo_Ok; exact Hl).
  rewrite Ha in H.
  apply bind_inv in H as (pl0 & w0 & Hg & H).
  apply getList_inv in Hg as [-> Hpl0]. rewrite Hpl in Hpl0.
  inversion Hpl0. subst pl0. clear Hpl0.
  apply bind_inv in H as (u & w0 & Hs & H).
  unfold setList in Hs. prim_inv Hs.
  apply bind_inv in H as (u1 & w0 & Hmid & H).
  apply bind_inv in H as (u2 & w3 & Hm & H).
  cbv [ret] in H. injection H as <- <-.
  apply modLink_inv in Hm as (l0 & Hl0 & ->).
  destruct (Z.eqb_spec (pl_refs pl - 1) 0) as [E | N].
  - right. split; [ exact E | ].
    apply bind_inv in Hmid as (pp & w4 & Hpp & Hmid).
    erewrite parentOf_Ok in Hpp; [ | exact Hl | exact Hp | exact He ].
    injection Hpp as <- <-.
    cbn [fst snd] in Hmid.
    erewrite bind_Ok in Hmid by (apply getLink_Ok; exact Hl).
    apply bind_inv in Hmid as (x1 & w5 & Hx1 & Hmid).
    assert (Hc1 : Core (gLinks w) (PppoeIfs w)
                    (<[a := Some {| pl_session := pl_session pl;
                                    pl_refs := pl_refs pl - 1 |}]> (heap w))
                    w5).
    { revert Hx1.
      match goal with
      | |- ?c _ = Ok x1 w5 -> Core ?A ?B ?C w5 =>
          assert (Hc : preserves (Core A B C) c)
      end.
      { pres_walk
          ltac:(intros ? (? & ? & ?); repeat split; assumption) fail. }
      apply Hc. repeat split. }
    apply bind_inv in Hmid as (x2 & w6 & Hx2 & Hmid).
    unfold Log in Hx2. prim_inv Hx2.
    apply bind_inv in Hmid as (x3 & w7 & Hx3 & Hmid).
    apply modIf_inv in Hx3 as (e0 & He0 & ->).
    unfold setList in Hmid. prim_inv Hmid.
    destruct Hc1 as (C1 & C2 & C3).
    cbn [gLinks PppoeIfs heap set_trace set_heap set_PppoeIfs set_gLinks]
      in *.
    rewrite C2, He in He0. inversion He0. subst e0. clear He0.
    rewrite C1, Hl in Hl0. inversion Hl0. subst l0. clear Hl0.
    rewrite C1, C2, C3. repeat split.
    apply list_insert_insert_eq.
  - left. split; [ exact N | ].
    cbv [ret] in Hmid. injection Hmid as <- <-.
    cbn [gLinks set_heap] in Hl0. rewrite Hl in Hl0.
    inversion Hl0. subst l0. clear Hl0.
    repeat split.
Qed.

End Listeners.

(** X25.  [PppoeListen] for a link that has a parent and no listener
    yet.  When a record for the link's session is on the parent's list,
    the link takes one more reference on it.  Otherwise a record with
    [refs = 1] and the session (cut to 63 characters) is allocated and put
    at the head of the list.  In both cases [pi->list] points to the
    record and nothing else changes in links, parents and records,
    whether or not the two messages to the node could be sent (the
    function then returns 0 with the listener recorded all the same). *)
Theorem listen_shares_or_creates (host : Pppoe.Host) (k p : nat)
    (l : Pppoe.Link) (e : Pppoe.PppoeIf) (w w1 : Pppoe.World) (r1 : Z) :
  Pppoe.gLinks w !! k = Some (Some l) ->
  Pppoe.plist (Pppoe.lnk_info l) = None ->
  Pppoe.PIf (Pppoe.lnk_info l) = Some p ->
  Pppoe.PppoeIfs w !! p = Some e ->
  Pppoe.PppoeListen host k w = Pppoe.Ok r1 w1 ->
  (exists a pl,
      In a (Pppoe.listeners e) /\ Pppoe.heap w !! a = Some (Some pl)
      /\ Pppoe.pl_session pl = Pppoe.session (Pppoe.lnk_info l)
      /\ Pppoe.gLinks w1
         = <[k := Some (Pppoe.set_info
                          (Pppoe.set_plist (Some a) (Pppoe.lnk_info l)) l)]>
             (Pppoe.gLinks w)
      /\ Pppoe.PppoeIfs w1 = Pppoe.PppoeIfs w
      /\ Pppoe.heap w1
         = <[a := Some {| Pppoe.pl_session := Pppoe.pl_session pl;
                          Pppoe.pl_refs := Pppoe.pl_refs pl + 1 |}]>
             (Pppoe.heap w))
  \/ (exists pl,
        (forall a pl', In a (Pppoe.listeners e) ->
                       Pppoe.heap w !! a = Some (Some pl') ->
                       Pppoe.pl_session pl'
                       <> Pppoe.session (Pppoe.lnk_info l))
        /\ Pppoe.pl_session pl
           = Libc.strlcpy (Pppoe.session (Pppoe.lnk_info l))
               (Z.to_nat TagCodec.MAX_SESSION)
        /\ Pppoe.pl_refs pl = 1
        /\ Pppoe.gLinks w1
           = <[k := Some (Pppoe.set_info
                            (Pppoe.set_plist
                               (Some (length (Pppoe.heap w)))
                               (Pppoe.lnk_info l)) l)]> (Pppoe.gLinks w)
        /\ Pppoe.PppoeIfs w1
           = <[p := Pppoe.set_listeners
                      (length (Pppoe.heap w) :: Pppoe.listeners e) e]>
               (Pppoe.PppoeIfs w)
        /\ Pppoe.heap w1 = Pppoe.heap w ++ [Some pl]).
Proof.
  intros Hl Hn Hp He H.
  exact (PppoeListen_result host k p l e w w1 r1 Hl Hn Hp He H).
Qed.

Lemma listen_shares_or_creates_witness :
  (exists a pl,
      In a (Pppoe.listeners (Demo.parent_of Demo.w_up 4095))
      /\ Pppoe.heap Demo.w_up !! a = Some (Some pl)
      /\ Pppoe.pl_session pl
         = Pppoe.session (Pppoe.lnk_info (Demo.link_of Demo.w_up 0))
      /\ Pppoe.gLinks
           (Demo.world_after (Pppoe.PppoeListen Demo.host_ok 0) Demo.w_up)
         = <[0%nat := Some (Pppoe.set_info
                              (Pppoe.set_plist (Some a)
                                 (Pppoe.lnk_info (Demo.link_of Demo.w_up 0)))
                              (Demo.link_of Demo.w_up 0))]>
             (Pppoe.gLinks Demo.w_up)
      /\ Pppoe.PppoeIfs
           (Demo.world_after (Pppoe.PppoeListen Demo.host_ok 0) Demo.w_up)
         = Pppoe.PppoeIfs Demo.w_up
      /\ Pppoe.heap
           (Demo.world_after (Pppoe.PppoeListen Demo.host_ok 0) Demo.w_up)
         = <[a := Some {| Pppoe.pl_session := Pppoe.pl_session pl;
                          Pppoe.pl_refs := Pppoe.pl_refs pl + 1 |}]>
             (Pppoe.heap Demo.w_up))
  \/ (exists pl,
        (forall a pl', In a (Pppoe.listeners (Demo.parent_of Demo.w_up 4095)) ->
                       Pppoe.heap Demo.w_up !! a = Some (Some pl') ->
                       Pppoe.pl_session pl'
                       <> Pppoe.session
                            (Pppoe.lnk_info (Demo.link_of Demo.w_up 0)))
        /\ Pppoe.pl_session pl
           = Libc.strlcpy
               (Pppoe.session (Pppoe.lnk_info (Demo.link_of Demo.w_up 0)))
               (Z.to_nat TagCodec.MAX_SESSION)
        /\ Pppoe.pl_refs pl = 1
        /\ Pppoe.gLinks
             (Demo.world_after (Pppoe.PppoeListen Demo.host_ok 0) Demo.w_up)
           = <[0%nat := Some (Pppoe.set_info
                                (Pppoe.set_plist
                                   (Some (length (Pppoe.heap Demo.w_up)))
                                   (Pppoe.lnk_info
                                      (Demo.link_of Demo.w_up 0)))
                                (Demo.link_of Demo.w_up 0))]>
               (Pppoe.gLinks Demo.w_up)
        /\ Pppoe.PppoeIfs
             (Demo.world_after (Pppoe.PppoeListen Demo.host_ok 0) Demo.w_up)
           = <[4095%nat := Pppoe.set_listeners
                             (length (Pppoe.heap Demo.w_up)
                              :: Pppoe.listeners
                                   (Demo.parent_of Demo.w_up 4095))
                             (Demo.parent_of Demo.w_up 4095)]>
               (Pppoe.PppoeIfs Demo.w_up)
        /\ Pppoe.heap
             (Demo.world_after (Pppoe.PppoeListen Demo.host_ok 0) Demo.w_up)
           = Pppoe.heap Demo.w_up ++ [Some pl]).
Proof.
  apply (listen_shares_or_creates Demo.host_ok 0 4095
           (Demo.link_of Demo.w_up 0) (Demo.parent_of Demo.w_up 4095)
           Demo.w_up
           (Demo.world_after (Pppoe.PppoeListen Demo.host_ok 0) Demo.w_up) 1).
  - vm_compute. reflexivity.
  - vm_compute. reflexivity.
  - vm_compute. reflexivity.
  - vm_compute. reflexivity.
  - vm_compute. reflexivity.
Defined.

(** X26.  [PppoeUnListen] undoes [PppoeListen].  For a link with a
    parent and without a listener, in a state where the listeners of
    that parent are in use ([refs] not 0): after [PppoeListen] and then
    [PppoeUnListen], every link and every parent, the list of listeners
    included, is as before; the listener records are as before, with at
    most one freed record more when a new listener had to be made. *)
Theorem listen_unlisten_round_trip (host : Pppoe.Host) (k p : nat)
    (l : Pppoe.Link) (e : Pppoe.PppoeIf) (w w1 w2 : Pppoe.World)
    (r1 r2 : Z) :
  Pppoe.gLinks w !! k = Some (Some l) ->
  Pppoe.plist (Pppoe.lnk_info l) = None ->
  Pppoe.PIf (Pppoe.lnk_info l) = Some p ->
  Pppoe.PppoeIfs w !! p = Some e ->
  (forall a pl, In a (Pppoe.listeners e) ->
                Pppoe.heap w !! a = Some (Some pl) -> Pppoe.pl_refs pl <> 0) ->
  Pppoe.PppoeListen host k w = Pppoe.Ok r1 w1 ->
  Pppoe.PppoeUnListen host k w1 = Pppoe.Ok r2 w2 ->
  Pppoe.gLinks w2 = Pppoe.gLinks w
  /\ Pppoe.PppoeIfs w2 = Pppoe.PppoeIfs w
  /\ (Pppoe.heap w2 = Pppoe.heap w \/ Pppoe.heap w2 = Pppoe.heap w ++ [None]).
Proof.
  intros Hl Hn Hp He Hlive H1 H2.
  assert (Hback : forall a l1,
             l1 = Pppoe.set_info
                    (Pppoe.set_plist (Some a) (Pppoe.lnk_info l)) l ->
             <[k := Some (Pppoe.set_info
                            (Pppoe.set_plist None (Pppoe.lnk_info l1)) l1)]>
               (<[k := Some l1]> (Pppoe.gLinks w))
             = Pppoe.gLinks w).
  { intros a l1 ->. rewrite list_insert_insert_eq.
    rewrite set_plist_back by exact Hn. apply list_insert_id. exact Hl. }
  destruct (PppoeListen_result host k p l e w w1 r1 Hl Hn Hp He H1)
    as [(a & pl & Hin & Hpl & _ & C1 & C2 & C3)
       | (pl & _ & _ & Hr & C1 & C2 & C3)].
  - assert (Hl1 : Pppoe.gLinks w1 !! k
                  = Some (Some (Pppoe.set_info
                                  (Pppoe.set_plist (Some a) (Pppoe.lnk_info l))
                                  l))).
    { rewrite C1. eapply lookup_updated. exact Hl. }
    assert (Hh1 : Pppoe.heap w1 !! a
                  = Some (Some {| Pppoe.pl_session := Pppoe.pl_session pl;
                                  Pppoe.pl_refs := Pppoe.pl_refs pl + 1 |})).
    { rewrite C3. apply list_lookup_insert_eq.
      eapply lookup_lt_Some. exact Hpl. }
    assert (He1 : Pppoe.PppoeIfs w1 !! p = Some e) by (rewrite C2; exact He).
    destruct (PppoeUnListen_result host k p a _ e _ w1 w2 r2 Hl1
                eq_refl Hp He1 Hh1 H2)
      as [(_ & D1 & D2 & D3) | (E & _)].
    + split; [ rewrite D1, C1; apply (Hback a); reflexivity | ].
      split; [ rewrite D2, C2; reflexivity | ].
      left. rewrite D3, C3. rewrite list_insert_insert_eq.
      cbn [Pppoe.pl_session Pppoe.pl_refs].
      replace (Pppoe.pl_refs pl + 1 - 1) with (Pppoe.pl_refs pl) by lia.
      destruct pl as [s n]. cbn [Pppoe.pl_session Pppoe.pl_refs].
      apply list_insert_id. exact Hpl.
    + exfalso. cbn [Pppoe.pl_refs] in E.
      apply (Hlive a pl Hin Hpl). lia.
  - set (a := length (Pppoe.heap w)) in *.
    assert (Hl1 : Pppoe.gLinks w1 !! k
                  = Some (Some (Pppoe.set_info
                                  (Pppoe.set_plist (Some a) (Pppoe.lnk_info l))
                                  l))).
    { rewrite C1. eapply lookup_updated. exact Hl. }
    assert (Hh1 : Pppoe.heap w1 !! a = Some (Some pl)).
    { rewrite C3. unfold a. rewrite lookup_app_r by lia.
      rewrite Nat.sub_diag. reflexivity. }
    assert (He1 : Pppoe.PppoeIfs w1 !! p
                  = Some (Pppoe.set_listeners (a :: Pppoe.listeners e) e)).
    { rewrite C2. eapply lookup_updated_if. exact He. }
    destruct (PppoeUnListen_result host k p a _ _ _ w1 w2 r2 Hl1
                eq_refl Hp He1 Hh1 H2)
      as [(N & _) | (_ & D1 & D2 & D3)]; [ lia | ].
    split; [ rewrite D1, C1; apply (Hback a); reflexivity | ].
    split.
    + rewrite D2, C2. rewrite list_insert_insert_eq.
      rewrite set_listeners_back. apply list_insert_id. exact He.
    + right. rewrite D3, C3. unfold a.
      rewrite insert_app_r_alt by lia. rewrite Nat.sub_diag. reflexivity.
Qed.

Lemma listen_unlisten_round_trip_witness :
  Pppoe.gLinks
    (Demo.world_after (Pppoe.PppoeUnListen Demo.host_ok 0)
       (Demo.world_after (Pppoe.PppoeListen Demo.host_ok 0) Demo.w_up))
  = Pppoe.gLinks Demo.w_up
  /\ Pppoe.PppoeIfs
       (Demo.world_after (Pppoe.PppoeUnListen Demo.host_ok 0)
          (Demo.world_after (Pppoe.PppoeListen Demo.host_ok 0) Demo.w_up))
     = Pppoe.PppoeIfs Demo.w_up
  /\ (Pppoe.heap
        (Demo.world_after (Pppoe.PppoeUnListen Demo.host_ok 0)
           (Demo.world_after (Pppoe.PppoeListen Demo.host_ok 0) Demo.w_up))
      = Pppoe.heap Demo.w_up
      \/ Pppoe.heap
           (Demo.world_after (Pppoe.PppoeUnListen Demo.host_ok 0)
              (Demo.world_after (Pppoe.PppoeListen Demo.host_ok 0) Demo.w_up))
         = Pppoe.heap Demo.w_up ++ [None]).
Proof.
  apply (listen_unlisten_round_trip Demo.host_ok 0 4095
           (Demo.link_of Demo.w_up 0) (Demo.parent_of Demo.w_up 4095)
           Demo.w_up
           (Demo.world_after (Pppoe.PppoeListen Demo.host_ok 0) Demo.w_up)
           (Demo.world_after (Pppoe.PppoeUnListen Demo.host_ok 0)
              (Demo.world_after (Pppoe.PppoeListen Demo.host_ok 0) Demo.w_up))
           1 1).
  - vm_compute. reflexivity.
  - vm_compute. reflexivity.
  - vm_compute. reflexivity.
  - vm_compute. reflexivity.
  - intros a pl Hin. vm_compute in Hin. contradiction.
  - vm_compute. reflexivity.
  - vm_compute. reflexivity.
Defined.
